(** * The distillation trainer of [ocpmodels/trainers/distill_trainer.py]

    A shallow embedding of the loss-weighting policy, the step scheduler,
    the perturbation generators, the distillation losses, the teacher
    checkpoint loader and the supervised-loss / metrics step of
    [DistillForcesTrainer], followed by the properties proved about them.

    Conventions of the embedding.
    - Tensor entries are real numbers ([R]): the arithmetic is the exact one,
      so rounding, infinities and NaN are outside the model.  The mean of an
      empty tensor is NaN in torch; the statements about losses therefore
      assume a batch with at least one atom.
    - Integer tensors (system ids, atom counts, membership vectors) are lists
      of [Z] or [nat].
    - A tensor of rank 2 or 3 is a list of rows, all of the same length; an
      operation of torch that pairs the entries of two such tensors
      broadcasts an axis of size 1 and raises RuntimeError on any other
      mismatch of sizes.
    - A Python exception is a value [Raise e] of the [result] type; a call
      that returns normally is [Ok v].
    - Library calls of torch (F.normalize, F.cosine_similarity, Adam,
      torch_scatter.scatter, load_state_dict) follow their documented
      behaviour, including the epsilon clamps of their denominators. *)

From Stdlib Require Import Reals Lra Lia ZArith Bool String Ascii Arith List.
From Stdlib Require DecimalString DecimalZ DecimalPos.
Import ListNotations.

(* ===================================================================== *)
(** * Part I: the embedding                                               *)
(* ===================================================================== *)

(** ** Exceptions and results *)

Inductive exn : Type :=
| IndexError
| KeyError
| AssertionError
| ZeroDivisionError
| UnboundLocalError
| StopIteration
| TypeError
| AttributeError
| ValueError      (* torch.optim: an empty parameter list *)
| RuntimeError    (* torch: shapes that do not fit, an empty torch.cat *)
| StateMismatch.  (* the RuntimeError of a strict load_state_dict *)

Inductive result (A : Type) : Type :=
| Ok (a : A)
| Raise (e : exn).

Arguments Ok {A} a.
Arguments Raise {A} e.

Definition bind {A B : Type} (c : result A) (k : A -> result B) : result B :=
  match c with
  | Ok a => k a
  | Raise e => Raise e
  end.

Notation "x <- c ;; k" := (bind c (fun x => k))
  (at level 61, c at next level, right associativity).

(** ** 4.5 Step scheduler: [train], lines 855-868 *)

(** [range(lo, hi)] over integers. *)
Definition range (lo hi : Z) : list Z :=
  map (fun k => (lo + Z.of_nat k)%Z) (seq 0 (Z.to_nat (hi - lo))).

(** One pass of the outer [for epoch_int in range(start_epoch, max_epochs)]
    loop, as far as the step counter is concerned: [skip_steps] is read from
    the current [self.step], and the inner loop sets [self.step] to
    [epoch_int * len + i + 1] for every [i] of [range(skip_steps, len)]. *)
Record epoch_run : Type := mk_epoch_run {
  epoch_int : Z;
  skip_steps : Z;
  steps : list Z  (* the successive values of self.step in this epoch *)
}.

Fixpoint train_epochs (len : Z) (epochs : list Z) (step : Z) : list epoch_run :=
  match epochs with
  | [] => []
  | e :: rest =>
      let skip := (step mod len)%Z in
      let visited := map (fun i => (e * len + i + 1)%Z) (range skip len) in
      mk_epoch_run e skip visited :: train_epochs len rest (last visited step)
  end.

(** [start_epoch = self.step // len(self.train_loader)]; Python raises
    ZeroDivisionError on an empty loader.  Rocq's [Z.div] and [Z.modulo]
    round like Python's [//] and [%]. *)
Definition start_epoch (step len : Z) : result Z :=
  if (len =? 0)%Z then Raise ZeroDivisionError else Ok (step / len)%Z.

Definition train_schedule (step len max_epochs : Z) : result (list epoch_run) :=
  s <- start_epoch step len ;;
  Ok (train_epochs len (range s max_epochs) step).

(** ** 3. Data model: tensors and batches *)

Open Scope R_scope.

(** A row of a per-atom [(N, 3)] tensor (position, force, displacement). *)
Record vec3 : Type := mk3 { vx : R; vy : R; vz : R }.

(** The attributes of a torch_geometric batch the trainer reads.  [batch] is
    the membership vector [batch.batch]: the system index of every atom. *)
Record Batch : Type := mk_batch {
  pos : list vec3;
  force : list vec3;
  tags : list Z;
  fixed : list Z;
  natoms : list nat;
  y : list R;
  sid : list Z;
  fid : list Z;
  batch : list nat
}.

Definition sumR (l : list R) : R := fold_right Rplus 0 l.

(** [torch.mean] of a 1-d tensor. *)
Definition meanR (l : list R) : R := sumR l / INR (length l).

(** Every entry of the tensor is 0. *)
Definition all_zeroR (l : list R) : Prop := Forall (fun x => x = 0) l.

(** [torch.where(mask, a, b)] with scalar branches. *)
Definition where_ (mask : list bool) (a b : R) : list R :=
  map (fun m : bool => if m then a else b) mask.

(** [mask.nonzero().squeeze()]: the positions holding [True]. *)
Fixpoint nonzero_from (k : nat) (mask : list bool) : list nat :=
  match mask with
  | [] => []
  | m :: mask' =>
      if m then k :: nonzero_from (S k) mask' else nonzero_from (S k) mask'
  end.

Definition nonzero (mask : list bool) : list nat := nonzero_from 0 mask.

(** [torch.isin(elements, test_elements)]. *)
Definition isin (elements test_elements : list nat) : list bool :=
  map (fun x => existsb (Nat.eqb x) test_elements) elements.

(** [torch.ones_like]. *)
Definition ones_like {A : Type} (t : list A) : list R := map (fun _ => 1) t.

(** ** 4.4 Loss weighting policy: [_loss_weights_d1M], lines 566-607 *)

(** The [loss_weighting_synthetic] argument is the entry of that name in
    [config["distillation"]], [None] when the key is absent. *)
Definition _loss_weights_d1M (loss_weighting_synthetic : option R)
    (batch_list : list Batch) : result (list R * list R) :=
  match loss_weighting_synthetic with
  | None =>
      match batch_list with
      | [] => Raise IndexError
      | b0 :: _ => Ok (ones_like (tags b0), ones_like (y b0))
      end
  | Some ratio_synth_to_dft =>
      if Rlt_dec 0 ratio_synth_to_dft then
        match batch_list with
        | [] => Raise IndexError
        | b0 :: _ =>
            let mask_synth_systems_bool :=
              map (fun s => (4999999 <? s)%Z) (sid b0) in
            let mask_synth_systems_int := where_ mask_synth_systems_bool 1 0 in
            let batch_ratio_synth := meanR mask_synth_systems_int in
            let w_dft :=
              1 / (1 - batch_ratio_synth + ratio_synth_to_dft * batch_ratio_synth) in
            let w_s := ratio_synth_to_dft * w_dft in
            let synth_idx := nonzero mask_synth_systems_bool in
            let mask_synth_per_node := isin (batch b0) synth_idx in
            let weights_per_node := where_ mask_synth_per_node w_s w_dft in
            let weights_per_sample := where_ mask_synth_systems_bool w_s w_dft in
            Ok (weights_per_node, weights_per_sample)
        end
      else Raise AssertionError
  end.

(** The words of the specification, for comparison: a system is synthetic
    when its id exceeds 4,999,999, and [r] is the synthetic fraction. *)
Definition is_synthetic (s : Z) : bool := (4999999 <? s)%Z.

Definition synthetic_fraction (sids : list Z) : R :=
  INR (length (filter is_synthetic sids)) / INR (length sids).

(** [torch.repeat_interleave(values, repeats)]. *)
Fixpoint repeat_interleave {A : Type} (values : list A) (repeats : list nat) : list A :=
  match values, repeats with
  | v :: values', n :: repeats' => repeat v n ++ repeat_interleave values' repeats'
  | _, _ => []
  end.

(** ** Vector and tensor operations *)

Definition vzero : vec3 := mk3 0 0 0.

Definition vadd (a b : vec3) : vec3 :=
  mk3 (vx a + vx b) (vy a + vy b) (vz a + vz b).

Definition vsub (a b : vec3) : vec3 :=
  mk3 (vx a - vx b) (vy a - vy b) (vz a - vz b).

Definition vscale (c : R) (v : vec3) : vec3 :=
  mk3 (c * vx v) (c * vy v) (c * vz v).

Definition vdiv (v : vec3) (d : R) : vec3 :=
  mk3 (vx v / d) (vy v / d) (vz v / d).

Definition vdot (a b : vec3) : R := vx a * vx b + vy a * vy b + vz a * vz b.

(** [torch.linalg.norm(., dim=1)] on one row. *)
Definition vnorm (v : vec3) : R := sqrt (vdot v v).

(** [F.normalize(x)] on one row: [x / max(||x||_2, eps)] with the default
    [eps = 1e-12]. *)
Definition normalize_eps : R := / 10 ^ 12.

Definition F_normalize (v : vec3) : vec3 := vdiv v (Rmax (vnorm v) normalize_eps).

(** Every row of the tensor is the zero vector. *)
Definition all_zero (t : list vec3) : Prop := Forall (fun d => d = vzero) t.

(** Python's [zip] followed by a comprehension: the shorter list decides. *)
Fixpoint map2 {A B C : Type} (f : A -> B -> C) (a : list A) (b : list B) : list C :=
  match a, b with
  | x :: a', y :: b' => f x y :: map2 f a' b'
  | _, _ => []
  end.

(** An in-place tensor operation [a.op_(b)]: the left operand keeps its
    shape and is overwritten row by row. *)
Fixpoint inplace2 {A B : Type} (f : A -> B -> A) (a : list A) (b : list B) : list A :=
  match a, b with
  | x :: a', y :: b' => f x y :: inplace2 f a' b'
  | _, _ => a
  end.

(** Broadcasting along one axis, as in [a - b], [a * b], [F.mse_loss],
    [F.l1_loss] and [F.cosine_similarity]: entries are paired when the sizes
    agree, the single entry of a tensor of size 1 is repeated, and any other
    mismatch is a RuntimeError. *)
Definition broadcast2 {A B C : Type} (f : A -> B -> C) (a : list A) (b : list B)
    : result (list C) :=
  if Nat.eqb (length a) (length b) then Ok (map2 f a b)
  else
    match a, b with
    | [x], _ => Ok (map (f x) b)
    | _, [y] => Ok (map (fun x => f x y) a)
    | _, _ => Raise RuntimeError
    end.

(** The values of a list of computations, or the first exception. *)
Fixpoint sequence {A : Type} (l : list (result A)) : result (list A) :=
  match l with
  | [] => Ok []
  | c :: l' => x <- c ;; rest <- sequence l' ;; Ok (x :: rest)
  end.

(** Broadcasting along the two axes of lists of rows: the atom axis and the
    feature (or channel) axis. *)
Definition broadcast_rows {A B C : Type} (f : A -> B -> C)
    (a : list (list A)) (b : list (list B)) : result (list (list C)) :=
  rows <- broadcast2 (broadcast2 f) a b ;;
  sequence rows.

(** [torch.zeros(t.shape)] for a per-atom tensor. *)
Definition zeros_like (t : list vec3) : list vec3 := map (fun _ => vzero) t.

(** One draw of [torch.normal(mean, std)] (also [tensor.normal_(mean, std)]):
    the standard-normal draw [z] scaled and shifted. *)
Definition normal_row (mean : vec3) (std : R) (z : vec3) : vec3 :=
  vadd (vscale std z) mean.

(** [vector_projection(vec1, vec2)], lines 39-45, one row at a time. *)
Definition vector_projection_row (vec1 vec2 : vec3) : vec3 :=
  let vec2_normalized := F_normalize vec2 in
  let coef := vdot vec1 vec2_normalized in
  vscale coef vec2_normalized.

Definition vector_projection (vec1 vec2 : list vec3) : list vec3 :=
  map2 vector_projection_row vec1 vec2.

Definition set_pos (data : Batch) (p : list vec3) : Batch :=
  mk_batch p (force data) (tags data) (fixed data) (natoms data) (y data)
           (sid data) (fid data) (batch data).

(** Modelled from the spec: the transform [AddNoise] of
    [ocpmodels/common/transforms.py] is not among the sources.  The delta is
    "one displacement vector per atom, same shape as positions, used
    additively to perturb a batch": the positions become [pos + delta]. *)
Definition AddNoise (data : Batch) (delta : list vec3) : Batch :=
  set_pos data (map2 vadd (pos data) delta).

(** ** 4.2 Perturbation generators *)

(** The attributes [__init__] sets when "random_jitter" is configured.
    [random_fixed_length] is a float or [False] ([None] here). *)
Record JitterAttrs : Type := mk_jitter {
  random_std : R;
  random_fixed_length : option R;
  random_mode : option string
}.

(** Python truthiness of a float-or-False attribute. *)
Definition truthy (o : option R) : bool :=
  match o with
  | Some a => if Req_dec_T a 0 then false else true
  | None => false
  end.

(** Its value in arithmetic ([False] counts as 0). *)
Definition float_of (o : option R) : R :=
  match o with
  | Some a => a
  | None => 0
  end.

Definition mode_is (m : option string) (name : string) : bool :=
  match m with
  | Some s => String.eqb s name
  | None => false
  end.

(** [_random_jitter_batch], lines 778-814.  [noise j a] is the standard-normal
    draw behind [normal_(0, random_std)] for atom [a] of sub-batch [j], and
    [noise2 j a] the one behind [torch.normal(force, random_std)]. *)
Definition jitter_displacement (self : JitterAttrs) (noise noise2 : nat -> nat -> vec3)
    (j : nat) (b : Batch) : list vec3 :=
  let displacement :=
    map (fun a => normal_row vzero (random_std self) (noise j a))
        (seq 0 (length (pos b))) in
  let displacement :=
    if mode_is (random_mode self) "force_proj"
    then map2 vsub displacement (vector_projection displacement (force b))
    else displacement in
  let displacement :=
    if mode_is (random_mode self) "proj_on_force"
    then vector_projection displacement (force b)
    else displacement in
  let displacement :=
    if mode_is (random_mode self) "sample_from_force"
    then map2 (fun a f => normal_row f (random_std self) (noise2 j a))
              (seq 0 (length (force b))) (force b)
    else displacement in
  displacement.

Definition jitter_delta (self : JitterAttrs) (noise noise2 : nat -> nat -> vec3)
    (j : nat) (b : Batch) : list vec3 :=
  let delta := zeros_like (pos b) in
  let displacement := jitter_displacement self noise noise2 j b in
  if truthy (random_fixed_length self)
  then inplace2 vadd delta
         (map (fun d => vscale (float_of (random_fixed_length self)) (F_normalize d))
              displacement)
  else inplace2 vadd delta displacement.

Definition _random_jitter_batch (self : JitterAttrs) (noise noise2 : nat -> nat -> vec3)
    (batch_list : list Batch) : list Batch :=
  let delta_list :=
    map2 (jitter_delta self noise noise2) (seq 0 (length batch_list)) batch_list in
  map2 AddNoise batch_list delta_list.

(** The attributes [__init__] sets when "adversarial_jitter" is configured. *)
Record AdvAttrs : Type := mk_adv {
  adversarial_lr : R;
  n_adversarial_steps : Z;
  adversarial_alpha : R;
  adversarial_pgd : bool;
  adversarial_pgd_mode : option string;
  adversarial_init_sd : R;
  adversarial_teacher_grad : bool;
  adversarial_force_prop : string;
  force_regularization_lambda : R
}.

(** The initial displacement of both adversarial generators: Gaussian when
    [adversarial_init_sd > 0], zero otherwise. *)
Definition init_delta_list (self : AdvAttrs) (noise : nat -> nat -> vec3)
    (batch_list : list Batch) : list (list vec3) :=
  if Rlt_dec 0 (adversarial_init_sd self)
  then map2 (fun j b =>
               map (fun a => normal_row vzero (adversarial_init_sd self) (noise j a))
                   (seq 0 (length (pos b))))
            (seq 0 (length batch_list)) batch_list
  else map (fun b => zeros_like (pos b)) batch_list.

(** *** torch.optim.Adam with its defaults (betas 0.9 and 0.999, eps 1e-8,
    no weight decay, no amsgrad), entry by entry *)

Definition adam_beta1 : R := 9 / 10.
Definition adam_beta2 : R := 999 / 1000.
Definition adam_eps : R := / 10 ^ 8.

Definition adam_exp_avg (m g : R) : R := adam_beta1 * m + (1 - adam_beta1) * g.

Definition adam_exp_avg_sq (v g : R) : R := adam_beta2 * v + (1 - adam_beta2) * (g * g).

Definition adam_param (lr : R) (t : nat) (p m v : R) : R :=
  let bias_correction1 := 1 - adam_beta1 ^ t in
  let bias_correction2 := 1 - adam_beta2 ^ t in
  let denom := sqrt v / sqrt bias_correction2 + adam_eps in
  let step_size := lr / bias_correction1 in
  p + (- step_size) * (m / denom).

(** A parameter row with its two moment estimates. *)
Record adam_row : Type := mk_adam_row {
  p_data : vec3;
  p_exp_avg : vec3;
  p_exp_avg_sq : vec3
}.

Definition adam_row_step (lr : R) (t : nat) (r : adam_row) (g : vec3) : adam_row :=
  let m := mk3 (adam_exp_avg (vx (p_exp_avg r)) (vx g))
               (adam_exp_avg (vy (p_exp_avg r)) (vy g))
               (adam_exp_avg (vz (p_exp_avg r)) (vz g)) in
  let v := mk3 (adam_exp_avg_sq (vx (p_exp_avg_sq r)) (vx g))
               (adam_exp_avg_sq (vy (p_exp_avg_sq r)) (vy g))
               (adam_exp_avg_sq (vz (p_exp_avg_sq r)) (vz g)) in
  let p := mk3 (adam_param lr t (vx (p_data r)) (vx m) (vx v))
               (adam_param lr t (vy (p_data r)) (vy m) (vy v))
               (adam_param lr t (vz (p_data r)) (vz m) (vz v)) in
  mk_adam_row p m v.

(** [opt.step()]: every parameter tensor that received a gradient is updated
    in place; [t] is the number of the step, counted from 1. *)
Definition adam_step (lr : R) (t : nat) (params : list (list adam_row))
    (grads : list (list vec3)) : list (list adam_row) :=
  inplace2 (fun param grad => inplace2 (adam_row_step lr t) param grad) params grads.

Definition adam_init (delta_list : list (list vec3)) : list (list adam_row) :=
  map (map (fun d => mk_adam_row d vzero vzero)) delta_list.

Definition adam_params (params : list (list adam_row)) : list (list vec3) :=
  map (map p_data) params.

(** *** [_adversarial_pgd_batch], lines 657-751 *)

Definition Rgtb (a b : R) : bool := if Rlt_dec b a then true else false.

(** [t[mask]]: the rows selected by a boolean mask. *)
Fixpoint masked_select {A : Type} (t : list A) (mask : list bool) : list A :=
  match t, mask with
  | x :: t', m :: mask' =>
      if m then x :: masked_select t' mask' else masked_select t' mask'
  | _, _ => []
  end.

(** [t[mask] = values]: the selected rows are overwritten in order. *)
Fixpoint masked_assign {A : Type} (t : list A) (mask : list bool) (values : list A) : list A :=
  match t, mask with
  | x :: t', m :: mask' =>
      if m then
        match values with
        | v :: values' => v :: masked_assign t' mask' values'
        | [] => x :: masked_assign t' mask' []
        end
      else x :: masked_assign t' mask' values
  | _, _ => t
  end.

(** The tensor added to [delta_list[j]] in "ball" mode, lines 714-721. *)
Definition pgd_ball_gradient (self : AdvAttrs) (grad : list vec3) : list vec3 :=
  let gradient := map (vscale (adversarial_lr self)) grad in
  let mask := map (fun g => Rgtb (vnorm g) (adversarial_alpha self)) gradient in
  masked_assign gradient mask
    (map (fun g => vscale (adversarial_alpha self) (F_normalize g))
         (masked_select gradient mask)).

(** The step of one displacement tensor, lines 711-745. *)
Definition pgd_update (self : AdvAttrs) (delta grad : list vec3) (noisy : Batch) : list vec3 :=
  if mode_is (adversarial_pgd_mode self) "ball" then
    inplace2 vadd delta (pgd_ball_gradient self grad)
  else if mode_is (adversarial_pgd_mode self) "force_proj" then
    let proj := vector_projection grad (force noisy) in
    let displacement := map2 vsub grad proj in
    let norm : list R :=
      if String.eqb (adversarial_force_prop self) "prop" then
        map (fun f => adversarial_lr self * vnorm f) (force noisy)
      else if String.eqb (adversarial_force_prop self) "inv_prop" then
        map (fun f => adversarial_lr self / vnorm f) (force noisy)
      else map (fun _ => adversarial_alpha self) displacement in
    inplace2 vadd delta (map2 (fun n d => vscale n (F_normalize d)) norm displacement)
  else
    inplace2 vadd delta
      (map (fun g => vscale (adversarial_alpha self) (F_normalize g)) grad).

(** The loop state: the displacements and their accumulated [.grad]
    (nothing zeroes it between iterations; an unset [.grad] accumulates like
    a zero tensor). *)
Record pgd_state : Type := mk_pgd_state {
  pgd_delta_list : list (list vec3);
  pgd_grad_list : list (list vec3)
}.

(** The loop over [j] of lines 711-745. *)
Fixpoint pgd_updates (self : AdvAttrs) (deltas grads : list (list vec3))
    (noisy : list Batch) : list (list vec3) :=
  match deltas, grads, noisy with
  | d :: deltas', g :: grads', b :: noisy' =>
      pgd_update self d g b :: pgd_updates self deltas' grads' noisy'
  | _, _, _ => deltas
  end.

(** One inner iteration.  [backward batch_list_noise] stands for
    [torch.autograd.backward([loss], inputs=delta_list)]: the gradient of the
    summed adversarial losses, minus the force regularisation, with respect to
    every delta. *)
Definition pgd_iter (self : AdvAttrs)
    (backward : list Batch -> list (list vec3))
    (batch_list : list Batch) (st : pgd_state) : pgd_state :=
  let batch_list_noise := map2 AddNoise batch_list (pgd_delta_list st) in
  let grads := inplace2 (inplace2 vadd) (pgd_grad_list st) (backward batch_list_noise) in
  mk_pgd_state (pgd_updates self (pgd_delta_list st) grads batch_list_noise) grads.

Definition pgd_init (self : AdvAttrs) (noise : nat -> nat -> vec3)
    (batch_list : list Batch) : pgd_state :=
  let delta_list := init_delta_list self noise batch_list in
  mk_pgd_state delta_list (map zeros_like delta_list).

Definition _adversarial_pgd_batch (self : AdvAttrs) (noise : nat -> nat -> vec3)
    (backward : list Batch -> list (list vec3))
    (batch_list : list Batch) : list Batch :=
  let st := Nat.iter (Z.to_nat (n_adversarial_steps self))
                     (pgd_iter self backward batch_list)
                     (pgd_init self noise batch_list) in
  map2 AddNoise batch_list (pgd_delta_list st).

(** ** 4.3 Distillation losses *)

(** Node features are an [(N, F)] tensor: one list of [F] reals per atom.
    Vector features are an [(N, 3, F)] tensor: per atom the list of its [F]
    channels, the entry of channel [f] being the 3-vector
    [vector_feature[n, :, f]] (the axis that [dim=1] reductions run over). *)

(** [torch.cumsum(t, 0)]. *)
Fixpoint cumsum_from (acc : nat) (l : list nat) : list nat :=
  match l with
  | [] => []
  | n :: l' => (acc + n)%nat :: cumsum_from (acc + n) l'
  end.

Definition cumsum (l : list nat) : list nat := cumsum_from 0 l.

(** The pair indices of [_global_preservation], lines 450-490: for every
    image every ordered pair of its atoms, as two index vectors. *)
Definition pair_indices (num_atoms_per_image : list nat) : list nat * list nat :=
  let num_atoms_per_image_sqr := map (fun n => (n * n)%nat) num_atoms_per_image in
  let index_offset := map2 Nat.sub (cumsum num_atoms_per_image) num_atoms_per_image in
  let index_offset_expand := repeat_interleave index_offset num_atoms_per_image_sqr in
  let num_atoms_per_image_expand :=
    repeat_interleave num_atoms_per_image num_atoms_per_image_sqr in
  let num_atom_pairs := list_sum num_atoms_per_image_sqr in
  let index_sqr_offset :=
    map2 Nat.sub (cumsum num_atoms_per_image_sqr) num_atoms_per_image_sqr in
  let index_sqr_offset := repeat_interleave index_sqr_offset num_atoms_per_image_sqr in
  let atom_count_sqr := map2 Nat.sub (seq 0 num_atom_pairs) index_sqr_offset in
  let index1 :=
    map2 Nat.add (map2 Nat.div atom_count_sqr num_atoms_per_image_expand)
         index_offset_expand in
  let index2 :=
    map2 Nat.add (map2 Nat.modulo atom_count_sqr num_atoms_per_image_expand)
         index_offset_expand in
  (index1, index2).

(** The loop that the comment of lines 466-470 says the index arithmetic
    replaces: image after image, [op c n + offset] for every pair number
    [c < n * n] of an image of [n] atoms whose first atom is [offset]. *)
Fixpoint pair_blocks (op : nat -> nat -> nat) (offset : nat) (l : list nat) : list nat :=
  match l with
  | [] => []
  | n :: l' =>
      map (fun c => (op c n + offset)%nat) (seq 0 (n * n)) ++
      pair_blocks op (offset + n) l'
  end.

(** Exclusive prefix sums, [cumsum(t) - t]. *)
Fixpoint exclusive_cumsum (acc : nat) (l : list nat) : list nat :=
  match l with
  | [] => []
  | n :: l' => acc :: exclusive_cumsum (acc + n) l'
  end.

(** [torch.index_select(t, 0, index)]; an index past the end raises. *)
Fixpoint index_select {A : Type} (t : list A) (index : list nat) : result (list A) :=
  match index with
  | [] => Ok []
  | i :: index' =>
      match nth_error t i with
      | None => Raise IndexError
      | Some x => rest <- index_select t index' ;; Ok (x :: rest)
      end
  end.

(** [torch_scatter.scatter(src, index, dim=0, reduce="mean")]: the output has
    [max(index) + 1] entries (none for an empty index), entry [k] the mean of
    the [src] entries sent to [k], with the count clamped to at least 1. *)
Definition dim_size (index : list nat) : nat :=
  match index with
  | [] => 0%nat
  | _ => S (list_max index)
  end.

Definition scatter_mean (src : list R) (index : list nat) : result (list R) :=
  if Nat.eqb (length src) (length index) then
    Ok (map (fun k =>
               let sent := map fst (filter (fun p => Nat.eqb (snd p) k) (combine src index)) in
               sumR sent / INR (Nat.max (length sent) 1))
            (seq 0 (dim_size index)))
  else Raise RuntimeError.

(** [F.mse_loss(a, b, reduction="none")] on one entry. *)
Definition sqdiff (a b : R) : R := (a - b) * (a - b).

(** The distance of a pair of node-feature rows: the squared differences
    averaged over the feature axis. *)
Definition node_pair_distance (a b : list R) : R := meanR (map2 sqdiff a b).

(** The distance of a pair of vector-feature rows: the squared differences
    averaged over the spatial axis ([dim=1]), then over the channels (the
    [while] loop of lines 503-505). *)
Definition vec_pair_distance (a b : list vec3) : R :=
  meanR (map2 (fun s t =>
                 (sqdiff (vx s) (vx t) + sqdiff (vy s) (vy t) + sqdiff (vz s) (vz t)) / 3)
              a b).

Section GlobalPreservation.

(** The feature row of an atom and the distance of two rows (one of the two
    above, according to the rank of the feature tensor). *)
Variable Row : Type.
Variable pair_distance : Row -> Row -> R.

(** [_global_preservation], lines 449-509. *)
Definition _global_preservation (feat_s feat_t : list Row) (batch_list : list Batch)
    : result R :=
  match batch_list with
  | [] => Raise RuntimeError   (* torch.cat of an empty list *)
  | b0 :: _ =>
      let num_atoms_per_image := concat (map natoms batch_list) in
      let '(index1, index2) := pair_indices num_atoms_per_image in
      feat_s1 <- index_select feat_s index1 ;;
      feat_s2 <- index_select feat_s index2 ;;
      feat_t1 <- index_select feat_t index1 ;;
      feat_t2 <- index_select feat_t index2 ;;
      let feat_s_distances := map2 pair_distance feat_s1 feat_s2 in
      let feat_t_distances := map2 pair_distance feat_t1 feat_t2 in
      let dist := map2 sqdiff feat_s_distances feat_t_distances in
      loss <- scatter_mean dist index1 ;;
      loss <- scatter_mean loss (batch b0) ;;
      Ok (meanR loss)
  end.

End GlobalPreservation.

(** An output dictionary of [_distill_forward]: ["node_feature"],
    ["n2e_feature"] (student) or ["e2n_feature"] (teacher),
    ["vector_feature"], ["energy"], and ["forces"] when forces are regressed.
    ["natoms"] is added by [_compute_metrics]. *)
Record OutDict : Type := mk_out {
  node_feature : list (list R);
  edge_feature : list (list R);
  vector_feature : list (list vec3);
  energy : list R;
  forces : option (list vec3);
  out_natoms : option (list nat)
}.

Record OutBatch : Type := mk_out_batch {
  out : OutDict;
  t_out : OutDict
}.

Definition _node_global_preservation_distill_loss (out_batch : OutBatch)
    (batch_list : list Batch) : result R :=
  _global_preservation (list R) node_pair_distance
    (node_feature (out out_batch)) (node_feature (t_out out_batch)) batch_list.

Definition _vec_global_preservation_distill_loss (out_batch : OutBatch)
    (batch_list : list Batch) : result R :=
  _global_preservation (list vec3) vec_pair_distance
    (vector_feature (out out_batch)) (vector_feature (t_out out_batch)) batch_list.

(** [F.mse_loss] with its default mean reduction, over [(N, F)] and
    [(N, 3, F)] tensors: the two tensors are broadcast against each other
    and the squared errors of all entries are averaged. *)
Definition mse_loss_nodes (a b : list (list R)) : result R :=
  errors <- broadcast_rows sqdiff a b ;;
  Ok (meanR (concat errors)).

Definition mse_loss_vectors (a b : list (list vec3)) : result R :=
  errors <- broadcast_rows (fun u v => [sqdiff (vx u) (vx v);
                                        sqdiff (vy u) (vy v);
                                        sqdiff (vz u) (vz v)]) a b ;;
  Ok (meanR (concat (map (@concat R) errors))).

Definition _node2node_distill_loss (out_batch : OutBatch) (batch_list : list Batch)
    : result R :=
  mse_loss_nodes (node_feature (out out_batch)) (node_feature (t_out out_batch)).

Definition _edge2node_distill_loss (out_batch : OutBatch) (batch_list : list Batch)
    : result R :=
  mse_loss_nodes (edge_feature (out out_batch)) (edge_feature (t_out out_batch)).

Definition _vec2vec_distill_loss (out_batch : OutBatch) (batch_list : list Batch)
    : result R :=
  mse_loss_vectors (vector_feature (out out_batch)) (vector_feature (t_out out_batch)).

(** [F.cosine_similarity(x1, x2, dim=1)] on one channel:
    [x1 . x2 / max(||x1|| * ||x2||, eps)] with the default [eps = 1e-8]. *)
Definition cosine_eps : R := / 10 ^ 8.

Definition cosine_similarity (a b : vec3) : R :=
  vdot a b / Rmax (vnorm a * vnorm b) cosine_eps.

(** The direction term of [_vec2vec_geometric], lines 543-551: one minus the
    cosine similarity of the student and the teacher tensor (broadcast
    against each other), averaged over the channels of an atom, over the
    atoms of a system, and over the systems. *)
Definition direction_term (out_batch : OutBatch) (batch_list : list Batch) : result R :=
  dir_loss <- broadcast_rows (fun a b => 1 - cosine_similarity a b)
                (vector_feature (out out_batch)) (vector_feature (t_out out_batch)) ;;
  let dir_loss := map meanR dir_loss in
  match batch_list with
  | [] => Raise IndexError
  | b0 :: _ =>
      per_system <- scatter_mean dir_loss (batch b0) ;;
      Ok (meanR per_system)
  end.

(** The magnitude term, lines 553-561: the absolute difference of the
    norms ([F.l1_loss] without reduction, broadcasting likewise), averaged
    the same way. *)
Definition magnitude_term (out_batch : OutBatch) (batch_list : list Batch) : result R :=
  norm_loss <- broadcast_rows (fun a b => Rabs (vnorm a - vnorm b))
                 (vector_feature (out out_batch)) (vector_feature (t_out out_batch)) ;;
  let norm_loss := map meanR norm_loss in
  match batch_list with
  | [] => Raise IndexError
  | b0 :: _ =>
      per_system <- scatter_mean norm_loss (batch b0) ;;
      Ok (meanR per_system)
  end.

(** [_vec2vec_geometric], lines 542-564. *)
Definition _vec2vec_geometric (v2v_geom_lambda : R) (out_batch : OutBatch)
    (batch_list : list Batch) : result R :=
  dir_loss <- direction_term out_batch batch_list ;;
  norm_loss <- magnitude_term out_batch batch_list ;;
  Ok ((1 - v2v_geom_lambda) * norm_loss + v2v_geom_lambda * dir_loss).

(** The words of the specification, for comparison: the per-atom direction
    term is one minus the cosine similarity and the per-atom magnitude term
    the absolute difference of the norms, each averaged over the channels of
    the atom; a per-atom quantity "averaged per system" is averaged over the
    atoms of every system, and then over the systems. *)
Definition atom_direction (s t : list vec3) : R :=
  meanR (map2 (fun a b => 1 - cosine_similarity a b) s t).

Definition atom_magnitude (s t : list vec3) : R :=
  meanR (map2 (fun a b => Rabs (vnorm a - vnorm b)) s t).

Definition values_of_system (values : list R) (membership : list nat) (k : nat) : list R :=
  map fst (filter (fun p => Nat.eqb (snd p) k) (combine values membership)).

Definition averaged_per_system (values : list R) (membership : list nat) : R :=
  meanR (map (fun k => meanR (values_of_system values membership k))
             (seq 0 (dim_size membership))).

(** [_vec2vec_distill_loss_d1M], lines 609-618: every vector-feature entry of
    an atom is scaled by the square root of the atom's weight.
    [t * w[:, None, None]] broadcasts along the atom axis. *)
Definition scale_rows (t : list (list vec3)) (w : list R) : result (list (list vec3)) :=
  broadcast2 (fun row wi => map (vscale wi) row) t w.

Definition _vec2vec_distill_loss_d1M (loss_weighting_synthetic : option R)
    (out_batch : OutBatch) (batch_list : list Batch) : result R :=
  ws <- _loss_weights_d1M loss_weighting_synthetic batch_list ;;
  let w := map sqrt (fst ws) in
  scaled_s <- scale_rows (vector_feature (out out_batch)) w ;;
  scaled_t <- scale_rows (vector_feature (t_out out_batch)) w ;;
  mse_loss_vectors scaled_s scaled_t.

(** ** Strings *)

(** [s.split(sep)] for a one-character separator. *)
Fixpoint split_on (sep : ascii) (s : string) : list string :=
  match s with
  | EmptyString => [EmptyString]
  | String c s' =>
      if Ascii.eqb c sep then EmptyString :: split_on sep s'
      else
        match split_on sep s' with
        | cur :: rest => String c cur :: rest
        | [] => [String c EmptyString]
        end
  end.

Definition is_space (c : ascii) : bool :=
  existsb (Nat.eqb (nat_of_ascii c)) [32; 9; 10; 11; 12; 13]%nat.

Fixpoint lstrip (s : string) : string :=
  match s with
  | EmptyString => EmptyString
  | String c s' => if is_space c then lstrip s' else s
  end.

Fixpoint rstrip (s : string) : string :=
  match s with
  | EmptyString => EmptyString
  | String c s' =>
      match rstrip s' with
      | EmptyString => if is_space c then EmptyString else String c EmptyString
      | r => String c r
      end
  end.

(** [s.strip()]. *)
Definition strip (s : string) : string := rstrip (lstrip s).

(** [pat in s]. *)
Fixpoint contains (pat s : string) : bool :=
  String.prefix pat s ||
  match s with
  | EmptyString => false
  | String _ s' => contains pat s'
  end.

(** [s[n:]]. *)
Fixpoint drop_chars (n : nat) (s : string) : string :=
  match n, s with
  | O, _ => s
  | S n', String _ s' => drop_chars n' s'
  | S _, EmptyString => EmptyString
  end.

(** ** Teacher checkpoint: [load_teacher], lines 291-312 *)

Section Checkpoint.

(** The tensors of a state dict are opaque here. *)
Variable V : Type.

(** A Python dict in insertion order. *)
Definition state_dict : Type := list (string * V).

Definition keys (d : state_dict) : list string := map fst d.

(** [d[k] = v]: an existing key keeps its place and takes the new value. *)
Fixpoint dict_set (d : state_dict) (k : string) (v : V) : state_dict :=
  match d with
  | [] => [(k, v)]
  | (k', v') :: d' =>
      if String.eqb k k' then (k', v) :: d' else (k', v') :: dict_set d' k v
  end.

(** [{f(k): v for k, v in items}]. *)
Definition dict_comprehension (f : string -> string) (items : state_dict) : state_dict :=
  fold_left (fun d kv => dict_set d (f (fst kv)) (snd kv)) items [].

Definition subset_keys (a b : list string) : bool :=
  forallb (fun k => existsb (String.eqb k) b) a.

(** [module.load_state_dict(d)] with the default [strict=True]: a missing or
    an unexpected key is a RuntimeError, the state-mismatch error. *)
Definition load_state_dict (model_keys : list string) (d : state_dict) : result state_dict :=
  if subset_keys model_keys (keys d) && subset_keys (keys d) model_keys
  then Ok d
  else Raise StateMismatch.

(** [first_key.split(".")[1]]. *)
Definition second_component (k : string) : result string :=
  match split_on "." k with
  | _ :: c :: _ => Ok c
  | _ => Raise IndexError
  end.

(** The keys of [self.teacher.state_dict()]: the teacher is wrapped in
    [OCPDataParallel], and in [OCPDistributedDataParallel] on top of it when
    the process group is initialised and [noddp] is off (lines 146-154). *)
Definition teacher_keys (initialized noddp : bool) (base_keys : list string) : list string :=
  if initialized && negb noddp
  then map (append "module.module.") base_keys
  else map (append "module.") base_keys.

Definition load_teacher (initialized noddp : bool) (base_keys : list string)
    (checkpoint_state_dict : state_dict) : result state_dict :=
  let model_keys := teacher_keys initialized noddp base_keys in
  match checkpoint_state_dict with
  | [] => Raise StopIteration
  | (first_key, _) :: _ =>
      strip_it <-
        (if negb initialized || noddp
         then c <- second_component first_key ;; Ok (String.eqb c "module")
         else Ok false) ;;
      if strip_it : bool then
        load_state_dict model_keys
          (dict_comprehension (drop_chars 7) checkpoint_state_dict)
      else
        add_it <-
          (if initialized
           then c <- second_component first_key ;; Ok (negb (String.eqb c "module"))
           else Ok false) ;;
        if add_it : bool then
          load_state_dict model_keys
            (dict_comprehension (append "module.") checkpoint_state_dict)
        else load_state_dict model_keys checkpoint_state_dict
  end.

(** The words of the specification: the module prefix added to every key,
    and whether a dict holds exactly the keys of the model. *)
Definition add_prefix (d : state_dict) : state_dict :=
  map (fun kv => (append "module." (fst kv), snd kv)) d.

Definition keys_match (model_keys : list string) (d : state_dict) : bool :=
  subset_keys model_keys (keys d) && subset_keys (keys d) model_keys.

End Checkpoint.

Arguments add_prefix {V} d.
Arguments keys_match {V} model_keys d.
Arguments keys {V} d.
Arguments dict_set {V} d k v.
Arguments dict_comprehension {V} f items.
Arguments load_state_dict {V} model_keys d.
Arguments load_teacher {V} initialized noddp base_keys checkpoint_state_dict.

(** ** Construction: [__init__], lines 131-249 *)

(** What a coefficient entry of the configuration can hold. *)
Inductive pyval : Type :=
| PyFloat (r : R)
| PyList (l : list R)
| PyInt (z : Z).

(** [config["distillation"]]; an absent key is [None]. *)
Record DistillationConfig : Type := mk_distillation {
  cfg_distill_loss : string;
  cfg_distill_lambda : pyval;
  cfg_v2v_geom_lambda : option R;
  cfg_loss_weighting_synthetic : option R;
  cfg_random_std : option R;
  cfg_random_fixed_length : option bool;
  cfg_random_mode : option string;
  cfg_adversarial_lr : option R;
  cfg_n_adversarial_steps : option Z;
  cfg_adversarial_alpha : option R;
  cfg_enable_pgd : option bool;
  cfg_pgd_mode : option string;
  cfg_adversarial_init_sd : option R;
  cfg_adversarial_teacher_grad : option bool;
  cfg_adversarial_force_prop : option string;
  cfg_force_reg : option R;
  cfg_adversarial_distill_loss : option string;
  cfg_adversarial_distill_lambda : option pyval
}.

(** [d.get(key, default)]. *)
Definition get {A : Type} (o : option A) (default : A) : A :=
  match o with
  | Some x => x
  | None => default
  end.

(** [d[key]]. *)
Definition getitem {A : Type} (o : option A) : result A :=
  match o with
  | Some x => Ok x
  | None => Raise KeyError
  end.

(** The attributes of the trainer that the modelled methods read. *)
Record Trainer : Type := mk_trainer {
  distillation : DistillationConfig;
  jitter : option JitterAttrs;
  adversarial : option AdvAttrs;
  v2v_geom_lambda : R;
  distill_fns : list string;
  distill_lambda : pyval;
  adversarial_distill_fns : option (list string);
  adversarial_distill_lambda : option pyval
}.

(** A float coefficient is repeated once per loss name of [distill_fns]; any
    other value is stored as it is. *)
Definition broadcast_lambda (v : pyval) (n : nat) : pyval :=
  match v with
  | PyFloat x => PyList (repeat x n)
  | other => other
  end.

(** [teacher_loaded] is the outcome of [self.load_teacher(...)], which runs
    before the attributes are set. *)
Definition __init__ (teacher_loaded : result unit) (cfg : DistillationConfig)
    : result Trainer :=
  _ <- teacher_loaded ;;
  let jitter_attrs :=
    if contains "random_jitter" (cfg_distill_loss cfg) then
      Some (mk_jitter
              (get (cfg_random_std cfg) (1 / 10))
              (if get (cfg_random_fixed_length cfg) false
               then Some (get (cfg_adversarial_alpha cfg) (1 / 10))
               else None)
              (cfg_random_mode cfg))
    else None in
  let adv_attrs :=
    if contains "random_jitter" (cfg_distill_loss cfg) then None
    else if contains "adversarial_jitter" (cfg_distill_loss cfg) then
      Some (mk_adv
              (get (cfg_adversarial_lr cfg) (1 / 10))
              (get (cfg_n_adversarial_steps cfg) 100%Z)
              (get (cfg_adversarial_alpha cfg) (1 / 10))
              (get (cfg_enable_pgd cfg) false)
              (cfg_pgd_mode cfg)
              (get (cfg_adversarial_init_sd cfg) (1 / 10))
              (get (cfg_adversarial_teacher_grad cfg) true)
              (get (cfg_adversarial_force_prop cfg) "prop"%string)
              (get (cfg_force_reg cfg) 0))
    else None in
  let lam := get (cfg_v2v_geom_lambda cfg) (1 / 2) in
  if Rle_dec lam 1 then
    if Rge_dec lam 0 then
      let fns := map strip (split_on "," (cfg_distill_loss cfg)) in
      let lambdas := broadcast_lambda (cfg_distill_lambda cfg) (length fns) in
      if contains "adversarial" (cfg_distill_loss cfg)
         || contains "random_jitter" (cfg_distill_loss cfg)
      then
        adv_loss <- getitem (cfg_adversarial_distill_loss cfg) ;;
        adv_lambda <- getitem (cfg_adversarial_distill_lambda cfg) ;;
        Ok (mk_trainer cfg jitter_attrs adv_attrs lam fns lambdas
              (Some (map strip (split_on "," adv_loss)))
              (Some (broadcast_lambda adv_lambda (length fns))))
      else Ok (mk_trainer cfg jitter_attrs adv_attrs lam fns lambdas None None)
    else Raise AssertionError
  else Raise AssertionError.

(** ** 4.1 and 4.5: one training step *)

(** What a network returns from [extract_features]. *)
Record NetOut : Type := mk_net_out {
  net_node : list (list R);
  net_edge : list (list R);
  net_vec : list (list vec3);
  net_energy : list R;
  net_forces : list vec3
}.

(** The collaborators of the trainer and the configuration entries outside
    [config["distillation"]] that the step reads: the two networks, the loss
    functions and normalizers set up by the base trainer, the process group. *)
Record Env : Type := mk_env {
  model_extract_features : list Batch -> NetOut;
  teacher_extract_features : list Batch -> NetOut;
  regress_forces : bool;
  teacher_regress_forces : bool;
  normalize_labels : bool;
  target_mean : R;
  target_std : R;
  grad_target_mean : R;
  grad_target_std : R;
  loss_fn_energy : list R -> list R -> R;
  loss_fn_force : list vec3 -> list vec3 -> R;
  loss_fn_force_atomwise : list vec3 -> list vec3 -> list nat -> nat -> R;
  loss_energy_is_mse : bool;   (* self.loss_fn["energy"] == "mse" *)
  loss_force_is_mse : bool;    (* self.loss_fn["force"] == "mse" *)
  energy_coefficient : R;
  force_coefficient : option R;
  tag_specific_weights : list R;
  train_on_free_atoms : bool;
  loss_force_atomwise : bool;  (* the configured force loss starts with "atomwise" *)
  eval_on_free_atoms : bool;
  all_reduce : R -> R;
  world_size : R;
  (* the two losses that re-run the networks on a perturbed batch *)
  adversarial_jitter_loss : OutBatch -> list Batch -> result R;
  random_jitter_loss : OutBatch -> list Batch -> result R
}.

(** [_distill_forward], lines 1031-1090.  Without force regression the
    teacher's vector feature is never bound and building [t_out] raises. *)
Definition _distill_forward (env : Env) (batch_list : list Batch) : result OutBatch :=
  if regress_forces env then
    let s := model_extract_features env batch_list in
    let t := teacher_extract_features env batch_list in
    Ok (mk_out_batch
          (mk_out (net_node s) (net_edge s) (net_vec s) (net_energy s)
                  (Some (net_forces s)) None)
          (mk_out (net_node t) (net_edge t) (net_vec t) (net_energy t)
                  (if teacher_regress_forces env then Some (net_forces t) else None)
                  None))
  else Raise UnboundLocalError.

Definition set_energy (o : OutDict) (e : list R) : OutDict :=
  mk_out (node_feature o) (edge_feature o) (vector_feature o) e (forces o) (out_natoms o).

Definition set_forces (o : OutDict) (f : list vec3) : OutDict :=
  mk_out (node_feature o) (edge_feature o) (vector_feature o) (energy o) (Some f)
         (out_natoms o).

Definition set_natoms (o : OutDict) (n : list nat) : OutDict :=
  mk_out (node_feature o) (edge_feature o) (vector_feature o) (energy o) (forces o)
         (Some n).

(** [t *= w] on a 1-d tensor: [w] has the shape of [t] or a single entry. *)
Definition imul (t w : list R) : result (list R) :=
  if Nat.eqb (length w) (length t) then Ok (map2 Rmult t w)
  else
    match w with
    | [w0] => Ok (map (fun x => x * w0) t)
    | _ => Raise RuntimeError
    end.

(** [t *= w[:, None]] on a per-atom tensor. *)
Definition imul_rows (t : list vec3) (w : list R) : result (list vec3) :=
  if Nat.eqb (length w) (length t) then Ok (map2 (fun v wi => vscale wi v) t w)
  else
    match w with
    | [w0] => Ok (map (vscale w0) t)
    | _ => Raise RuntimeError
    end.

(** [Normalizer.norm] and [Normalizer.denorm]. *)
Definition norm (mean std x : R) : R := (x - mean) / std.
Definition denorm (mean std x : R) : R := x * std + mean.

Definition vnormalize (mean std : R) (v : vec3) : vec3 :=
  mk3 (norm mean std (vx v)) (norm mean std (vy v)) (norm mean std (vz v)).

Definition vdenorm (mean std : R) (v : vec3) : vec3 :=
  mk3 (denorm mean std (vx v)) (denorm mean std (vy v)) (denorm mean std (vz v)).

Definition sum_abs (v : vec3) : R := Rabs (vx v) + Rabs (vy v) + Rabs (vz v).

(** The tag-specific branch of the force loss, lines 1145-1174. *)
Definition tag_weight (w0 w1 w2 : R) (tag : Z) : R :=
  if (tag =? 0)%Z then w0
  else if (tag =? 1)%Z then w1
  else if (tag =? 2)%Z then w2
  else 0.

Definition tag_specific_force_loss (env : Env) (out_forces force_target : list vec3)
    (batch_list : list Batch) : result R :=
  match tag_specific_weights env with
  | [w0; w1; w2] =>
      let batch_tags := concat (map tags batch_list) in
      let weight := map (tag_weight w0 w1 w2) batch_tags in
      let loss_force_list := map2 (fun a b => sum_abs (vsub a b)) out_forces force_target in
      let train_loss_force_unnormalized := sumR (map2 Rmult loss_force_list weight) in
      let train_loss_force_normalizer := all_reduce env (3 * sumR weight) in
      Ok (train_loss_force_unnormalized * (world_size env / train_loss_force_normalizer))
  | _ => Raise AssertionError
  end.

(** The other branch, lines 1176-1217. *)
Definition plain_force_loss (env : Env) (out_forces force_target : list vec3)
    (batch_list : list Batch) : result R :=
  if train_on_free_atoms env then
    let mask := map (fun f => (f =? 0)%Z) (concat (map fixed batch_list)) in
    if loss_force_atomwise env then
      let force_mult := get (force_coefficient env) 1 in
      let natoms_ := concat (map natoms batch_list) in
      let natoms_ := repeat_interleave natoms_ natoms_ in
      match batch_list with
      | [] => Raise IndexError
      | b0 :: _ =>
          Ok (force_mult *
              loss_fn_force_atomwise env
                (masked_select out_forces mask) (masked_select force_target mask)
                (masked_select natoms_ mask) (length (natoms b0)))
      end
    else
      Ok (get (force_coefficient env) 30 *
          loss_fn_force env (masked_select out_forces mask)
                            (masked_select force_target mask))
  else
    Ok (get (force_coefficient env) 30 * loss_fn_force env out_forces force_target).

(** [_compute_loss], lines 1092-1224.  The dictionary [out] and, when given,
    the teacher dictionary are Python objects shared with the caller: the
    [*=] statements overwrite their tensors, so the function returns the two
    dictionaries as they are after the call, next to the loss.  A teacher
    target is the teacher's own tensor unless normalisation made a copy. *)
Definition _compute_loss (env : Env) (loss_weighting_synthetic : option R)
    (out_ : OutDict) (batch_list : list Batch) (teacher_output : option OutDict)
    : result (R * OutDict * option OutDict) :=
  ws <- _loss_weights_d1M loss_weighting_synthetic batch_list ;;
  let weight_per_node :=
    if loss_energy_is_mse env then map sqrt (fst ws) else fst ws in
  let weight_per_sample :=
    if loss_force_is_mse env then map sqrt (snd ws) else snd ws in
  (* Energy loss. *)
  let energy_target :=
    match teacher_output with
    | Some t => energy t
    | None => concat (map y batch_list)
    end in
  let energy_target :=
    if normalize_labels env
    then map (norm (target_mean env) (target_std env)) energy_target
    else energy_target in
  out_energy <- imul (energy out_) weight_per_sample ;;
  let out_ := set_energy out_ out_energy in
  energy_target <- imul energy_target weight_per_sample ;;
  let teacher_output :=
    match teacher_output with
    | Some t => if normalize_labels env then Some t else Some (set_energy t energy_target)
    | None => None
    end in
  let loss_energy :=
    energy_coefficient env * loss_fn_energy env (energy out_) energy_target in
  (* Force loss. *)
  if regress_forces env then
    force_target <-
      match teacher_output with
      | Some t => getitem (forces t)
      | None => Ok (concat (map force batch_list))
      end ;;
    let force_target :=
      if normalize_labels env
      then map (vnormalize (grad_target_mean env) (grad_target_std env)) force_target
      else force_target in
    out_forces <- getitem (forces out_) ;;
    out_forces <- imul_rows out_forces weight_per_node ;;
    let out_ := set_forces out_ out_forces in
    force_target <- imul_rows force_target weight_per_node ;;
    let teacher_output :=
      match teacher_output with
      | Some t => if normalize_labels env then Some t else Some (set_forces t force_target)
      | None => None
      end in
    loss_force <-
      match tag_specific_weights env with
      | [] => plain_force_loss env out_forces force_target batch_list
      | _ => tag_specific_force_loss env out_forces force_target batch_list
      end ;;
    Ok (0 + loss_energy + loss_force, out_, teacher_output)
  else Ok (0 + loss_energy, out_, teacher_output).

(** *** [_adversarial_batch], lines 620-655

    Every inner iteration perturbs the batches by the current displacements,
    runs the forward pass and the supervised loss against the teacher's
    output on them, and lets Adam step on the gradient of the negated loss.
    [backward batch_list_noise] stands for [loss.backward()]: that gradient
    with respect to every delta, a function of the perturbed batches (the
    networks are external).  [opt.zero_grad()] makes it the whole gradient
    of the step. *)
Record adv_state : Type := mk_adv_state {
  adv_params : list (list adam_row);
  adv_t : nat;
  adv_return_batch : option (list Batch)   (* [None]: not yet assigned *)
}.

Definition adversarial_iter (env : Env) (loss_weighting_synthetic : option R)
    (self : AdvAttrs) (backward : list Batch -> list (list vec3))
    (batch_list : list Batch) (st : adv_state) : result adv_state :=
  let delta_list := adam_params (adv_params st) in
  let batch_list_noise := map2 AddNoise batch_list delta_list in
  out_batch <- _distill_forward env batch_list_noise ;;
  _ <- _compute_loss env loss_weighting_synthetic (out out_batch) batch_list_noise
                     (Some (t_out out_batch)) ;;
  let grads := backward batch_list_noise in
  let t := S (adv_t st) in
  let params := adam_step (adversarial_lr self) t (adv_params st) grads in
  let return_batch := map2 AddNoise batch_list (adam_params params) in
  Ok (mk_adv_state params t (Some return_batch)).

(** [for i in range(n)] over the iteration above. *)
Fixpoint adversarial_loop (env : Env) (loss_weighting_synthetic : option R)
    (self : AdvAttrs) (backward : list Batch -> list (list vec3))
    (batch_list : list Batch) (n : nat) (st : adv_state) : result adv_state :=
  match n with
  | O => Ok st
  | S n' =>
      st' <- adversarial_iter env loss_weighting_synthetic self backward batch_list st ;;
      adversarial_loop env loss_weighting_synthetic self backward batch_list n' st'
  end.

Definition _adversarial_batch (env : Env) (loss_weighting_synthetic : option R)
    (self : AdvAttrs) (noise : nat -> nat -> vec3)
    (backward : list Batch -> list (list vec3))
    (batch_list : list Batch) : result (list Batch) :=
  let delta_list := init_delta_list self noise batch_list in
  (* optim.Adam refuses a negative learning rate, then an empty parameter list *)
  if Rlt_dec (adversarial_lr self) 0 then Raise ValueError
  else
    match delta_list with
    | [] => Raise ValueError
    | _ =>
        let st0 := mk_adv_state (adam_init delta_list) 0 None in
        st <- adversarial_loop env loss_weighting_synthetic self backward batch_list
                (Z.to_nat (n_adversarial_steps self)) st0 ;;
        match adv_return_batch st with
        | None => Raise UnboundLocalError
        | Some return_batch => Ok return_batch
        end
    end.

(** [_compute_metrics], lines 1346-1388: what is handed to [evaluator.eval],
    namely the prediction dictionary and the targets. *)
Record MetricsInput : Type := mk_metrics_input {
  m_out : OutDict;
  m_target_energy : list R;
  m_target_forces : list vec3;
  m_target_natoms : list nat
}.

(** [torch.sum(mask[s_idx : s_idx + natoms])] for every system in turn. *)
Fixpoint natoms_free (mask : list bool) (natoms_ : list nat) : list nat :=
  match natoms_ with
  | [] => []
  | n :: rest =>
      length (filter (fun m : bool => m) (firstn n mask)) :: natoms_free (skipn n mask) rest
  end.

Definition _compute_metrics (env : Env) (out_ : OutDict) (batch_list : list Batch)
    : result MetricsInput :=
  _ <- (match batch_list with
        | [] => Raise RuntimeError   (* torch.cat of an empty list *)
        | _ => Ok tt
        end) ;;
  let natoms_ := concat (map natoms batch_list) in
  let target_energy := concat (map y batch_list) in
  let target_forces := concat (map force batch_list) in
  let out_ := set_natoms out_ natoms_ in
  masked <-
    (if eval_on_free_atoms env then
       let mask := map (fun f => (f =? 0)%Z) (concat (map fixed batch_list)) in
       out_forces <- getitem (forces out_) ;;
       let free := natoms_free mask natoms_ in
       Ok (set_natoms (set_forces out_ (masked_select out_forces mask)) free,
           masked_select target_forces mask, free)
     else Ok (out_, target_forces, natoms_)) ;;
  let '(out_, target_forces, target_natoms) := masked in
  out_ <-
    (if normalize_labels env then
       let out_ := set_energy out_ (map (denorm (target_mean env) (target_std env))
                                        (energy out_)) in
       out_forces <- getitem (forces out_) ;;
       Ok (set_forces out_ (map (vdenorm (grad_target_mean env) (grad_target_std env))
                                out_forces))
     else Ok out_) ;;
  Ok (mk_metrics_input out_ target_energy target_forces target_natoms).

(** [getattr(self, "_" + loss_type)] over the loss library. *)
Definition dispatch (env : Env) (self : Trainer) (loss_type : string)
    : result (OutBatch -> list Batch -> result R) :=
  if String.eqb loss_type "node2node_distill_loss" then Ok _node2node_distill_loss
  else if String.eqb loss_type "edge2node_distill_loss" then Ok _edge2node_distill_loss
  else if String.eqb loss_type "vec2vec_distill_loss" then Ok _vec2vec_distill_loss
  else if String.eqb loss_type "node_global_preservation_distill_loss"
  then Ok _node_global_preservation_distill_loss
  else if String.eqb loss_type "vec_global_preservation_distill_loss"
  then Ok _vec_global_preservation_distill_loss
  else if String.eqb loss_type "vec2vec_geometric"
  then Ok (_vec2vec_geometric (v2v_geom_lambda self))
  else if String.eqb loss_type "vec2vec_distill_loss_d1M"
  then Ok (_vec2vec_distill_loss_d1M
             (cfg_loss_weighting_synthetic (distillation self)))
  else if String.eqb loss_type "adversarial_jitter_distill_loss"
  then Ok (adversarial_jitter_loss env)
  else if String.eqb loss_type "random_jitter_distill_loss"
  then Ok (random_jitter_loss env)
  else Raise AttributeError.

(** [self.distill_lambda[loss_idx]]. *)
Definition lambda_at (v : pyval) (loss_idx : nat) : result R :=
  match v with
  | PyList l =>
      match nth_error l loss_idx with
      | Some x => Ok x
      | None => Raise IndexError
      end
  | _ => Raise TypeError
  end.

(** *** A run with its trace *)

Inductive event : Type :=
| Constructed                 (* __init__ returned *)
| Forward                     (* both networks ran on the batch *)
| SupervisedLoss              (* _compute_loss returned *)
| DistillLoss (name : string) (* the named distillation loss returned *)
| Backward
| Metrics.

(** A computation with the events that happened before it returned or
    raised. *)
Definition traced (A : Type) : Type := list event * result A.

Definition ret {A : Type} (a : A) : traced A := ([], Ok a).

Definition lift {A : Type} (r : result A) : traced A := ([], r).

Definition emit (e : event) : traced unit := ([e], Ok tt).

Definition bindT {A B : Type} (c : traced A) (k : A -> traced B) : traced B :=
  match snd c with
  | Ok a => (fst c ++ fst (k a), snd (k a))
  | Raise e => (fst c, Raise e)
  end.

Notation "x <~ c ;; k" := (bindT c (fun x => k))
  (at level 61, c at next level, right associativity).

(** The loop over the configured distillation losses, lines 878-883: the
    loss function is called first, then its coefficient is looked up. *)
Fixpoint distill_losses (env : Env) (self : Trainer) (out_batch : OutBatch)
    (batch_list : list Batch) (loss_idx : nat) (fns : list string) : traced (list R) :=
  match fns with
  | [] => ret []
  | loss_type :: fns' =>
      f <~ lift (dispatch env self loss_type) ;;
      v <~ lift (f out_batch batch_list) ;;
      _ <~ emit (DistillLoss loss_type) ;;
      coefficient <~ lift (lambda_at (distill_lambda self) loss_idx) ;;
      others <~ distill_losses env self out_batch batch_list (S loss_idx) fns' ;;
      ret (v * coefficient :: others)
  end.

(** The body of the inner loop of [train], lines 871-896, for one batch:
    forward, supervised loss, distillation losses, backward, metrics.  The
    dictionary [out_batch["out"]] given to [_compute_loss] is the one given
    to the distillation losses and to [_compute_metrics] afterwards. *)
Definition train_step (env : Env) (self : Trainer) (batch_list : list Batch)
    : traced (R * list R * MetricsInput) :=
  out_batch <~ lift (_distill_forward env batch_list) ;;
  _ <~ emit Forward ;;
  supervised <~ lift (_compute_loss env (cfg_loss_weighting_synthetic (distillation self))
                                    (out out_batch) batch_list None) ;;
  _ <~ emit SupervisedLoss ;;
  let out_batch := mk_out_batch (snd (fst supervised)) (t_out out_batch) in
  distill_loss <~ distill_losses env self out_batch batch_list 0 (distill_fns self) ;;
  let loss := fst (fst supervised) + sumR distill_loss in
  _ <~ emit Backward ;;
  metrics <~ lift (_compute_metrics env (out out_batch) batch_list) ;;
  _ <~ emit Metrics ;;
  ret (loss, distill_loss, metrics).

(** Construction followed by the first training step. *)
Definition construct_and_step (env : Env) (teacher_loaded : result unit)
    (cfg : DistillationConfig) (batch_list : list Batch)
    : traced (R * list R * MetricsInput) :=
  self <~ lift (__init__ teacher_loaded cfg) ;;
  _ <~ emit Constructed ;;
  train_step env self batch_list.

(** ** Example inputs *)

(** Two systems with 3 and 5 atoms; the first is real, the second synthetic. *)
Definition batch_3_5 : Batch :=
  mk_batch (repeat (mk3 0 0 0) 8) (repeat (mk3 0 0 0) 8)
           (repeat 0%Z 8) (repeat 0%Z 8)
           [3; 5]%nat [0; 0] [1%Z; 5000000%Z] [0%Z; 0%Z]
           [0; 0; 0; 1; 1; 1; 1; 1]%nat.

(** A single system with a single atom. *)
Definition one_atom (p f : vec3) : Batch :=
  mk_batch [p] [f] [0%Z] [0%Z] [1%nat] [0] [1%Z] [0%Z] [0%nat].

(** Adversarial attributes for the projected-gradient generator in "ball"
    mode with zero initial displacement. *)
Definition adv_ball (lr alpha : R) : AdvAttrs :=
  mk_adv lr 3 alpha true (Some "ball"%string) 0 true "prop"%string 0.

(** A configuration that selects the geometric vector loss only. *)
Definition cfg_geometric (ratio : option R) (lambdas : pyval) (losses : string)
    : DistillationConfig :=
  mk_distillation losses lambdas None ratio
    None None None None None None None None None None None None None None.

(** An output dictionary holding vector features only. *)
Definition out_vectors (v : list (list vec3)) : OutDict :=
  mk_out [] [] v [0] (Some [vzero]) None.

(** A checkpoint written from a teacher that was not distributed-wrapped,
    and the parameter names of the bare network. *)
Definition base_keys_example : list string := ["emb.weight"; "out.bias"]%string.

Definition ckpt_non_distributed : list (string * nat) :=
  [("module.emb.weight"%string, 1%nat); ("module.out.bias"%string, 2%nat)].

(** Collaborators that return fixed tensors for a one-atom batch. *)
Definition env_example : Env :=
  mk_env (fun _ => mk_net_out [[1]] [[1]] [[mk3 1 0 0]] [2] [mk3 3 0 0])
         (fun _ => mk_net_out [[1]] [[1]] [[mk3 1 0 0]] [2] [mk3 3 0 0])
         true true false 0 1 0 1
         (fun _ _ => 0) (fun _ _ => 0) (fun _ _ _ _ => 0)
         false false 1 None [] false false true
         (fun x => x) 1
         (fun _ _ => Ok 0) (fun _ _ => Ok 0).

(** Two one-atom systems, the first real and the second synthetic, and
    collaborators that return fixed tensors for them. *)
Definition two_systems : Batch :=
  mk_batch [vzero; vzero] [mk3 1 0 0; mk3 0 1 0] [0%Z; 0%Z] [0%Z; 0%Z]
           [1; 1]%nat [5; 7] [1%Z; 5000000%Z] [0%Z; 0%Z] [0; 1]%nat.

Definition env_two_systems : Env :=
  mk_env (fun _ => mk_net_out [[1]; [1]] [[1]; [1]] [[mk3 1 0 0]; [mk3 1 0 0]]
                              [2; 4] [mk3 3 0 0; mk3 0 6 0])
         (fun _ => mk_net_out [[1]; [1]] [[1]; [1]] [[mk3 1 0 0]; [mk3 1 0 0]]
                              [2; 4] [mk3 3 0 0; mk3 0 6 0])
         true true false 0 1 0 1
         (fun _ _ => 0) (fun _ _ => 0) (fun _ _ _ _ => 0)
         false false 1 None [] false false true
         (fun x => x) 1
         (fun _ _ => Ok 0) (fun _ _ => Ok 0).

(** [cfg] with another weighting ratio and another coefficient entry. *)
Definition with_ratio_and_lambda (cfg : DistillationConfig) (ratio : option R)
    (lambdas : pyval) : DistillationConfig :=
  mk_distillation (cfg_distill_loss cfg) lambdas (cfg_v2v_geom_lambda cfg) ratio
    (cfg_random_std cfg) (cfg_random_fixed_length cfg) (cfg_random_mode cfg)
    (cfg_adversarial_lr cfg) (cfg_n_adversarial_steps cfg) (cfg_adversarial_alpha cfg)
    (cfg_enable_pgd cfg) (cfg_pgd_mode cfg) (cfg_adversarial_init_sd cfg)
    (cfg_adversarial_teacher_grad cfg) (cfg_adversarial_force_prop cfg)
    (cfg_force_reg cfg) (cfg_adversarial_distill_loss cfg)
    (cfg_adversarial_distill_lambda cfg).

Definition is_ok {A : Type} (r : result A) : bool :=
  match r with
  | Ok _ => true
  | Raise _ => false
  end.

(** ** The control flow of [train], lines 837-853 and 931-978, and
        [update_best], lines 423-447 *)

(** The metrics dictionary of a validation run: a metric name and the
    ["metric"] entry stored under it. *)
Definition metrics_dict : Type := list (string * R).

(** [val_metrics[primary_metric]["metric"]]. *)
Fixpoint metric_of (d : metrics_dict) (k : string) : result R :=
  match d with
  | [] => Raise KeyError
  | (k', v) :: d' => if String.eqb k k' then Ok v else metric_of d' k
  end.

(** What the loop does besides the numerical step. *)
Inductive action : Type :=
| SaveCheckpoint                   (* self.save("checkpoint.pt", training_state=True) *)
| Validate                         (* self.validate(split="val") *)
| SaveBest                         (* self.save("best_checkpoint.pt", training_state=False) *)
| PredictTest                      (* self.predict(self.test_loader, "predictions") *)
| HpoUpdate
| RunRelaxations
| WarnNoRelaxDataset
| SchedulerStep (metric : option R).

Definition Rltb (a b : R) : bool := if Rlt_dec a b then true else false.

(** Lines 846-850: [1e9 if "mae" in primary_metric else -1.0]. *)
Definition init_best_val_metric (primary_metric : string) : R :=
  if contains "mae" primary_metric then 10 ^ 9 else -1.

(** [update_best]: the new [self.best_val_metric] and what was written. *)
Definition update_best (test_loader : bool) (primary_metric : string)
    (val_metrics : metrics_dict) (best_val_metric : R) : result (R * list action) :=
  m <- metric_of val_metrics primary_metric ;;
  if (if contains "mae" primary_metric
      then Rltb m best_val_metric
      else Rgtb m best_val_metric)
  then Ok (m, SaveBest :: (if test_loader : bool then [PredictTest] else []))
  else Ok (best_val_metric, []).

(** The entries of the configuration and the attributes of the trainer that
    steer the loop.  [validate step] is the dictionary that
    [self.validate] returns when it is called at [step]. *)
Record TrainLoop : Type := mk_loop {
  optim_eval_every : option Z;
  optim_checkpoint_every : option Z;
  val_loader : bool;            (* self.val_loader is not None *)
  test_loader : bool;           (* self.test_loader is not None *)
  is_hpo : bool;
  eval_relaxations : bool;      (* config["task"].get("eval_relaxations", False) *)
  relax_dataset : bool;         (* "relax_dataset" in config["task"] *)
  reduce_on_plateau : bool;     (* scheduler_type == "ReduceLROnPlateau" *)
  primary_metric : string;
  validate : Z -> metrics_dict
}.

(** The two locals of [train] that outlive an iteration: the attribute
    [self.best_val_metric] and the local [val_metrics], unbound until the
    first validation. *)
Record loop_state : Type := mk_loop_state {
  best_val_metric : R;
  val_metrics : option metrics_dict
}.

(** Python's [a % b] on integers. *)
Definition pymod (a b : Z) : result Z :=
  if (b =? 0)%Z then Raise ZeroDivisionError else Ok (a mod b)%Z.

Definition eval_every (cfg : TrainLoop) (len : Z) : Z :=
  get (optim_eval_every cfg) len.

Definition checkpoint_every (cfg : TrainLoop) (len : Z) : Z :=
  get (optim_checkpoint_every cfg) (eval_every cfg len).

(** Lines 931-937. *)
Definition checkpoint_hook (cfg : TrainLoop) (len step : Z) : result (list action) :=
  if negb (checkpoint_every cfg len =? -1)%Z then
    r <- pymod step (checkpoint_every cfg len) ;;
    Ok (if (r =? 0)%Z then [SaveCheckpoint] else [])
  else Ok [].

(** Lines 939-965. *)
Definition eval_hook (cfg : TrainLoop) (len step : Z) (st : loop_state)
    : result (loop_state * list action) :=
  r <- pymod step (eval_every cfg len) ;;
  if (r =? 0)%Z then
    validated <-
      (if val_loader cfg then
         let vm := validate cfg step in
         ub <- update_best (test_loader cfg) (primary_metric cfg) vm
                           (best_val_metric st) ;;
         Ok (mk_loop_state (fst ub) (Some vm),
             Validate :: snd ub ++ (if is_hpo cfg then [HpoUpdate] else []))
       else Ok (st, [])) ;;
    Ok (fst validated,
        snd validated ++
        (if eval_relaxations cfg
         then if relax_dataset cfg then [RunRelaxations] else [WarnNoRelaxDataset]
         else []))
  else Ok (st, []).

(** Lines 967-973. *)
Definition scheduler_hook (cfg : TrainLoop) (len step : Z) (st : loop_state)
    : result (list action) :=
  if reduce_on_plateau cfg then
    r <- pymod step (eval_every cfg len) ;;
    if (r =? 0)%Z then
      vm <- match val_metrics st with
            | Some vm => Ok vm
            | None => Raise UnboundLocalError
            end ;;
      m <- metric_of vm (primary_metric cfg) ;;
      Ok [SchedulerStep (Some m)]
    else Ok []
  else Ok [SchedulerStep None].

(** What follows the metrics of one iteration, lines 931-973. *)
Definition after_step (cfg : TrainLoop) (len step : Z) (st : loop_state)
    : result (loop_state * list action) :=
  saved <- checkpoint_hook cfg len step ;;
  evaluated <- eval_hook cfg len step st ;;
  scheduled <- scheduler_hook cfg len step (fst evaluated) ;;
  Ok (fst evaluated, saved ++ snd evaluated ++ scheduled).

(** The inner loop over the steps of one epoch. *)
Fixpoint run_steps (cfg : TrainLoop) (len : Z) (visited : list Z) (st : loop_state)
    : result (loop_state * list action) :=
  match visited with
  | [] => Ok (st, [])
  | step :: visited' =>
      now_ <- after_step cfg len step st ;;
      later <- run_steps cfg len visited' (fst now_) ;;
      Ok (fst later, snd now_ ++ snd later)
  end.

(** The outer loop; lines 977-978 save a checkpoint after every epoch when
    [checkpoint_every] is -1. *)
Fixpoint run_epochs (cfg : TrainLoop) (len : Z) (runs : list epoch_run) (st : loop_state)
    : result (loop_state * list action) :=
  match runs with
  | [] => Ok (st, [])
  | run :: runs' =>
      now_ <- run_steps cfg len (steps run) st ;;
      let saved := if (checkpoint_every cfg len =? -1)%Z then [SaveCheckpoint] else [] in
      later <- run_epochs cfg len runs' (fst now_) ;;
      Ok (fst later, snd now_ ++ saved ++ snd later)
  end.

(** [train] as far as its control flow goes.  [resumed] is the pair of
    [self.primary_metric] and [self.best_val_metric] when the trainer has
    them (a loaded checkpoint); the best value is reset unless the stored
    metric name is the one in use. *)
Definition train_control (cfg : TrainLoop) (resumed : option (string * R))
    (step len max_epochs : Z) : result (loop_state * list action) :=
  let best :=
    match resumed with
    | Some (name, best) =>
        if String.eqb name (primary_metric cfg) then best
        else init_best_val_metric (primary_metric cfg)
    | None => init_best_val_metric (primary_metric cfg)
    end in
  runs <- train_schedule step len max_epochs ;;
  run_epochs cfg len runs (mk_loop_state best None).

(** Every epoch of the schedule: its number, the steps it skips and the
    steps it visits. *)
Definition epoch_shape (len e0 step : Z) (run : epoch_run) : Prop :=
  skip_steps run = (if (epoch_int run =? e0)%Z then step mod len else 0)%Z /\
  steps run = range (epoch_int run * len + skip_steps run + 1)
                    ((epoch_int run + 1) * len + 1).

(** How often a kind of action occurs in a log. *)
Definition is_save_checkpoint (a : action) : bool :=
  match a with
  | SaveCheckpoint => true
  | _ => false
  end.

Definition is_validate (a : action) : bool :=
  match a with
  | Validate => true
  | _ => false
  end.

Definition is_save_best (a : action) : bool :=
  match a with
  | SaveBest => true
  | _ => false
  end.

Definition count (p : action -> bool) (log : list action) : nat :=
  length (filter p log).

(** A configuration of the random jitter with a fixed length, the length
    being taken from [adversarial_alpha]. *)
Definition cfg_fixed_jitter (alpha : R) : DistillationConfig :=
  mk_distillation "random_jitter_distill_loss" (PyFloat 1) None None
    None (Some true) None None None (Some alpha) None None None None None None
    (Some "vec2vec_distill_loss"%string) (Some (PyFloat 1)).

(** The squared errors that [F.mse_loss] averages over two [(N, 3, F)]
    tensors of the same shape, one list per atom: [mse_loss_vectors a b] is
    then the mean of their concatenation. *)
Definition squared_errors (a b : list (list vec3)) : list (list R) :=
  map2 (fun s t =>
          concat (map2 (fun u v => [sqdiff (vx u) (vx v);
                                    sqdiff (vy u) (vy v);
                                    sqdiff (vz u) (vz v)]) s t))
       a b.

(** ** The unweighted loss: [_compute_loss_distill], lines 1226-1344 *)

(** [torch.cat] of a list of tensors; an empty list is a RuntimeError. *)
Definition torch_cat {A : Type} (tensors : list (list A)) : result (list A) :=
  match tensors with
  | [] => Raise RuntimeError
  | _ => Ok (concat tensors)
  end.

(** The loss of [_compute_loss] without the weighting.  Nothing is written
    to [out] or to the teacher's dictionary.  The two coefficient arguments
    are the entries [energy_coefficient] and [force_coefficient] of
    [config["distillation"]] ([None] when absent); the atom-wise branch reads
    the force coefficient of [config["optim"]] instead. *)
Definition _compute_loss_distill (env : Env)
    (distill_energy_coefficient distill_force_coefficient : option R)
    (out_ : OutDict) (batch_list : list Batch) (teacher_output : option OutDict)
    : result R :=
  (* Energy loss. *)
  energy_target <-
    match teacher_output with
    | Some t => Ok (energy t)
    | None => torch_cat (map y batch_list)
    end ;;
  let energy_target :=
    if normalize_labels env
    then map (norm (target_mean env) (target_std env)) energy_target
    else energy_target in
  let energy_mult := get distill_energy_coefficient 0 in
  let loss_energy := energy_mult * loss_fn_energy env (energy out_) energy_target in
  (* Force loss. *)
  if regress_forces env then
    force_target <-
      match teacher_output with
      | Some t => getitem (forces t)
      | None => torch_cat (map force batch_list)
      end ;;
    let force_target :=
      if normalize_labels env
      then map (vnormalize (grad_target_mean env) (grad_target_std env)) force_target
      else force_target in
    loss_force <-
      match tag_specific_weights env with
      | [] =>
          let force_mult := get distill_force_coefficient 30 in
          if train_on_free_atoms env then
            fixed_ <- torch_cat (map fixed batch_list) ;;
            let mask := map (fun f => (f =? 0)%Z) fixed_ in
            if loss_force_atomwise env then
              let force_mult := get (force_coefficient env) 1 in
              natoms_ <- torch_cat (map natoms batch_list) ;;
              let natoms_ := repeat_interleave natoms_ natoms_ in
              out_forces <- getitem (forces out_) ;;
              match batch_list with
              | [] => Raise IndexError
              | b0 :: _ =>
                  Ok (force_mult *
                      loss_fn_force_atomwise env
                        (masked_select out_forces mask) (masked_select force_target mask)
                        (masked_select natoms_ mask) (length (natoms b0)))
              end
            else
              out_forces <- getitem (forces out_) ;;
              Ok (force_mult *
                  loss_fn_force env (masked_select out_forces mask)
                                    (masked_select force_target mask))
          else
            out_forces <- getitem (forces out_) ;;
            Ok (force_mult * loss_fn_force env out_forces force_target)
      | [_; _; _] =>
          _ <- torch_cat (map tags batch_list) ;;
          out_forces <- getitem (forces out_) ;;
          tag_specific_force_loss env out_forces force_target batch_list
      | _ => Raise AssertionError
      end ;;
    Ok (0 + loss_energy + loss_force)
  else Ok (0 + loss_energy).

(** Collaborators of a single process (no reduction across ranks) with the
    given tag-specific weights. *)
Definition env_tagged (weights : list R) : Env :=
  mk_env (fun _ => mk_net_out [[1]] [[1]] [[mk3 1 0 0]] [2] [mk3 3 0 0])
         (fun _ => mk_net_out [[1]] [[1]] [[mk3 1 0 0]] [2] [mk3 3 0 0])
         true true false 0 1 0 1
         (fun _ _ => 0) (fun _ _ => 0) (fun _ _ _ _ => 0)
         false false 1 None weights false false true
         (fun x => x) 1
         (fun _ _ => Ok 0) (fun _ _ => Ok 0).

(** ** Prediction: [_forward], lines 986-1003, and [predict], lines 316-421 *)

(** [str(i)] of a Python integer: its decimal digits, with a leading "-" for
    a negative one. *)
Definition str (z : Z) : string :=
  DecimalString.NilZero.string_of_int (Z.to_int z).

(** [torch.split(t, sizes)]: consecutive chunks of the given sizes, which
    must add up to the length of [t]. *)
Fixpoint torch_split {A : Type} (t : list A) (sizes : list nat) : result (list (list A)) :=
  match sizes with
  | [] =>
      match t with
      | [] => Ok []
      | _ => Raise RuntimeError
      end
  | n :: sizes' =>
      if (n <=? length t)%nat then
        chunks <- torch_split (skipn n t) sizes' ;;
        Ok (firstn n t :: chunks)
      else Raise RuntimeError
  end.

(** What [_forward] returns: ["energy"], and ["forces"] when forces are
    regressed. *)
Record Prediction : Type := mk_prediction {
  p_energy : list R;
  p_forces : option (list vec3)
}.

(** [self.normalizers]: the mean and standard deviation stored under
    ["target"] and ["grad_target"], each possibly absent. *)
Record Normalizers : Type := mk_normalizers {
  n_target : option (R * R);
  n_grad_target : option (R * R)
}.

(** The dictionary [predictions] while the loop fills it. *)
Record Predictions : Type := mk_predictions {
  pred_id : list string;
  pred_energy : list R;
  pred_forces : list (list vec3);   (* one array of force rows per image *)
  pred_chunk_idx : list nat
}.

(** What [predict] returns: the per-image lists, or, with [per_image=False],
    the energy and force tensors of one batch. *)
Inductive predict_value : Type :=
| PerImage (p : Predictions)
| Tensors (energy_ : list R) (forces_ : list vec3).

Inductive predict_event : Type :=
| EmaStore
| EmaCopyTo
| EmaRestore
| SaveResults.

Section Predict.

(** [self.model(batch_list)]: the energies and the forces (ignored unless
    forces are regressed); the cast [.to(torch.float16)] on one entry. *)
Variable env : Env.
Variable model : list Batch -> list R * list vec3.
Variable to_float16 : R -> R.

Definition _forward (batch_list : list Batch) : Prediction :=
  let r := model batch_list in
  mk_prediction (fst r) (if regress_forces env then Some (snd r) else None).

Definition half (v : vec3) : vec3 :=
  mk3 (to_float16 (vx v)) (to_float16 (vy v)) (to_float16 (vz v)).

(** Lines 358-364. *)
Definition predict_denorm (normalizers : option Normalizers) (out_ : Prediction)
    : result Prediction :=
  match normalizers with
  | Some n =>
      match n_target n with
      | Some target =>
          let e := map (denorm (fst target) (snd target)) (p_energy out_) in
          grad_target <- getitem (n_grad_target n) ;;
          f <- getitem (p_forces out_) ;;
          Ok (mk_prediction e (Some (map (vdenorm (fst grad_target) (snd grad_target)) f)))
      | None => Ok out_
      end
  | None => Ok out_
  end.

(** Lines 365-404: the per-image branch of the loop body. *)
Definition predict_per_image (results_file : bool) (out_ : Prediction)
    (batch_list : list Batch) (acc : Predictions) : result Predictions :=
  b0 <- match batch_list with
        | [] => Raise IndexError
        | b0 :: _ => Ok b0
        end ;;
  let systemids :=
    map2 (fun i j => append (append (str i) "_") (str j)) (sid b0) (fid b0) in
  let ids := pred_id acc ++ systemids in
  let energies := pred_energy acc ++ map to_float16 (p_energy out_) in
  batch_natoms <- torch_cat (map natoms batch_list) ;;
  batch_fixed <- torch_cat (map fixed batch_list) ;;
  f <- getitem (p_forces out_) ;;
  let forces_ := map half f in
  per_image_forces <- torch_split forces_ batch_natoms ;;
  if results_file : bool then
    _per_image_fixed <- torch_split batch_fixed batch_natoms ;;
    let _per_image_free_forces :=
      map2 (fun force_ fixed_ => masked_select force_ (map (fun x => (x =? 0)%Z) fixed_))
           per_image_forces _per_image_fixed in
    let _chunk_idx := map (@length vec3) _per_image_free_forces in
    Ok (mk_predictions ids energies (pred_forces acc ++ _per_image_free_forces)
                       (pred_chunk_idx acc ++ _chunk_idx))
  else
    Ok (mk_predictions ids energies (pred_forces acc ++ per_image_forces)
                       (pred_chunk_idx acc)).

(** The loop of lines 346-408; the flag tells whether the function returned
    from inside the loop. *)
Fixpoint predict_loop (normalizers : option Normalizers) (per_image results_file : bool)
    (data_loader : list (list Batch)) (acc : Predictions)
    : result (predict_value * bool) :=
  match data_loader with
  | [] => Ok (PerImage acc, false)
  | batch_list :: data_loader' =>
      out_ <- predict_denorm normalizers (_forward batch_list) ;;
      if per_image then
        acc' <- predict_per_image results_file out_ batch_list acc ;;
        predict_loop normalizers per_image results_file data_loader' acc'
      else
        f <- getitem (p_forces out_) ;;
        Ok (Tensors (p_energy out_) f, true)
  end.

(** [predict]: its value (the per-image lists before they are turned into
    arrays) and what it did to the moving average and the results file. *)
Definition predict (ema : bool) (normalizers : option Normalizers)
    (per_image results_file : bool) (data_loader : list (list Batch))
    : list predict_event * result predict_value :=
  let started := if ema then [EmaStore; EmaCopyTo] else [] in
  let moved :=
    match normalizers with
    | Some n =>
        match n_target n with
        | Some _ => _ <- getitem (n_grad_target n) ;; Ok tt
        | None => Ok tt
        end
    | None => Ok tt
    end in
  match (_ <- moved ;;
         predict_loop normalizers per_image results_file data_loader
                      (mk_predictions [] [] [] [])) with
  | Raise e => (started, Raise e)
  | Ok (v, true) => (started, Ok v)
  | Ok (v, false) =>
      (started ++ [SaveResults] ++ (if ema then [EmaRestore] else []), Ok v)
  end.

End Predict.

(** ** The jitter losses: [_adversarial_jitter_distill_loss], lines 753-776,
        and [_random_jitter_distill_loss], lines 816-834 *)

(** An attribute that [__init__] may not have set. *)
Definition getattr {A : Type} (o : option A) : result A :=
  match o with
  | Some x => Ok x
  | None => Raise AttributeError
  end.

(** The loop over [self.adversarial_distill_fns] that both losses end with:
    "regular" stands for [_compute_loss_distill] against the teacher's
    output, any other name for the method of that name; the value is
    multiplied by [self.adversarial_distill_lambda[loss_idx]] and added to
    [distill_loss].  The two coefficient arguments are those of
    [_compute_loss_distill]. *)
Fixpoint adversarial_distill_losses (env : Env) (self : Trainer)
    (distill_energy_coefficient distill_force_coefficient : option R)
    (out_batch : OutBatch) (augmented_batch : list Batch)
    (loss_idx : nat) (fns : list string) (distill_loss : R) : result R :=
  match fns with
  | [] => Ok distill_loss
  | loss_type :: fns' =>
      v <- (if String.eqb loss_type "regular"
            then _compute_loss_distill env distill_energy_coefficient
                   distill_force_coefficient (out out_batch) augmented_batch
                   (Some (t_out out_batch))
            else f <- dispatch env self loss_type ;; f out_batch augmented_batch) ;;
      lambdas <- getattr (adversarial_distill_lambda self) ;;
      coefficient <- lambda_at lambdas loss_idx ;;
      adversarial_distill_losses env self distill_energy_coefficient
        distill_force_coefficient out_batch augmented_batch (S loss_idx) fns'
        (distill_loss + v * coefficient)
  end.

(** [_random_jitter_distill_loss].  The attributes of the random jitter are
    read once per sub-batch, so their absence goes unnoticed on an empty
    batch list. *)
Definition _random_jitter_distill_loss (env : Env) (self : Trainer)
    (distill_energy_coefficient distill_force_coefficient : option R)
    (noise noise2 : nat -> nat -> vec3)
    (out_batch : OutBatch) (batch_list : list Batch) : result R :=
  augmented_batch <-
    match batch_list with
    | [] => Ok []
    | _ =>
        attrs <- getattr (jitter self) ;;
        Ok (_random_jitter_batch attrs noise noise2 batch_list)
    end ;;
  out_batch <- _distill_forward env augmented_batch ;;
  fns <- getattr (adversarial_distill_fns self) ;;
  adversarial_distill_losses env self distill_energy_coefficient
    distill_force_coefficient out_batch augmented_batch 0 fns 0.

(** [_adversarial_jitter_distill_loss].  [backward] and [backward_pgd] stand
    for the backward passes of the two generators. *)
Definition _adversarial_jitter_distill_loss (env : Env) (self : Trainer)
    (distill_energy_coefficient distill_force_coefficient : option R)
    (noise : nat -> nat -> vec3)
    (backward backward_pgd : list Batch -> list (list vec3))
    (out_batch : OutBatch) (batch_list : list Batch) : result R :=
  attrs <- getattr (adversarial self) ;;
  augmented_batch <-
    (if adversarial_pgd attrs
     then Ok (_adversarial_pgd_batch attrs noise backward_pgd batch_list)
     else _adversarial_batch env (cfg_loss_weighting_synthetic (distillation self))
            attrs noise backward batch_list) ;;
  out_batch <- _distill_forward env augmented_batch ;;
  fns <- getattr (adversarial_distill_fns self) ;;
  adversarial_distill_losses env self distill_energy_coefficient
    distill_force_coefficient out_batch augmented_batch 0 fns 0.

(** Every displacement tensor has one row per atom, of norm at most [r]. *)
Definition within_radius (r : R) (b : Batch) (delta : list vec3) : Prop :=
  length delta = length (pos b) /\ Forall (fun row => vnorm row <= r) delta.

(** ** The batch loop of [run_relaxations], lines 1413-1447 *)

(** The entries of [config["task"]] that steer the loop, and its two
    collaborators: [check_traj_files] tells whether the trajectories of a
    batch are already on disk, [ml_relax] returns the relaxed batch. *)
Record RelaxTask : Type := mk_relax_task {
  num_relaxation_batches : option Z;
  write_pos : bool;
  check_traj_files : list Batch -> bool;
  ml_relax : list Batch -> Batch
}.

(** The three lists that the loop fills when positions are written. *)
Record RelaxState : Type := mk_relax_state {
  r_ids : list string;
  r_relaxed_positions : list (list vec3);
  r_chunk_idx : list nat
}.

(** The loop over [enumerate(self.relax_loader)] from index [i] on: the
    [break] on the batch limit (1e9 when absent), the [continue] on batches
    whose trajectories exist, the relaxation and the bookkeeping of the
    positions.  The evaluation of the relaxed batch is not part of it. *)
Fixpoint relax_loop (task : RelaxTask) (i : Z) (relax_loader : list (list Batch))
    (st : RelaxState) : result RelaxState :=
  match relax_loader with
  | [] => Ok st
  | batch_ :: relax_loader' =>
      if (get (num_relaxation_batches task) (10 ^ 9) <=? i)%Z then Ok st
      else if check_traj_files task batch_ then
        relax_loop task (i + 1) relax_loader' st
      else
        let relaxed_batch := ml_relax task batch_ in
        st' <-
          (if write_pos task then
             let systemids := map str (sid relaxed_batch) in
             let natoms_ := natoms relaxed_batch in
             positions <- torch_split (pos relaxed_batch) natoms_ ;;
             Ok (mk_relax_state (r_ids st ++ systemids)
                                (r_relaxed_positions st ++ positions)
                                (r_chunk_idx st ++ natoms_))
           else Ok st) ;;
        relax_loop task (i + 1) relax_loader' st'
  end.

(* ===================================================================== *)
(** * Part II: properties                                                 *)
(* ===================================================================== *)

(** ** Step scheduler *)

Lemma range_cons (lo hi : Z) :
  (lo < hi)%Z -> range lo hi = lo :: range (lo + 1) hi.
Proof.
  intros H. unfold range.
  replace (Z.to_nat (hi - lo)) with (S (Z.to_nat (hi - (lo + 1)))) by lia.
  cbn [seq map]. f_equal.
  - lia.
  - rewrite <- seq_shift, map_map. apply map_ext. intros k. lia.
Qed.

Lemma range_nil (lo hi : Z) : (hi <= lo)%Z -> range lo hi = [].
Proof.
  intros H. unfold range. replace (Z.to_nat (hi - lo)) with 0%nat by lia.
  reflexivity.
Qed.

(** C2. Resuming recomputes the start epoch as [step // len] and the first
    resumed epoch skips [step mod len] steps; for a persisted step of 150 and
    a loader of length 100 the start epoch is 1 and 50 steps are skipped. *)
Theorem resume_start_epoch_and_skip (step len max_epochs : Z) :
  (0 < len)%Z ->
  start_epoch step len = Ok (step / len)%Z /\
  (forall runs, train_schedule step len max_epochs = Ok runs ->
     forall first, hd_error runs = Some first ->
       epoch_int first = (step / len)%Z /\ skip_steps first = (step mod len)%Z) /\
  ((step / len < max_epochs)%Z ->
     exists first rest,
       train_schedule step len max_epochs = Ok (first :: rest) /\
       epoch_int first = (step / len)%Z /\
       skip_steps first = (step mod len)%Z) /\
  start_epoch 150 100 = Ok 1%Z /\
  (exists rest,
     train_schedule 150 100 2 =
       Ok (mk_epoch_run 1 50 (map (fun i => (100 + i + 1)%Z) (range 50 100)) :: rest)).
Proof.
  intros Hlen.
  assert (Hs : start_epoch step len = Ok (step / len)%Z).
  { unfold start_epoch. destruct (Z.eqb_spec len 0); [lia | reflexivity]. }
  split; [exact Hs |].
  split.
  - intros runs Hrun first Hfirst.
    unfold train_schedule in Hrun. rewrite Hs in Hrun. cbn [bind] in Hrun.
    injection Hrun as <-.
    destruct (Z_lt_le_dec (step / len) max_epochs) as [Hlt | Hge].
    + rewrite (range_cons _ _ Hlt) in Hfirst. cbn in Hfirst.
      injection Hfirst as <-. split; reflexivity.
    + rewrite (range_nil _ _ Hge) in Hfirst. discriminate.
  - split.
    + intros Hlt. unfold train_schedule. rewrite Hs. cbn [bind].
      rewrite (range_cons _ _ Hlt). cbn [train_epochs].
      eexists _, _. split; [reflexivity |]. split; reflexivity.
    + split; [reflexivity |].
      eexists. unfold train_schedule. cbn [start_epoch bind Z.eqb].
      reflexivity.
Qed.

Lemma resume_start_epoch_and_skip_witness :
  (0 < 100)%Z /\ start_epoch 150 100 = Ok (150 / 100)%Z.
Proof.
  split; [lia |].
  exact (proj1 (resume_start_epoch_and_skip 150 100 2 ltac:(lia))).
Defined.

(** ** Loss weighting policy *)

Lemma sum_where_filter {A : Type} (f : A -> bool) (l : list A) :
  sumR (where_ (map f l) 1 0) = INR (length (filter f l)).
Proof.
  induction l as [| x l IH]; [reflexivity |].
  cbn [map where_ sumR fold_right filter].
  fold (where_ (map f l) 1 0). fold (sumR (where_ (map f l) 1 0)).
  rewrite IH. destruct (f x).
  - cbn [length]. rewrite S_INR. lra.
  - lra.
Qed.

Lemma batch_ratio_is_fraction (sids : list Z) :
  meanR (where_ (map (fun s => (4999999 <? s)%Z) sids) 1 0) =
  synthetic_fraction sids.
Proof.
  unfold meanR, synthetic_fraction, where_.
  rewrite !length_map.
  change (sumR (where_ (map is_synthetic sids) 1 0) / INR (length sids) =
          INR (length (filter is_synthetic sids)) / INR (length sids)).
  now rewrite sum_where_filter.
Qed.

Lemma in_nonzero_from (mask : list bool) (k s : nat) :
  In s (nonzero_from k mask) <->
  (k <= s)%nat /\ nth (s - k) mask false = true.
Proof.
  revert k. induction mask as [| m mask IH]; intros k.
  - cbn. split; [tauto |]. intros [_ H]. destruct (s - k)%nat; discriminate.
  - cbn [nonzero_from]. destruct m.
    + cbn [In]. rewrite IH. split.
      * intros [<- | [Hle Hn]].
        -- split; [lia |]. now rewrite Nat.sub_diag.
        -- split; [lia |]. replace (s - k)%nat with (S (s - S k)) by lia.
           exact Hn.
      * intros [Hle Hn]. destruct (Nat.eq_dec k s) as [-> | Hne]; [now left |].
        right. split; [lia |].
        replace (s - k)%nat with (S (s - S k)) in Hn by lia. exact Hn.
    + rewrite IH. split.
      * intros [Hle Hn]. split; [lia |].
        replace (s - k)%nat with (S (s - S k)) by lia. exact Hn.
      * intros [Hle Hn]. destruct (Nat.eq_dec k s) as [-> | Hne].
        -- rewrite Nat.sub_diag in Hn. discriminate.
        -- split; [lia |].
           replace (s - k)%nat with (S (s - S k)) in Hn by lia. exact Hn.
Qed.

Lemma isin_nonzero (mask : list bool) (s : nat) :
  existsb (Nat.eqb s) (nonzero mask) = nth s mask false.
Proof.
  destruct (nth s mask false) eqn:Hn.
  - apply existsb_exists. exists s. split; [| apply Nat.eqb_refl].
    apply in_nonzero_from. split; [lia |]. now rewrite Nat.sub_0_r.
  - destruct (existsb (Nat.eqb s) (nonzero mask)) eqn:He; [| reflexivity].
    apply existsb_exists in He. destruct He as [x [Hin Hx]].
    apply Nat.eqb_eq in Hx. subst x.
    apply in_nonzero_from in Hin. rewrite Nat.sub_0_r in Hin.
    destruct Hin as [_ Hin]. congruence.
Qed.

(** The per-atom weight is the per-system weight of the atom's system. *)
Lemma where_isin_broadcast (mask : list bool) (members : list nat) (a b : R)
    (i s : nat) :
  nth_error members i = Some s ->
  (s < length mask)%nat ->
  nth_error (where_ (isin members (nonzero mask)) a b) i =
  nth_error (where_ mask a b) s.
Proof.
  intros Hi Hs. unfold where_, isin.
  rewrite !nth_error_map, Hi. cbn [option_map].
  rewrite isin_nonzero.
  destruct (nth_error mask s) as [m |] eqn:Hm.
  - cbn [option_map]. now rewrite (nth_error_nth _ _ false Hm).
  - apply nth_error_None in Hm. lia.
Qed.

(** The membership vector of a collated batch is
    [repeat_interleave(arange(n), natoms)]; the per-atom weights are then the
    per-system weights repeated [natoms] times each. *)
Lemma where_isin_repeat_interleave (mask : list bool) (counts : list nat) (a b : R) (k : nat) :
  length counts = length mask ->
  where_ (isin (repeat_interleave (seq k (length mask)) counts)
               (nonzero_from k mask)) a b =
  repeat_interleave (where_ mask a b) counts.
Proof.
  unfold where_, isin. rewrite map_map.
  revert counts k. induction mask as [| m mask IH]; intros counts k Hlen.
  - reflexivity.
  - destruct counts as [| n counts]; [discriminate |].
    cbn [length seq repeat_interleave map].
    rewrite map_app. f_equal.
    + rewrite map_repeat. f_equal.
      replace (existsb (Nat.eqb k) (nonzero_from k (m :: mask))) with m; [reflexivity |].
      symmetry. destruct m.
      * cbn. now rewrite Nat.eqb_refl.
      * cbn [nonzero_from].
        destruct (existsb (Nat.eqb k) (nonzero_from (S k) mask)) eqn:He; [| reflexivity].
        apply existsb_exists in He. destruct He as [x [Hin Hx]].
        apply Nat.eqb_eq in Hx. subst x. apply in_nonzero_from in Hin. lia.
    + rewrite <- (IH counts (S k)) by (cbn in Hlen; lia).
      apply map_ext_in. intros x Hx.
      assert (Hgt : (S k <= x)%nat).
      { clear - Hx. revert counts k Hx.
        generalize (length mask) as len.
        intros len counts. revert len.
        induction counts as [| c counts IHc]; intros len k Hx.
        - destruct len; cbn in Hx; tauto.
        - destruct len as [| len]; [cbn in Hx; tauto |].
          cbn [seq repeat_interleave] in Hx. apply in_app_or in Hx.
          destruct Hx as [Hx | Hx].
          + apply repeat_spec in Hx. lia.
          + apply IHc in Hx. lia. }
      f_equal. cbn [nonzero_from]. destruct m; [| reflexivity].
      cbn [existsb]. destruct (Nat.eqb_spec x k); [lia | reflexivity].
Qed.

(** C1. With a ratio [rho > 0] configured, [r] is the fraction of systems
    whose id exceeds 4,999,999, a real system weighs [1 / (1 - r + rho r)], a
    synthetic one [rho] times that, and every atom carries the weight of its
    system (three and five copies for a batch of two systems with 3 and 5
    atoms); without a configured ratio both weight vectors are all ones. *)
Theorem loss_weights_d1M_policy (rho : R) (b0 : Batch) (rest : list Batch) :
  0 < rho ->
  let r := synthetic_fraction (sid b0) in
  let w_real := 1 / (1 - r + rho * r) in
  let w_of := fun s : Z => if is_synthetic s then rho * w_real else w_real in
  (exists w_node w_sample,
     _loss_weights_d1M (Some rho) (b0 :: rest) = Ok (w_node, w_sample) /\
     w_sample = map w_of (sid b0) /\
     length w_node = length (batch b0) /\
     (forall a s, nth_error (batch b0) a = Some s ->
                  (s < length (sid b0))%nat ->
                  nth_error w_node a = nth_error w_sample s) /\
     (length (natoms b0) = length (sid b0) ->
      batch b0 = repeat_interleave (seq 0 (length (sid b0))) (natoms b0) ->
      w_node = repeat_interleave w_sample (natoms b0)) /\
     (forall s1 s2, sid b0 = [s1; s2] -> natoms b0 = [3; 5]%nat ->
        batch b0 = [0; 0; 0; 1; 1; 1; 1; 1]%nat ->
        w_node = [w_of s1; w_of s1; w_of s1;
                  w_of s2; w_of s2; w_of s2; w_of s2; w_of s2])) /\
  _loss_weights_d1M None (b0 :: rest) =
    Ok (map (fun _ => 1) (tags b0), map (fun _ => 1) (y b0)).
Proof.
  intros Hrho r w_real w_of.
  split; [| reflexivity].
  unfold _loss_weights_d1M.
  destruct (Rlt_dec 0 rho) as [_ | Hn]; [| contradiction].
  rewrite batch_ratio_is_fraction. fold r. fold w_real.
  eexists _, _. split; [reflexivity |].
  assert (Hsample :
    where_ (map (fun s => (4999999 <? s)%Z) (sid b0)) (rho * w_real) w_real =
    map w_of (sid b0)).
  { unfold where_. rewrite map_map. reflexivity. }
  split; [exact Hsample |].
  split; [unfold where_, isin; now rewrite !length_map |].
  split.
  { intros a s Ha Hs. apply where_isin_broadcast; [exact Ha |].
    now rewrite length_map. }
  assert (Hbroadcast :
    length (natoms b0) = length (sid b0) ->
    batch b0 = repeat_interleave (seq 0 (length (sid b0))) (natoms b0) ->
    where_ (isin (batch b0) (nonzero (map (fun s => (4999999 <? s)%Z) (sid b0))))
           (rho * w_real) w_real =
    repeat_interleave
      (where_ (map (fun s => (4999999 <? s)%Z) (sid b0)) (rho * w_real) w_real)
      (natoms b0)).
  { intros Hlen Hb. rewrite Hb.
    rewrite <- (length_map (fun s => (4999999 <? s)%Z) (sid b0)).
    apply where_isin_repeat_interleave.
    now rewrite length_map. }
  split; [exact Hbroadcast |].
  intros s1 s2 Hsid Hnat Hb.
  rewrite Hbroadcast.
  - rewrite Hsample, Hsid, Hnat. reflexivity.
  - now rewrite Hsid, Hnat.
  - rewrite Hsid, Hnat, Hb. reflexivity.
Qed.

Lemma loss_weights_d1M_policy_witness :
  0 < 2 /\
  exists w_node w_sample,
    _loss_weights_d1M (Some 2) [batch_3_5] = Ok (w_node, w_sample) /\
    w_sample = [2 / 3; 4 / 3] /\
    w_node = [2 / 3; 2 / 3; 2 / 3; 4 / 3; 4 / 3; 4 / 3; 4 / 3; 4 / 3].
Proof.
  assert (Hrho : 0 < 2) by lra.
  split; [exact Hrho |].
  destruct (loss_weights_d1M_policy 2 batch_3_5 [] Hrho)
    as [[w_node [w_sample [Hrun [Hs [_ [_ [_ Hn]]]]]]] _].
  exists w_node, w_sample.
  assert (Hr : synthetic_fraction (sid batch_3_5) = 1 / 2).
  { unfold synthetic_fraction. cbn. lra. }
  rewrite Hr in Hs, Hn.
  assert (Hreal : 1 / (1 - 1 / 2 + 2 * (1 / 2)) = 2 / 3) by lra.
  assert (Hsynth : 2 * (1 / (1 - 1 / 2 + 2 * (1 / 2))) = 4 / 3) by lra.
  rewrite Hsynth, Hreal in Hs, Hn.
  split; [exact Hrun |]. split.
  - rewrite Hs. reflexivity.
  - rewrite (Hn 1%Z 5000000%Z eq_refl eq_refl eq_refl). reflexivity.
Defined.

(** ** Vectors *)

Lemma vdot_self_nonneg (v : vec3) : 0 <= vdot v v.
Proof. unfold vdot. nra. Qed.

Lemma vnorm_nonneg (v : vec3) : 0 <= vnorm v.
Proof. apply sqrt_pos. Qed.

Lemma vnorm_vscale (c : R) (v : vec3) : vnorm (vscale c v) = Rabs c * vnorm v.
Proof.
  unfold vnorm.
  replace (vdot (vscale c v) (vscale c v)) with (Rsqr c * vdot v v)
    by (unfold vdot, vscale, Rsqr; cbn; ring).
  rewrite sqrt_mult; [| apply Rle_0_sqr | apply vdot_self_nonneg].
  now rewrite sqrt_Rsqr_abs.
Qed.

Lemma vdiv_vscale (v : vec3) (d : R) : vdiv v d = vscale (/ d) v.
Proof. unfold vdiv, vscale, Rdiv. f_equal; ring. Qed.

Lemma normalize_eps_pos : 0 < normalize_eps.
Proof. unfold normalize_eps. lra. Qed.

Lemma normalize_denominator_pos (v : vec3) : 0 < Rmax (vnorm v) normalize_eps.
Proof.
  apply Rlt_le_trans with normalize_eps; [apply normalize_eps_pos | apply Rmax_r].
Qed.

Lemma vnorm_F_normalize (v : vec3) :
  vnorm (F_normalize v) = vnorm v / Rmax (vnorm v) normalize_eps.
Proof.
  unfold F_normalize. rewrite vdiv_vscale, vnorm_vscale.
  pose proof (normalize_denominator_pos v) as Hpos.
  rewrite Rabs_right.
  - unfold Rdiv. ring.
  - apply Rle_ge. left. now apply Rinv_0_lt_compat.
Qed.

Lemma vnorm_F_normalize_le_1 (v : vec3) : vnorm (F_normalize v) <= 1.
Proof.
  rewrite vnorm_F_normalize.
  pose proof (normalize_denominator_pos v) as Hpos.
  apply Rmult_le_reg_r with (Rmax (vnorm v) normalize_eps); [exact Hpos |].
  unfold Rdiv. rewrite Rmult_assoc, Rinv_l by lra.
  rewrite Rmult_1_r, Rmult_1_l. apply Rmax_l.
Qed.

Lemma vnorm_F_normalize_unit (v : vec3) :
  normalize_eps <= vnorm v -> vnorm (F_normalize v) = 1.
Proof.
  intros H. rewrite vnorm_F_normalize, Rmax_left by exact H.
  pose proof normalize_eps_pos. unfold Rdiv. apply Rinv_r. lra.
Qed.

Lemma F_normalize_vzero : F_normalize vzero = vzero.
Proof.
  unfold F_normalize, vdiv, vzero, Rdiv. cbn. f_equal; ring.
Qed.

Lemma vadd_vzero_r (v : vec3) : vadd v vzero = v.
Proof. destruct v. unfold vadd, vzero. cbn. f_equal; ring. Qed.

Lemma vscale_0 (v : vec3) : vscale 0 v = vzero.
Proof. unfold vscale, vzero. f_equal; ring. Qed.

Lemma vscale_vzero (c : R) : vscale c vzero = vzero.
Proof. unfold vscale, vzero. cbn. f_equal; ring. Qed.

Lemma vnorm_vzero : vnorm vzero = 0.
Proof.
  unfold vnorm, vdot, vzero. cbn.
  replace (0 * 0 + 0 * 0 + 0 * 0) with 0 by ring. apply sqrt_0.
Qed.

Lemma vnorm_x_axis (a : R) : 0 <= a -> vnorm (mk3 a 0 0) = a.
Proof.
  intros Ha. unfold vnorm, vdot. cbn.
  replace (a * a + 0 * 0 + 0 * 0) with (a * a) by ring.
  now apply sqrt_square.
Qed.

Lemma vsub_vadd_cancel (d u : vec3) : vsub (vadd d u) d = u.
Proof. destruct d, u. unfold vsub, vadd. cbn. f_equal; ring. Qed.

(** ** Lists *)

Lemma nth_error_inplace2 {A B : Type} (f : A -> B -> A) (a : list A) (b : list B) (i : nat) :
  nth_error (inplace2 f a b) i =
  match nth_error a i, nth_error b i with
  | Some x, Some y => Some (f x y)
  | Some x, None => Some x
  | None, _ => None
  end.
Proof.
  revert b i. induction a as [| x a IH]; intros b i.
  - destruct b, i; reflexivity.
  - destruct b as [| y b].
    + cbn [inplace2]. destruct (nth_error (x :: a) i); destruct i; reflexivity.
    + destruct i as [| i]; [reflexivity |]. cbn [inplace2 nth_error]. apply IH.
Qed.

Lemma length_inplace2 {A B : Type} (f : A -> B -> A) (a : list A) (b : list B) :
  length (inplace2 f a b) = length a.
Proof.
  revert b. induction a as [| x a IH]; intros [| y b]; cbn; auto.
Qed.

Lemma inplace2_id {A B : Type} (f : A -> B -> A) (a : list A) (b : list B) :
  (forall x y, In x a -> f x y = x) -> inplace2 f a b = a.
Proof.
  revert b. induction a as [| x a IH]; intros [| y b] H; try reflexivity.
  cbn [inplace2]. rewrite H by now left. f_equal. apply IH.
  intros x' y' Hin. apply H. now right.
Qed.

Lemma length_map2 {A B C : Type} (f : A -> B -> C) (a : list A) (b : list B) :
  length (map2 f a b) = Nat.min (length a) (length b).
Proof.
  revert b. induction a as [| x a IH]; intros [| y b]; cbn; auto.
Qed.

Lemma nth_error_map2 {A B C : Type} (f : A -> B -> C) (a : list A) (b : list B) (i : nat) :
  nth_error (map2 f a b) i =
  match nth_error a i, nth_error b i with
  | Some x, Some y => Some (f x y)
  | _, _ => None
  end.
Proof.
  revert b i. induction a as [| x a IH]; intros [| y b] [| i]; cbn; try reflexivity.
  - now destruct (nth_error a i).
  - apply IH.
Qed.

Lemma masked_assign_select {A : Type} (p : A -> bool) (f : A -> A) (t : list A) :
  masked_assign t (map p t) (map f (masked_select t (map p t))) =
  map (fun x => if p x then f x else x) t.
Proof.
  induction t as [| x t IH]; [reflexivity |].
  cbn [map masked_select masked_assign]. destruct (p x).
  - cbn [map]. now rewrite IH.
  - now rewrite IH.
Qed.

(** ** Projected-gradient generator, "ball" mode *)

Lemma pgd_ball_gradient_rows (self : AdvAttrs) (grad : list vec3) :
  pgd_ball_gradient self grad =
  map (fun g0 =>
         let g := vscale (adversarial_lr self) g0 in
         if Rgtb (vnorm g) (adversarial_alpha self)
         then vscale (adversarial_alpha self) (F_normalize g)
         else g) grad.
Proof.
  unfold pgd_ball_gradient.
  rewrite (masked_assign_select
             (fun g => Rgtb (vnorm g) (adversarial_alpha self))
             (fun g => vscale (adversarial_alpha self) (F_normalize g))).
  now rewrite map_map.
Qed.

Lemma ball_row_clipped (alpha : R) (g : vec3) :
  0 <= alpha ->
  let u := if Rgtb (vnorm g) alpha then vscale alpha (F_normalize g) else g in
  vnorm u <= alpha /\
  (vnorm g <= alpha -> u = g) /\
  (alpha < vnorm g ->
     u = vscale alpha (F_normalize g) /\
     (normalize_eps <= vnorm g -> vnorm u = alpha)).
Proof.
  intros Halpha u. subst u. unfold Rgtb.
  destruct (Rlt_dec alpha (vnorm g)) as [Hgt | Hle].
  - split; [| split].
    + rewrite vnorm_vscale, Rabs_right by lra.
      pose proof (vnorm_F_normalize_le_1 g). nra.
    + intros H. lra.
    + intros _. split; [reflexivity |]. intros Heps.
      rewrite vnorm_vscale, Rabs_right by lra.
      rewrite vnorm_F_normalize_unit by exact Heps. ring.
  - split; [| split].
    + lra.
    + reflexivity.
    + intros H. lra.
Qed.

Lemma nth_error_pgd_updates (self : AdvAttrs) (deltas grads : list (list vec3))
    (noisy : list Batch) (j : nat) (delta delta' : list vec3) :
  nth_error deltas j = Some delta ->
  nth_error (pgd_updates self deltas grads noisy) j = Some delta' ->
  delta' = delta \/ exists g b, delta' = pgd_update self delta g b.
Proof.
  revert grads noisy j.
  induction deltas as [| d deltas IH]; intros grads noisy j Hd Hd'.
  - destruct j; discriminate.
  - destruct grads as [| g grads]; [left; cbn in Hd'; congruence |].
    destruct noisy as [| b noisy]; [left; cbn in Hd'; congruence |].
    destruct j as [| j].
    + cbn in Hd, Hd'. injection Hd as <-. injection Hd' as <-.
      right. now exists g, b.
    + cbn [pgd_updates nth_error] in Hd, Hd'. eapply IH; eassumption.
Qed.

(** What one "ball" iteration adds to a row of a delta: a vector of norm at
    most [alpha]. *)
Lemma pgd_ball_row_step (self : AdvAttrs) (delta grad : list vec3) (b : Batch)
    (a : nat) (d d' : vec3) :
  mode_is (adversarial_pgd_mode self) "ball" = true ->
  0 <= adversarial_alpha self ->
  nth_error delta a = Some d ->
  nth_error (pgd_update self delta grad b) a = Some d' ->
  exists u, d' = vadd d u /\ vnorm u <= adversarial_alpha self.
Proof.
  intros Hmode Halpha Hd Hd'.
  unfold pgd_update in Hd'. rewrite Hmode in Hd'.
  rewrite nth_error_inplace2, Hd, pgd_ball_gradient_rows, nth_error_map in Hd'.
  destruct (nth_error grad a) as [g0 |]; cbn [option_map] in Hd'.
  - injection Hd' as <-. eexists. split; [reflexivity |].
    apply (ball_row_clipped (adversarial_alpha self)
             (vscale (adversarial_lr self) g0) Halpha).
  - injection Hd' as <-. exists vzero. split.
    + now rewrite vadd_vzero_r.
    + now rewrite vnorm_vzero.
Qed.

(** The row of an atom after a "ball" update, from the row of its gradient. *)
Lemma pgd_ball_row_update (self : AdvAttrs) (delta grad : list vec3) (b : Batch)
    (a : nat) (d g0 : vec3) :
  mode_is (adversarial_pgd_mode self) "ball" = true ->
  nth_error delta a = Some d ->
  nth_error grad a = Some g0 ->
  nth_error (pgd_update self delta grad b) a =
  Some (vadd d (let g := vscale (adversarial_lr self) g0 in
                if Rgtb (vnorm g) (adversarial_alpha self)
                then vscale (adversarial_alpha self) (F_normalize g)
                else g)).
Proof.
  intros Hmode Hd Hg. unfold pgd_update. rewrite Hmode.
  now rewrite nth_error_inplace2, Hd, pgd_ball_gradient_rows, nth_error_map, Hg.
Qed.

Lemma nth_error_pgd_updates_some (self : AdvAttrs) (deltas grads : list (list vec3))
    (noisy : list Batch) (j : nat) (delta grad : list vec3) (b : Batch) :
  nth_error deltas j = Some delta ->
  nth_error grads j = Some grad ->
  nth_error noisy j = Some b ->
  nth_error (pgd_updates self deltas grads noisy) j = Some (pgd_update self delta grad b).
Proof.
  revert grads noisy j.
  induction deltas as [| d deltas IH]; intros [| g grads] [| nb noisy] [| j] Hd Hg Hb;
    try discriminate.
  - cbn in Hd, Hg, Hb. injection Hd as <-. injection Hg as <-. injection Hb as <-.
    reflexivity.
  - cbn [pgd_updates nth_error] in *. now apply IH.
Qed.

Lemma length_pgd_updates (self : AdvAttrs) (deltas grads : list (list vec3))
    (noisy : list Batch) :
  length (pgd_updates self deltas grads noisy) = length deltas.
Proof.
  revert grads noisy.
  induction deltas as [| d deltas IH]; intros [| g grads] [| nb noisy]; try reflexivity.
  cbn [pgd_updates length]. now rewrite IH.
Qed.

Lemma length_init_delta_list (self : AdvAttrs) (noise : nat -> nat -> vec3)
    (batch_list : list Batch) :
  length (init_delta_list self noise batch_list) = length batch_list.
Proof.
  unfold init_delta_list. destruct (Rlt_dec 0 (adversarial_init_sd self)).
  - rewrite length_map2, length_seq. apply Nat.min_id.
  - apply length_map.
Qed.

(** The generator keeps one displacement tensor per sub-batch. *)
Lemma length_pgd_delta_list (self : AdvAttrs) (noise : nat -> nat -> vec3)
    (backward : list Batch -> list (list vec3)) (batch_list : list Batch) (k : nat) :
  length (pgd_delta_list (Nat.iter k (pgd_iter self backward batch_list)
                                   (pgd_init self noise batch_list))) =
  length batch_list.
Proof.
  induction k as [| k IH].
  - cbn [Nat.iter pgd_init pgd_delta_list]. apply length_init_delta_list.
  - rewrite Nat.iter_succ. unfold pgd_iter at 1. cbn [pgd_delta_list].
    now rewrite length_pgd_updates.
Qed.

(** C3 (as amended). In "ball" mode with a non-negative radius, what any
    inner iteration adds to any atom's delta has norm at most
    [adversarial_alpha].  The row added is read off the atom's gradient
    [delta_list[j].grad]: the gradient row scaled by the learning rate is
    added unchanged when it lies inside the radius, and is replaced by
    [alpha * F.normalize(row)] when it lies outside, which has norm [alpha]
    when the row's norm is at least the normaliser's epsilon 1e-12 and norm
    [alpha * ||row|| / 1e-12] otherwise. *)
Theorem pgd_ball_update_within_radius (self : AdvAttrs)
    (noise : nat -> nat -> vec3) (backward : list Batch -> list (list vec3))
    (batch_list : list Batch) (k : nat) :
  mode_is (adversarial_pgd_mode self) "ball" = true ->
  0 <= adversarial_alpha self ->
  let st := Nat.iter k (pgd_iter self backward batch_list)
                     (pgd_init self noise batch_list) in
  let st' := pgd_iter self backward batch_list st in
  forall j delta delta' a d d',
    nth_error (pgd_delta_list st) j = Some delta ->
    nth_error (pgd_delta_list st') j = Some delta' ->
    nth_error delta a = Some d ->
    nth_error delta' a = Some d' ->
    vnorm (vsub d' d) <= adversarial_alpha self /\
    (forall grad g0,
       nth_error (pgd_grad_list st') j = Some grad ->
       nth_error grad a = Some g0 ->
       let g := vscale (adversarial_lr self) g0 in
       (vnorm g <= adversarial_alpha self -> d' = vadd d g) /\
       (adversarial_alpha self < vnorm g ->
          d' = vadd d (vscale (adversarial_alpha self) (F_normalize g)) /\
          (normalize_eps <= vnorm g -> vnorm (vsub d' d) = adversarial_alpha self) /\
          (vnorm g < normalize_eps ->
             vnorm (vsub d' d) = adversarial_alpha self * vnorm g / normalize_eps))).
Proof.
  intros Hmode Halpha st st' j delta delta' a d d' Hj Hj' Ha Ha'. split.
  - unfold st', pgd_iter in Hj'. cbn [pgd_delta_list] in Hj'.
    destruct (nth_error_pgd_updates _ _ _ _ _ _ _ Hj Hj') as [-> | [g [b ->]]].
    + assert (d' = d) by congruence. subst d'.
      replace (vsub d d) with vzero
        by (destruct d; unfold vsub, vzero; cbn; f_equal; ring).
      now rewrite vnorm_vzero.
    + destruct (pgd_ball_row_step self delta g b a d d' Hmode Halpha Ha Ha')
        as [u [-> Hu]].
      now rewrite vsub_vadd_cancel.
  - intros grad g0 Hgrad Hg0 g.
    assert (Hb : exists b, nth_error batch_list j = Some b).
    { destruct (nth_error batch_list j) as [b |] eqn:Hb; [now exists b |].
      apply nth_error_None in Hb.
      assert (Hlt : (j < length (pgd_delta_list st))%nat)
        by (apply nth_error_Some; congruence).
      unfold st in Hlt. rewrite length_pgd_delta_list in Hlt. lia. }
    destruct Hb as [b Hb].
    unfold st', pgd_iter in Hj', Hgrad. cbn [pgd_delta_list pgd_grad_list] in Hj', Hgrad.
    rewrite (nth_error_pgd_updates_some self _ _ _ j delta grad (AddNoise b delta)
               Hj Hgrad) in Hj'
      by now rewrite nth_error_map2, Hb, Hj.
    injection Hj' as <-.
    rewrite (pgd_ball_row_update self delta grad _ a d g0 Hmode Ha Hg0) in Ha'.
    injection Ha' as <-. cbv zeta. fold g.
    pose proof (ball_row_clipped (adversarial_alpha self) g Halpha) as Hclip.
    cbv zeta in Hclip. destruct Hclip as [_ [Hin Hout]].
    split.
    + intros Hle. now rewrite (Hin Hle).
    + intros Hgt. destruct (Hout Hgt) as [Hu Hon].
      rewrite Hu. split; [reflexivity |]. rewrite vsub_vadd_cancel. split.
      * intros Heps. rewrite <- Hu. exact (Hon Heps).
      * intros Hsmall.
        rewrite vnorm_vscale, Rabs_right by lra.
        rewrite vnorm_F_normalize, Rmax_right by lra.
        unfold Rdiv. ring.
Qed.

Lemma pgd_ball_update_within_radius_witness :
  let self := adv_ball 1 (1 / 10) in
  let backward := fun _ : list Batch => [[mk3 5 0 0]] in
  let batch_list := [one_atom vzero vzero] in
  let st' := pgd_iter self backward batch_list
               (pgd_init self (fun _ _ => vzero) batch_list) in
  mode_is (adversarial_pgd_mode self) "ball" = true /\
  0 <= adversarial_alpha self /\
  exists d',
    pgd_delta_list st' = [[d']] /\
    d' = vadd vzero (vscale (1 / 10) (F_normalize (mk3 5 0 0))) /\
    vnorm (vsub d' vzero) = 1 / 10.
Proof.
  cbv zeta.
  set (self := adv_ball 1 (1 / 10)).
  set (backward := fun _ : list Batch => [[mk3 5 0 0]]).
  assert (Hmode : mode_is (adversarial_pgd_mode self) "ball" = true) by reflexivity.
  assert (Halpha : 0 <= adversarial_alpha self) by (cbn; lra).
  split; [exact Hmode |]. split; [exact Halpha |].
  assert (Hinit : pgd_init self (fun _ _ => vzero) [one_atom vzero vzero]
                  = mk_pgd_state [[vzero]] [[vzero]]).
  { unfold pgd_init, init_delta_list. cbn [adversarial_init_sd self adv_ball].
    destruct (Rlt_dec 0 0) as [H | _]; [exfalso; lra | reflexivity]. }
  assert (Hg : vscale (adversarial_lr self) (vadd vzero (mk3 5 0 0)) = mk3 5 0 0).
  { unfold vscale, vadd, vzero. cbn. f_equal; ring. }
  assert (Hn : vnorm (mk3 5 0 0) = 5) by (apply vnorm_x_axis; lra).
  assert (Hst' : exists d',
            pgd_delta_list (pgd_iter self backward [one_atom vzero vzero]
                              (mk_pgd_state [[vzero]] [[vzero]])) = [[d']]).
  { unfold pgd_iter, backward.
    cbn [pgd_delta_list pgd_grad_list map2 inplace2 pgd_updates].
    unfold pgd_update. rewrite Hmode, pgd_ball_gradient_rows. cbn [map inplace2].
    eexists. reflexivity. }
  destruct Hst' as [d' Hd']. exists d'. rewrite Hinit.
  split; [exact Hd' |].
  pose proof (pgd_ball_update_within_radius self (fun _ _ => vzero) backward
                [one_atom vzero vzero] 0 Hmode Halpha) as H.
  cbv zeta in H. unfold Nat.iter in H. cbn [nat_rect] in H. rewrite Hinit in H.
  destruct (H 0%nat [vzero] [d'] 0%nat vzero d' eq_refl
              ltac:(now rewrite Hd') eq_refl eq_refl) as [_ Hrow].
  specialize (Hrow [vadd vzero (mk3 5 0 0)] (vadd vzero (mk3 5 0 0)) eq_refl eq_refl).
  cbv zeta in Hrow. rewrite Hg in Hrow. destruct Hrow as [_ Hout].
  destruct Hout as [Hd [Hon _]]; [rewrite Hn; cbn; lra |].
  split; [exact Hd |]. apply Hon. rewrite Hn. unfold normalize_eps. lra.
Defined.

(** C3, counterexamples to the claim as stated, on the update of one
    displacement tensor that starts at zero.  With the radius 1e-13 and the
    gradient (5e-13, 0, 0) at learning rate 1 the row exceeds the radius, yet
    [F.normalize] divides by its epsilon 1e-12 and the update moves the atom
    by (5e-14, 0, 0), strictly inside the radius and not on it.  With a
    negative configured value -1 every row exceeds it and the atom moves by
    a vector of norm 1, above it. *)
Lemma pgd_ball_tiny_radius_counterexample :
  (let self := adv_ball 1 (1 / 10 ^ 13) in
   let g := mk3 (5 / 10 ^ 13) 0 0 in
   adversarial_alpha self < vnorm (vscale (adversarial_lr self) g) /\
   pgd_update self [vzero] [g] (one_atom vzero vzero) = [mk3 (5 / 10 ^ 14) 0 0] /\
   vnorm (mk3 (5 / 10 ^ 14) 0 0) <> adversarial_alpha self) /\
  (let self := adv_ball 1 (-1) in
   pgd_update self [vzero] [mk3 1 0 0] (one_atom vzero vzero) = [vscale (-1) (mk3 1 0 0)] /\
   adversarial_alpha self < vnorm (vscale (-1) (mk3 1 0 0))).
Proof.
  cbv zeta. split.
  - assert (Hg : vscale (adversarial_lr (adv_ball 1 (1 / 10 ^ 13))) (mk3 (5 / 10 ^ 13) 0 0)
                 = mk3 (5 / 10 ^ 13) 0 0).
    { unfold vscale. cbn. f_equal; ring. }
    assert (Hn : vnorm (mk3 (5 / 10 ^ 13) 0 0) = 5 / 10 ^ 13)
      by (apply vnorm_x_axis; lra).
    split; [| split].
    + rewrite Hg, Hn. cbn. lra.
    + unfold pgd_update.
      change (mode_is (adversarial_pgd_mode (adv_ball 1 (1 / 10 ^ 13))) "ball") with true.
      rewrite pgd_ball_gradient_rows. cbn [map inplace2]. cbv zeta. rewrite Hg.
      unfold Rgtb. rewrite Hn. cbn [adversarial_alpha adv_ball].
      destruct (Rlt_dec (1 / 10 ^ 13) (5 / 10 ^ 13)) as [_ | Hn']; [| exfalso; lra].
      unfold F_normalize. rewrite Hn.
      rewrite Rmax_right by (unfold normalize_eps; lra).
      unfold vadd, vzero, vscale, vdiv, normalize_eps. cbn. f_equal. f_equal; field.
    + rewrite vnorm_x_axis by lra. cbn. lra.
  - assert (Hg : vscale (adversarial_lr (adv_ball 1 (-1))) (mk3 1 0 0) = mk3 1 0 0).
    { unfold vscale. cbn. f_equal; ring. }
    assert (Hn : vnorm (mk3 1 0 0) = 1) by (apply vnorm_x_axis; lra).
    split.
    + unfold pgd_update.
      change (mode_is (adversarial_pgd_mode (adv_ball 1 (-1))) "ball") with true.
      rewrite pgd_ball_gradient_rows. cbn [map inplace2]. cbv zeta. rewrite Hg.
      unfold Rgtb. rewrite Hn. cbn [adversarial_alpha adv_ball].
      destruct (Rlt_dec (-1) 1) as [_ | Hn']; [| exfalso; lra].
      unfold F_normalize. rewrite Hn.
      rewrite Rmax_left by (unfold normalize_eps; lra).
      unfold vadd, vzero, vscale, vdiv. cbn. f_equal. f_equal; field.
    + rewrite vnorm_vscale, Hn. cbn [adversarial_alpha adv_ball].
      rewrite Rabs_left by lra. lra.
Qed.

(** ** Perturbing by a zero displacement *)

Lemma map2_vadd_zeros (p : list vec3) : map2 vadd p (zeros_like p) = p.
Proof.
  induction p as [| x p IH]; [reflexivity |].
  cbn [zeros_like map map2]. rewrite vadd_vzero_r. f_equal. exact IH.
Qed.

Lemma AddNoise_zeros (b : Batch) : AddNoise b (zeros_like (pos b)) = b.
Proof.
  destruct b. unfold AddNoise, set_pos. cbn. now rewrite map2_vadd_zeros.
Qed.

Lemma map2_AddNoise_zeros (batch_list : list Batch) :
  map2 AddNoise batch_list (map (fun b => zeros_like (pos b)) batch_list) = batch_list.
Proof.
  induction batch_list as [| b l IH]; [reflexivity |].
  cbn [map map2]. now rewrite AddNoise_zeros, IH.
Qed.

Lemma map2_seq_map {A B : Type} (f : nat -> A -> B) (g : A -> B) (l : list A) (k : nat) :
  (forall j x, In x l -> f j x = g x) ->
  map2 f (seq k (length l)) l = map g l.
Proof.
  revert k. induction l as [| x l IH]; intros k H; [reflexivity |].
  cbn [length seq map2 map]. rewrite H by now left. f_equal.
  apply IH. intros j x' Hin. apply H. now right.
Qed.

(** ** Single-step adversarial generator *)

Lemma adam_param_lr0 (t : nat) (p m v : R) : adam_param 0 t p m v = p.
Proof. unfold adam_param, Rdiv. ring. Qed.

Lemma adam_row_step_lr0 (t : nat) (r : adam_row) (g : vec3) :
  p_data (adam_row_step 0 t r g) = p_data r.
Proof.
  unfold adam_row_step. cbn [p_data]. rewrite !adam_param_lr0.
  now destruct (p_data r).
Qed.

Lemma adam_step_lr0 (t : nat) (params : list (list adam_row)) (grads : list (list vec3)) :
  adam_params (adam_step 0 t params grads) = adam_params params.
Proof.
  unfold adam_params, adam_step. revert grads.
  induction params as [| param params IH]; intros [| grad grads]; try reflexivity.
  cbn [inplace2 map]. rewrite IH. f_equal.
  clear. revert grad. induction param as [| r param IH]; intros [| g grad]; try reflexivity.
  cbn [inplace2 map]. now rewrite IH, adam_row_step_lr0.
Qed.

Lemma adam_params_init (delta_list : list (list vec3)) :
  adam_params (adam_init delta_list) = delta_list.
Proof.
  unfold adam_params, adam_init. rewrite map_map.
  rewrite <- (map_id delta_list) at 2. apply map_ext. intros d.
  rewrite map_map. cbn [p_data]. apply map_id.
Qed.

(** With a zero learning rate the displacement never moves: every iteration
    runs the forward pass and the supervised loss on the same perturbed
    batches, and a loop of at least one iteration that gets through them
    leaves in [return_batch] the batches perturbed by the initial
    displacement. *)
Lemma adversarial_loop_lr0 (env : Env) (lws : option R) (self : AdvAttrs)
    (backward : list Batch -> list (list vec3))
    (batch_list : list Batch) (delta_list : list (list vec3)) (n : nat) (st : adv_state) :
  adversarial_lr self = 0 ->
  adam_params (adv_params st) = delta_list ->
  (st' <- adversarial_loop env lws self backward batch_list (S n) st ;;
   Ok (adam_params (adv_params st'), adv_return_batch st')) =
  (let batch_list_noise := map2 AddNoise batch_list delta_list in
   out_batch <- _distill_forward env batch_list_noise ;;
   _ <- _compute_loss env lws (out out_batch) batch_list_noise (Some (t_out out_batch)) ;;
   Ok (delta_list, Some batch_list_noise)).
Proof.
  intros Hlr. revert st. induction n as [| n IH]; intros st Hst; cbv zeta.
  - cbn [adversarial_loop]. unfold adversarial_iter. rewrite Hst.
    destruct (_distill_forward env (map2 AddNoise batch_list delta_list)) as [ob | e];
      cbn [bind]; [| reflexivity].
    destruct (_compute_loss env lws (out ob) (map2 AddNoise batch_list delta_list)
                (Some (t_out ob))) as [l | e]; cbn [bind]; [| reflexivity].
    cbn [adv_params adv_return_batch]. now rewrite Hlr, adam_step_lr0, Hst.
  - change (adversarial_loop env lws self backward batch_list (S (S n)) st)
      with (st1 <- adversarial_iter env lws self backward batch_list st ;;
            adversarial_loop env lws self backward batch_list (S n) st1).
    unfold adversarial_iter at 1. rewrite Hst.
    destruct (_distill_forward env (map2 AddNoise batch_list delta_list)) as [ob | e] eqn:Hf;
      cbn [bind]; [| reflexivity].
    destruct (_compute_loss env lws (out ob) (map2 AddNoise batch_list delta_list)
                (Some (t_out ob))) as [l | e] eqn:Hl; cbn [bind]; [| reflexivity].
    rewrite IH.
    + cbv zeta. rewrite Hf. cbn [bind]. rewrite Hl. reflexivity.
    + cbn [adv_params]. now rewrite Hlr, adam_step_lr0.
Qed.

(** With zero initial standard deviation, zero learning rate and at least
    one inner iteration the generator returns the input batches, provided
    the forward pass and the supervised loss return on them; it raises their
    exception otherwise. *)
Lemma adversarial_batch_lr0_sd0 (env : Env) (lws : option R) (self : AdvAttrs)
    (noise : nat -> nat -> vec3)
    (backward : list Batch -> list (list vec3)) (batch_list : list Batch) :
  batch_list <> [] ->
  adversarial_init_sd self = 0 ->
  adversarial_lr self = 0 ->
  (0 < n_adversarial_steps self)%Z ->
  _adversarial_batch env lws self noise backward batch_list =
  (out_batch <- _distill_forward env batch_list ;;
   _ <- _compute_loss env lws (out out_batch) batch_list (Some (t_out out_batch)) ;;
   Ok batch_list).
Proof.
  intros Hne Hsd Hlr Hn. unfold _adversarial_batch, init_delta_list.
  rewrite Hsd, Hlr. destruct (Rlt_dec 0 0) as [H | _]; [lra |].
  destruct (Z.to_nat (n_adversarial_steps self)) as [| n] eqn:Hsteps; [lia |].
  pose proof (adversarial_loop_lr0 env lws self backward batch_list
                (map (fun b => zeros_like (pos b)) batch_list) n
                (mk_adv_state (adam_init (map (fun b => zeros_like (pos b)) batch_list))
                              0 None)
                Hlr (adam_params_init _)) as Hloop.
  cbv zeta in Hloop. rewrite map2_AddNoise_zeros in Hloop.
  destruct batch_list as [| b0 rest]; [contradiction |].
  cbn [map]. cbn [map] in Hloop.
  destruct (adversarial_loop env lws self backward (b0 :: rest) (S n) _) as [st' | e];
    cbn [bind] in Hloop |- *.
  - destruct (_distill_forward env (b0 :: rest)) as [ob | e]; cbn [bind] in Hloop |- *;
      [| discriminate].
    destruct (_compute_loss env lws (out ob) (b0 :: rest) (Some (t_out ob))) as [l | e];
      cbn [bind] in Hloop |- *; [| discriminate].
    injection Hloop as _ Hret. now rewrite Hret.
  - destruct (_distill_forward env (b0 :: rest)) as [ob | e']; cbn [bind] in Hloop |- *;
      [| now injection Hloop as ->].
    destruct (_compute_loss env lws (out ob) (b0 :: rest) (Some (t_out ob))) as [l | e'];
      cbn [bind] in Hloop |- *; [discriminate | now injection Hloop as ->].
Qed.

(** C5, at the failing input: with zero configured inner iterations the loop
    body never runs, [return_batch] is never assigned and the final [return]
    raises; the projected-gradient sibling, which rebuilds the batch after its
    loop, returns the input batches there. *)
Theorem adversarial_batch_zero_steps_unbound
    (env : Env) (loss_weighting_synthetic : option R)
    (noise : nat -> nat -> vec3) (backward : list Batch -> list (list vec3))
    (b0 : Batch) (rest : list Batch) :
  let batch_list := b0 :: rest in
  _adversarial_batch env loss_weighting_synthetic
                     (mk_adv 0 0 (1 / 10) false None 0 true "prop" 0)
                     noise backward batch_list = Raise UnboundLocalError /\
  _adversarial_pgd_batch (mk_adv 0 0 (1 / 10) true None 0 true "prop" 0)
                         noise backward batch_list = batch_list.
Proof.
  intros batch_list. split.
  - unfold _adversarial_batch, init_delta_list.
    cbn [adversarial_init_sd adversarial_lr n_adversarial_steps Z.to_nat adversarial_loop].
    destruct (Rlt_dec 0 0) as [H | _]; [lra |]. reflexivity.
  - unfold _adversarial_pgd_batch, pgd_init, init_delta_list.
    cbn [adversarial_init_sd n_adversarial_steps Z.to_nat Nat.iter].
    destruct (Rlt_dec 0 0) as [H | _]; [lra |].
    cbn [pgd_delta_list]. apply map2_AddNoise_zeros.
Qed.

(** ** Random jitter with standard deviation 0 *)

Lemma normal_row_std0 (mean z : vec3) : normal_row mean 0 z = mean.
Proof.
  unfold normal_row. rewrite vscale_0.
  destruct mean. unfold vadd, vzero. cbn. f_equal; ring.
Qed.

Lemma vector_projection_row_vzero (f : vec3) : vector_projection_row vzero f = vzero.
Proof.
  unfold vector_projection_row.
  replace (vdot vzero (F_normalize f)) with 0
    by (unfold vdot, vzero; cbn; ring).
  apply vscale_0.
Qed.

Lemma all_zero_map2 (f : vec3 -> vec3 -> vec3) (a b : list vec3) :
  (forall y, In y b -> f vzero y = vzero) ->
  all_zero a -> all_zero (map2 f a b).
Proof.
  intros Hf Ha. revert b Hf.
  induction Ha as [| x a Hx Ha IH]; intros [| y b] Hf; try constructor.
  - subst x. apply Hf. now left.
  - apply IH. intros y' Hin. apply Hf. now right.
Qed.

Lemma all_zero_in (t : list vec3) (d : vec3) : all_zero t -> In d t -> d = vzero.
Proof. intros H Hin. unfold all_zero in H. rewrite Forall_forall in H. auto. Qed.

Lemma inplace2_vadd_all_zero (delta t : list vec3) :
  all_zero t -> inplace2 vadd delta t = delta.
Proof.
  intros Ht. revert delta.
  induction Ht as [| x t Hx Ht IH]; intros [| d delta]; try reflexivity.
  cbn [inplace2]. subst x. now rewrite vadd_vzero_r, IH.
Qed.

Lemma inplace2_vadd_zeros (p t : list vec3) :
  length t = length p -> inplace2 vadd (zeros_like p) t = t.
Proof.
  revert t. induction p as [| x p IH]; intros [| d t] H; try discriminate; [reflexivity |].
  cbn [zeros_like map inplace2]. f_equal.
  - destruct d. unfold vadd, vzero. cbn. f_equal; ring.
  - apply IH. cbn in H. lia.
Qed.

Lemma jitter_displacement_std0 (self : JitterAttrs) (noise noise2 : nat -> nat -> vec3)
    (j : nat) (b : Batch) :
  random_std self = 0 ->
  mode_is (random_mode self) "sample_from_force" = false ->
  all_zero (jitter_displacement self noise noise2 j b).
Proof.
  intros Hstd Hmode. unfold jitter_displacement. rewrite Hstd, Hmode.
  assert (H0 : all_zero (map (fun a => normal_row vzero 0 (noise j a))
                             (seq 0 (length (pos b))))).
  { apply Forall_forall. intros d Hd. apply in_map_iff in Hd.
    destruct Hd as [a [<- _]]. apply normal_row_std0. }
  assert (Hproj : forall t, all_zero t -> all_zero (vector_projection t (force b))).
  { intros t Ht. apply all_zero_map2; [| exact Ht].
    intros f _. apply vector_projection_row_vzero. }
  assert (H1 : all_zero
            (if mode_is (random_mode self) "force_proj"
             then map2 vsub (map (fun a => normal_row vzero 0 (noise j a))
                                 (seq 0 (length (pos b))))
                       (vector_projection
                          (map (fun a => normal_row vzero 0 (noise j a))
                               (seq 0 (length (pos b)))) (force b))
             else map (fun a => normal_row vzero 0 (noise j a))
                      (seq 0 (length (pos b))))).
  { destruct (mode_is (random_mode self) "force_proj"); [| exact H0].
    apply all_zero_map2; [| exact H0].
    intros p Hp. rewrite (all_zero_in _ _ (Hproj _ H0) Hp).
    unfold vsub, vzero. cbn. f_equal; ring. }
  destruct (mode_is (random_mode self) "proj_on_force"); [apply Hproj |]; exact H1.
Qed.

Lemma jitter_delta_std0 (self : JitterAttrs) (noise noise2 : nat -> nat -> vec3)
    (j : nat) (b : Batch) :
  random_std self = 0 ->
  mode_is (random_mode self) "sample_from_force" = false ->
  jitter_delta self noise noise2 j b = zeros_like (pos b).
Proof.
  intros Hstd Hmode. unfold jitter_delta.
  pose proof (jitter_displacement_std0 self noise noise2 j b Hstd Hmode) as Hz.
  destruct (truthy (random_fixed_length self)).
  - apply inplace2_vadd_all_zero.
    apply Forall_forall. intros d Hd. apply in_map_iff in Hd.
    destruct Hd as [x [<- Hx]]. rewrite (all_zero_in _ _ Hz Hx).
    now rewrite F_normalize_vzero, vscale_vzero.
  - now apply inplace2_vadd_all_zero.
Qed.

Lemma jitter_displacement_from_force (self : JitterAttrs) (noise noise2 : nat -> nat -> vec3)
    (j : nat) (b : Batch) :
  random_std self = 0 ->
  mode_is (random_mode self) "sample_from_force" = true ->
  jitter_displacement self noise noise2 j b = force b.
Proof.
  intros Hstd Hmode. unfold jitter_displacement. rewrite Hstd, Hmode.
  assert (H : forall k l,
             map2 (fun a f => normal_row f 0 (noise2 j a)) (seq k (length l)) l = l).
  { intros k l. revert k. induction l as [| f l IH]; intros k; [reflexivity |].
    cbn [length seq map2]. now rewrite normal_row_std0, IH. }
  apply H.
Qed.

(** C6 (as amended). With standard deviation 0 the Gaussian draw is the zero
    tensor.  In every mode but "sample_from_force" the positions are returned
    unchanged, with or without fixed-length rescaling ([F.normalize] maps a
    zero row to a zero row).  In "sample_from_force" mode the displacement is
    the force itself, rescaled to [fixed_length * F.normalize(force)] when a
    fixed length is requested. *)
Theorem random_jitter_std0 (self : JitterAttrs) (noise noise2 : nat -> nat -> vec3)
    (batch_list : list Batch) :
  random_std self = 0 ->
  (mode_is (random_mode self) "sample_from_force" = false ->
   _random_jitter_batch self noise noise2 batch_list = batch_list) /\
  (mode_is (random_mode self) "sample_from_force" = true ->
   Forall (fun b => length (force b) = length (pos b)) batch_list ->
   _random_jitter_batch self noise noise2 batch_list =
   map (fun b =>
          set_pos b
            (map2 vadd (pos b)
               (if truthy (random_fixed_length self)
                then map (fun f => vscale (float_of (random_fixed_length self))
                                          (F_normalize f)) (force b)
                else force b)))
       batch_list).
Proof.
  intros Hstd. split.
  - intros Hmode. unfold _random_jitter_batch.
    rewrite (map2_seq_map (jitter_delta self noise noise2)
               (fun b => zeros_like (pos b))).
    + apply map2_AddNoise_zeros.
    + intros j b _. now apply jitter_delta_std0.
  - intros Hmode Hshape. unfold _random_jitter_batch.
    rewrite (map2_seq_map (jitter_delta self noise noise2)
               (fun b => if truthy (random_fixed_length self)
                         then map (fun f => vscale (float_of (random_fixed_length self))
                                                   (F_normalize f)) (force b)
                         else force b)).
    + clear. induction batch_list as [| b l IH]; [reflexivity |].
      cbn [map map2]. now rewrite IH.
    + intros j b Hb. unfold jitter_delta.
      rewrite jitter_displacement_from_force by assumption.
      rewrite Forall_forall in Hshape. specialize (Hshape b Hb).
      destruct (truthy (random_fixed_length self)).
      * apply inplace2_vadd_zeros. now rewrite length_map.
      * now apply inplace2_vadd_zeros.
Qed.

Lemma random_jitter_std0_witness :
  random_std (mk_jitter 0 (Some (1 / 10)) None) = 0 /\
  mode_is (random_mode (mk_jitter 0 (Some (1 / 10)) None)) "sample_from_force" = false /\
  _random_jitter_batch (mk_jitter 0 (Some (1 / 10)) None)
    (fun _ _ => mk3 1 1 1) (fun _ _ => mk3 1 1 1)
    [one_atom (mk3 1 2 3) (mk3 1 0 0)] = [one_atom (mk3 1 2 3) (mk3 1 0 0)].
Proof.
  split; [reflexivity |]. split; [reflexivity |].
  exact (proj1 (random_jitter_std0 (mk_jitter 0 (Some (1 / 10)) None)
                  (fun _ _ => mk3 1 1 1) (fun _ _ => mk3 1 1 1)
                  [one_atom (mk3 1 2 3) (mk3 1 0 0)] eq_refl) eq_refl).
Defined.

(** C6, counterexamples to the claim as stated.  In "sample_from_force" mode
    with standard deviation 0 and no fixed length an atom at the origin with
    force (1, 0, 0) is moved to (1, 0, 0); and with a fixed length of 0.1 in
    the default mode the displacement is the zero vector, of magnitude 0 and
    not 0.1. *)
Lemma random_jitter_std0_counterexample :
  let b := one_atom vzero (mk3 1 0 0) in
  let noise := fun (_ _ : nat) => mk3 1 1 1 in
  (_random_jitter_batch (mk_jitter 0 None (Some "sample_from_force"%string))
     noise noise [b] = [one_atom (mk3 1 0 0) (mk3 1 0 0)] /\
   [one_atom (mk3 1 0 0) (mk3 1 0 0)] <> [b]) /\
  (truthy (random_fixed_length (mk_jitter 0 (Some (1 / 10)) None)) = true /\
   jitter_delta (mk_jitter 0 (Some (1 / 10)) None) noise noise 0 b = [vzero] /\
   vnorm vzero <> 1 / 10).
Proof.
  cbv zeta. split; [split | split; [| split]].
  - unfold _random_jitter_batch. cbn [length seq map2].
    unfold jitter_delta.
    rewrite jitter_displacement_from_force by reflexivity.
    cbn [truthy random_fixed_length].
    unfold one_atom, AddNoise, set_pos. cbn.
    unfold vadd, vzero. cbn.
    repeat f_equal; ring.
  - intros H. unfold one_atom, vzero in H.
    injection H as H. lra.
  - unfold truthy. cbn [random_fixed_length].
    destruct (Req_dec_T (1 / 10) 0) as [H | _]; [lra | reflexivity].
  - now rewrite jitter_delta_std0.
  - rewrite vnorm_vzero. lra.
Qed.

(** ** Global preservation: the pair indices *)

Lemma map2_app {A B C : Type} (f : A -> B -> C) (a1 a2 : list A) (b1 b2 : list B) :
  length a1 = length b1 ->
  map2 f (a1 ++ a2) (b1 ++ b2) = map2 f a1 b1 ++ map2 f a2 b2.
Proof.
  revert b1. induction a1 as [| x a1 IH]; intros [| y b1] H; try discriminate.
  - reflexivity.
  - cbn [app map2]. f_equal. apply IH. cbn in H. lia.
Qed.

Lemma map2_repeat_r {A B C : Type} (f : A -> B -> C) (a : list A) (y : B) (m : nat) :
  length a = m ->
  map2 f a (repeat y m) = map (fun x => f x y) a.
Proof.
  intros <-. induction a as [| x a IH]; [reflexivity |]. cbn. now rewrite IH.
Qed.

Lemma map2_sub_cumsum (acc : nat) (l : list nat) :
  map2 Nat.sub (cumsum_from acc l) l = exclusive_cumsum acc l.
Proof.
  revert acc. induction l as [| n l IH]; intros acc; [reflexivity |].
  cbn [cumsum_from map2 exclusive_cumsum]. rewrite IH. f_equal. lia.
Qed.

Lemma map2_sub_seq_repeat (q k m : nat) :
  map2 Nat.sub (seq (q + k) m) (repeat q m) = seq k m.
Proof.
  revert k. induction m as [| m IH]; intros k; [reflexivity |].
  cbn [seq repeat map2]. f_equal; [lia |].
  replace (S (q + k)) with (q + S k)%nat by lia. apply IH.
Qed.

Lemma pair_indices_gen (op : nat -> nat -> nat) (l : list nat) (a q : nat) :
  let sqr := map (fun n => (n * n)%nat) l in
  map2 Nat.add
    (map2 op
       (map2 Nat.sub (seq q (list_sum sqr))
             (repeat_interleave (exclusive_cumsum q sqr) sqr))
       (repeat_interleave l sqr))
    (repeat_interleave (exclusive_cumsum a l) sqr) =
  pair_blocks op a l.
Proof.
  cbv zeta. revert a q. induction l as [| n l IH]; intros a q; [reflexivity |].
  cbn [map exclusive_cumsum repeat_interleave pair_blocks].
  change (list_sum (n * n :: map (fun n0 => n0 * n0) l)%nat)
    with (n * n + list_sum (map (fun n0 => n0 * n0) l))%nat.
  rewrite seq_app.
  rewrite (map2_app Nat.sub) by now rewrite length_seq, repeat_length.
  replace (seq q (n * n)) with (seq (q + 0) (n * n)) by (f_equal; lia).
  rewrite map2_sub_seq_repeat.
  rewrite (map2_app op) by now rewrite length_seq, repeat_length.
  rewrite (map2_app Nat.add)
    by (rewrite length_map2, length_seq, !repeat_length; lia).
  rewrite IH. f_equal.
  rewrite (map2_repeat_r op) by apply length_seq.
  rewrite (map2_repeat_r Nat.add) by now rewrite length_map, length_seq.
  now rewrite map_map.
Qed.

(** The vectorised index arithmetic computes the nested loop. *)
Lemma pair_indices_blocks (l : list nat) :
  pair_indices l = (pair_blocks Nat.div 0 l, pair_blocks Nat.modulo 0 l).
Proof.
  unfold pair_indices, cumsum. rewrite !map2_sub_cumsum.
  f_equal; apply pair_indices_gen.
Qed.

Lemma length_pair_blocks (op : nat -> nat -> nat) (offset : nat) (l : list nat) :
  length (pair_blocks op offset l) = list_sum (map (fun n => (n * n)%nat) l).
Proof.
  revert offset. induction l as [| n l IH]; intros offset; [reflexivity |].
  cbn [pair_blocks map]. rewrite length_app, length_map, length_seq, IH.
  reflexivity.
Qed.

Lemma pair_blocks_bound (op : nat -> nat -> nat) (offset : nat) (l : list nat) :
  (forall c n, (c < n * n)%nat -> (op c n < n)%nat) ->
  Forall (fun x => (offset <= x < offset + list_sum l)%nat) (pair_blocks op offset l).
Proof.
  intros Hop. revert offset. induction l as [| n l IH]; intros offset; [constructor |].
  cbn [pair_blocks]. apply Forall_app. split.
  - apply Forall_forall. intros x Hx. apply in_map_iff in Hx.
    destruct Hx as [c [<- Hc]]. apply in_seq in Hc.
    specialize (Hop c n ltac:(lia)). cbn [list_sum fold_right]. lia.
  - specialize (IH (offset + n)%nat).
    eapply Forall_impl; [| exact IH]. cbn beta. intros x Hx.
    change (list_sum (n :: l)) with (n + list_sum l)%nat. lia.
Qed.

Lemma div_pair_bound (c n : nat) : (c < n * n)%nat -> (c / n < n)%nat.
Proof.
  intros H. destruct n as [| n]; [lia |].
  apply Nat.Div0.div_lt_upper_bound. exact H.
Qed.

Lemma mod_pair_bound (c n : nat) : (c < n * n)%nat -> (c mod n < n)%nat.
Proof.
  intros H. destruct n as [| n]; [lia |]. apply Nat.mod_upper_bound. lia.
Qed.

(** Every atom is the first member of some pair. *)
Lemma pair_blocks_div_covers (offset : nat) (l : list nat) (a : nat) :
  (offset <= a < offset + list_sum l)%nat -> In a (pair_blocks Nat.div offset l).
Proof.
  revert offset. induction l as [| n l IH]; intros offset Ha.
  - cbn in Ha. lia.
  - change (list_sum (n :: l)) with (n + list_sum l)%nat in Ha.
    cbn [pair_blocks]. apply in_or_app.
    destruct (Nat.lt_ge_cases a (offset + n)) as [Hlt | Hge].
    + left. apply in_map_iff. exists ((a - offset) * n)%nat. split.
      * rewrite Nat.div_mul by lia. lia.
      * apply in_seq. split; [apply Nat.le_0_l |]. cbn [Nat.add].
        assert (Hn : (a - offset < n)%nat) by lia.
        nia.
    + right. apply IH. lia.
Qed.

Lemma dim_size_index1 (l : list nat) :
  dim_size (pair_blocks Nat.div 0 l) = list_sum l.
Proof.
  pose proof (pair_blocks_bound Nat.div 0 l div_pair_bound) as Hb.
  destruct (Nat.eq_dec (list_sum l) 0) as [H0 | Hpos].
  - destruct (pair_blocks Nat.div 0 l) as [| x xs]; [now rewrite H0 |].
    inversion Hb as [| ? ? Hx _]. lia.
  - assert (Hin : In (list_sum l - 1)%nat (pair_blocks Nat.div 0 l))
      by (apply pair_blocks_div_covers; lia).
    assert (Hmax : (list_max (pair_blocks Nat.div 0 l) <= list_sum l - 1)%nat).
    { apply list_max_le. eapply Forall_impl; [| exact Hb].
      cbn beta. intros x Hx. lia. }
    assert (Hge : (list_sum l - 1 <= list_max (pair_blocks Nat.div 0 l))%nat).
    { pose proof (proj1 (list_max_le (pair_blocks Nat.div 0 l)
                           (list_max (pair_blocks Nat.div 0 l))) (Nat.le_refl _)) as Hall.
      rewrite Forall_forall in Hall. now apply Hall. }
    unfold dim_size. destruct (pair_blocks Nat.div 0 l); [contradiction |]. lia.
Qed.

(** ** Global preservation: identical features *)

Lemma index_select_ok {A : Type} (t : list A) (index : list nat) :
  Forall (fun i => (i < length t)%nat) index ->
  exists rows, index_select t index = Ok rows /\ length rows = length index.
Proof.
  induction 1 as [| i index Hi _ IH].
  - exists []. split; reflexivity.
  - destruct IH as [rows [Hrows Hlen]].
    cbn [index_select]. destruct (nth_error t i) as [x |] eqn:Hx.
    + rewrite Hrows. exists (x :: rows). split; [reflexivity |]. cbn. now rewrite Hlen.
    + apply nth_error_None in Hx. lia.
Qed.

Lemma sumR_zeros (l : list R) : all_zeroR l -> sumR l = 0.
Proof.
  induction 1 as [| x l Hx _ IH]; [reflexivity |].
  cbn [sumR fold_right]. fold (sumR l). rewrite Hx, IH. ring.
Qed.

Lemma meanR_zeros (l : list R) : all_zeroR l -> meanR l = 0.
Proof.
  intros H. unfold meanR. rewrite sumR_zeros by exact H. unfold Rdiv. ring.
Qed.

Lemma map2_sqdiff_same (d : list R) : all_zeroR (map2 sqdiff d d).
Proof.
  induction d as [| x d IH]; [constructor |].
  cbn [map2]. constructor; [unfold sqdiff; ring | exact IH].
Qed.

Lemma scatter_mean_zeros (src : list R) (index : list nat) :
  all_zeroR src ->
  length src = length index ->
  exists out_,
    scatter_mean src index = Ok out_ /\ all_zeroR out_ /\
    length out_ = dim_size index.
Proof.
  intros Hz Hlen. unfold scatter_mean.
  rewrite Hlen, Nat.eqb_refl. eexists. split; [reflexivity |]. split.
  - apply Forall_forall. intros x Hx. apply in_map_iff in Hx.
    destruct Hx as [k [<- _]].
    rewrite sumR_zeros; [unfold Rdiv; ring |].
    apply Forall_forall. intros v Hv. apply in_map_iff in Hv.
    destruct Hv as [[v' i] [<- Hin]]. apply filter_In in Hin.
    destruct Hin as [Hin _]. apply in_combine_l in Hin. cbn [fst].
    unfold all_zeroR in Hz. rewrite Forall_forall in Hz. now apply Hz.
  - now rewrite length_map, length_seq.
Qed.

(** C4. For a batch with at least one atom whose membership vector and
    feature tensor have one entry per atom, the global-preservation loss of a
    feature tensor against itself is 0, whatever the number of systems and
    their atom counts. *)
Theorem global_preservation_identical_features
    (Row : Type) (pair_distance : Row -> Row -> R)
    (feat : list Row) (b0 : Batch) (rest : list Batch) :
  let num_atoms := list_sum (concat (map natoms (b0 :: rest))) in
  length feat = num_atoms ->
  length (batch b0) = num_atoms ->
  (0 < num_atoms)%nat ->
  _global_preservation Row pair_distance feat feat (b0 :: rest) = Ok 0.
Proof.
  intros num_atoms Hfeat Hbatch _. unfold _global_preservation.
  fold (@concat nat). set (l := concat (map natoms (b0 :: rest))) in *.
  rewrite pair_indices_blocks.
  assert (H1 : Forall (fun i => (i < length feat)%nat) (pair_blocks Nat.div 0 l)).
  { eapply Forall_impl; [| exact (pair_blocks_bound Nat.div 0 l div_pair_bound)].
    cbn beta. intros x Hx. unfold num_atoms in Hfeat. lia. }
  assert (H2 : Forall (fun i => (i < length feat)%nat) (pair_blocks Nat.modulo 0 l)).
  { eapply Forall_impl; [| exact (pair_blocks_bound Nat.modulo 0 l mod_pair_bound)].
    cbn beta. intros x Hx. unfold num_atoms in Hfeat. lia. }
  destruct (index_select_ok feat _ H1) as [rows1 [Hr1 Hl1]].
  destruct (index_select_ok feat _ H2) as [rows2 [Hr2 Hl2]].
  rewrite Hr1, Hr2. cbn [bind].
  set (d := map2 pair_distance rows1 rows2).
  assert (Hlen : length (map2 sqdiff d d) = length (pair_blocks Nat.div 0 l)).
  { unfold d. rewrite !length_map2, Hl1, Hl2, !length_pair_blocks. lia. }
  destruct (scatter_mean_zeros _ _ (map2_sqdiff_same d) Hlen) as [loss1 [Hs1 [Hz1 Hlen1]]].
  rewrite Hs1. cbn [bind].
  assert (Hlen' : length loss1 = length (batch b0)).
  { rewrite Hlen1, dim_size_index1, Hbatch. reflexivity. }
  destruct (scatter_mean_zeros _ _ Hz1 Hlen') as [loss2 [Hs2 [Hz2 _]]].
  rewrite Hs2. cbn [bind]. now rewrite meanR_zeros.
Qed.

Lemma global_preservation_identical_features_witness :
  let b := mk_batch (repeat vzero 3) (repeat vzero 3) [0%Z; 0%Z; 0%Z] [0%Z; 0%Z; 0%Z]
                    [2; 1]%nat [0; 0] [1%Z; 2%Z] [0%Z; 0%Z] [0; 0; 1]%nat in
  let feat := [[1; 2]; [3; 4]; [5; 6]] in
  length feat = list_sum (concat (map natoms [b])) /\
  length (batch b) = list_sum (concat (map natoms [b])) /\
  (0 < list_sum (concat (map natoms [b])))%nat /\
  _global_preservation (list R) node_pair_distance feat feat [b] = Ok 0.
Proof.
  cbv zeta.
  split; [reflexivity |]. split; [reflexivity |]. split; [cbn; lia |].
  apply global_preservation_identical_features.
  - reflexivity.
  - reflexivity.
  - cbn. lia.
Defined.

(** ** Vector-to-vector geometric loss *)

Lemma vnorm_sqr (v : vec3) : vnorm v * vnorm v = vdot v v.
Proof. unfold vnorm. apply sqrt_sqrt. apply vdot_self_nonneg. Qed.

Lemma cosine_eps_pos : 0 < cosine_eps.
Proof. unfold cosine_eps. lra. Qed.

(** A positive multiple of a vector has cosine similarity 1 with it, once the
    product of the two norms reaches the clamp of the denominator. *)
Lemma cosine_similarity_parallel (c : R) (s t : vec3) :
  0 < c -> s = vscale c t -> cosine_eps <= vnorm s * vnorm t ->
  cosine_similarity s t = 1.
Proof.
  intros Hc -> Heps. unfold cosine_similarity.
  rewrite Rmax_left by exact Heps.
  rewrite vnorm_vscale, Rabs_right in * by lra.
  replace (vdot (vscale c t) t) with (c * vdot t t)
    by (unfold vdot, vscale; cbn; ring).
  rewrite Rmult_assoc, vnorm_sqr in *.
  pose proof cosine_eps_pos. unfold Rdiv. apply Rinv_r. lra.
Qed.

Lemma map2_mean_zero {A : Type} (P : A -> A -> Prop) (f : A -> A -> R)
    (S T : list (list A)) :
  (forall s t, P s t -> f s t = 0) ->
  Forall2 (Forall2 P) S T ->
  all_zeroR (map2 (fun s t => meanR (map2 f s t)) S T) /\
  length (map2 (fun s t => meanR (map2 f s t)) S T) = length S.
Proof.
  intros Hf H. induction H as [| s t S T Hst _ [IHz IHl]].
  - split; [constructor | reflexivity].
  - cbn [map2 length]. split; [| now rewrite IHl].
    constructor; [| exact IHz].
    apply meanR_zeros. clear - Hf Hst.
    induction Hst as [| a b s t Hab _ IH]; constructor; auto.
Qed.

Lemma scatter_mean_returns (src : list R) (index : list nat) :
  length src = length index -> exists out_, scatter_mean src index = Ok out_.
Proof.
  intros H. unfold scatter_mean. rewrite H, Nat.eqb_refl. eexists. reflexivity.
Qed.

Lemma init_lambda_range (teacher_loaded : result unit) (cfg : DistillationConfig)
    (self : Trainer) :
  __init__ teacher_loaded cfg = Ok self -> 0 <= v2v_geom_lambda self <= 1.
Proof.
  unfold __init__. destruct teacher_loaded as [[] | e]; cbn [bind]; [| discriminate].
  destruct (Rle_dec (get (cfg_v2v_geom_lambda cfg) (1 / 2)) 1) as [Hle | ]; [| discriminate].
  destruct (Rge_dec (get (cfg_v2v_geom_lambda cfg) (1 / 2)) 0) as [Hge | ]; [| discriminate].
  destruct (contains "adversarial" (cfg_distill_loss cfg)
            || contains "random_jitter" (cfg_distill_loss cfg)).
  - destruct (cfg_adversarial_distill_loss cfg); cbn [getitem bind]; [| discriminate].
    destruct (cfg_adversarial_distill_lambda cfg); cbn [getitem bind]; [| discriminate].
    intros H. injection H as <-. cbn [v2v_geom_lambda]. lra.
  - intros H. injection H as <-. cbn [v2v_geom_lambda]. lra.
Qed.

(** *** Broadcasting of tensors of the same shape *)

Lemma broadcast2_same {A B C : Type} (f : A -> B -> C) (a : list A) (b : list B) :
  length a = length b -> broadcast2 f a b = Ok (map2 f a b).
Proof. intros H. unfold broadcast2. now rewrite H, Nat.eqb_refl. Qed.

(** Sizes that differ, neither being 1, do not broadcast. *)
Lemma broadcast2_mismatch {A B C : Type} (f : A -> B -> C) (a : list A) (b : list B) :
  length a <> length b -> length a <> 1%nat -> length b <> 1%nat ->
  broadcast2 f a b = Raise RuntimeError.
Proof.
  intros Hab Ha Hb. unfold broadcast2.
  destruct (Nat.eqb_spec (length a) (length b)) as [H | _]; [contradiction |].
  destruct a as [| x [| x' a]]; destruct b as [| y [| y' b]];
    cbn in Ha, Hb; try reflexivity; contradiction.
Qed.

Lemma broadcast_rows_same {A B C : Type} (f : A -> B -> C)
    (a : list (list A)) (b : list (list B)) :
  Forall2 (fun s t => length s = length t) a b ->
  broadcast_rows f a b = Ok (map2 (map2 f) a b).
Proof.
  intros H. unfold broadcast_rows.
  rewrite broadcast2_same by (induction H; cbn; congruence). cbn [bind].
  induction H as [| s t a b Hst _ IH]; [reflexivity |].
  cbn [map2 sequence]. rewrite (broadcast2_same f s t Hst). cbn [bind].
  now rewrite IH.
Qed.

(** A first pair of rows whose sizes do not broadcast makes the whole
    operation fail. *)
Lemma broadcast_rows_mismatch {A B C : Type} (f : A -> B -> C)
    (s : list A) (t : list B) (a : list (list A)) (b : list (list B)) :
  length a = length b ->
  length s <> length t -> length s <> 1%nat -> length t <> 1%nat ->
  broadcast_rows f (s :: a) (t :: b) = Raise RuntimeError.
Proof.
  intros Hab Hst Hs Ht. unfold broadcast_rows.
  rewrite broadcast2_same by (cbn; congruence). cbn [bind map2 sequence].
  now rewrite (broadcast2_mismatch f s t Hst Hs Ht).
Qed.

Lemma map_map2 {A B C D : Type} (g : C -> D) (f : A -> B -> C) (a : list A) (b : list B) :
  map g (map2 f a b) = map2 (fun x y => g (f x y)) a b.
Proof.
  revert b. induction a as [| x a IH]; intros [| y b]; try reflexivity.
  cbn [map2 map]. now rewrite IH.
Qed.

Lemma same_channels_same_length {A B : Type} (P : list A -> list B -> Prop)
    (a : list (list A)) (b : list (list B)) :
  Forall2 (fun s t => length s = length t /\ P s t) a b ->
  Forall2 (fun s t => length s = length t) a b.
Proof. intros H. eapply Forall2_impl; [| exact H]. cbn beta. now intros s t [Hl _]. Qed.

(** On student and teacher tensors of the same shape the two terms pair the
    channels one by one. *)
Lemma direction_term_same_shape (out_batch : OutBatch) (b0 : Batch) (rest : list Batch) :
  Forall2 (fun s t => length s = length t)
          (vector_feature (out out_batch)) (vector_feature (t_out out_batch)) ->
  direction_term out_batch (b0 :: rest) =
  (per_system <-
     scatter_mean
       (map2 (fun s t => meanR (map2 (fun a b => 1 - cosine_similarity a b) s t))
             (vector_feature (out out_batch)) (vector_feature (t_out out_batch)))
       (batch b0) ;;
   Ok (meanR per_system)).
Proof.
  intros H. unfold direction_term.
  rewrite (broadcast_rows_same _ _ _ H). cbn [bind]. now rewrite map_map2.
Qed.

Lemma magnitude_term_same_shape (out_batch : OutBatch) (b0 : Batch) (rest : list Batch) :
  Forall2 (fun s t => length s = length t)
          (vector_feature (out out_batch)) (vector_feature (t_out out_batch)) ->
  magnitude_term out_batch (b0 :: rest) =
  (per_system <-
     scatter_mean
       (map2 (fun s t => meanR (map2 (fun a b => Rabs (vnorm a - vnorm b)) s t))
             (vector_feature (out out_batch)) (vector_feature (t_out out_batch)))
       (batch b0) ;;
   Ok (meanR per_system)).
Proof.
  intros H. unfold magnitude_term.
  rewrite (broadcast_rows_same _ _ _ H). cbn [bind]. now rewrite map_map2.
Qed.

Lemma Forall2_Forall2_same_length {A B : Type} (P : A -> B -> Prop)
    (a : list (list A)) (b : list (list B)) :
  Forall2 (Forall2 P) a b -> Forall2 (fun s t => length s = length t) a b.
Proof.
  intros H. eapply Forall2_impl; [| exact H]. cbn beta.
  intros s t Hst. induction Hst; cbn; congruence.
Qed.

Lemma values_of_system_nonempty (values : list R) (membership : list nat) (k : nat) :
  length values = length membership -> In k membership ->
  values_of_system values membership k <> [].
Proof.
  unfold values_of_system. revert membership.
  induction values as [| v values IH]; intros [| i membership] Hlen Hin;
    try discriminate; [contradiction |].
  cbn [combine filter snd]. destruct (Nat.eqb_spec i k) as [-> | Hne].
  - discriminate.
  - destruct Hin as [-> | Hin]; [contradiction |].
    apply IH; [cbn in Hlen; lia | exact Hin].
Qed.

(** The scatter reduction is the average per system of the specification
    as soon as every system has an atom. *)
Lemma scatter_mean_averaged_per_system (values : list R) (membership : list nat)
    (out_ : list R) :
  (forall k, (k < dim_size membership)%nat -> In k membership) ->
  scatter_mean values membership = Ok out_ ->
  meanR out_ = averaged_per_system values membership.
Proof.
  intros Hall. unfold scatter_mean.
  destruct (Nat.eqb_spec (length values) (length membership)) as [Hlen | _];
    [| discriminate].
  intros [= <-]. unfold averaged_per_system. f_equal.
  apply map_ext_in. intros k Hk. apply in_seq in Hk.
  fold (values_of_system values membership k).
  pose proof (values_of_system_nonempty values membership k Hlen
                (Hall k ltac:(lia))) as Hne.
  unfold meanR. f_equal. f_equal.
  destruct (values_of_system values membership k); [contradiction | cbn [length]; lia].
Qed.

(** C7 (as amended). On a batch with at least one atom, with one feature
    row per atom and the same positive number of channels in the student's
    and the teacher's row of every atom, the loss is [(1 - lambda)] times
    the magnitude term plus [lambda] times the direction term, with the
    [lambda] that construction checked to lie in [0, 1]; when every system
    has an atom the two terms are the per-atom terms averaged per system.
    The magnitude term is 0 when corresponding norms are equal.  The
    direction term is 0 when every student vector is a positive multiple of
    its teacher vector and the product of their norms is at least the clamp
    1e-8 of the cosine denominator. *)
Theorem vec2vec_geometric_terms (teacher_loaded : result unit)
    (cfg : DistillationConfig) (self : Trainer)
    (out_batch : OutBatch) (b0 : Batch) (rest : list Batch) :
  __init__ teacher_loaded cfg = Ok self ->
  (0 < length (batch b0))%nat ->
  length (vector_feature (out out_batch)) = length (batch b0) ->
  Forall2 (fun s t => length s = length t /\ s <> [])
          (vector_feature (out out_batch)) (vector_feature (t_out out_batch)) ->
  0 <= v2v_geom_lambda self <= 1 /\
  (exists m d,
     magnitude_term out_batch (b0 :: rest) = Ok m /\
     direction_term out_batch (b0 :: rest) = Ok d /\
     _vec2vec_geometric (v2v_geom_lambda self) out_batch (b0 :: rest) =
       Ok ((1 - v2v_geom_lambda self) * m + v2v_geom_lambda self * d) /\
     ((forall k, (k < dim_size (batch b0))%nat -> In k (batch b0)) ->
      m = averaged_per_system
            (map2 atom_magnitude (vector_feature (out out_batch))
                                 (vector_feature (t_out out_batch)))
            (batch b0) /\
      d = averaged_per_system
            (map2 atom_direction (vector_feature (out out_batch))
                                 (vector_feature (t_out out_batch)))
            (batch b0))) /\
  (Forall2 (Forall2 (fun s t => exists c, 0 < c /\ s = vscale c t /\
                                          cosine_eps <= vnorm s * vnorm t))
           (vector_feature (out out_batch)) (vector_feature (t_out out_batch)) ->
   direction_term out_batch (b0 :: rest) = Ok 0) /\
  (Forall2 (Forall2 (fun s t => vnorm s = vnorm t))
           (vector_feature (out out_batch)) (vector_feature (t_out out_batch)) ->
   magnitude_term out_batch (b0 :: rest) = Ok 0).
Proof.
  intros Hinit _ Hs Hshape. split; [exact (init_lambda_range _ _ _ Hinit) |].
  pose proof (same_channels_same_length _ _ _ Hshape) as Hsame.
  assert (Ht : length (vector_feature (t_out out_batch)) = length (batch b0)).
  { rewrite <- Hs. symmetry. clear - Hsame. induction Hsame; cbn; congruence. }
  split; [| split].
  - unfold _vec2vec_geometric.
    rewrite (direction_term_same_shape _ _ _ Hsame), (magnitude_term_same_shape _ _ _ Hsame).
    destruct (scatter_mean_returns
                (map2 (fun s t => meanR (map2 (fun a b => 1 - cosine_similarity a b) s t))
                      (vector_feature (out out_batch)) (vector_feature (t_out out_batch)))
                (batch b0)) as [d Hd].
    { rewrite length_map2, Hs, Ht. apply Nat.min_id. }
    destruct (scatter_mean_returns
                (map2 (fun s t => meanR (map2 (fun a b => Rabs (vnorm a - vnorm b)) s t))
                      (vector_feature (out out_batch)) (vector_feature (t_out out_batch)))
                (batch b0)) as [m Hm].
    { rewrite length_map2, Hs, Ht. apply Nat.min_id. }
    rewrite Hd, Hm. cbn [bind]. eexists _, _.
    split; [reflexivity |]. split; [reflexivity |]. split; [reflexivity |].
    intros Hall. split.
    + exact (scatter_mean_averaged_per_system _ _ _ Hall Hm).
    + exact (scatter_mean_averaged_per_system _ _ _ Hall Hd).
  - intros Hpar. rewrite (direction_term_same_shape _ _ _ Hsame).
    assert (Hf : forall s t : vec3,
               (exists c, 0 < c /\ s = vscale c t /\ cosine_eps <= vnorm s * vnorm t) ->
               1 - cosine_similarity s t = 0).
    { intros s t [c [Hc [Hst He]]].
      rewrite (cosine_similarity_parallel c s t Hc Hst He). ring. }
    destruct (map2_mean_zero _ (fun a b => 1 - cosine_similarity a b) _ _ Hf Hpar)
      as [Hz Hl].
    destruct (scatter_mean_zeros _ (batch b0) Hz) as [o [Ho [Hoz _]]].
    { now rewrite Hl. }
    rewrite Ho. cbn [bind]. now rewrite meanR_zeros.
  - intros Hnorm. rewrite (magnitude_term_same_shape _ _ _ Hsame).
    assert (Hf : forall s t : vec3, vnorm s = vnorm t -> Rabs (vnorm s - vnorm t) = 0).
    { intros s t ->. replace (vnorm t - vnorm t) with 0 by ring. apply Rabs_R0. }
    destruct (map2_mean_zero _ (fun a b => Rabs (vnorm a - vnorm b)) _ _ Hf Hnorm)
      as [Hz Hl].
    destruct (scatter_mean_zeros _ (batch b0) Hz) as [o [Ho [Hoz _]]].
    { now rewrite Hl. }
    rewrite Ho. cbn [bind]. now rewrite meanR_zeros.
Qed.

Lemma vec2vec_geometric_terms_witness :
  let ob := mk_out_batch (out_vectors [[mk3 2 0 0; mk3 0 3 0]])
                         (out_vectors [[mk3 1 0 0; mk3 0 1 0]]) in
  let b := one_atom vzero vzero in
  exists self,
    __init__ (Ok tt) (cfg_geometric None (PyFloat 1) "vec2vec_geometric") = Ok self /\
    (0 < length (batch b))%nat /\
    length (vector_feature (out ob)) = length (batch b) /\
    Forall2 (fun s t : list vec3 => length s = length t /\ s <> [])
            (vector_feature (out ob)) (vector_feature (t_out ob)) /\
    0 <= v2v_geom_lambda self <= 1 /\
    direction_term ob [b] = Ok 0.
Proof.
  cbv zeta.
  assert (Hinit : exists self,
            __init__ (Ok tt) (cfg_geometric None (PyFloat 1) "vec2vec_geometric") = Ok self).
  { unfold __init__, cfg_geometric. cbn.
    destruct (Rle_dec (1 / 2) 1) as [_ | H]; [| exfalso; lra].
    destruct (Rge_dec (1 / 2) 0) as [_ | H]; [| exfalso; lra].
    eexists. reflexivity. }
  destruct Hinit as [self Hinit]. exists self.
  assert (Hatom : (0 < length (batch (one_atom vzero vzero)))%nat) by (cbn; lia).
  assert (Hshape : Forall2 (fun s t : list vec3 => length s = length t /\ s <> [])
                     [[mk3 2 0 0; mk3 0 3 0]] [[mk3 1 0 0; mk3 0 1 0]]).
  { repeat constructor. discriminate. }
  split; [exact Hinit |]. split; [exact Hatom |].
  split; [reflexivity |]. split; [exact Hshape |].
  destruct (vec2vec_geometric_terms (Ok tt) _ self
              (mk_out_batch (out_vectors [[mk3 2 0 0; mk3 0 3 0]])
                            (out_vectors [[mk3 1 0 0; mk3 0 1 0]]))
              (one_atom vzero vzero) [] Hinit Hatom eq_refl Hshape)
    as [Hlam [_ [Hdir _]]].
  split; [exact Hlam |]. apply Hdir. cbn.
  repeat constructor.
  - exists 2. split; [lra |]. split.
    + unfold vscale. cbn. f_equal; ring.
    + rewrite !vnorm_x_axis by lra. unfold cosine_eps. lra.
  - exists 3. split; [lra |]. split.
    + unfold vscale. cbn. f_equal; ring.
    + assert (Hy : forall a, 0 <= a -> vnorm (mk3 0 a 0) = a).
      { intros a Ha. unfold vnorm, vdot. cbn.
        replace (0 * 0 + a * a + 0 * 0) with (a * a) by ring. now apply sqrt_square. }
      rewrite !Hy by lra. unfold cosine_eps. lra.
Defined.

Lemma scatter_mean_single (x : R) : scatter_mean [x] [0%nat] = Ok [x].
Proof.
  unfold scatter_mean. cbn. f_equal. f_equal. field.
Qed.

Lemma meanR_single (x : R) : meanR [x] = x.
Proof. unfold meanR. cbn. field. Qed.

(** C7, counterexample to the claim as stated: a zero student vector is a
    positive multiple of a zero teacher vector, the clamped cosine similarity
    of the two is 0, and the direction term is 1. *)
Lemma vec2vec_direction_zero_vector_counterexample :
  let ob := mk_out_batch (out_vectors [[vzero]]) (out_vectors [[vzero]]) in
  0 < 1 /\ vzero = vscale 1 vzero /\
  direction_term ob [one_atom vzero vzero] = Ok 1 /\
  Ok 1 <> Ok 0.
Proof.
  cbv zeta. split; [lra |]. split; [now rewrite vscale_vzero |]. split.
  - rewrite direction_term_same_shape by (repeat constructor).
    cbn [vector_feature out t_out out_vectors map2 batch one_atom].
    rewrite meanR_single.
    replace (cosine_similarity vzero vzero) with 0.
    + replace (1 - 0) with 1 by ring.
      rewrite scatter_mean_single. cbn [bind]. now rewrite meanR_single.
    + unfold cosine_similarity, vdot, vzero. cbn. unfold Rdiv. ring.
  - intros H. injection H as H. lra.
Qed.

(** ** Teacher checkpoint keys *)

Lemma dict_set_fresh {V : Type} (d : list (string * V)) (k : string) (v : V) :
  ~ In k (keys d) -> dict_set d k v = d ++ [(k, v)].
Proof.
  induction d as [| [k' v'] d IH]; intros Hk; [reflexivity |].
  cbn [dict_set app]. destruct (String.eqb_spec k k') as [-> | Hne].
  - exfalso. apply Hk. now left.
  - f_equal. apply IH. intros Hin. apply Hk. now right.
Qed.

Lemma dict_comprehension_acc {V : Type} (f : string -> string)
    (items acc : list (string * V)) :
  NoDup (keys acc ++ map f (keys items)) ->
  fold_left (fun d kv => dict_set d (f (fst kv)) (snd kv)) items acc =
  acc ++ map (fun kv => (f (fst kv), snd kv)) items.
Proof.
  revert acc. induction items as [| [k v] items IH]; intros acc Hnd.
  - cbn. now rewrite app_nil_r.
  - cbn [fold_left map fst snd keys] in *.
    rewrite dict_set_fresh.
    + rewrite IH.
      * now rewrite <- app_assoc.
      * unfold keys in *. rewrite map_app. cbn [map fst].
        rewrite <- app_assoc. exact Hnd.
    + apply NoDup_remove_2 in Hnd. intros Hin. apply Hnd.
      apply in_or_app. now left.
Qed.

(** A comprehension whose new keys are distinct renames the keys in place. *)
Lemma dict_comprehension_nodup {V : Type} (f : string -> string)
    (items : list (string * V)) :
  NoDup (map f (keys items)) ->
  dict_comprehension f items = map (fun kv => (f (fst kv), snd kv)) items.
Proof.
  intros H. unfold dict_comprehension. now rewrite dict_comprehension_acc.
Qed.

Lemma append_injective (p a b : string) : append p a = append p b -> a = b.
Proof.
  induction p as [| c p IH]; intros H; [exact H |].
  cbn in H. injection H as H. now apply IH.
Qed.

Lemma NoDup_map_append (p : string) (l : list string) :
  NoDup l -> NoDup (map (append p) l).
Proof.
  induction 1 as [| k l Hk _ IH]; [constructor |].
  cbn [map]. constructor; [| exact IH].
  intros Hin. apply in_map_iff in Hin. destruct Hin as [k' [Hk' Hin]].
  apply append_injective in Hk'. now subst k'.
Qed.

Lemma keys_add_prefix {V : Type} (d : list (string * V)) :
  keys (add_prefix d) = map (append "module.") (keys d).
Proof. unfold keys, add_prefix. now rewrite !map_map. Qed.

Lemma load_state_dict_cases {V : Type} (model_keys : list string) (d : list (string * V)) :
  (keys_match model_keys d = true /\ load_state_dict model_keys d = Ok d) \/
  (keys_match model_keys d = false /\ load_state_dict model_keys d = Raise StateMismatch).
Proof.
  unfold load_state_dict, keys_match.
  destruct (subset_keys model_keys (keys d) && subset_keys (keys d) model_keys);
    [left | right]; split; reflexivity.
Qed.

(** What [load_teacher] hands to [load_state_dict] is the checkpoint itself,
    the checkpoint with the first seven characters of every key dropped, or
    the checkpoint with "module." put before every key. *)
Lemma load_teacher_candidates {V : Type} (initialized noddp : bool)
    (base_keys : list string) (first_key : string) (v : V)
    (rest : list (string * V)) (c : string) :
  second_component first_key = Ok c ->
  let ckpt := (first_key, v) :: rest in
  exists d,
    (d = ckpt \/ d = dict_comprehension (drop_chars 7) ckpt \/
     d = dict_comprehension (append "module.") ckpt) /\
    load_teacher initialized noddp base_keys ckpt =
    load_state_dict (teacher_keys initialized noddp base_keys) d.
Proof.
  intros Hc ckpt. subst ckpt. unfold load_teacher. rewrite Hc. cbn [bind].
  destruct (negb initialized || noddp); cbn [bind].
  - destruct (String.eqb c "module"); cbn [bind].
    + eexists. split; [right; left; reflexivity | reflexivity].
    + destruct initialized; cbn [bind negb].
      * eexists. split; [right; right; reflexivity | reflexivity].
      * eexists. split; [left; reflexivity | reflexivity].
  - destruct initialized; cbn [bind].
    + destruct (String.eqb c "module"); cbn [bind negb].
      * eexists. split; [left; reflexivity | reflexivity].
      * eexists. split; [right; right; reflexivity | reflexivity].
    + eexists. split; [left; reflexivity | reflexivity].
Qed.

(** C8. A checkpoint whose first key names something other than "module"
    in second place, loaded into the distributed-wrapped teacher, has
    "module." put before every key; a checkpoint whose keys all carry the
    prefix and whose first key has "module" in second place, loaded into a
    teacher that is not distributed-wrapped, has the prefix stripped from
    every key; and whatever is handed to the strict loader either has exactly
    the keys of the teacher or the load raises the state-mismatch error. *)
Theorem load_teacher_key_adjustment (V : Type) (base_keys : list string)
    (first_key : string) (v : V) (rest : list (string * V)) (c : string) :
  second_component first_key = Ok c ->
  let ckpt := (first_key, v) :: rest in
  NoDup (keys ckpt) ->
  (c <> "module"%string ->
   load_teacher true false base_keys ckpt =
   load_state_dict (teacher_keys true false base_keys) (add_prefix ckpt)) /\
  (c = "module"%string ->
   forall initialized noddp inner,
     negb initialized || noddp = true ->
     ckpt = add_prefix inner ->
     load_teacher initialized noddp base_keys ckpt =
     load_state_dict (teacher_keys initialized noddp base_keys) inner) /\
  (forall initialized noddp,
     (exists d, load_teacher initialized noddp base_keys ckpt = Ok d /\
                keys_match (teacher_keys initialized noddp base_keys) d = true) \/
     load_teacher initialized noddp base_keys ckpt = Raise StateMismatch) /\
  (forall initialized noddp,
     keys_match (teacher_keys initialized noddp base_keys) ckpt = false ->
     keys_match (teacher_keys initialized noddp base_keys)
                (dict_comprehension (drop_chars 7) ckpt) = false ->
     keys_match (teacher_keys initialized noddp base_keys)
                (dict_comprehension (append "module.") ckpt) = false ->
     load_teacher initialized noddp base_keys ckpt = Raise StateMismatch).
Proof.
  intros Hc ckpt Hnd. subst ckpt. split; [| split; [| split]].
  - intros Hne. unfold load_teacher. rewrite Hc. cbn [negb orb bind].
    destruct (String.eqb_spec c "module") as [-> | _]; [contradiction |].
    cbn [negb]. f_equal.
    rewrite dict_comprehension_nodup; [reflexivity |].
    now apply NoDup_map_append.
  - intros -> initialized noddp inner Hmodel Hinner.
    unfold load_teacher. rewrite Hmodel, Hc. cbn [bind].
    rewrite String.eqb_refl. f_equal.
    assert (Hk : map (drop_chars 7) (keys (add_prefix inner)) = keys inner).
    { rewrite keys_add_prefix, map_map. cbn. apply map_id. }
    rewrite Hinner, dict_comprehension_nodup.
    + unfold add_prefix. rewrite map_map. cbn [fst snd].
      rewrite <- (map_id inner) at 2. apply map_ext. now intros [k w].
    + rewrite Hk. rewrite Hinner, keys_add_prefix in Hnd.
      exact (NoDup_map_inv _ _ Hnd).
  - intros initialized noddp.
    destruct (load_teacher_candidates initialized noddp base_keys first_key v rest c Hc)
      as [d [_ Hload]].
    cbv zeta in Hload. rewrite Hload.
    destruct (load_state_dict_cases (teacher_keys initialized noddp base_keys) d)
      as [[Hm ->] | [_ ->]].
    + left. now exists d.
    + now right.
  - intros initialized noddp H1 H2 H3.
    destruct (load_teacher_candidates initialized noddp base_keys first_key v rest c Hc)
      as [d [Hd Hload]].
    cbv zeta in Hload, Hd. rewrite Hload.
    destruct (load_state_dict_cases (teacher_keys initialized noddp base_keys) d)
      as [[Hm _] | [_ ->]]; [| reflexivity].
    destruct Hd as [-> | [-> | ->]]; congruence.
Qed.

Lemma load_teacher_key_adjustment_witness :
  second_component "module.emb.weight" = Ok "emb"%string /\
  NoDup (keys ckpt_non_distributed) /\
  "emb"%string <> "module"%string /\
  load_teacher true false base_keys_example ckpt_non_distributed =
    Ok [("module.module.emb.weight"%string, 1%nat);
        ("module.module.out.bias"%string, 2%nat)] /\
  load_teacher false false base_keys_example
    [("module.module.emb.weight"%string, 1%nat);
     ("module.module.out.bias"%string, 2%nat)] = Ok ckpt_non_distributed.
Proof.
  assert (Hc : second_component "module.emb.weight" = Ok "emb"%string) by reflexivity.
  assert (Hnd : NoDup (keys ckpt_non_distributed)).
  { cbn. repeat constructor; cbn; intuition discriminate. }
  assert (Hne : "emb"%string <> "module"%string) by discriminate.
  split; [exact Hc |]. split; [exact Hnd |]. split; [exact Hne |]. split.
  - unfold ckpt_non_distributed.
    rewrite (proj1 (load_teacher_key_adjustment nat base_keys_example
                      "module.emb.weight" 1%nat
                      [("module.out.bias"%string, 2%nat)] "emb" Hc Hnd) Hne).
    reflexivity.
  - reflexivity.
Defined.

(** ** Traces *)

Lemma bindT_lift_ok {A B : Type} (a : A) (k : A -> traced B) :
  bindT (lift (Ok a)) k = k a.
Proof. unfold bindT, lift. cbn. now destruct (k a). Qed.

Lemma bindT_lift_raise {A B : Type} (e : exn) (k : A -> traced B) :
  bindT (lift (Raise e)) k = ([], Raise e).
Proof. reflexivity. Qed.

Lemma bindT_emit {B : Type} (ev : event) (k : unit -> traced B) :
  bindT (emit ev) k = (ev :: fst (k tt), snd (k tt)).
Proof. reflexivity. Qed.

(** ** Construction and the first step: when configuration errors surface *)

Lemma init_fields (teacher_loaded : result unit) (cfg : DistillationConfig)
    (self : Trainer) :
  __init__ teacher_loaded cfg = Ok self ->
  distillation self = cfg /\
  distill_fns self = map strip (split_on "," (cfg_distill_loss cfg)) /\
  distill_lambda self =
    broadcast_lambda (cfg_distill_lambda cfg) (length (distill_fns self)).
Proof.
  unfold __init__. destruct teacher_loaded as [[] | e]; cbn [bind]; [| discriminate].
  destruct (Rle_dec (get (cfg_v2v_geom_lambda cfg) (1 / 2)) 1); [| discriminate].
  destruct (Rge_dec (get (cfg_v2v_geom_lambda cfg) (1 / 2)) 0); [| discriminate].
  destruct (contains "adversarial" (cfg_distill_loss cfg)
            || contains "random_jitter" (cfg_distill_loss cfg)).
  - destruct (cfg_adversarial_distill_loss cfg); cbn [getitem bind]; [| discriminate].
    destruct (cfg_adversarial_distill_lambda cfg); cbn [getitem bind]; [| discriminate].
    intros H. injection H as <-. repeat split.
  - intros H. injection H as <-. repeat split.
Qed.

Lemma init_lambda_out_of_range (cfg : DistillationConfig) :
  ~ (0 <= get (cfg_v2v_geom_lambda cfg) (1 / 2) <= 1) ->
  __init__ (Ok tt) cfg = Raise AssertionError.
Proof.
  intros H. unfold __init__. cbn [bind].
  destruct (Rle_dec (get (cfg_v2v_geom_lambda cfg) (1 / 2)) 1); [| reflexivity].
  destruct (Rge_dec (get (cfg_v2v_geom_lambda cfg) (1 / 2)) 0); [| reflexivity].
  exfalso. apply H. lra.
Qed.

Lemma init_ignores_ratio_and_lambda (teacher_loaded : result unit)
    (cfg : DistillationConfig) (ratio : option R) (lambdas : pyval) :
  is_ok (__init__ teacher_loaded (with_ratio_and_lambda cfg ratio lambdas)) =
  is_ok (__init__ teacher_loaded cfg).
Proof.
  unfold __init__, with_ratio_and_lambda.
  cbn [cfg_distill_loss cfg_distill_lambda cfg_v2v_geom_lambda
       cfg_loss_weighting_synthetic cfg_random_std cfg_random_fixed_length
       cfg_random_mode cfg_adversarial_lr cfg_n_adversarial_steps
       cfg_adversarial_alpha cfg_enable_pgd cfg_pgd_mode cfg_adversarial_init_sd
       cfg_adversarial_teacher_grad cfg_adversarial_force_prop cfg_force_reg
       cfg_adversarial_distill_loss cfg_adversarial_distill_lambda].
  destruct teacher_loaded as [[] | e]; cbn [bind]; [| reflexivity].
  destruct (Rle_dec (get (cfg_v2v_geom_lambda cfg) (1 / 2)) 1); [| reflexivity].
  destruct (Rge_dec (get (cfg_v2v_geom_lambda cfg) (1 / 2)) 0); [| reflexivity].
  destruct (contains "adversarial" (cfg_distill_loss cfg)
            || contains "random_jitter" (cfg_distill_loss cfg)); [| reflexivity].
  destruct (cfg_adversarial_distill_loss cfg); cbn [getitem bind]; [| reflexivity].
  destruct (cfg_adversarial_distill_lambda cfg); reflexivity.
Qed.

Lemma loss_weights_bad_ratio (ratio : R) (batch_list : list Batch) :
  ratio <= 0 -> _loss_weights_d1M (Some ratio) batch_list = Raise AssertionError.
Proof.
  intros H. unfold _loss_weights_d1M.
  destruct (Rlt_dec 0 ratio); [lra | reflexivity].
Qed.

(** A non-positive ratio stops the first step inside the supervised loss,
    after the batch went through both networks. *)
Lemma train_step_bad_ratio (env : Env) (self : Trainer) (batch_list : list Batch)
    (ratio : R) :
  cfg_loss_weighting_synthetic (distillation self) = Some ratio ->
  ratio <= 0 ->
  regress_forces env = true ->
  train_step env self batch_list = ([Forward], Raise AssertionError).
Proof.
  intros Hcfg Hratio Hreg. unfold train_step, _distill_forward.
  rewrite Hreg, bindT_lift_ok, bindT_emit.
  unfold _compute_loss. rewrite Hcfg, loss_weights_bad_ratio by exact Hratio.
  cbn [bind]. rewrite bindT_lift_raise. reflexivity.
Qed.

(** A coefficient entry that cannot be indexed at the first loss stops the
    first step after the forward pass, the supervised loss and the first
    distillation loss. *)
Lemma train_step_bad_lambda (env : Env) (self : Trainer) (batch_list : list Batch)
    (out_batch : OutBatch) (supervised : R * OutDict * option OutDict)
    (name : string) (fns : list string)
    (f : OutBatch -> list Batch -> result R) (v : R) (e : exn) :
  _distill_forward env batch_list = Ok out_batch ->
  _compute_loss env (cfg_loss_weighting_synthetic (distillation self))
                (out out_batch) batch_list None = Ok supervised ->
  distill_fns self = name :: fns ->
  dispatch env self name = Ok f ->
  f (mk_out_batch (snd (fst supervised)) (t_out out_batch)) batch_list = Ok v ->
  lambda_at (distill_lambda self) 0 = Raise e ->
  train_step env self batch_list =
    ([Forward; SupervisedLoss; DistillLoss name], Raise e).
Proof.
  intros Hfwd Hsup Hfns Hd Hf Hlam. unfold train_step.
  rewrite Hfwd, bindT_lift_ok, bindT_emit, Hsup, bindT_lift_ok, bindT_emit.
  rewrite Hfns. cbn [distill_losses].
  rewrite Hd, bindT_lift_ok, Hf, bindT_lift_ok, bindT_emit, Hlam.
  reflexivity.
Qed.

(** C9 (as amended). Of the configuration errors only an interpolation
    weight outside [0, 1] is fatal at construction.  Whether construction
    succeeds does not depend on the weighting ratio or on the coefficient
    entry.  A non-positive ratio raises the assertion of the weighting policy
    in the first training step, after the forward pass of the first batch; a
    coefficient entry that cannot be indexed raises when it is looked up,
    after the supervised loss and the distillation loss were computed. *)
Theorem configuration_errors_surface (env : Env) (cfg : DistillationConfig)
    (batch_list : list Batch) :
  (~ (0 <= get (cfg_v2v_geom_lambda cfg) (1 / 2) <= 1) ->
   __init__ (Ok tt) cfg = Raise AssertionError) /\
  (forall teacher_loaded ratio lambdas,
     is_ok (__init__ teacher_loaded (with_ratio_and_lambda cfg ratio lambdas)) =
     is_ok (__init__ teacher_loaded cfg)) /\
  (forall self ratio,
     __init__ (Ok tt) cfg = Ok self ->
     cfg_loss_weighting_synthetic cfg = Some ratio ->
     ratio <= 0 ->
     regress_forces env = true ->
     construct_and_step env (Ok tt) cfg batch_list =
       ([Constructed; Forward], Raise AssertionError)) /\
  (forall self out_batch supervised name fns f v e,
     __init__ (Ok tt) cfg = Ok self ->
     _distill_forward env batch_list = Ok out_batch ->
     _compute_loss env (cfg_loss_weighting_synthetic cfg)
                   (out out_batch) batch_list None = Ok supervised ->
     distill_fns self = name :: fns ->
     dispatch env self name = Ok f ->
     f (mk_out_batch (snd (fst supervised)) (t_out out_batch)) batch_list = Ok v ->
     lambda_at (distill_lambda self) 0 = Raise e ->
     construct_and_step env (Ok tt) cfg batch_list =
       ([Constructed; Forward; SupervisedLoss; DistillLoss name], Raise e)).
Proof.
  split; [apply init_lambda_out_of_range |].
  split; [intros; apply init_ignores_ratio_and_lambda |].
  split.
  - intros self ratio Hinit Hcfg Hratio Hreg.
    unfold construct_and_step. rewrite Hinit, bindT_lift_ok, bindT_emit.
    destruct (init_fields _ _ _ Hinit) as [Hd _].
    rewrite (train_step_bad_ratio env self batch_list ratio); [reflexivity | | |];
      try assumption.
    now rewrite Hd.
  - intros self out_batch supervised name fns f v e
           Hinit Hfwd Hsup Hfns Hdisp Hf Hlam.
    unfold construct_and_step. rewrite Hinit, bindT_lift_ok, bindT_emit.
    destruct (init_fields _ _ _ Hinit) as [Hd _].
    rewrite (train_step_bad_lambda env self batch_list out_batch supervised
               name fns f v e); [reflexivity | | | | | |]; try assumption.
    now rewrite Hd.
Qed.

Lemma init_plain (ratio : option R) (lambdas : pyval) (losses : string) :
  contains "random_jitter" losses = false ->
  contains "adversarial_jitter" losses = false ->
  contains "adversarial" losses = false ->
  __init__ (Ok tt) (cfg_geometric ratio lambdas losses) =
  Ok (mk_trainer (cfg_geometric ratio lambdas losses) None None (1 / 2)
        (map strip (split_on "," losses))
        (broadcast_lambda lambdas (length (map strip (split_on "," losses))))
        None None).
Proof.
  intros Hr Haj Ha. unfold __init__, cfg_geometric.
  cbn [bind cfg_distill_loss cfg_v2v_geom_lambda get cfg_distill_lambda].
  rewrite Hr, Haj, Ha. cbn [orb].
  destruct (Rle_dec (1 / 2) 1) as [_ | H]; [| exfalso; lra].
  destruct (Rge_dec (1 / 2) 0) as [_ | H]; [| exfalso; lra].
  reflexivity.
Qed.

Lemma configuration_errors_surface_witness :
  let cfg := cfg_geometric (Some (-1)) (PyFloat 1) "vec2vec_geometric" in
  exists self,
    __init__ (Ok tt) cfg = Ok self /\
    cfg_loss_weighting_synthetic cfg = Some (-1) /\
    -1 <= 0 /\
    regress_forces env_example = true /\
    construct_and_step env_example (Ok tt) cfg [one_atom vzero vzero] =
      ([Constructed; Forward], Raise AssertionError).
Proof.
  cbv zeta. eexists.
  assert (Hinit := init_plain (Some (-1)) (PyFloat 1) "vec2vec_geometric"
                     eq_refl eq_refl eq_refl).
  assert (Hratio : -1 <= 0) by lra.
  split; [exact Hinit |]. split; [reflexivity |]. split; [exact Hratio |].
  split; [reflexivity |].
  exact (proj1 (proj2 (proj2 (configuration_errors_surface env_example
                                 (cfg_geometric (Some (-1)) (PyFloat 1) "vec2vec_geometric")
                                 [one_atom vzero vzero])))
           _ (-1) Hinit eq_refl Hratio eq_refl).
Defined.

(** C9, counterexamples to the claim as stated.  With the ratio -1 the
    trainer is constructed, and the assertion of the weighting policy fails
    in the first step, after the forward pass.  With one coefficient for two
    losses the trainer is constructed, and the IndexError comes after the
    supervised loss and both distillation losses were computed. *)
Lemma construction_accepts_bad_configuration_counterexample :
  let bad_ratio := cfg_geometric (Some (-1)) (PyFloat 1) "vec2vec_geometric" in
  let short_lambda :=
    cfg_geometric None (PyList [1]) "node2node_distill_loss, vec2vec_distill_loss" in
  let b := one_atom vzero vzero in
  is_ok (__init__ (Ok tt) bad_ratio) = true /\
  construct_and_step env_example (Ok tt) bad_ratio [b] =
    ([Constructed; Forward], Raise AssertionError) /\
  is_ok (__init__ (Ok tt) short_lambda) = true /\
  construct_and_step env_example (Ok tt) short_lambda [b] =
    ([Constructed; Forward; SupervisedLoss;
      DistillLoss "node2node_distill_loss"; DistillLoss "vec2vec_distill_loss"],
     Raise IndexError).
Proof.
  cbv zeta.
  assert (H1 := init_plain (Some (-1)) (PyFloat 1) "vec2vec_geometric"
                  eq_refl eq_refl eq_refl).
  assert (H2 := init_plain None (PyList [1])
                  "node2node_distill_loss, vec2vec_distill_loss"
                  eq_refl eq_refl eq_refl).
  split; [now rewrite H1 |]. split; [| split; [now rewrite H2 |]].
  - unfold construct_and_step. rewrite H1, bindT_lift_ok, bindT_emit.
    rewrite (train_step_bad_ratio env_example _ [one_atom vzero vzero] (-1));
      [reflexivity | reflexivity | lra | reflexivity].
  - unfold construct_and_step. rewrite H2, bindT_lift_ok, bindT_emit.
    reflexivity.
Qed.

(** ** The supervised loss overwrites the predictions it is given *)

Lemma bindT_ok_inv {A B : Type} (c : traced A) (k : A -> traced B)
    (log : list event) (b : B) :
  bindT c k = (log, Ok b) ->
  exists a l1 l2, c = (l1, Ok a) /\ k a = (l2, Ok b) /\ log = l1 ++ l2.
Proof.
  unfold bindT. destruct c as [l1 [a | e]]; cbn [fst snd].
  - intros H. exists a, l1, (fst (k a)). destruct (k a) as [l2 r]. cbn [fst snd] in *.
    injection H as <- ->. repeat split.
  - intros H. discriminate.
Qed.

Lemma bind_ok_inv {A B : Type} (c : result A) (k : A -> result B) (b : B) :
  bind c k = Ok b -> exists a, c = Ok a /\ k a = Ok b.
Proof.
  destruct c as [a | e]; cbn [bind]; [| discriminate].
  intros H. now exists a.
Qed.

(** [H : x <- c ;; k = Ok b] becomes [Hc : c = Ok a] and [H : k a = Ok b]. *)
Tactic Notation "bind_inv" hyp(H) "as" ident(a) ident(Hc) :=
  apply bind_ok_inv in H; destruct H as [a [Hc H]].

(** The same for a traced computation. *)
Tactic Notation "bindT_inv" hyp(H) "as" ident(a) ident(Hc) :=
  apply bindT_ok_inv in H; destruct H as [a [? [? [Hc [H _]]]]].

(** The weights as the loss uses them: those of the weighting policy, with
    the square root taken where the branch for an MSE loss applies. *)
Lemma compute_loss_effect (env : Env) (lws : option R) (o : OutDict)
    (batch_list : list Batch) (teacher_output : option OutDict)
    (loss : R) (o' : OutDict) (t' : option OutDict) :
  _compute_loss env lws o batch_list teacher_output = Ok (loss, o', t') ->
  exists w_node w_sample,
    _loss_weights_d1M lws batch_list = Ok (w_node, w_sample) /\
    imul (energy o) (if loss_force_is_mse env then map sqrt w_sample else w_sample)
      = Ok (energy o') /\
    (if regress_forces env
     then exists f f',
            forces o = Some f /\
            imul_rows f (if loss_energy_is_mse env then map sqrt w_node else w_node)
              = Ok f' /\
            forces o' = Some f'
     else forces o' = forces o) /\
    node_feature o' = node_feature o /\
    edge_feature o' = edge_feature o /\
    vector_feature o' = vector_feature o /\
    out_natoms o' = out_natoms o.
Proof.
  unfold _compute_loss. intros H.
  bind_inv H as ws Hw. destruct ws as [w_node w_sample].
  exists w_node, w_sample. split; [exact Hw |]. cbn [fst snd] in H.
  bind_inv H as out_energy He.
  bind_inv H as energy_target Htarget.
  destruct (regress_forces env).
  - bind_inv H as force_target Hft.
    bind_inv H as f Hf.
    bind_inv H as f' Hf'.
    bind_inv H as force_target' Hft'.
    bind_inv H as loss_force Hlf.
    injection H as _ <- _. cbn [energy forces set_forces set_energy
                                node_feature edge_feature vector_feature out_natoms].
    split; [exact He |]. split.
    + exists f, f'. cbn [forces set_energy] in Hf.
      destruct (forces o) as [f0 |]; [| discriminate].
      cbn [getitem] in Hf. injection Hf as ->. repeat split. exact Hf'.
    + repeat split.
  - injection H as _ <- _.
    cbn [energy forces set_energy node_feature edge_feature vector_feature out_natoms].
    split; [exact He |]. repeat split.
Qed.

Lemma imul_same_shape (t w : list R) :
  length w = length t -> imul t w = Ok (map2 Rmult t w).
Proof. intros H. unfold imul. now rewrite H, Nat.eqb_refl. Qed.

Lemma imul_rows_same_shape (t : list vec3) (w : list R) :
  length w = length t -> imul_rows t w = Ok (map2 (fun v wi => vscale wi v) t w).
Proof. intros H. unfold imul_rows. now rewrite H, Nat.eqb_refl. Qed.

(** What [_compute_metrics] hands to the evaluator is read off the
    dictionary it is given. *)
Lemma compute_metrics_view (env : Env) (o : OutDict) (batch_list : list Batch)
    (m : MetricsInput) :
  _compute_metrics env o batch_list = Ok m ->
  energy (m_out m) =
    (if normalize_labels env
     then map (denorm (target_mean env) (target_std env)) (energy o)
     else energy o) /\
  (forall f, forces o = Some f ->
     forces (m_out m) =
       Some (let free :=
               if eval_on_free_atoms env
               then masked_select f (map (fun x => (x =? 0)%Z)
                                         (concat (map fixed batch_list)))
               else f in
             if normalize_labels env
             then map (vdenorm (grad_target_mean env) (grad_target_std env)) free
             else free)).
Proof.
  unfold _compute_metrics. intros H.
  bind_inv H as u Hcat.
  bind_inv H as masked Hmask. destruct masked as [[o1 tf] tn].
  bind_inv H as o2 Hnorm.
  injection H as <-. cbn [m_out].
  assert (Ho1 : energy o1 = energy o /\
                forall f, forces o = Some f ->
                  forces o1 = Some (if eval_on_free_atoms env
                                    then masked_select f
                                           (map (fun x => (x =? 0)%Z)
                                                (concat (map fixed batch_list)))
                                    else f)).
  { destruct (eval_on_free_atoms env).
    - bind_inv Hmask as f0 Hf0.
      injection Hmask as <- _ _. cbn [forces set_natoms] in Hf0. split; [reflexivity |].
      intros f Hf. rewrite Hf in Hf0. cbn [getitem] in Hf0. injection Hf0 as <-.
      reflexivity.
    - injection Hmask as <- _ _. split; [reflexivity |]. intros f Hf. exact Hf. }
  destruct Ho1 as [He1 Hf1].
  destruct (normalize_labels env).
  - bind_inv Hnorm as f0 Hf0.
    injection Hnorm as <-. cbn [energy forces set_forces set_energy] in *.
    split; [now rewrite He1 |].
    intros f Hf. rewrite (Hf1 f Hf) in Hf0. cbn [getitem] in Hf0.
    injection Hf0 as <-. reflexivity.
  - injection Hnorm as <-. split; [exact He1 |]. intros f Hf. exact (Hf1 f Hf).
Qed.

(** A training step that completes ran the forward pass, then the supervised
    loss on [out_batch["out"]], then the metrics on the dictionary the
    supervised loss left behind. *)
Lemma train_step_inv (env : Env) (self : Trainer) (batch_list : list Batch)
    (log : list event) (loss : R) (dl : list R) (metrics : MetricsInput) :
  train_step env self batch_list = (log, Ok (loss, dl, metrics)) ->
  exists raw sup scaled t',
    _distill_forward env batch_list = Ok raw /\
    _compute_loss env (cfg_loss_weighting_synthetic (distillation self))
                  (out raw) batch_list None = Ok (sup, scaled, t') /\
    _compute_metrics env scaled batch_list = Ok metrics.
Proof.
  unfold train_step. intros H.
  bindT_inv H as raw Hfwd.
  bindT_inv H as u1 Hforward.
  bindT_inv H as supervised Hsup. destruct supervised as [[sup scaled] t'].
  bindT_inv H as u2 Hsupervised.
  bindT_inv H as dl' Hdl.
  bindT_inv H as u3 Hbackward.
  bindT_inv H as m Hm.
  bindT_inv H as u4 Hmetrics.
  unfold ret in H. injection H as _ _ _ <-.
  exists raw, sup, scaled, t'.
  unfold lift in Hfwd, Hsup, Hm.
  injection Hfwd as _ Hfwd. injection Hsup as _ Hsup. injection Hm as _ Hm.
  cbn [out snd fst] in Hm. repeat split; assumption.
Qed.

Lemma loss_weights_nonempty (lws : option R) (batch_list : list Batch)
    (ws : list R * list R) :
  _loss_weights_d1M lws batch_list = Ok ws -> batch_list <> [].
Proof.
  intros H ->. unfold _loss_weights_d1M in H.
  destruct lws as [r |]; [destruct (Rlt_dec 0 r) |]; discriminate.
Qed.

Lemma plain_force_loss_returns (env : Env) (a b : list vec3) (batch_list : list Batch) :
  batch_list <> [] -> exists l, plain_force_loss env a b batch_list = Ok l.
Proof.
  intros Hne. unfold plain_force_loss.
  destruct (train_on_free_atoms env); [| eexists; reflexivity].
  destruct (loss_force_atomwise env); [| eexists; reflexivity].
  destruct batch_list; [contradiction | eexists; reflexivity].
Qed.

(** On tensors of matching shapes the supervised loss returns, and leaves
    the element-wise products in the dictionary. *)
Lemma compute_loss_returns (env : Env) (lws : option R) (o : OutDict)
    (batch_list : list Batch) (w_node w_sample : list R) (f : list vec3) :
  _loss_weights_d1M lws batch_list = Ok (w_node, w_sample) ->
  length w_sample = length (energy o) ->
  length w_sample = length (concat (map y batch_list)) ->
  forces o = Some f ->
  length w_node = length f ->
  length w_node = length (concat (map force batch_list)) ->
  tag_specific_weights env = [] ->
  regress_forces env = true ->
  let ws := if loss_force_is_mse env then map sqrt w_sample else w_sample in
  let wn := if loss_energy_is_mse env then map sqrt w_node else w_node in
  exists loss,
    _compute_loss env lws o batch_list None =
    Ok (loss,
        set_forces (set_energy o (map2 Rmult (energy o) ws))
                   (map2 (fun v wi => vscale wi v) f wn),
        None).
Proof.
  intros Hw He Hy Hf Hn Hforce Htag Hreg ws wn.
  assert (Hws : length ws = length w_sample)
    by (unfold ws; destruct (loss_force_is_mse env); now rewrite ?length_map).
  assert (Hwn : length wn = length w_node)
    by (unfold wn; destruct (loss_energy_is_mse env); now rewrite ?length_map).
  unfold _compute_loss. rewrite Hw. cbn [bind fst snd]. fold ws wn.
  rewrite (imul_same_shape (energy o) ws) by congruence. cbn [bind].
  rewrite imul_same_shape
    by (destruct (normalize_labels env); rewrite ?length_map; congruence).
  cbn [bind]. rewrite Hreg. cbn [bind forces set_energy]. rewrite Hf. cbn [getitem bind].
  rewrite (imul_rows_same_shape f wn) by congruence. cbn [bind].
  rewrite imul_rows_same_shape
    by (destruct (normalize_labels env); rewrite ?length_map; congruence).
  cbn [bind]. rewrite Htag.
  destruct (plain_force_loss_returns env
              (map2 (fun v wi => vscale wi v) f wn)
              (map2 (fun v wi => vscale wi v)
                 (if normalize_labels env
                  then map (vnormalize (grad_target_mean env) (grad_target_std env))
                           (concat (map force batch_list))
                  else concat (map force batch_list)) wn)
              batch_list (loss_weights_nonempty _ _ _ Hw)) as [l Hl].
  rewrite Hl. cbn [bind]. eexists. reflexivity.
Qed.

(** C10. Every call of the supervised loss that returns leaves in the
    dictionary it was given the energies multiplied by the per-sample weights
    and, when forces are regressed, the forces multiplied by the per-atom
    weights (the weights of the weighting policy as the loss uses them), and
    nothing else of the dictionary changes; on tensors of matching shapes it
    does return.  A training step that completes computes its metrics from
    that same dictionary, so the evaluator receives the scaled energies and
    forces. *)
Theorem compute_loss_scales_out_in_place (env : Env) (self : Trainer)
    (batch_list : list Batch) :
  (forall lws o teacher_output loss o' t',
     _compute_loss env lws o batch_list teacher_output = Ok (loss, o', t') ->
     exists w_node w_sample,
       _loss_weights_d1M lws batch_list = Ok (w_node, w_sample) /\
       imul (energy o) (if loss_force_is_mse env then map sqrt w_sample else w_sample)
         = Ok (energy o') /\
       (if regress_forces env
        then exists f f',
               forces o = Some f /\
               imul_rows f (if loss_energy_is_mse env then map sqrt w_node else w_node)
                 = Ok f' /\
               forces o' = Some f'
        else forces o' = forces o) /\
       node_feature o' = node_feature o /\
       edge_feature o' = edge_feature o /\
       vector_feature o' = vector_feature o /\
       out_natoms o' = out_natoms o) /\
  (forall lws o w_node w_sample f,
     _loss_weights_d1M lws batch_list = Ok (w_node, w_sample) ->
     length w_sample = length (energy o) ->
     length w_sample = length (concat (map y batch_list)) ->
     forces o = Some f ->
     length w_node = length f ->
     length w_node = length (concat (map force batch_list)) ->
     tag_specific_weights env = [] ->
     regress_forces env = true ->
     exists loss,
       _compute_loss env lws o batch_list None =
       Ok (loss,
           set_forces
             (set_energy o
                (map2 Rmult (energy o)
                   (if loss_force_is_mse env then map sqrt w_sample else w_sample)))
             (map2 (fun v wi => vscale wi v) f
                (if loss_energy_is_mse env then map sqrt w_node else w_node)),
           None)) /\
  (forall log loss dl metrics,
     train_step env self batch_list = (log, Ok (loss, dl, metrics)) ->
     exists raw scaled w_node w_sample f f',
       _distill_forward env batch_list = Ok raw /\
       _loss_weights_d1M (cfg_loss_weighting_synthetic (distillation self)) batch_list
         = Ok (w_node, w_sample) /\
       imul (energy (out raw))
            (if loss_force_is_mse env then map sqrt w_sample else w_sample)
         = Ok (energy scaled) /\
       forces (out raw) = Some f /\
       imul_rows f (if loss_energy_is_mse env then map sqrt w_node else w_node)
         = Ok f' /\
       forces scaled = Some f' /\
       _compute_metrics env scaled batch_list = Ok metrics /\
       energy (m_out metrics) =
         (if normalize_labels env
          then map (denorm (target_mean env) (target_std env)) (energy scaled)
          else energy scaled) /\
       forces (m_out metrics) =
         Some (let free :=
                 if eval_on_free_atoms env
                 then masked_select f' (map (fun x => (x =? 0)%Z)
                                            (concat (map fixed batch_list)))
                 else f' in
               if normalize_labels env
               then map (vdenorm (grad_target_mean env) (grad_target_std env)) free
               else free)).
Proof.
  split; [| split].
  - intros lws o teacher_output loss o' t'. apply compute_loss_effect.
  - intros lws o w_node w_sample f. apply compute_loss_returns.
  - intros log loss dl metrics Hstep.
    destruct (train_step_inv _ _ _ _ _ _ _ Hstep) as [raw [sup [scaled [t' [Hfwd [Hsup Hm]]]]]].
    destruct (compute_loss_effect _ _ _ _ _ _ _ _ Hsup)
      as [w_node [w_sample [Hw [He [Hf _]]]]].
    assert (Hreg : regress_forces env = true).
    { unfold _distill_forward in Hfwd. destruct (regress_forces env); [reflexivity | discriminate]. }
    rewrite Hreg in Hf. destruct Hf as [f [f' [Hf0 [Hf1 Hf2]]]].
    destruct (compute_metrics_view _ _ _ _ Hm) as [Hme Hmf].
    exists raw, scaled, w_node, w_sample, f, f'.
    repeat split; try assumption. now apply Hmf.
Qed.

Lemma compute_loss_scales_out_in_place_witness :
  let self := mk_trainer (cfg_geometric (Some 2) (PyList []) "") None None (1 / 2)
                         [] (PyList []) None None in
  exists log loss dl metrics raw,
    train_step env_two_systems self [two_systems] = (log, Ok (loss, dl, metrics)) /\
    _distill_forward env_two_systems [two_systems] = Ok raw /\
    energy (out raw) = [2; 4] /\
    forces (out raw) = Some [mk3 3 0 0; mk3 0 6 0] /\
    energy (m_out metrics) = [2 * (2 / 3); 4 * (4 / 3)] /\
    forces (m_out metrics) =
      Some [vscale (2 / 3) (mk3 3 0 0); vscale (4 / 3) (mk3 0 6 0)].
Proof.
  cbv zeta.
  set (self := mk_trainer (cfg_geometric (Some 2) (PyList []) "") None None (1 / 2)
                          [] (PyList []) None None).
  assert (Hw : _loss_weights_d1M (Some 2) [two_systems]
               = Ok ([2 / 3; 4 / 3], [2 / 3; 4 / 3])).
  { assert (Hm : meanR (where_ (map (fun s => (4999999 <? s)%Z) (sid two_systems)) 1 0)
                 = 1 / 2)
      by (unfold meanR, where_, two_systems; cbn; field).
    unfold _loss_weights_d1M. destruct (Rlt_dec 0 2) as [_ | H]; [| exfalso; lra].
    rewrite Hm.
    replace (1 / (1 - 1 / 2 + 2 * (1 / 2))) with (2 / 3) by field.
    replace (2 * (2 / 3)) with (4 / 3) by field.
    reflexivity. }
  assert (Hstep : exists log loss dl metrics,
            train_step env_two_systems self [two_systems]
            = (log, Ok (loss, dl, metrics))).
  { unfold train_step. cbn [_distill_forward env_two_systems regress_forces].
    rewrite bindT_lift_ok, bindT_emit.
    unfold _compute_loss.
    cbn [cfg_loss_weighting_synthetic distillation self cfg_geometric].
    rewrite Hw. eexists _, _, _, _. reflexivity. }
  destruct Hstep as [log [loss [dl [metrics Hstep]]]].
  destruct (proj2 (proj2 (compute_loss_scales_out_in_place env_two_systems self
                            [two_systems])) _ _ _ _ Hstep)
    as [raw [scaled [w_node [w_sample [f [f' [Hfwd [Hw' [He [Hf [Hf' [_ [_ [Hme Hmf]]]]]]]]]]]]]].
  exists log, loss, dl, metrics, raw. split; [exact Hstep |]. split; [exact Hfwd |].
  cbn [cfg_loss_weighting_synthetic distillation self cfg_geometric] in Hw'.
  rewrite Hw in Hw'. injection Hw' as <- <-.
  cbn in Hfwd. injection Hfwd as <-.
  cbn in He, Hf, Hf'. injection Hf as <-. injection Hf' as <-. injection He as He.
  split; [reflexivity |]. split; [reflexivity |]. split.
  - rewrite Hme. cbn. now rewrite <- He.
  - rewrite Hmf. reflexivity.
Defined.

(** ** Further properties *)

Lemma sum_where_counts {A : Type} (f : A -> bool) (l : list A) (a b : R) :
  sumR (where_ (map f l) a b) =
  INR (length (filter f l)) * a + (INR (length l) - INR (length (filter f l))) * b.
Proof.
  induction l as [| x l IH].
  - cbn. ring.
  - cbn [map where_ sumR fold_right filter].
    fold (where_ (map f l) a b). fold (sumR (where_ (map f l) a b)).
    rewrite IH. change (length (x :: l)) with (S (length l)). rewrite S_INR.
    destruct (f x).
    + cbn [length]. rewrite S_INR. ring.
    + ring.
Qed.

(** X1. The weights are normalised: with a ratio [rho > 0] and a synthetic
    fraction [r] of a non-empty batch, real weight times [1 - r] plus
    synthetic weight times [r] is 1, and the per-system weight vector that
    [_loss_weights_d1M] returns has mean 1. *)
Theorem loss_weights_normalised (rho : R) (b0 : Batch) (rest : list Batch) :
  0 < rho ->
  sid b0 <> [] ->
  let r := synthetic_fraction (sid b0) in
  let w_real := 1 / (1 - r + rho * r) in
  w_real * (1 - r) + rho * w_real * r = 1 /\
  exists w_node w_sample,
    _loss_weights_d1M (Some rho) (b0 :: rest) = Ok (w_node, w_sample) /\
    meanR w_sample = 1.
Proof.
  intros Hrho Hne r w_real.
  set (n := INR (length (sid b0))).
  set (k := INR (length (filter is_synthetic (sid b0)))).
  assert (Hn : 0 < n).
  { unfold n. apply lt_0_INR. destruct (sid b0); [contradiction | cbn; lia]. }
  assert (Hk : 0 <= k <= n).
  { unfold k, n. split; [apply pos_INR |]. apply le_INR. apply filter_length_le. }
  assert (Hr : r = k / n) by reflexivity.
  assert (HD : 0 < n - k + rho * k) by nra.
  split.
  - unfold w_real. rewrite Hr. field. split; lra.
  - unfold _loss_weights_d1M.
    destruct (Rlt_dec 0 rho) as [_ | H]; [| contradiction].
    eexists _, _. split; [reflexivity |].
    rewrite batch_ratio_is_fraction. fold r. fold w_real.
    unfold meanR. unfold where_ at 2. rewrite length_map, length_map.
    change (map (fun s => (4999999 <? s)%Z) (sid b0)) with (map is_synthetic (sid b0)).
    rewrite sum_where_counts. fold n k.
    unfold w_real. rewrite Hr. field. split; lra.
Qed.

Lemma loss_weights_normalised_witness :
  0 < 2 /\ sid batch_3_5 <> [] /\
  exists w_node w_sample,
    _loss_weights_d1M (Some 2) [batch_3_5] = Ok (w_node, w_sample) /\
    meanR w_sample = 1.
Proof.
  assert (Hrho : 0 < 2) by lra.
  assert (Hne : sid batch_3_5 <> []) by discriminate.
  split; [exact Hrho |]. split; [exact Hne |].
  exact (proj2 (loss_weights_normalised 2 batch_3_5 [] Hrho Hne)).
Defined.

(** X2. The index arithmetic of [_global_preservation] enumerates, image
    after image, every ordered pair of atoms of the image: the first index of
    pair number [c] of an image with [n] atoms starting at [offset] is
    [c / n + offset], the second [c mod n + offset]; no pair crosses an image
    boundary, and every index is below the number of atoms. *)
Theorem pair_indices_enumerate_pairs (num_atoms_per_image : list nat) :
  pair_indices num_atoms_per_image =
    (pair_blocks Nat.div 0 num_atoms_per_image,
     pair_blocks Nat.modulo 0 num_atoms_per_image) /\
  Forall (fun i => (i < list_sum num_atoms_per_image)%nat)
         (fst (pair_indices num_atoms_per_image)) /\
  Forall (fun i => (i < list_sum num_atoms_per_image)%nat)
         (snd (pair_indices num_atoms_per_image)) /\
  length (fst (pair_indices num_atoms_per_image)) =
    list_sum (map (fun n => (n * n)%nat) num_atoms_per_image).
Proof.
  rewrite pair_indices_blocks. cbn [fst snd]. split; [reflexivity |].
  split; [| split].
  - eapply Forall_impl;
      [| exact (pair_blocks_bound Nat.div 0 num_atoms_per_image div_pair_bound)].
    cbn beta. intros i Hi. lia.
  - eapply Forall_impl;
      [| exact (pair_blocks_bound Nat.modulo 0 num_atoms_per_image mod_pair_bound)].
    cbn beta. intros i Hi. lia.
  - apply length_pair_blocks.
Qed.

(** X3. With zero initial standard deviation, zero learning rate and at
    least one inner iteration, the displacement starts at zero and every
    Adam step leaves it there, so every iteration runs the forward pass and
    the supervised loss against the teacher's output on the input batches
    themselves.  The single-step adversarial generator therefore returns a
    non-empty list of input batches as it is when these two return on it,
    and raises their exception otherwise. *)
Theorem adversarial_batch_returns_input (env : Env) (loss_weighting_synthetic : option R)
    (self : AdvAttrs) (noise : nat -> nat -> vec3)
    (backward : list Batch -> list (list vec3)) (batch_list : list Batch) :
  batch_list <> [] ->
  adversarial_init_sd self = 0 ->
  adversarial_lr self = 0 ->
  (0 < n_adversarial_steps self)%Z ->
  _adversarial_batch env loss_weighting_synthetic self noise backward batch_list =
  (out_batch <- _distill_forward env batch_list ;;
   _ <- _compute_loss env loss_weighting_synthetic (out out_batch) batch_list
                      (Some (t_out out_batch)) ;;
   Ok batch_list).
Proof. apply adversarial_batch_lr0_sd0. Qed.

Lemma adversarial_batch_returns_input_witness :
  let self := mk_adv 0 3 (1 / 10) false None 0 true "prop" 0 in
  [one_atom (mk3 1 0 0) vzero] <> [] /\
  adversarial_init_sd self = 0 /\
  adversarial_lr self = 0 /\
  (0 < n_adversarial_steps self)%Z /\
  _adversarial_batch env_example None self (fun _ _ => mk3 1 1 1)
    (fun _ => [[mk3 1 2 3]]) [one_atom (mk3 1 0 0) vzero]
  = Ok [one_atom (mk3 1 0 0) vzero].
Proof.
  cbv zeta.
  assert (Hne : [one_atom (mk3 1 0 0) vzero] <> []) by discriminate.
  split; [exact Hne |]. split; [reflexivity |]. split; [reflexivity |].
  assert (Hn : (0 < n_adversarial_steps
                      (mk_adv 0 3 (1 / 10) false None 0 true "prop" 0))%Z)
    by (cbn; lia).
  split; [exact Hn |].
  exact (eq_trans
           (adversarial_batch_returns_input env_example None
              (mk_adv 0 3 (1 / 10) false None 0 true "prop" 0)
              (fun _ _ => mk3 1 1 1) (fun _ => [[mk3 1 2 3]])
              [one_atom (mk3 1 0 0) vzero] Hne eq_refl eq_refl Hn)
           eq_refl).
Defined.

(** ** The step counter over a whole run *)

Lemma seq_from_0 (a n : nat) : seq a n = map (fun k => (a + k)%nat) (seq 0 n).
Proof.
  revert a. induction n as [| n IH]; intros a; [reflexivity |].
  cbn [seq map]. f_equal; [lia |].
  rewrite (IH (S a)), (IH 1%nat), map_map. apply map_ext. intros k. lia.
Qed.

Lemma range_app (lo mid hi : Z) :
  (lo <= mid <= hi)%Z -> range lo mid ++ range mid hi = range lo hi.
Proof.
  intros H. unfold range.
  replace (Z.to_nat (hi - lo)) with (Z.to_nat (mid - lo) + Z.to_nat (hi - mid))%nat by lia.
  rewrite seq_app, map_app. f_equal. cbn [Nat.add].
  rewrite (seq_from_0 (Z.to_nat (mid - lo))), map_map.
  apply map_ext. intros k. lia.
Qed.

Lemma map_range_shift (c lo hi : Z) :
  map (fun i => (c + i + 1)%Z) (range lo hi) = range (c + lo + 1) (c + hi + 1).
Proof.
  unfold range. rewrite map_map.
  replace (c + hi + 1 - (c + lo + 1))%Z with (hi - lo)%Z by lia.
  apply map_ext. intros k. lia.
Qed.

Lemma last_range (lo hi d : Z) : (lo < hi)%Z -> last (range lo hi) d = (hi - 1)%Z.
Proof.
  intros H.
  rewrite <- (range_app lo (hi - 1) hi) by lia.
  rewrite (range_cons (hi - 1) hi) by lia.
  rewrite (range_nil (hi - 1 + 1) hi) by lia.
  apply last_last.
Qed.

Lemma train_epochs_shape (len M : Z) (n : nat) :
  (0 < len)%Z ->
  forall e step,
    e = (step / len)%Z -> Z.to_nat (M - e) = n ->
    let runs := train_epochs len (range e M) step in
    map epoch_int runs = range e M /\
    concat (map steps runs) = range (step + 1) (M * len + 1) /\
    Forall (epoch_shape len e step) runs.
Proof.
  intros Hlen. induction n as [| n IH]; intros e step He Hn runs; subst runs.
  - rewrite (range_nil e M) by lia. cbn.
    split; [reflexivity |]. split; [| constructor].
    symmetry. apply range_nil.
    pose proof (Z.mul_div_le step len Hlen). nia.
  - assert (HeM : (e < M)%Z) by lia.
    rewrite (range_cons e M HeM). cbn [train_epochs map concat].
    pose proof (Z.mod_pos_bound step len Hlen) as Hmod.
    pose proof (Z.div_mod step len ltac:(lia)) as Hdm.
    assert (Hvis : map (fun i => (e * len + i + 1)%Z) (range (step mod len) len) =
                   range (step + 1) ((e + 1) * len + 1)).
    { rewrite map_range_shift. f_equal; subst e; lia. }
    rewrite Hvis.
    rewrite (last_range (step + 1) ((e + 1) * len + 1) step) by (subst e; nia).
    replace ((e + 1) * len + 1 - 1)%Z with ((e + 1) * len)%Z by lia.
    destruct (IH (e + 1)%Z ((e + 1) * len)%Z) as [IH1 [IH2 IH3]].
    { now rewrite Z.div_mul by lia. }
    { lia. }
    cbn [epoch_int steps]. rewrite IH1, IH2.
    split; [reflexivity |]. split.
    + apply range_app. subst e. nia.
    + constructor.
      * unfold epoch_shape. cbn [epoch_int skip_steps steps].
        rewrite Z.eqb_refl. split; [reflexivity |].
        f_equal. subst e. lia.
      * assert (Hin : Forall (fun r => (e + 1 <= epoch_int r)%Z)
                             (train_epochs len (range (e + 1) M) ((e + 1) * len))).
        { apply Forall_forall. intros r Hr.
          assert (Hr' : In (epoch_int r) (range (e + 1) M)).
          { rewrite <- IH1. now apply in_map. }
          unfold range in Hr'. apply in_map_iff in Hr'.
          destruct Hr' as [k [Hk _]]. lia. }
        rewrite Forall_forall in IH3, Hin |- *.
        intros r Hr. specialize (IH3 r Hr). specialize (Hin r Hr).
        unfold epoch_shape in *. destruct IH3 as [Hs Hst].
        assert (Hs0 : skip_steps r = 0%Z).
        { rewrite Hs. rewrite Z.mod_mul by lia. now destruct (_ =? _)%Z. }
        split; [| exact Hst].
        rewrite Hs0. destruct (Z.eqb_spec (epoch_int r) e); [lia | reflexivity].
Qed.

(** X5. A run that starts or resumes at step counter [step] on a loader of
    positive length visits the epochs [step // len], ..., [max_epochs - 1] and
    sets the counter to [step + 1], [step + 2], ..., [max_epochs * len] in
    turn, each value once; only the first epoch skips steps.  Nothing is
    visited when the counter has already reached [max_epochs * len]. *)
Theorem train_visits_consecutive_steps (step len max_epochs : Z) :
  (0 < len)%Z ->
  exists runs,
    train_schedule step len max_epochs = Ok runs /\
    map epoch_int runs = range (step / len) max_epochs /\
    concat (map steps runs) = range (step + 1) (max_epochs * len + 1) /\
    Forall (fun run => skip_steps run = 0%Z) (tl runs).
Proof.
  intros Hlen. unfold train_schedule, start_epoch.
  destruct (Z.eqb_spec len 0) as [H0 | _]; [lia |]. cbn [bind].
  eexists. split; [reflexivity |].
  destruct (train_epochs_shape len max_epochs _ Hlen (step / len)%Z step
              eq_refl eq_refl) as [H1 [H2 H3]].
  split; [exact H1 |]. split; [exact H2 |].
  destruct (Z_lt_le_dec (step / len) max_epochs) as [Hlt | Hge].
  - revert H1 H3. rewrite (range_cons _ _ Hlt). cbn [train_epochs tl].
    intros H1 H3. inversion H3 as [| r0 rs _ Hrest]; subst.
    apply (f_equal (@tl Z)) in H1. cbn [map tl] in H1.
    rewrite Forall_forall in Hrest |- *. intros r Hr.
    destruct (Hrest r Hr) as [Hs _]. rewrite Hs.
    assert (Hin : In (epoch_int r) (range (step / len + 1) max_epochs)).
    { rewrite <- H1. now apply in_map. }
    unfold range in Hin. apply in_map_iff in Hin. destruct Hin as [k [Hk _]].
    destruct (Z.eqb_spec (epoch_int r) (step / len)); [lia | reflexivity].
  - rewrite (range_nil _ _ Hge). constructor.
Qed.

Lemma train_visits_consecutive_steps_witness :
  (0 < 100)%Z /\
  exists runs,
    train_schedule 150 100 3 = Ok runs /\
    map epoch_int runs = [1; 2]%Z /\
    concat (map steps runs) = range 151 301.
Proof.
  assert (Hlen : (0 < 100)%Z) by lia.
  split; [exact Hlen |].
  destruct (train_visits_consecutive_steps 150 100 3 Hlen)
    as [runs [Hrun [Hep [Hst _]]]].
  exists runs. split; [exact Hrun |]. split; [exact Hep | exact Hst].
Defined.

(** ** The hooks of the training loop *)

Lemma count_app (p : action -> bool) (a b : list action) :
  count p (a ++ b) = (count p a + count p b)%nat.
Proof. unfold count. now rewrite filter_app, length_app. Qed.

Lemma update_best_returns (tl : bool) (name : string) (vm : metrics_dict) (best m : R) :
  metric_of vm name = Ok m ->
  exists best' log,
    update_best tl name vm best = Ok (best', log) /\
    count is_save_checkpoint log = 0%nat /\ count is_validate log = 0%nat.
Proof.
  intros Hm. unfold update_best. rewrite Hm. cbn [bind].
  destruct (if contains "mae" name then Rltb m best else Rgtb m best).
  - eexists _, _. split; [reflexivity |]. destruct tl; split; reflexivity.
  - eexists _, _. split; [reflexivity |]. split; reflexivity.
Qed.

Section DefaultCadence.

Variable cfg : TrainLoop.
Variable len : Z.
Hypothesis eval_default : optim_eval_every cfg = None.
Hypothesis checkpoint_default : optim_checkpoint_every cfg = None.
Hypothesis len_pos : (0 < len)%Z.

Lemma default_periods : eval_every cfg len = len /\ checkpoint_every cfg len = len.
Proof.
  unfold checkpoint_every, eval_every.
  now rewrite eval_default, checkpoint_default.
Qed.

Lemma after_step_between (s : Z) (st : loop_state) :
  (s mod len <> 0)%Z ->
  after_step cfg len s st =
  Ok (st, if reduce_on_plateau cfg then [] else [SchedulerStep None]).
Proof.
  intros Hs. destruct default_periods as [He Hc].
  unfold after_step, checkpoint_hook, eval_hook, scheduler_hook, pymod.
  rewrite He, Hc.
  destruct (Z.eqb_spec len (-1)) as [H | _]; [lia |].
  destruct (Z.eqb_spec len 0) as [H | _]; [lia |].
  cbn [negb bind].
  destruct (Z.eqb_spec (s mod len) 0) as [H | _]; [contradiction |].
  cbn [bind fst snd]. now destruct (reduce_on_plateau cfg).
Qed.

Hypothesis with_validation : val_loader cfg = true.
Hypothesis metric_reported :
  forall s, exists m, metric_of (validate cfg s) (primary_metric cfg) = Ok m.

Lemma after_step_at_multiple (s : Z) (st : loop_state) :
  (s mod len = 0)%Z ->
  exists st' log,
    after_step cfg len s st = Ok (st', log) /\
    count is_save_checkpoint log = 1%nat /\ count is_validate log = 1%nat.
Proof.
  intros Hs. destruct default_periods as [He Hc].
  destruct (metric_reported s) as [m Hm].
  destruct (update_best_returns (test_loader cfg) _ _ (best_val_metric st) m Hm)
    as [best' [log [Hub [Hc1 Hc2]]]].
  unfold after_step, checkpoint_hook, eval_hook, scheduler_hook, pymod.
  rewrite He, Hc.
  destruct (Z.eqb_spec len (-1)) as [H | _]; [lia |].
  destruct (Z.eqb_spec len 0) as [H | _]; [lia |].
  cbn [negb bind]. rewrite Hs. cbn [Z.eqb bind].
  rewrite with_validation, Hub. cbn [bind fst snd val_metrics].
  destruct (reduce_on_plateau cfg).
  - cbn [bind]. rewrite Hm. cbn [bind].
    eexists _, _. split; [reflexivity |].
    rewrite !count_app.
    change (Validate :: log ++ (if is_hpo cfg then [HpoUpdate] else []))
      with ([Validate] ++ log ++ (if is_hpo cfg then [HpoUpdate] else [])).
    rewrite !count_app, Hc1, Hc2.
    destruct (is_hpo cfg), (eval_relaxations cfg), (relax_dataset cfg);
      split; reflexivity.
  - eexists _, _. split; [reflexivity |].
    rewrite !count_app.
    change (Validate :: log ++ (if is_hpo cfg then [HpoUpdate] else []))
      with ([Validate] ++ log ++ (if is_hpo cfg then [HpoUpdate] else [])).
    rewrite !count_app, Hc1, Hc2.
    destruct (is_hpo cfg), (eval_relaxations cfg), (relax_dataset cfg);
      split; reflexivity.
Qed.

Lemma run_steps_to_epoch_end (e : Z) (n : nat) :
  forall lo st,
    (e * len < lo <= (e + 1) * len)%Z ->
    Z.to_nat ((e + 1) * len - lo) = n ->
    exists st' log,
      run_steps cfg len (range lo ((e + 1) * len + 1)) st = Ok (st', log) /\
      count is_save_checkpoint log = 1%nat /\ count is_validate log = 1%nat.
Proof.
  induction n as [| n IH]; intros lo st Hlo Hn.
  - assert (lo = ((e + 1) * len)%Z) by lia. subst lo.
    rewrite range_cons by lia. rewrite range_nil by lia. cbn [run_steps].
    destruct (after_step_at_multiple ((e + 1) * len) st) as [st' [log [Ha [H1 H2]]]].
    { apply Z.mod_mul. lia. }
    rewrite Ha. cbn [bind fst snd]. eexists _, _. split; [reflexivity |].
    rewrite app_nil_r. now split.
  - rewrite range_cons by lia. cbn [run_steps].
    rewrite after_step_between.
    2:{ intros Hmod. apply Z.mod_divide in Hmod; [| lia].
        destruct Hmod as [q Hq].
        assert (e < q)%Z by nia. assert (q < e + 1)%Z by nia. lia. }
    cbn [bind fst snd].
    destruct (IH (lo + 1)%Z st) as [st' [log [Hr [H1 H2]]]]; [lia | lia |].
    rewrite Hr. cbn [bind fst snd]. eexists _, _. split; [reflexivity |].
    rewrite !count_app, H1, H2. now destruct (reduce_on_plateau cfg).
Qed.

Lemma run_epochs_counts (e0 step : Z) (runs : list epoch_run) :
  Forall (epoch_shape len e0 step) runs ->
  forall st,
    exists st' log,
      run_epochs cfg len runs st = Ok (st', log) /\
      count is_save_checkpoint log = length runs /\
      count is_validate log = length runs.
Proof.
  destruct default_periods as [_ Hc].
  induction 1 as [| run runs [Hskip Hsteps] _ IH]; intros st.
  - eexists _, _. split; [reflexivity |]. now split.
  - cbn [run_epochs]. rewrite Hsteps.
    assert (Hs : (0 <= skip_steps run < len)%Z).
    { rewrite Hskip. destruct (_ =? _)%Z; [apply Z.mod_pos_bound |]; lia. }
    destruct (run_steps_to_epoch_end (epoch_int run) _
                (epoch_int run * len + skip_steps run + 1)%Z st ltac:(lia) eq_refl)
      as [st1 [log1 [H1 [Hs1 Hv1]]]].
    rewrite H1. cbn [bind fst snd]. rewrite Hc.
    destruct (Z.eqb_spec len (-1)) as [H | _]; [lia |].
    destruct (IH st1) as [st2 [log2 [H2 [Hs2 Hv2]]]].
    rewrite H2. cbn [bind fst snd app length].
    eexists _, _. split; [reflexivity |].
    rewrite !count_app, Hs1, Hv1, Hs2, Hv2. now split.
Qed.

End DefaultCadence.

(** X6. With [eval_every] and [checkpoint_every] left at their defaults (the
    length of the loader), a validation loader, and validation metrics that
    hold the primary metric, a run completes, and it writes one checkpoint
    and validates once for every epoch it runs, at the last step of the
    epoch: a step that is not a multiple of the loader length only steps the
    learning-rate scheduler (and not even that under ReduceLROnPlateau). *)
Theorem default_cadence_once_per_epoch (cfg : TrainLoop)
    (resumed : option (string * R)) (step len max_epochs : Z) :
  optim_eval_every cfg = None ->
  optim_checkpoint_every cfg = None ->
  (0 < len)%Z ->
  val_loader cfg = true ->
  (forall s, exists m, metric_of (validate cfg s) (primary_metric cfg) = Ok m) ->
  (exists st log,
     train_control cfg resumed step len max_epochs = Ok (st, log) /\
     count is_save_checkpoint log = Z.to_nat (max_epochs - step / len) /\
     count is_validate log = Z.to_nat (max_epochs - step / len)) /\
  (forall s st,
     (s mod len <> 0)%Z ->
     after_step cfg len s st =
     Ok (st, if reduce_on_plateau cfg then [] else [SchedulerStep None])).
Proof.
  intros He Hc Hlen Hval Hm. split.
  - unfold train_control, train_schedule, start_epoch.
    destruct (Z.eqb_spec len 0) as [H0 | _]; [lia |]. cbn [bind].
    destruct (train_epochs_shape len max_epochs _ Hlen (step / len)%Z step
                eq_refl eq_refl) as [H1 [_ H3]].
    destruct (run_epochs_counts cfg len He Hc Hlen Hval Hm _ _ _ H3
                (mk_loop_state
                   match resumed with
                   | Some (name, best) =>
                       if String.eqb name (primary_metric cfg) then best
                       else init_best_val_metric (primary_metric cfg)
                   | None => init_best_val_metric (primary_metric cfg)
                   end None))
      as [st [log [Hrun [Hs Hv]]]].
    exists st, log. split; [exact Hrun |].
    rewrite Hs, Hv.
    rewrite <- (length_map epoch_int), H1. unfold range. rewrite length_map, length_seq.
    now split.
  - intros s st Hs. now apply after_step_between.
Qed.

Lemma default_cadence_once_per_epoch_witness :
  let cfg := mk_loop None None true false false false false false "forces_mae"%string
                     (fun _ => [("forces_mae"%string, 1)]) in
  (0 < 2)%Z /\
  exists st log,
    train_control cfg None 0 2 3 = Ok (st, log) /\
    count is_save_checkpoint log = 3%nat /\
    count is_validate log = 3%nat.
Proof.
  cbv zeta.
  assert (Hlen : (0 < 2)%Z) by lia.
  split; [exact Hlen |].
  destruct (proj1 (default_cadence_once_per_epoch
                     (mk_loop None None true false false false false false
                              "forces_mae"%string (fun _ => [("forces_mae"%string, 1)]))
                     None 0 2 3 eq_refl eq_refl Hlen eq_refl
                     (fun _ => ex_intro _ 1 eq_refl)))
    as [st [log [H1 [H2 H3]]]].
  exists st, log. split; [exact H1 |]. split; [exact H2 | exact H3].
Defined.

(** ** Plateau scheduling without a validation loader *)

Lemma run_steps_plateau_unbound (cfg : TrainLoop) (len e : Z) (n : nat) :
  optim_eval_every cfg = None ->
  optim_checkpoint_every cfg = None ->
  (0 < len)%Z ->
  reduce_on_plateau cfg = true ->
  val_loader cfg = false ->
  forall lo best,
    (e * len < lo <= (e + 1) * len)%Z ->
    Z.to_nat ((e + 1) * len - lo) = n ->
    run_steps cfg len (range lo ((e + 1) * len + 1)) (mk_loop_state best None)
    = Raise UnboundLocalError.
Proof.
  intros He Hc Hlen Hp Hv. induction n as [| n IH]; intros lo best Hlo Hn.
  - assert (lo = ((e + 1) * len)%Z) by lia. subst lo.
    rewrite range_cons by lia. cbn [run_steps].
    unfold after_step, checkpoint_hook, eval_hook, scheduler_hook, pymod,
      checkpoint_every, eval_every.
    rewrite He, Hc, Hp, Hv. cbn [get].
    destruct (Z.eqb_spec len (-1)) as [H | _]; [lia |].
    destruct (Z.eqb_spec len 0) as [H | _]; [lia |].
    rewrite Z.mod_mul by lia. reflexivity.
  - rewrite range_cons by lia. cbn [run_steps].
    rewrite (after_step_between cfg len He Hc Hlen).
    2:{ intros Hmod. apply Z.mod_divide in Hmod; [| lia].
        destruct Hmod as [q Hq].
        assert (e < q)%Z by nia. assert (q < e + 1)%Z by nia. lia. }
    cbn [bind fst snd]. rewrite IH by lia. reflexivity.
Qed.

(** X7. Under the ReduceLROnPlateau scheduler the local [val_metrics] is read
    at every evaluation step, but it is assigned only when there is a
    validation loader.  Without one, an evaluation step met before any
    validation raises UnboundLocalError, and with the default evaluation
    period a run that has an epoch left to train ends with that error at the
    last step of its first epoch. *)
Theorem plateau_without_validation_unbound (cfg : TrainLoop)
    (resumed : option (string * R)) (step len max_epochs : Z) :
  reduce_on_plateau cfg = true ->
  val_loader cfg = false ->
  (forall s best,
     eval_every cfg len <> 0%Z ->
     checkpoint_every cfg len <> 0%Z ->
     (s mod eval_every cfg len = 0)%Z ->
     after_step cfg len s (mk_loop_state best None) = Raise UnboundLocalError) /\
  (optim_eval_every cfg = None ->
   optim_checkpoint_every cfg = None ->
   (0 < len)%Z ->
   (step / len < max_epochs)%Z ->
   train_control cfg resumed step len max_epochs = Raise UnboundLocalError).
Proof.
  intros Hp Hv. split.
  - intros s best He Hc Hs.
    unfold after_step, checkpoint_hook, eval_hook, scheduler_hook, pymod.
    rewrite Hp, Hv.
    destruct (Z.eqb_spec (eval_every cfg len) 0) as [H | _]; [contradiction |].
    destruct (Z.eqb_spec (checkpoint_every cfg len) 0) as [H | _]; [contradiction |].
    rewrite Hs.
    destruct (negb (checkpoint_every cfg len =? -1)%Z); reflexivity.
  - intros He Hc Hlen Hlt.
    unfold train_control, train_schedule, start_epoch.
    destruct (Z.eqb_spec len 0) as [H0 | _]; [lia |]. cbn [bind].
    rewrite (range_cons _ _ Hlt). cbn [train_epochs run_epochs steps].
    rewrite map_range_shift.
    pose proof (Z.mod_pos_bound step len Hlen) as Hmod.
    pose proof (Z.div_mod step len ltac:(lia)) as Hdm.
    replace (step / len * len + len + 1)%Z with ((step / len + 1) * len + 1)%Z by lia.
    assert (Hlo : (step / len * len < step / len * len + step mod len + 1
                   <= (step / len + 1) * len)%Z) by lia.
    rewrite (run_steps_plateau_unbound cfg len (step / len)%Z _ He Hc Hlen Hp Hv
               (step / len * len + step mod len + 1)%Z _ Hlo eq_refl).
    reflexivity.
Qed.

Lemma plateau_without_validation_unbound_witness :
  let cfg := mk_loop None None false false false false false true "forces_mae"%string
                     (fun _ => []) in
  reduce_on_plateau cfg = true /\ val_loader cfg = false /\
  (0 < 2)%Z /\ (0 / 2 < 3)%Z /\
  train_control cfg None 0 2 3 = Raise UnboundLocalError.
Proof.
  cbv zeta.
  assert (Hlen : (0 < 2)%Z) by lia.
  assert (Hlt : (0 / 2 < 3)%Z) by (cbn; lia).
  split; [reflexivity |]. split; [reflexivity |].
  split; [exact Hlen |]. split; [exact Hlt |].
  exact (proj2 (plateau_without_validation_unbound
                  (mk_loop None None false false false false false true
                           "forces_mae"%string (fun _ => []))
                  None 0 2 3 eq_refl eq_refl) eq_refl eq_refl Hlen Hlt).
Defined.

(** ** The best validation metric *)

(** X8. [update_best] looks the primary metric up (KeyError when the
    validation metrics lack it) and keeps the better of it and the best value
    so far: the smaller one for a metric whose name contains "mae", the
    larger one otherwise.  The best checkpoint is written exactly when the
    new value is strictly better, so a tie writes nothing, and the test
    predictions are written with it when there is a test loader. *)
Theorem update_best_keeps_the_better (test : bool) (name : string)
    (vm : metrics_dict) (best : R) :
  (metric_of vm name = Raise KeyError ->
   update_best test name vm best = Raise KeyError) /\
  (forall m,
     metric_of vm name = Ok m ->
     let better := if contains "mae" name then m < best else best < m in
     exists log,
       update_best test name vm best =
         Ok (if contains "mae" name then Rmin m best else Rmax m best, log) /\
       (better -> log = SaveBest :: (if test then [PredictTest] else [])) /\
       (~ better -> log = [])).
Proof.
  split.
  - intros H. unfold update_best. now rewrite H.
  - intros m Hm better. unfold update_best. rewrite Hm. cbn [bind].
    subst better. unfold Rltb, Rgtb.
    destruct (contains "mae" name).
    + destruct (Rlt_dec m best) as [Hlt | Hge].
      * eexists. split; [| split; [reflexivity | contradiction]].
        rewrite Rmin_left by lra. reflexivity.
      * eexists. split; [| split; [contradiction | reflexivity]].
        rewrite Rmin_right by lra. reflexivity.
    + destruct (Rlt_dec best m) as [Hlt | Hge].
      * eexists. split; [| split; [reflexivity | contradiction]].
        rewrite Rmax_left by lra. reflexivity.
      * eexists. split; [| split; [contradiction | reflexivity]].
        rewrite Rmax_right by lra. reflexivity.
Qed.

(** ** Projections on the force *)

Lemma vadd_vzero_l (v : vec3) : vadd vzero v = v.
Proof. destruct v. unfold vadd, vzero. cbn. f_equal; ring. Qed.

Lemma vscale_vscale (c d : R) (v : vec3) : vscale c (vscale d v) = vscale (c * d) v.
Proof. unfold vscale. cbn. f_equal; ring. Qed.

Lemma vdot_vscale_r (c : R) (a b : vec3) : vdot a (vscale c b) = c * vdot a b.
Proof. unfold vdot, vscale. cbn. ring. Qed.

Lemma vdot_vscale_l (c : R) (a b : vec3) : vdot (vscale c a) b = c * vdot a b.
Proof. unfold vdot, vscale. cbn. ring. Qed.

Lemma vdot_vsub_l (a b c : vec3) : vdot (vsub a b) c = vdot a c - vdot b c.
Proof. unfold vdot, vsub. cbn. ring. Qed.

Lemma F_normalize_scale (f : vec3) :
  F_normalize f = vscale (/ Rmax (vnorm f) normalize_eps) f.
Proof. unfold F_normalize. apply vdiv_vscale. Qed.

Lemma F_normalize_large (f : vec3) :
  normalize_eps <= vnorm f -> F_normalize f = vscale (/ vnorm f) f.
Proof. intros H. rewrite F_normalize_scale. now rewrite Rmax_left. Qed.

(** The Cauchy-Schwarz inequality on rows. *)
Lemma vdot_le_norms (a b : vec3) : Rabs (vdot a b) <= vnorm a * vnorm b.
Proof.
  unfold vnorm. rewrite <- sqrt_mult by apply vdot_self_nonneg.
  rewrite <- sqrt_Rsqr_abs. apply sqrt_le_1.
  - apply Rle_0_sqr.
  - apply Rmult_le_pos; apply vdot_self_nonneg.
  - unfold Rsqr, vdot. destruct a as [a1 a2 a3], b as [b1 b2 b3]. cbn.
    assert (H : (a1 * a1 + a2 * a2 + a3 * a3) * (b1 * b1 + b2 * b2 + b3 * b3) -
                (a1 * b1 + a2 * b2 + a3 * b3) * (a1 * b1 + a2 * b2 + a3 * b3) =
                (a1 * b2 - a2 * b1) * (a1 * b2 - a2 * b1) +
                (a1 * b3 - a3 * b1) * (a1 * b3 - a3 * b1) +
                (a2 * b3 - a3 * b2) * (a2 * b3 - a3 * b2)) by ring.
    pose proof (Rle_0_sqr (a1 * b2 - a2 * b1)) as H1.
    pose proof (Rle_0_sqr (a1 * b3 - a3 * b1)) as H2.
    pose proof (Rle_0_sqr (a2 * b3 - a3 * b2)) as H3.
    unfold Rsqr in H1, H2, H3. lra.
Qed.

Lemma projection_row_parallel (v f : vec3) :
  vector_projection_row v f =
  vscale (vdot v (F_normalize f) * / Rmax (vnorm f) normalize_eps) f.
Proof.
  unfold vector_projection_row. cbv zeta.
  rewrite (F_normalize_scale f) at 2. apply vscale_vscale.
Qed.

Lemma projection_row_shorter (v f : vec3) :
  vnorm (vector_projection_row v f) <= vnorm v.
Proof.
  unfold vector_projection_row. cbv zeta. rewrite vnorm_vscale.
  pose proof (vdot_le_norms v (F_normalize f)) as Hcs.
  pose proof (vnorm_F_normalize_le_1 f) as H1.
  pose proof (vnorm_nonneg (F_normalize f)) as H0.
  pose proof (vnorm_nonneg v) as Hv.
  pose proof (Rabs_pos (vdot v (F_normalize f))) as Ha.
  nra.
Qed.

Lemma projection_row_residual (v f : vec3) :
  normalize_eps <= vnorm f ->
  vdot (vsub v (vector_projection_row v f)) f = 0.
Proof.
  intros Hf. pose proof normalize_eps_pos as Heps.
  unfold vector_projection_row. cbv zeta.
  rewrite (F_normalize_large f Hf).
  rewrite vdot_vsub_l, vscale_vscale, vdot_vscale_l, vdot_vscale_r.
  rewrite <- vnorm_sqr. field. lra.
Qed.

Lemma projection_row_idempotent (v f : vec3) :
  normalize_eps <= vnorm f ->
  vector_projection_row (vector_projection_row v f) f = vector_projection_row v f.
Proof.
  intros Hf. pose proof normalize_eps_pos as Heps.
  unfold vector_projection_row. cbv zeta.
  rewrite (F_normalize_large f Hf).
  rewrite !vscale_vscale, !vdot_vscale_r, vdot_vscale_l.
  rewrite <- vnorm_sqr. f_equal. field. lra.
Qed.

(** X9. [vector_projection(vec1, vec2)] returns, row by row, a multiple of
    the row of [vec2] that is no longer than the row of [vec1]; it is the
    zero row where [vec2] is zero.  Where the norm of the [vec2] row is at
    least the epsilon 1e-12 of [F.normalize], what is left of the [vec1] row
    after subtracting its projection is orthogonal to the [vec2] row, and
    projecting a second time changes nothing. *)
Theorem vector_projection_rows (vec1 vec2 : list vec3) (a : nat) (v f : vec3) :
  nth_error vec1 a = Some v ->
  nth_error vec2 a = Some f ->
  exists p,
    nth_error (vector_projection vec1 vec2) a = Some p /\
    (exists c, p = vscale c f) /\
    vnorm p <= vnorm v /\
    (f = vzero -> p = vzero) /\
    (normalize_eps <= vnorm f ->
       vdot (vsub v p) f = 0 /\
       nth_error (vector_projection (vector_projection vec1 vec2) vec2) a = Some p).
Proof.
  intros Hv Hf. exists (vector_projection_row v f).
  unfold vector_projection. rewrite nth_error_map2, Hv, Hf.
  split; [reflexivity |]. split; [| split; [| split]].
  - eexists. apply projection_row_parallel.
  - apply projection_row_shorter.
  - intros ->. rewrite projection_row_parallel. apply vscale_vzero.
  - intros Hn. split; [now apply projection_row_residual |].
    rewrite nth_error_map2, nth_error_map2, Hv, Hf.
    f_equal. now apply projection_row_idempotent.
Qed.

Lemma vector_projection_rows_witness :
  normalize_eps <= vnorm (mk3 2 0 0) /\
  exists p,
    nth_error (vector_projection [mk3 1 1 0] [mk3 2 0 0]) 0 = Some p /\
    vdot (vsub (mk3 1 1 0) p) (mk3 2 0 0) = 0.
Proof.
  assert (Hn : normalize_eps <= vnorm (mk3 2 0 0)).
  { rewrite vnorm_x_axis by lra. unfold normalize_eps.
    assert (0 < / 10 ^ 12 < 1); [| lra].
    split; [apply Rinv_0_lt_compat; lra |].
    rewrite <- Rinv_1. apply Rinv_lt_contravar; lra. }
  split; [exact Hn |].
  destruct (vector_projection_rows [mk3 1 1 0] [mk3 2 0 0] 0 _ _ eq_refl eq_refl)
    as [p [Hp [_ [_ [_ Horth]]]]].
  exists p. split; [exact Hp |]. exact (proj1 (Horth Hn)).
Defined.

(** ** Random jitter: what happens to one atom *)

Lemma nth_error_seq_0 (n j : nat) : (j < n)%nat -> nth_error (seq 0 n) j = Some j.
Proof.
  intros H. rewrite (nth_error_nth' _ 0%nat) by now rewrite length_seq.
  now rewrite seq_nth.
Qed.

Lemma jitter_displacement_length (self : JitterAttrs) (noise noise2 : nat -> nat -> vec3)
    (j : nat) (b : Batch) :
  length (force b) = length (pos b) ->
  length (jitter_displacement self noise noise2 j b) = length (pos b).
Proof.
  intros Hlen. unfold jitter_displacement, vector_projection.
  destruct (mode_is (random_mode self) "sample_from_force").
  - rewrite length_map2, length_seq. lia.
  - destruct (mode_is (random_mode self) "proj_on_force"),
             (mode_is (random_mode self) "force_proj");
      rewrite ?length_map2, ?length_map, ?length_seq; lia.
Qed.

(** The new position of atom [a] of sub-batch [j]: the old one plus the raw
    displacement, rescaled when a fixed length is set. *)
Lemma random_jitter_row (self : JitterAttrs) (noise noise2 : nat -> nat -> vec3)
    (batch_list : list Batch) (j a : nat) (b : Batch) (p : vec3) :
  nth_error batch_list j = Some b ->
  length (force b) = length (pos b) ->
  nth_error (pos b) a = Some p ->
  exists b' raw,
    nth_error (_random_jitter_batch self noise noise2 batch_list) j = Some b' /\
    nth_error (jitter_displacement self noise noise2 j b) a = Some raw /\
    nth_error (pos b') a =
      Some (vadd p (if truthy (random_fixed_length self)
                    then vscale (float_of (random_fixed_length self)) (F_normalize raw)
                    else raw)).
Proof.
  intros Hb Hlen Hp.
  assert (Hj : (j < length batch_list)%nat).
  { apply nth_error_Some. now rewrite Hb. }
  assert (Ha : (a < length (pos b))%nat).
  { apply nth_error_Some. now rewrite Hp. }
  pose proof (jitter_displacement_length self noise noise2 j b Hlen) as Hdl.
  destruct (nth_error (jitter_displacement self noise noise2 j b) a) as [raw |] eqn:Hraw.
  2:{ apply nth_error_None in Hraw. lia. }
  exists (AddNoise b (jitter_delta self noise noise2 j b)), raw.
  split; [| split; [reflexivity |]].
  - unfold _random_jitter_batch.
    rewrite nth_error_map2, Hb, nth_error_map2, Hb, (nth_error_seq_0 _ _ Hj).
    reflexivity.
  - unfold AddNoise, set_pos. cbn [pos]. rewrite nth_error_map2, Hp.
    unfold jitter_delta.
    destruct (truthy (random_fixed_length self)).
    + rewrite inplace2_vadd_zeros by now rewrite length_map.
      rewrite nth_error_map, Hraw. reflexivity.
    + rewrite inplace2_vadd_zeros by exact Hdl.
      rewrite Hraw. reflexivity.
Qed.

Lemma mode_is_eq (m : option string) (name : string) :
  mode_is m name = true -> m = Some name.
Proof.
  destruct m as [s |]; cbn; [| discriminate].
  intros H. apply String.eqb_eq in H. now subst.
Qed.

Lemma jitter_raw_force_proj (self : JitterAttrs) (noise noise2 : nat -> nat -> vec3)
    (j a : nat) (b : Batch) (raw f : vec3) :
  mode_is (random_mode self) "force_proj" = true ->
  nth_error (jitter_displacement self noise noise2 j b) a = Some raw ->
  nth_error (force b) a = Some f ->
  exists z, raw = vsub z (vector_projection_row z f).
Proof.
  intros Hm Hraw Hf. apply mode_is_eq in Hm.
  unfold jitter_displacement in Hraw. rewrite Hm in Hraw.
  cbn [mode_is String.eqb Ascii.eqb Bool.eqb andb] in Hraw.
  unfold vector_projection in Hraw.
  rewrite nth_error_map2, nth_error_map2, Hf in Hraw.
  destruct (nth_error (map _ (seq 0 (length (pos b)))) a) as [z |]; [| discriminate].
  injection Hraw as <-. now exists z.
Qed.

Lemma jitter_raw_proj_on_force (self : JitterAttrs) (noise noise2 : nat -> nat -> vec3)
    (j a : nat) (b : Batch) (raw f : vec3) :
  mode_is (random_mode self) "proj_on_force" = true ->
  nth_error (jitter_displacement self noise noise2 j b) a = Some raw ->
  nth_error (force b) a = Some f ->
  exists z, raw = vector_projection_row z f.
Proof.
  intros Hm Hraw Hf. apply mode_is_eq in Hm.
  unfold jitter_displacement in Hraw. rewrite Hm in Hraw.
  cbn [mode_is String.eqb Ascii.eqb Bool.eqb andb] in Hraw.
  unfold vector_projection in Hraw.
  rewrite nth_error_map2, Hf in Hraw.
  destruct (nth_error (map _ (seq 0 (length (pos b)))) a) as [z |]; [| discriminate].
  injection Hraw as <-. now exists z.
Qed.

(** X10. In random-jitter mode "force_proj" every atom whose force has norm
    at least 1e-12 is moved orthogonally to its force, and in mode
    "proj_on_force" every atom is moved along its force, with or without a
    fixed jitter length. *)
Theorem random_jitter_projection_modes (self : JitterAttrs)
    (noise noise2 : nat -> nat -> vec3) (batch_list : list Batch)
    (j a : nat) (b : Batch) (p f : vec3) :
  nth_error batch_list j = Some b ->
  length (force b) = length (pos b) ->
  nth_error (pos b) a = Some p ->
  nth_error (force b) a = Some f ->
  exists b' p',
    nth_error (_random_jitter_batch self noise noise2 batch_list) j = Some b' /\
    nth_error (pos b') a = Some p' /\
    (mode_is (random_mode self) "force_proj" = true ->
     normalize_eps <= vnorm f -> vdot (vsub p' p) f = 0) /\
    (mode_is (random_mode self) "proj_on_force" = true ->
     exists c, vsub p' p = vscale c f).
Proof.
  intros Hb Hlen Hp Hf.
  destruct (random_jitter_row self noise noise2 batch_list j a b p Hb Hlen Hp)
    as [b' [raw [Hb' [Hraw Hp']]]].
  eexists b', _. split; [exact Hb' |]. split; [exact Hp' |].
  rewrite vsub_vadd_cancel. split.
  - intros Hm Hn.
    destruct (jitter_raw_force_proj self noise noise2 j a b raw f Hm Hraw Hf) as [z ->].
    pose proof (projection_row_residual z f Hn) as Horth.
    destruct (truthy (random_fixed_length self)); [| exact Horth].
    rewrite F_normalize_scale, vscale_vscale, vdot_vscale_l, Horth. ring.
  - intros Hm.
    destruct (jitter_raw_proj_on_force self noise noise2 j a b raw f Hm Hraw Hf) as [z ->].
    rewrite projection_row_parallel.
    destruct (truthy (random_fixed_length self)); [| eexists; reflexivity].
    rewrite F_normalize_scale, !vscale_vscale. eexists; reflexivity.
Qed.

Lemma random_jitter_projection_modes_witness :
  let self := mk_jitter 1 None (Some "force_proj"%string) in
  let b := one_atom (mk3 1 2 3) (mk3 2 0 0) in
  normalize_eps <= vnorm (mk3 2 0 0) /\
  exists b' p',
    nth_error (_random_jitter_batch self (fun _ _ => mk3 1 1 1) (fun _ _ => vzero) [b]) 0
      = Some b' /\
    nth_error (pos b') 0 = Some p' /\
    vdot (vsub p' (mk3 1 2 3)) (mk3 2 0 0) = 0.
Proof.
  cbv zeta.
  assert (Hn : normalize_eps <= vnorm (mk3 2 0 0)).
  { rewrite vnorm_x_axis by lra. unfold normalize_eps.
    assert (0 < / 10 ^ 12 < 1); [| lra].
    split; [apply Rinv_0_lt_compat; lra |].
    rewrite <- Rinv_1. apply Rinv_lt_contravar; lra. }
  split; [exact Hn |].
  destruct (random_jitter_projection_modes
              (mk_jitter 1 None (Some "force_proj"%string))
              (fun _ _ => mk3 1 1 1) (fun _ _ => vzero)
              [one_atom (mk3 1 2 3) (mk3 2 0 0)] 0 0
              (one_atom (mk3 1 2 3) (mk3 2 0 0)) (mk3 1 2 3) (mk3 2 0 0)
              eq_refl eq_refl eq_refl eq_refl)
    as [b' [p' [Hb' [Hp' [Horth _]]]]].
  exists b', p'. split; [exact Hb' |]. split; [exact Hp' |].
  exact (Horth eq_refl Hn).
Defined.

(** X11. When the configuration sets [random_fixed_length], the jitter
    length that construction stores is the configured [adversarial_alpha]
    (0.1 by default).  With a non-zero length [L] every atom is moved by
    [L * F.normalize(raw)], where [raw] is its raw displacement: by at most
    [|L|], and by exactly [|L|] when the raw displacement has norm at least
    1e-12.  A length of 0 is falsy and leaves the raw displacement as the
    move. *)
Theorem random_jitter_fixed_length (teacher_loaded : result unit)
    (cfg : DistillationConfig) (trainer : Trainer) (self : JitterAttrs)
    (noise noise2 : nat -> nat -> vec3) (batch_list : list Batch)
    (j a : nat) (b : Batch) (p : vec3) :
  __init__ teacher_loaded cfg = Ok trainer ->
  jitter trainer = Some self ->
  cfg_random_fixed_length cfg = Some true ->
  nth_error batch_list j = Some b ->
  length (force b) = length (pos b) ->
  nth_error (pos b) a = Some p ->
  let L := get (cfg_adversarial_alpha cfg) (1 / 10) in
  random_fixed_length self = Some L /\
  exists b' p' raw,
    nth_error (_random_jitter_batch self noise noise2 batch_list) j = Some b' /\
    nth_error (pos b') a = Some p' /\
    nth_error (jitter_displacement self noise noise2 j b) a = Some raw /\
    (L <> 0 ->
     vsub p' p = vscale L (F_normalize raw) /\
     vnorm (vsub p' p) <= Rabs L /\
     (normalize_eps <= vnorm raw -> vnorm (vsub p' p) = Rabs L)) /\
    (L = 0 -> vsub p' p = raw).
Proof.
  intros Hinit Hj Hflag Hb Hlen Hp L.
  assert (HL : random_fixed_length self = Some L).
  { unfold __init__ in Hinit.
    destruct teacher_loaded as [[] | e]; cbn [bind] in Hinit; [| discriminate].
    destruct (Rle_dec _ 1); [| discriminate].
    destruct (Rge_dec _ 0); [| discriminate].
    rewrite Hflag in Hinit. cbn [get] in Hinit.
    destruct (contains "random_jitter" (cfg_distill_loss cfg)) eqn:Hrj.
    - rewrite orb_true_r in Hinit.
      destruct (cfg_adversarial_distill_loss cfg); cbn [getitem bind] in Hinit;
        [| discriminate].
      destruct (cfg_adversarial_distill_lambda cfg); cbn [getitem bind] in Hinit;
        [| discriminate].
      injection Hinit as <-. cbn [jitter] in Hj. injection Hj as <-. reflexivity.
    - destruct (contains "adversarial" (cfg_distill_loss cfg) || false).
      + destruct (cfg_adversarial_distill_loss cfg); cbn [getitem bind] in Hinit;
          [| discriminate].
        destruct (cfg_adversarial_distill_lambda cfg); cbn [getitem bind] in Hinit;
          [| discriminate].
        injection Hinit as <-. cbn [jitter] in Hj. discriminate.
      + injection Hinit as <-. cbn [jitter] in Hj. discriminate. }
  split; [exact HL |].
  destruct (random_jitter_row self noise noise2 batch_list j a b p Hb Hlen Hp)
    as [b' [raw [Hb' [Hraw Hp']]]].
  eexists b', _, raw. split; [exact Hb' |]. split; [exact Hp' |].
  split; [exact Hraw |].
  rewrite vsub_vadd_cancel, HL. cbn [truthy float_of].
  destruct (Req_dec_T L 0) as [H0 | Hn0].
  - split; [contradiction | reflexivity].
  - split; [| contradiction]. intros _.
    split; [reflexivity |]. rewrite vnorm_vscale. split.
    + pose proof (vnorm_F_normalize_le_1 raw). pose proof (Rabs_pos L).
      pose proof (vnorm_nonneg (F_normalize raw)). nra.
    + intros Hn. rewrite (vnorm_F_normalize_unit raw Hn). ring.
Qed.

Lemma random_jitter_fixed_length_witness :
  let b := one_atom (mk3 1 2 3) (mk3 2 0 0) in
  exists trainer self,
    __init__ (Ok tt) (cfg_fixed_jitter (1 / 5)) = Ok trainer /\
    jitter trainer = Some self /\
    cfg_random_fixed_length (cfg_fixed_jitter (1 / 5)) = Some true /\
    nth_error [b] 0 = Some b /\
    length (force b) = length (pos b) /\
    nth_error (pos b) 0 = Some (mk3 1 2 3) /\
    random_fixed_length self = Some (1 / 5).
Proof.
  cbv zeta.
  assert (Hinit : exists trainer self,
             __init__ (Ok tt) (cfg_fixed_jitter (1 / 5)) = Ok trainer /\
             jitter trainer = Some self).
  { unfold __init__, cfg_fixed_jitter.
    cbn [bind cfg_v2v_geom_lambda get cfg_distill_loss].
    destruct (Rle_dec (1 / 2) 1) as [_ | H]; [| exfalso; lra].
    destruct (Rge_dec (1 / 2) 0) as [_ | H]; [| exfalso; lra].
    change (contains "random_jitter" "random_jitter_distill_loss") with true.
    rewrite orb_true_r. cbn [cfg_adversarial_distill_loss
      cfg_adversarial_distill_lambda getitem bind].
    eexists _, _. split; reflexivity. }
  destruct Hinit as [trainer [self [Hinit Hj]]].
  exists trainer, self.
  split; [exact Hinit |]. split; [exact Hj |]. split; [reflexivity |].
  split; [reflexivity |]. split; [reflexivity |]. split; [reflexivity |].
  exact (proj1 (random_jitter_fixed_length (Ok tt) (cfg_fixed_jitter (1 / 5))
                  trainer self (fun _ _ => mk3 1 1 1) (fun _ _ => vzero)
                  [one_atom (mk3 1 2 3) (mk3 2 0 0)] 0 0
                  (one_atom (mk3 1 2 3) (mk3 2 0 0)) (mk3 1 2 3)
                  Hinit Hj eq_refl eq_refl eq_refl eq_refl)).
Defined.

(** ** Projected gradient: the "sphere" and "force_proj" steps *)

Lemma vnorm_scaled_normalize (c : R) (v : vec3) :
  vnorm (vscale c (F_normalize v)) <= Rabs c /\
  (normalize_eps <= vnorm v -> vnorm (vscale c (F_normalize v)) = Rabs c).
Proof.
  rewrite vnorm_vscale. split.
  - pose proof (vnorm_F_normalize_le_1 v). pose proof (Rabs_pos c).
    pose proof (vnorm_nonneg (F_normalize v)). nra.
  - intros H. rewrite (vnorm_F_normalize_unit v H). ring.
Qed.

Lemma residual_step_orthogonal (n : R) (g f : vec3) :
  normalize_eps <= vnorm f ->
  vdot (vscale n (F_normalize (vsub g (vector_projection_row g f)))) f = 0.
Proof.
  intros Hf. rewrite F_normalize_scale, vscale_vscale, vdot_vscale_l.
  rewrite (projection_row_residual g f Hf). ring.
Qed.

(** X12. One inner iteration of the projected-gradient generator outside
    "ball" mode.  In "force_proj" mode an atom is moved orthogonally to its
    force (norm at least 1e-12), by at most [|lr| * ||force||] under the
    "prop" scaling and by at most [|alpha|] under the constant scaling.  In
    every other mode (the sphere) it is moved by [alpha * F.normalize(grad)]:
    by at most [|alpha|], and by exactly [|alpha|] when the gradient row has
    norm at least 1e-12. *)
Theorem pgd_sphere_and_force_proj_steps (self : AdvAttrs) (delta grad : list vec3)
    (noisy : Batch) (a : nat) (d g : vec3) :
  mode_is (adversarial_pgd_mode self) "ball" = false ->
  nth_error delta a = Some d ->
  nth_error grad a = Some g ->
  length (force noisy) = length grad ->
  exists d' f,
    nth_error (pgd_update self delta grad noisy) a = Some d' /\
    nth_error (force noisy) a = Some f /\
    (mode_is (adversarial_pgd_mode self) "force_proj" = false ->
     vsub d' d = vscale (adversarial_alpha self) (F_normalize g) /\
     vnorm (vsub d' d) <= Rabs (adversarial_alpha self) /\
     (normalize_eps <= vnorm g -> vnorm (vsub d' d) = Rabs (adversarial_alpha self))) /\
    (mode_is (adversarial_pgd_mode self) "force_proj" = true ->
     (normalize_eps <= vnorm f -> vdot (vsub d' d) f = 0) /\
     (adversarial_force_prop self = "prop"%string ->
      vnorm (vsub d' d) <= Rabs (adversarial_lr self) * vnorm f) /\
     (adversarial_force_prop self <> "prop"%string ->
      adversarial_force_prop self <> "inv_prop"%string ->
      vnorm (vsub d' d) <= Rabs (adversarial_alpha self))).
Proof.
  intros Hball Hd Hg Hlen.
  destruct (nth_error (force noisy) a) as [f |] eqn:Hf.
  2:{ apply nth_error_None in Hf.
      assert (a < length grad)%nat by (apply nth_error_Some; now rewrite Hg). lia. }
  unfold pgd_update. rewrite Hball.
  destruct (mode_is (adversarial_pgd_mode self) "force_proj").
  - (* force_proj *)
    set (disp := vsub g (vector_projection_row g f)).
    assert (Hdisp : nth_error (map2 vsub grad (vector_projection grad (force noisy))) a
                    = Some disp).
    { unfold vector_projection. now rewrite nth_error_map2, nth_error_map2, Hg, Hf. }
    destruct (String.eqb_spec (adversarial_force_prop self) "prop") as [Hprop | Hprop].
    + exists (vadd d (vscale (adversarial_lr self * vnorm f) (F_normalize disp))), f.
      split.
      { rewrite nth_error_inplace2, Hd, nth_error_map2, nth_error_map, Hf, Hdisp.
        reflexivity. }
      split; [reflexivity |]. split; [discriminate |]. intros _.
      rewrite vsub_vadd_cancel. split; [| split].
      * intros Hn. now apply residual_step_orthogonal.
      * intros _.
        destruct (vnorm_scaled_normalize (adversarial_lr self * vnorm f) disp) as [H _].
        rewrite Rabs_mult, (Rabs_pos_eq (vnorm f)) in H by apply vnorm_nonneg.
        exact H.
      * intros H. contradiction.
    + destruct (String.eqb_spec (adversarial_force_prop self) "inv_prop") as [Hinv | Hinv].
      * exists (vadd d (vscale (adversarial_lr self / vnorm f) (F_normalize disp))), f.
        split.
        { rewrite nth_error_inplace2, Hd, nth_error_map2, nth_error_map, Hf, Hdisp.
          reflexivity. }
        split; [reflexivity |]. split; [discriminate |]. intros _.
        rewrite vsub_vadd_cancel. split; [| split].
        -- intros Hn. now apply residual_step_orthogonal.
        -- intros H. contradiction.
        -- intros _ H. contradiction.
      * exists (vadd d (vscale (adversarial_alpha self) (F_normalize disp))), f.
        split.
        { rewrite nth_error_inplace2, Hd, nth_error_map2, nth_error_map, Hdisp.
          reflexivity. }
        split; [reflexivity |]. split; [discriminate |]. intros _.
        rewrite vsub_vadd_cancel. split; [| split].
        -- intros Hn. now apply residual_step_orthogonal.
        -- intros H. contradiction.
        -- intros _ _. apply vnorm_scaled_normalize.
  - (* sphere *)
    exists (vadd d (vscale (adversarial_alpha self) (F_normalize g))), f.
    split.
    { now rewrite nth_error_inplace2, Hd, nth_error_map, Hg. }
    split; [reflexivity |]. split; [| discriminate]. intros _.
    rewrite vsub_vadd_cancel. split; [reflexivity |].
    apply vnorm_scaled_normalize.
Qed.

Lemma pgd_sphere_and_force_proj_steps_witness :
  let self := mk_adv 1 3 (1 / 10) true None 0 true "prop" 0 in
  mode_is (adversarial_pgd_mode self) "ball" = false /\
  exists d',
    nth_error (pgd_update self [vzero] [mk3 2 0 0] (one_atom vzero (mk3 0 1 0))) 0
      = Some d' /\
    vnorm (vsub d' vzero) <= Rabs (1 / 10).
Proof.
  cbv zeta. split; [reflexivity |].
  destruct (pgd_sphere_and_force_proj_steps
              (mk_adv 1 3 (1 / 10) true None 0 true "prop" 0)
              [vzero] [mk3 2 0 0] (one_atom vzero (mk3 0 1 0)) 0 vzero (mk3 2 0 0)
              eq_refl eq_refl eq_refl eq_refl)
    as [d' [f [Hd' [_ [Hsphere _]]]]].
  exists d'. split; [exact Hd' |].
  exact (proj1 (proj2 (Hsphere eq_refl))).
Defined.

(** ** Projected gradient: the gradient buffer *)

Lemma inplace2_vadd_scaled (k : R) (g : list vec3) :
  inplace2 vadd (map (vscale k) g) g = map (vscale (k + 1)) g.
Proof.
  induction g as [| x g IH]; [reflexivity |].
  cbn [map inplace2]. rewrite IH. f_equal.
  unfold vadd, vscale. cbn. f_equal; ring.
Qed.

Lemma inplace2_rows_scaled (k : R) (G : list (list vec3)) :
  inplace2 (inplace2 vadd) (map (map (vscale k)) G) G = map (map (vscale (k + 1))) G.
Proof.
  induction G as [| g G IH]; [reflexivity |].
  cbn [map inplace2]. now rewrite IH, inplace2_vadd_scaled.
Qed.

Lemma zeros_scaled (p : list vec3) (g : list vec3) :
  length g = length p -> zeros_like p = map (vscale 0) g.
Proof.
  revert g. induction p as [| x p IH]; intros [| y g] H; try discriminate; [reflexivity |].
  cbn [zeros_like map]. fold (zeros_like p). rewrite (IH g) by (cbn in H; lia).
  now rewrite vscale_0.
Qed.

Lemma init_grads_scaled (self : AdvAttrs) (noise : nat -> nat -> vec3)
    (batch_list : list Batch) (G : list (list vec3)) :
  Forall2 (fun b g => length g = length (pos b)) batch_list G ->
  pgd_grad_list (pgd_init self noise batch_list) = map (map (vscale 0)) G.
Proof.
  intros Hshape. unfold pgd_init, init_delta_list. cbn [pgd_grad_list].
  destruct (Rlt_dec 0 (adversarial_init_sd self)).
  - generalize 0%nat at 2 as k. induction Hshape as [| b g bl G Hg _ IH]; intros k.
    + reflexivity.
    + cbn [length seq map2 map]. rewrite IH. f_equal.
      apply zeros_scaled. now rewrite length_map, length_seq.
  - induction Hshape as [| b g bl G Hg _ IH]; [reflexivity |].
    cbn [map]. rewrite IH. f_equal.
    apply zeros_scaled. unfold zeros_like. now rewrite length_map.
Qed.

(** X13. Nothing zeroes the gradient of the displacements between the inner
    iterations of the projected-gradient generator, so every backward pass
    adds to it: when the backward pass yields the same gradient [G] at every
    iteration, the buffer after [k] iterations is [k * G], and the
    displacement update of iteration [k + 1] is computed from
    [(k + 1) * G]. *)
Theorem pgd_gradient_accumulates (self : AdvAttrs) (noise : nat -> nat -> vec3)
    (batch_list : list Batch) (G : list (list vec3)) (k : nat) :
  Forall2 (fun b g => length g = length (pos b)) batch_list G ->
  let backward := fun _ : list Batch => G in
  let st := Nat.iter k (pgd_iter self backward batch_list)
                     (pgd_init self noise batch_list) in
  pgd_grad_list st = map (map (vscale (INR k))) G /\
  pgd_iter self backward batch_list st =
    mk_pgd_state
      (pgd_updates self (pgd_delta_list st) (map (map (vscale (INR k + 1))) G)
                   (map2 AddNoise batch_list (pgd_delta_list st)))
      (map (map (vscale (INR k + 1))) G).
Proof.
  intros Hshape backward st.
  assert (Hgrad : pgd_grad_list st = map (map (vscale (INR k))) G).
  { subst st. induction k as [| k IH].
    - cbn [Nat.iter INR]. now apply init_grads_scaled.
    - rewrite Nat.iter_succ. unfold pgd_iter at 1. cbn [pgd_grad_list].
      rewrite IH. unfold backward. rewrite inplace2_rows_scaled.
      rewrite S_INR. reflexivity. }
  split; [exact Hgrad |].
  unfold pgd_iter. rewrite Hgrad. unfold backward.
  now rewrite inplace2_rows_scaled.
Qed.

Lemma pgd_gradient_accumulates_witness :
  let self := adv_ball 1 (1 / 10) in
  let G := [[mk3 1 0 0]] in
  Forall2 (fun b g => length g = length (pos b)) [one_atom vzero vzero] G /\
  pgd_grad_list (Nat.iter 2 (pgd_iter self (fun _ => G) [one_atom vzero vzero])
                          (pgd_init self (fun _ _ => vzero) [one_atom vzero vzero]))
  = map (map (vscale (INR 2))) G.
Proof.
  cbv zeta.
  assert (Hshape : Forall2 (fun b g => length g = length (pos b))
                           [one_atom vzero vzero] [[mk3 1 0 0]]).
  { repeat constructor. }
  split; [exact Hshape |].
  exact (proj1 (pgd_gradient_accumulates (adv_ball 1 (1 / 10)) (fun _ _ => vzero)
                  [one_atom vzero vzero] [[mk3 1 0 0]] 2 Hshape)).
Defined.

(** ** Loss weights: sign and homogeneous batches *)

Lemma where_Forall (P : R -> Prop) (mask : list bool) (a b : R) :
  P a -> P b -> Forall P (where_ mask a b).
Proof.
  intros Ha Hb. unfold where_. apply Forall_forall. intros x Hx.
  apply in_map_iff in Hx. destruct Hx as [m [<- _]]. now destruct m.
Qed.

Lemma synthetic_fraction_range (sids : list Z) :
  sids <> [] -> 0 <= synthetic_fraction sids <= 1.
Proof.
  intros Hne. unfold synthetic_fraction.
  set (n := INR (length sids)).
  set (k := INR (length (filter is_synthetic sids))).
  assert (Hn : 0 < n).
  { unfold n. apply lt_0_INR. destruct sids; [contradiction | cbn; lia]. }
  assert (Hk : 0 <= k <= n).
  { unfold k, n. split; [apply pos_INR |]. apply le_INR. apply filter_length_le. }
  split.
  - apply Rmult_le_pos; [lra |]. left. now apply Rinv_0_lt_compat.
  - apply Rmult_le_reg_r with n; [exact Hn |].
    unfold Rdiv. rewrite Rmult_assoc, Rinv_l by lra. lra.
Qed.

Lemma filter_all {A : Type} (f : A -> bool) (l : list A) :
  forallb f l = true -> filter f l = l.
Proof.
  induction l as [| x l IH]; [reflexivity |]. cbn.
  intros H. apply andb_true_iff in H. destruct H as [Hx Hl].
  now rewrite Hx, IH.
Qed.

Lemma filter_none {A : Type} (f : A -> bool) (l : list A) :
  forallb (fun x => negb (f x)) l = true -> filter f l = [].
Proof.
  induction l as [| x l IH]; [reflexivity |]. cbn.
  intros H. apply andb_true_iff in H. destruct H as [Hx Hl].
  apply negb_true_iff in Hx. now rewrite Hx, IH.
Qed.

Lemma where_all_true (f : Z -> bool) (l : list Z) (a b : R) :
  forallb f l = true -> where_ (map f l) a b = map (fun _ => a) l.
Proof.
  induction l as [| x l IH]; [reflexivity |]. cbn.
  intros H. apply andb_true_iff in H. destruct H as [Hx Hl].
  rewrite Hx. f_equal. now apply IH.
Qed.

Lemma where_all_false (f : Z -> bool) (l : list Z) (a b : R) :
  forallb (fun x => negb (f x)) l = true -> where_ (map f l) a b = map (fun _ => b) l.
Proof.
  induction l as [| x l IH]; [reflexivity |]. cbn.
  intros H. apply andb_true_iff in H. destruct H as [Hx Hl].
  apply negb_true_iff in Hx. rewrite Hx. f_equal. now apply IH.
Qed.

Lemma nth_map_all_true (f : Z -> bool) (l : list Z) (s : nat) :
  forallb f l = true -> (s < length l)%nat -> nth s (map f l) false = true.
Proof.
  revert s. induction l as [| x l IH]; intros s H Hs; [cbn in Hs; lia |].
  cbn in H. apply andb_true_iff in H. destruct H as [Hx Hl].
  destruct s as [| s]; cbn; [exact Hx |]. apply IH; [exact Hl | cbn in Hs; lia].
Qed.

Lemma nth_map_all_false (f : Z -> bool) (l : list Z) (s : nat) :
  forallb (fun x => negb (f x)) l = true -> nth s (map f l) false = false.
Proof.
  revert s. induction l as [| x l IH]; intros s H; [now destruct s |].
  cbn in H. apply andb_true_iff in H. destruct H as [Hx Hl].
  apply negb_true_iff in Hx.
  destruct s as [| s]; cbn; [exact Hx |]. now apply IH.
Qed.

(** X14. With a ratio [rho > 0] and at least one system in the first
    sub-batch, every weight that [_loss_weights_d1M] returns is strictly
    positive.  On a batch without synthetic systems, and on a batch of
    synthetic systems only (membership indices within the systems), every
    weight is 1: the ratio only matters in mixed batches. *)
Theorem loss_weights_positive_and_homogeneous (rho : R) (b0 : Batch) (rest : list Batch) :
  0 < rho ->
  sid b0 <> [] ->
  exists w_node w_sample,
    _loss_weights_d1M (Some rho) (b0 :: rest) = Ok (w_node, w_sample) /\
    Forall (fun w => 0 < w) w_node /\
    Forall (fun w => 0 < w) w_sample /\
    (forallb (fun s => negb (is_synthetic s)) (sid b0) = true ->
     w_node = map (fun _ => 1) (batch b0) /\ w_sample = map (fun _ => 1) (sid b0)) /\
    (forallb is_synthetic (sid b0) = true ->
     Forall (fun s => (s < length (sid b0))%nat) (batch b0) ->
     w_node = map (fun _ => 1) (batch b0) /\ w_sample = map (fun _ => 1) (sid b0)).
Proof.
  intros Hrho Hne.
  pose proof (synthetic_fraction_range (sid b0) Hne) as Hr.
  unfold _loss_weights_d1M.
  destruct (Rlt_dec 0 rho) as [_ | H]; [| contradiction].
  eexists _, _. split; [reflexivity |].
  rewrite batch_ratio_is_fraction.
  change (map (fun s => (4999999 <? s)%Z) (sid b0)) with (map is_synthetic (sid b0)).
  set (r := synthetic_fraction (sid b0)) in *.
  assert (HD : 0 < 1 - r + rho * r) by nra.
  assert (Hdft : 0 < 1 / (1 - r + rho * r)).
  { unfold Rdiv. rewrite Rmult_1_l. now apply Rinv_0_lt_compat. }
  assert (Hs : 0 < rho * (1 / (1 - r + rho * r))) by now apply Rmult_lt_0_compat.
  split; [now apply where_Forall |]. split; [now apply where_Forall |].
  split.
  - intros Hreal.
    assert (Hr0 : r = 0).
    { unfold r, synthetic_fraction. rewrite (filter_none _ _ Hreal). cbn. lra. }
    assert (Hone : 1 / (1 - r + rho * r) = 1) by (rewrite Hr0; field).
    rewrite Hone. split.
    + unfold where_, isin. rewrite map_map. apply map_ext. intros s.
      rewrite isin_nonzero. now rewrite (nth_map_all_false _ _ _ Hreal).
    + now apply where_all_false.
  - intros Hsyn Hidx.
    assert (Hr1 : r = 1).
    { unfold r, synthetic_fraction. rewrite (filter_all _ _ Hsyn).
      field. apply not_0_INR. destruct (sid b0); [contradiction | discriminate]. }
    assert (Hone : rho * (1 / (1 - r + rho * r)) = 1) by (rewrite Hr1; field; lra).
    rewrite Hone. split.
    + unfold where_, isin. rewrite map_map. apply map_ext_in. intros s Hin.
      rewrite isin_nonzero.
      rewrite Forall_forall in Hidx.
      rewrite (nth_map_all_true _ _ _ Hsyn) by (rewrite <- ?length_map; now apply Hidx).
      reflexivity.
    + now apply where_all_true.
Qed.

Lemma loss_weights_positive_and_homogeneous_witness :
  0 < 2 /\ sid batch_3_5 <> [] /\
  exists w_node w_sample,
    _loss_weights_d1M (Some 2) [batch_3_5] = Ok (w_node, w_sample) /\
    Forall (fun w => 0 < w) w_node /\
    Forall (fun w => 0 < w) w_sample.
Proof.
  assert (Hrho : 0 < 2) by lra.
  assert (Hne : sid batch_3_5 <> []) by discriminate.
  split; [exact Hrho |]. split; [exact Hne |].
  destruct (loss_weights_positive_and_homogeneous 2 batch_3_5 [] Hrho Hne)
    as [wn [ws [Hw [Hn [Hs _]]]]].
  exists wn, ws. split; [exact Hw |]. split; [exact Hn | exact Hs].
Defined.

(** ** The weighted vector loss *)

Lemma loss_weights_with_ratio (rho : R) (b0 : Batch) (rest : list Batch) :
  0 < rho ->
  sid b0 <> [] ->
  let r := synthetic_fraction (sid b0) in
  let w_dft := 1 / (1 - r + rho * r) in
  let mask := map is_synthetic (sid b0) in
  0 < w_dft /\
  _loss_weights_d1M (Some rho) (b0 :: rest) =
  Ok (where_ (isin (batch b0) (nonzero mask)) (rho * w_dft) w_dft,
      where_ mask (rho * w_dft) w_dft).
Proof.
  intros Hrho Hne r w_dft mask.
  pose proof (synthetic_fraction_range (sid b0) Hne) as Hr. fold r in Hr.
  assert (HD : 0 < 1 - r + rho * r) by nra.
  split.
  - unfold w_dft, Rdiv. rewrite Rmult_1_l. now apply Rinv_0_lt_compat.
  - unfold _loss_weights_d1M.
    destruct (Rlt_dec 0 rho) as [_ | H]; [| contradiction].
    now rewrite batch_ratio_is_fraction.
Qed.

Lemma sqdiff_scaled (w a b : R) :
  0 <= w -> sqdiff (sqrt w * a) (sqrt w * b) = w * sqdiff a b.
Proof.
  intros Hw. unfold sqdiff.
  replace ((sqrt w * a - sqrt w * b) * (sqrt w * a - sqrt w * b))
    with (sqrt w * sqrt w * ((a - b) * (a - b))) by ring.
  now rewrite sqrt_sqrt.
Qed.

Lemma squared_errors_row_scaled (w : R) (s t : list vec3) :
  0 <= w ->
  concat (map2 (fun u v => [sqdiff (vx u) (vx v); sqdiff (vy u) (vy v);
                            sqdiff (vz u) (vz v)])
               (map (vscale (sqrt w)) s) (map (vscale (sqrt w)) t)) =
  map (Rmult w)
      (concat (map2 (fun u v => [sqdiff (vx u) (vx v); sqdiff (vy u) (vy v);
                                 sqdiff (vz u) (vz v)]) s t)).
Proof.
  intros Hw. revert t. induction s as [| u s IH]; intros [| v t]; try reflexivity.
  cbn [map map2 concat app vscale vx vy vz]. rewrite IH.
  now rewrite !sqdiff_scaled.
Qed.

Lemma squared_errors_scaled (S T : list (list vec3)) (w : list R) :
  Forall (fun x => 0 <= x) w ->
  squared_errors (map2 (fun row wi => map (vscale wi) row) S (map sqrt w))
                 (map2 (fun row wi => map (vscale wi) row) T (map sqrt w)) =
  map2 (fun e wi => map (Rmult wi) e) (squared_errors S T) w.
Proof.
  intros Hw. revert S T. induction Hw as [| x w Hx _ IH]; intros S T.
  - destruct S, T; reflexivity.
  - destruct S as [| s S], T as [| t T]; try reflexivity.
    unfold squared_errors in *. cbn [map map2].
    rewrite IH. now rewrite squared_errors_row_scaled.
Qed.

Lemma scale_rows_same (S : list (list vec3)) (w : list R) :
  length S = length w ->
  scale_rows S w = Ok (map2 (fun row wi => map (vscale wi) row) S w).
Proof. intros H. unfold scale_rows. now apply broadcast2_same. Qed.

Lemma scale_rows_ones (S : list (list vec3)) (w : list R) :
  Forall (fun x => x = 1) w -> length w = length S ->
  scale_rows S (map sqrt w) = Ok S.
Proof.
  intros Hw Hlen. rewrite scale_rows_same by now rewrite length_map.
  f_equal. revert S Hlen.
  induction Hw as [| x w Hx _ IH]; intros [| s S] Hlen;
    try discriminate; [reflexivity |].
  cbn [map map2]. rewrite IH by (cbn in Hlen; lia).
  subst x. rewrite sqrt_1. f_equal.
  rewrite <- (map_id s) at 2. apply map_ext. intros v.
  destruct v. unfold vscale. cbn. f_equal; ring.
Qed.

(** On tensors of the same shape [F.mse_loss] averages the squared errors
    entry by entry. *)
Lemma mse_loss_vectors_same_shape (S T : list (list vec3)) :
  Forall2 (fun s t => length s = length t) S T ->
  mse_loss_vectors S T = Ok (meanR (concat (squared_errors S T))).
Proof.
  intros H. unfold mse_loss_vectors.
  rewrite (broadcast_rows_same _ _ _ H). cbn [bind].
  now rewrite map_map2.
Qed.

Lemma scaled_rows_same_shape (S T : list (list vec3)) (w : list R) :
  Forall2 (fun s t => length s = length t) S T ->
  Forall2 (fun s t => length s = length t)
          (map2 (fun row wi => map (vscale wi) row) S w)
          (map2 (fun row wi => map (vscale wi) row) T w).
Proof.
  intros H. revert w. induction H as [| s t S T Hst _ IH]; intros [| x w];
    cbn [map2]; constructor.
  - now rewrite !length_map.
  - apply IH.
Qed.

(** X15. [_vec2vec_distill_loss_d1M] scales both feature tensors by the
    square roots of the per-atom weights, so that on feature tensors of the
    same shape with one row per atom of the first sub-batch its value is the
    mean of the squared errors of [_vec2vec_distill_loss] with every atom's
    errors multiplied by the atom's weight itself; a number of feature rows
    that differs from the number of weights, neither being 1, is a
    RuntimeError.  Without a configured ratio, on feature tensors with one
    row per atom of the first sub-batch, the weights are ones and the two
    losses coincide. *)
Theorem vec2vec_d1M_weighted_mse (out_batch : OutBatch) (b0 : Batch) (rest : list Batch) :
  let S := vector_feature (out out_batch) in
  let T := vector_feature (t_out out_batch) in
  (length (tags b0) = length S ->
   length T = length S ->
   _vec2vec_distill_loss_d1M None out_batch (b0 :: rest) =
   _vec2vec_distill_loss out_batch (b0 :: rest)) /\
  (forall rho,
     0 < rho ->
     sid b0 <> [] ->
     exists w_node w_sample,
       _loss_weights_d1M (Some rho) (b0 :: rest) = Ok (w_node, w_sample) /\
       length w_node = length (batch b0) /\
       Forall (fun w => 0 < w) w_node /\
       (length S = length (batch b0) ->
        Forall2 (fun s t => length s = length t) S T ->
        _vec2vec_distill_loss_d1M (Some rho) out_batch (b0 :: rest) =
        Ok (meanR (concat (map2 (fun e w => map (Rmult w) e)
                                (squared_errors S T) w_node)))) /\
       (length S <> length (batch b0) ->
        length S <> 1%nat ->
        length (batch b0) <> 1%nat ->
        _vec2vec_distill_loss_d1M (Some rho) out_batch (b0 :: rest) =
        Raise RuntimeError)).
Proof.
  intros S T. split.
  - intros Hlen HT.
    unfold _vec2vec_distill_loss_d1M, _vec2vec_distill_loss, _loss_weights_d1M.
    cbn [bind fst]. fold S T.
    assert (Hones : Forall (fun x => x = 1) (ones_like (tags b0))).
    { unfold ones_like. apply Forall_forall. intros x Hx.
      apply in_map_iff in Hx. now destruct Hx as [_ [<- _]]. }
    assert (Hl : length (ones_like (tags b0)) = length S).
    { unfold ones_like. now rewrite length_map. }
    rewrite (scale_rows_ones S _ Hones Hl). cbn [bind].
    rewrite (scale_rows_ones T _ Hones) by now rewrite Hl.
    reflexivity.
  - intros rho Hrho Hne.
    destruct (loss_weights_with_ratio rho b0 rest Hrho Hne) as [Hdft Hw].
    cbv zeta in Hdft, Hw.
    set (w_node := where_ (isin (batch b0) (nonzero (map is_synthetic (sid b0))))
                          (rho * (1 / (1 - synthetic_fraction (sid b0)
                                       + rho * synthetic_fraction (sid b0))))
                          (1 / (1 - synthetic_fraction (sid b0)
                                + rho * synthetic_fraction (sid b0)))) in *.
    eexists w_node, _. split; [exact Hw |].
    assert (Hwl : length w_node = length (batch b0)).
    { unfold w_node, where_, isin. now rewrite !length_map. }
    assert (Hpos : Forall (fun w => 0 < w) w_node).
    { apply where_Forall; [now apply Rmult_lt_0_compat | exact Hdft]. }
    split; [exact Hwl |]. split; [exact Hpos |]. split.
    + intros HS Hshape.
      assert (HT : length T = length (batch b0)).
      { rewrite <- HS. symmetry. clear - Hshape. induction Hshape; cbn; congruence. }
      unfold _vec2vec_distill_loss_d1M. rewrite Hw. cbn [bind fst]. fold S T.
      rewrite (scale_rows_same S) by (rewrite length_map; congruence). cbn [bind].
      rewrite (scale_rows_same T) by (rewrite length_map; congruence). cbn [bind].
      rewrite mse_loss_vectors_same_shape by now apply scaled_rows_same_shape.
      rewrite squared_errors_scaled; [reflexivity |].
      eapply Forall_impl; [| exact Hpos]. cbn beta. intros x Hx. lra.
    + intros HS HS1 Hb1.
      unfold _vec2vec_distill_loss_d1M. rewrite Hw. cbn [bind fst]. fold S T.
      unfold scale_rows.
      rewrite broadcast2_mismatch; [reflexivity | | exact HS1 |];
        rewrite length_map; congruence.
Qed.

(** ** Global preservation: symmetry, sign, isometries *)

Lemma index_select_raise {A : Type} (t : list A) (index : list nat) (e : exn) :
  index_select t index = Raise e -> e = IndexError.
Proof.
  induction index as [| i index IH]; cbn; [discriminate |].
  destruct (nth_error t i); [| now intros [= <-]].
  destruct (index_select t index); cbn; [discriminate |].
  intros [= <-]. now apply IH.
Qed.

Lemma index_select_map {A B : Type} (g : A -> B) (t : list A) (index : list nat) :
  index_select (map g t) index =
  match index_select t index with
  | Ok rows => Ok (map g rows)
  | Raise e => Raise e
  end.
Proof.
  induction index as [| i index IH]; [reflexivity |].
  cbn. rewrite nth_error_map. destruct (nth_error t i); [| reflexivity].
  cbn. rewrite IH. now destruct (index_select t index).
Qed.

Lemma index_select_in {A : Type} (t : list A) (index : list nat) (rows : list A) :
  index_select t index = Ok rows -> Forall (fun x => In x t) rows.
Proof.
  revert rows. induction index as [| i index IH]; intros rows; cbn.
  - intros [= <-]. constructor.
  - destruct (nth_error t i) as [x |] eqn:Hx; [| discriminate].
    destruct (index_select t index) as [rest |]; cbn; [| discriminate].
    intros [= <-]. constructor; [now apply nth_error_In with i | now apply IH].
Qed.

Lemma map2_comm {A : Type} (f : A -> A -> R) (a b : list A) :
  (forall x y, f x y = f y x) -> map2 f a b = map2 f b a.
Proof.
  intros Hf. revert b. induction a as [| x a IH]; intros [| y b]; try reflexivity.
  cbn. now rewrite Hf, IH.
Qed.

Lemma sqdiff_comm (a b : R) : sqdiff a b = sqdiff b a.
Proof. unfold sqdiff. ring. Qed.

Lemma sqdiff_nonneg (a b : R) : 0 <= sqdiff a b.
Proof. unfold sqdiff. apply Rle_0_sqr. Qed.

Lemma sumR_nonneg (l : list R) : Forall (fun x => 0 <= x) l -> 0 <= sumR l.
Proof.
  induction 1 as [| x l Hx _ IH]; cbn; [lra |]. fold (sumR l). lra.
Qed.

Lemma div_INR_nonneg (x : R) (n : nat) : 0 <= x -> 0 <= x / INR n.
Proof.
  intros Hx. destruct n as [| n].
  - cbn [INR]. unfold Rdiv. rewrite Rinv_0. lra.
  - apply Rmult_le_pos; [exact Hx |]. left. apply Rinv_0_lt_compat.
    apply lt_0_INR. lia.
Qed.

Lemma meanR_nonneg (l : list R) : Forall (fun x => 0 <= x) l -> 0 <= meanR l.
Proof. intros H. unfold meanR. apply div_INR_nonneg. now apply sumR_nonneg. Qed.

Lemma scatter_mean_nonneg (src : list R) (index : list nat) (out_ : list R) :
  Forall (fun x => 0 <= x) src ->
  scatter_mean src index = Ok out_ ->
  Forall (fun x => 0 <= x) out_.
Proof.
  intros Hsrc. unfold scatter_mean.
  destruct (Nat.eqb (length src) (length index)); [| discriminate].
  intros [= <-]. apply Forall_forall. intros x Hx.
  apply in_map_iff in Hx. destruct Hx as [k [<- _]].
  apply div_INR_nonneg. apply sumR_nonneg.
  apply Forall_forall. intros v Hv.
  apply in_map_iff in Hv. destruct Hv as [[v' i] [<- Hin]].
  apply filter_In in Hin. destruct Hin as [Hin _].
  apply in_combine_l in Hin. rewrite Forall_forall in Hsrc. now apply Hsrc.
Qed.

Lemma map2_sqdiff_nonneg (a b : list R) : Forall (fun x => 0 <= x) (map2 sqdiff a b).
Proof.
  revert b. induction a as [| x a IH]; intros [| y b]; cbn; constructor.
  - apply sqdiff_nonneg.
  - apply IH.
Qed.

Lemma map2_isometry {A : Type} (pd : A -> A -> R) (g : A -> A) (t a b : list A) :
  (forall x y, In x t -> In y t -> pd (g x) (g y) = pd x y) ->
  Forall (fun x => In x t) a -> Forall (fun x => In x t) b ->
  map2 pd (map g a) (map g b) = map2 pd a b.
Proof.
  intros Hg Ha. revert b. induction Ha as [| x a Hx _ IH]; intros b Hb.
  - reflexivity.
  - destruct Hb as [| y b Hy Hb]; [reflexivity |].
    cbn. now rewrite Hg, IH.
Qed.

(** X16. The global-preservation loss does not change when the student and
    the teacher features are swapped (the error it raises included), and a
    loss it returns is never negative. *)
Theorem global_preservation_symmetric_nonneg (Row : Type)
    (pair_distance : Row -> Row -> R) (feat_s feat_t : list Row)
    (batch_list : list Batch) :
  _global_preservation Row pair_distance feat_s feat_t batch_list =
  _global_preservation Row pair_distance feat_t feat_s batch_list /\
  (forall loss,
     _global_preservation Row pair_distance feat_s feat_t batch_list = Ok loss ->
     0 <= loss).
Proof.
  unfold _global_preservation. destruct batch_list as [| b0 rest].
  - split; [reflexivity | discriminate].
  - destruct (pair_indices (concat (map natoms (b0 :: rest)))) as [index1 index2].
    destruct (index_select feat_s index1) as [s1 | e1] eqn:Hs1;
    destruct (index_select feat_s index2) as [s2 | e2] eqn:Hs2;
    destruct (index_select feat_t index1) as [t1 | e3] eqn:Ht1;
    destruct (index_select feat_t index2) as [t2 | e4] eqn:Ht2;
    cbn [bind];
    repeat match goal with
           | H : index_select _ _ = Raise _ |- _ =>
               apply index_select_raise in H; subst
           end;
    try (split; [reflexivity | discriminate]).
    rewrite (map2_comm sqdiff (map2 pair_distance t1 t2)) by apply sqdiff_comm.
    split; [reflexivity |].
    intros loss. 
    destruct (scatter_mean _ index1) as [l1 |] eqn:H1; cbn [bind]; [| discriminate].
    destruct (scatter_mean l1 (batch b0)) as [l2 |] eqn:H2; cbn [bind]; [| discriminate].
    intros [= <-]. apply meanR_nonneg.
    eapply scatter_mean_nonneg; [| exact H2].
    eapply scatter_mean_nonneg; [| exact H1].
    apply map2_sqdiff_nonneg.
Qed.

(** X17. The global-preservation loss sees the student features only
    through the distances between pairs of rows: replacing every student row
    [x] by [g x], where [g] keeps the distance of any two student rows,
    leaves the outcome unchanged.  Adding one and the same offset row to
    every student node feature is such a map. *)
Theorem global_preservation_isometry (Row : Type)
    (pair_distance : Row -> Row -> R) (g : Row -> Row)
    (feat_s feat_t : list Row) (batch_list : list Batch) :
  (forall x y, In x feat_s -> In y feat_s ->
               pair_distance (g x) (g y) = pair_distance x y) ->
  _global_preservation Row pair_distance (map g feat_s) feat_t batch_list =
  _global_preservation Row pair_distance feat_s feat_t batch_list /\
  (forall (offset : list R) (out_batch : OutBatch),
     Forall (fun row => length row = length offset) (node_feature (out out_batch)) ->
     _node_global_preservation_distill_loss
       (mk_out_batch
          (mk_out (map (fun row => map2 Rplus row offset) (node_feature (out out_batch)))
                  (edge_feature (out out_batch)) (vector_feature (out out_batch))
                  (energy (out out_batch)) (forces (out out_batch))
                  (out_natoms (out out_batch)))
          (t_out out_batch)) batch_list =
     _node_global_preservation_distill_loss out_batch batch_list).
Proof.
  intros Hg.
  assert (Hgen : forall (g' : Row -> Row) (pd : Row -> Row -> R) (s t : list Row),
             (forall x y, In x s -> In y s -> pd (g' x) (g' y) = pd x y) ->
             _global_preservation Row pd (map g' s) t batch_list =
             _global_preservation Row pd s t batch_list).
  { clear. intros g' pd s t Hg'. unfold _global_preservation.
    destruct batch_list as [| b0 rest]; [reflexivity |].
    destruct (pair_indices (concat (map natoms (b0 :: rest)))) as [index1 index2].
    rewrite !index_select_map.
    destruct (index_select s index1) as [s1 | e1] eqn:Hs1; [| reflexivity].
    destruct (index_select s index2) as [s2 | e2] eqn:Hs2; [| reflexivity].
    cbn [bind].
    rewrite (map2_isometry pd g' s s1 s2 Hg'
               (index_select_in _ _ _ Hs1) (index_select_in _ _ _ Hs2)).
    reflexivity. }
  split; [now apply Hgen |].
  intros offset out_batch Hrows.
  unfold _node_global_preservation_distill_loss. cbn [out t_out node_feature].
  clear Hg. 
  assert (Hnode : forall (s t : list (list R)),
             Forall (fun row => length row = length offset) s ->
             _global_preservation (list R) node_pair_distance
               (map (fun row => map2 Rplus row offset) s) t batch_list =
             _global_preservation (list R) node_pair_distance s t batch_list).
  { clear. intros s t Hs. unfold _global_preservation.
    destruct batch_list as [| b0 rest]; [reflexivity |].
    destruct (pair_indices (concat (map natoms (b0 :: rest)))) as [index1 index2].
    rewrite !index_select_map.
    destruct (index_select s index1) as [s1 | e1] eqn:Hs1; [| reflexivity].
    destruct (index_select s index2) as [s2 | e2] eqn:Hs2; [| reflexivity].
    cbn [bind].
    rewrite (map2_isometry node_pair_distance (fun row => map2 Rplus row offset)
               s s1 s2);
      [reflexivity | | exact (index_select_in _ _ _ Hs1)
       | exact (index_select_in _ _ _ Hs2)].
    intros x y Hx Hy. rewrite Forall_forall in Hs.
    pose proof (Hs x Hx) as Hlx. pose proof (Hs y Hy) as Hly.
    unfold node_pair_distance. f_equal.
    clear - Hlx Hly. revert x y Hlx Hly.
    induction offset as [| c offset IH]; intros [| a x] [| b y] Hlx Hly;
      try discriminate; [reflexivity |].
    cbn [map2]. rewrite IH by (cbn in Hlx, Hly; lia). f_equal.
    unfold sqdiff. ring. }
  now apply Hnode.
Qed.

Lemma global_preservation_isometry_witness :
  let g := fun row : list R => map2 Rplus row [10; 20] in
  let feat := [[1; 2]; [3; 5]] in
  let b := mk_batch (repeat vzero 2) (repeat vzero 2) [0%Z; 0%Z] [0%Z; 0%Z]
                    [2%nat] [0] [1%Z] [0%Z] [0; 0]%nat in
  (forall x y, In x feat -> In y feat ->
               node_pair_distance (g x) (g y) = node_pair_distance x y) /\
  _global_preservation (list R) node_pair_distance (map g feat) [[0; 0]; [1; 1]] [b] =
  _global_preservation (list R) node_pair_distance feat [[0; 0]; [1; 1]] [b].
Proof.
  cbv zeta.
  assert (Hg : forall x y, In x [[1; 2]; [3; 5]] -> In y [[1; 2]; [3; 5]] ->
                 node_pair_distance (map2 Rplus x [10; 20]) (map2 Rplus y [10; 20]) =
                 node_pair_distance x y).
  { intros x y [<- | [<- | []]] [<- | [<- | []]];
      unfold node_pair_distance, meanR, sqdiff; cbn; f_equal; ring. }
  split; [exact Hg |].
  exact (proj1 (global_preservation_isometry (list R) node_pair_distance
                  (fun row => map2 Rplus row [10; 20])
                  [[1; 2]; [3; 5]] [[0; 0]; [1; 1]]
                  [mk_batch (repeat vzero 2) (repeat vzero 2) [0%Z; 0%Z] [0%Z; 0%Z]
                            [2%nat] [0] [1%Z] [0%Z] [0; 0]%nat] Hg)).
Defined.

(** ** Bounds of the geometric vector loss *)

Lemma cosine_similarity_range (a b : vec3) : -1 <= cosine_similarity a b <= 1.
Proof.
  unfold cosine_similarity.
  pose proof (vdot_le_norms a b) as Hcs.
  pose proof cosine_eps_pos as Heps.
  set (D := Rmax (vnorm a * vnorm b) cosine_eps).
  assert (HD1 : vnorm a * vnorm b <= D) by apply Rmax_l.
  assert (HD0 : cosine_eps <= D) by apply Rmax_r.
  assert (HD2 : 0 < D) by lra.
  assert (Habs : Rabs (vdot a b) <= D) by lra.
  assert (Hlo : - D <= vdot a b <= D).
  { unfold Rabs in Habs. destruct (Rcase_abs (vdot a b)); lra. }
  split.
  - apply Rmult_le_reg_r with D; [exact HD2 |].
    unfold Rdiv. rewrite Rmult_assoc, Rinv_l by lra. lra.
  - apply Rmult_le_reg_r with D; [exact HD2 |].
    unfold Rdiv. rewrite Rmult_assoc, Rinv_l by lra. lra.
Qed.

Lemma sumR_le (c : R) (l : list R) :
  Forall (fun x => x <= c) l -> sumR l <= c * INR (length l).
Proof.
  induction 1 as [| x l Hx _ IH].
  - cbn. lra.
  - change (length (x :: l)) with (S (length l)). rewrite S_INR.
    cbn [sumR fold_right]. fold (sumR l). lra.
Qed.

Lemma div_INR_le (x c : R) (n m : nat) :
  0 <= c -> (n <= m)%nat -> x <= c * INR n -> x / INR m <= c.
Proof.
  intros Hc Hnm Hx. destruct m as [| m].
  - cbn [INR]. unfold Rdiv. rewrite Rinv_0. lra.
  - assert (Hm : 0 < INR (S m)) by (apply lt_0_INR; lia).
    assert (Hle : INR n <= INR (S m)) by now apply le_INR.
    apply Rmult_le_reg_r with (INR (S m)); [exact Hm |].
    unfold Rdiv. rewrite Rmult_assoc, Rinv_l by lra. nra.
Qed.

Lemma meanR_le (c : R) (l : list R) :
  0 <= c -> Forall (fun x => x <= c) l -> meanR l <= c.
Proof.
  intros Hc Hl. unfold meanR.
  apply (div_INR_le _ c (length l) (length l) Hc (Nat.le_refl _)).
  now apply sumR_le.
Qed.

Lemma scatter_mean_le (c : R) (src : list R) (index : list nat) (out_ : list R) :
  0 <= c ->
  Forall (fun x => x <= c) src ->
  scatter_mean src index = Ok out_ ->
  Forall (fun x => x <= c) out_.
Proof.
  intros Hc Hsrc. unfold scatter_mean.
  destruct (Nat.eqb (length src) (length index)); [| discriminate].
  intros [= <-]. apply Forall_forall. intros x Hx.
  apply in_map_iff in Hx. destruct Hx as [k [<- _]].
  set (sent := map fst (filter (fun p => Nat.eqb (snd p) k) (combine src index))).
  apply (div_INR_le _ c (length sent) (Nat.max (length sent) 1) Hc); [lia |].
  apply sumR_le. apply Forall_forall. intros v Hv.
  apply in_map_iff in Hv. destruct Hv as [[v' i] [<- Hin]].
  apply filter_In in Hin. destruct Hin as [Hin _].
  apply in_combine_l in Hin. rewrite Forall_forall in Hsrc. now apply Hsrc.
Qed.

Lemma map2_Forall {A B : Type} (P : R -> Prop) (f : A -> B -> R) (a : list A) (b : list B) :
  (forall x y, P (f x y)) -> Forall P (map2 f a b).
Proof.
  intros Hf. revert b. induction a as [| x a IH]; intros [| y b]; cbn; constructor.
  - apply Hf.
  - apply IH.
Qed.

(** X18. On a batch with at least one atom, with one feature row per atom
    and the same positive number of channels in the student's and the
    teacher's row of every atom, [_vec2vec_geometric] returns; its magnitude
    term is non-negative, its direction term lies between 0 and 2, and, the
    interpolation weight being in the range that construction checked, the
    loss itself is non-negative.  Student and teacher tensors with the same
    number of rows whose first rows differ in their number of channels,
    neither number being 1, do not broadcast: the loss raises RuntimeError. *)
Theorem vec2vec_geometric_bounds (teacher_loaded : result unit)
    (cfg : DistillationConfig) (self : Trainer)
    (out_batch : OutBatch) (b0 : Batch) (rest : list Batch) :
  __init__ teacher_loaded cfg = Ok self ->
  ((0 < length (batch b0))%nat ->
   length (vector_feature (out out_batch)) = length (batch b0) ->
   Forall2 (fun s t => length s = length t /\ s <> [])
           (vector_feature (out out_batch)) (vector_feature (t_out out_batch)) ->
   exists m d,
     magnitude_term out_batch (b0 :: rest) = Ok m /\
     direction_term out_batch (b0 :: rest) = Ok d /\
     0 <= m /\ 0 <= d <= 2 /\
     _vec2vec_geometric (v2v_geom_lambda self) out_batch (b0 :: rest) =
       Ok ((1 - v2v_geom_lambda self) * m + v2v_geom_lambda self * d) /\
     0 <= (1 - v2v_geom_lambda self) * m + v2v_geom_lambda self * d) /\
  (forall s t S' T',
     vector_feature (out out_batch) = s :: S' ->
     vector_feature (t_out out_batch) = t :: T' ->
     length S' = length T' ->
     length s <> length t -> length s <> 1%nat -> length t <> 1%nat ->
     _vec2vec_geometric (v2v_geom_lambda self) out_batch (b0 :: rest) =
       Raise RuntimeError).
Proof.
  intros Hinit. split.
  - intros _ HS Hshape.
    pose proof (init_lambda_range _ _ _ Hinit) as Hlam.
    pose proof (same_channels_same_length _ _ _ Hshape) as Hsame.
    set (S := vector_feature (out out_batch)) in *.
    set (T := vector_feature (t_out out_batch)) in *.
    assert (HT : length T = length (batch b0)).
    { rewrite <- HS. symmetry. clear - Hsame. induction Hsame; cbn; congruence. }
    set (dirs := map2 (fun s t => meanR (map2 (fun a b => 1 - cosine_similarity a b) s t))
                      S T).
    set (mags := map2 (fun s t => meanR (map2 (fun a b => Rabs (vnorm a - vnorm b)) s t))
                      S T).
    assert (Hd0 : Forall (fun x => 0 <= x) dirs).
    { apply map2_Forall. intros s t. apply meanR_nonneg. apply map2_Forall.
      intros a b. pose proof (cosine_similarity_range a b). lra. }
    assert (Hd2 : Forall (fun x => x <= 2) dirs).
    { apply map2_Forall. intros s t. apply meanR_le; [lra |]. apply map2_Forall.
      intros a b. pose proof (cosine_similarity_range a b). lra. }
    assert (Hm0 : Forall (fun x => 0 <= x) mags).
    { apply map2_Forall. intros s t. apply meanR_nonneg. apply map2_Forall.
      intros a b. apply Rabs_pos. }
    assert (Hdl : length dirs = length (batch b0)).
    { unfold dirs. rewrite length_map2. lia. }
    assert (Hml : length mags = length (batch b0)).
    { unfold mags. rewrite length_map2. lia. }
    destruct (scatter_mean_returns dirs (batch b0) Hdl) as [pd Hpd].
    destruct (scatter_mean_returns mags (batch b0) Hml) as [pm Hpm].
    exists (meanR pm), (meanR pd).
    assert (Hmag : magnitude_term out_batch (b0 :: rest) = Ok (meanR pm)).
    { rewrite (magnitude_term_same_shape _ _ _ Hsame). fold S T. fold mags.
      now rewrite Hpm. }
    assert (Hdir : direction_term out_batch (b0 :: rest) = Ok (meanR pd)).
    { rewrite (direction_term_same_shape _ _ _ Hsame). fold S T. fold dirs.
      now rewrite Hpd. }
    assert (Hm : 0 <= meanR pm).
    { apply meanR_nonneg. now apply (scatter_mean_nonneg mags (batch b0)). }
    assert (Hd : 0 <= meanR pd <= 2).
    { split.
      - apply meanR_nonneg. now apply (scatter_mean_nonneg dirs (batch b0)).
      - apply meanR_le; [lra |].
        apply (scatter_mean_le 2 dirs (batch b0)); [lra | exact Hd2 | exact Hpd]. }
    split; [exact Hmag |]. split; [exact Hdir |]. split; [exact Hm |].
    split; [exact Hd |]. split.
    + unfold _vec2vec_geometric. rewrite Hdir, Hmag. reflexivity.
    + nra.
  - intros s t S' T' HS HT Hlen Hst Hs Ht.
    unfold _vec2vec_geometric, direction_term. rewrite HS, HT.
    now rewrite (broadcast_rows_mismatch _ s t S' T' Hlen Hst Hs Ht).
Qed.

Lemma vec2vec_geometric_bounds_witness :
  let ob := mk_out_batch (out_vectors [[mk3 2 0 0; mk3 0 0 1]])
                         (out_vectors [[mk3 0 1 0; mk3 0 0 3]]) in
  let b := one_atom vzero vzero in
  exists self,
    __init__ (Ok tt) (cfg_geometric None (PyFloat 1) "vec2vec_geometric") = Ok self /\
    (0 < length (batch b))%nat /\
    length (vector_feature (out ob)) = length (batch b) /\
    Forall2 (fun s t : list vec3 => length s = length t /\ s <> [])
            (vector_feature (out ob)) (vector_feature (t_out ob)) /\
    exists m d,
      magnitude_term ob [b] = Ok m /\ direction_term ob [b] = Ok d /\
      0 <= m /\ 0 <= d <= 2.
Proof.
  cbv zeta.
  assert (Hinit : exists self,
            __init__ (Ok tt) (cfg_geometric None (PyFloat 1) "vec2vec_geometric") = Ok self).
  { unfold __init__, cfg_geometric. cbn.
    destruct (Rle_dec (1 / 2) 1) as [_ | H]; [| exfalso; lra].
    destruct (Rge_dec (1 / 2) 0) as [_ | H]; [| exfalso; lra].
    eexists. reflexivity. }
  destruct Hinit as [self Hinit]. exists self.
  assert (Hatom : (0 < length (batch (one_atom vzero vzero)))%nat) by (cbn; lia).
  assert (Hshape : Forall2 (fun s t : list vec3 => length s = length t /\ s <> [])
                     [[mk3 2 0 0; mk3 0 0 1]] [[mk3 0 1 0; mk3 0 0 3]]).
  { repeat constructor. discriminate. }
  split; [exact Hinit |]. split; [exact Hatom |]. split; [reflexivity |].
  split; [exact Hshape |].
  destruct (proj1 (vec2vec_geometric_bounds (Ok tt) _ self
                     (mk_out_batch (out_vectors [[mk3 2 0 0; mk3 0 0 1]])
                                   (out_vectors [[mk3 0 1 0; mk3 0 0 3]]))
                     (one_atom vzero vzero) [] Hinit) Hatom eq_refl Hshape)
    as [m [d [Hm [Hd [Hm0 [Hd2 _]]]]]].
  exists m, d. split; [exact Hm |]. split; [exact Hd |]. split; [exact Hm0 | exact Hd2].
Defined.

(** ** Teacher checkpoint: every wrapping, and malformed checkpoints *)

Lemma split_on_not_nil (sep : ascii) (s : string) : split_on sep s <> [].
Proof.
  induction s as [| c s IH]; cbn; [discriminate |].
  destruct (Ascii.eqb c sep); [discriminate |].
  destruct (split_on sep s); [contradiction | discriminate].
Qed.

Lemma split_on_other (sep c : ascii) (s : string) :
  Ascii.eqb c sep = false ->
  split_on sep (String c s) =
  String c (hd EmptyString (split_on sep s)) :: tl (split_on sep s).
Proof.
  intros H. cbn [split_on]. rewrite H.
  pose proof (split_on_not_nil sep s) as Hne.
  destruct (split_on sep s); [contradiction | reflexivity].
Qed.

Lemma split_on_module_prefix (s : string) :
  split_on "." (append "module." s) = "module"%string :: split_on "." s.
Proof.
  cbn [append].
  rewrite !split_on_other by reflexivity.
  cbn [split_on Ascii.eqb Bool.eqb andb hd tl]. reflexivity.
Qed.

Lemma second_component_plain (k : string) :
  second_component (append "module." k) = Ok (hd EmptyString (split_on "." k)).
Proof.
  unfold second_component. rewrite split_on_module_prefix.
  pose proof (split_on_not_nil "." k) as Hne.
  destruct (split_on "." k); [contradiction | reflexivity].
Qed.

Lemma second_component_ddp (k : string) :
  second_component (append "module.module." k) = Ok "module"%string.
Proof.
  change (append "module.module." k) with (append "module." (append "module." k)).
  rewrite second_component_plain, split_on_module_prefix. reflexivity.
Qed.

Lemma keys_combine {V : Type} (ks : list string) (vals : list V) :
  length vals = length ks -> keys (combine ks vals) = ks.
Proof.
  revert vals. induction ks as [| k ks IH]; intros [| v vals] H; try discriminate;
    [reflexivity |].
  cbn. f_equal. apply IH. cbn in H. lia.
Qed.

Lemma map_keys_combine {V : Type} (f : string -> string) (ks : list string) (vals : list V) :
  map (fun kv => (f (fst kv), snd kv)) (combine ks vals) = combine (map f ks) vals.
Proof.
  revert vals. induction ks as [| k ks IH]; intros [| v vals]; try reflexivity.
  cbn. f_equal. apply IH.
Qed.

Lemma subset_keys_refl (l : list string) : subset_keys l l = true.
Proof.
  unfold subset_keys. apply forallb_forall. intros k Hk.
  apply existsb_exists. exists k. split; [exact Hk | apply String.eqb_refl].
Qed.

Lemma load_state_dict_fits {V : Type} (model_keys : list string) (d : list (string * V)) :
  keys d = model_keys -> load_state_dict model_keys d = Ok d.
Proof.
  intros <-. unfold load_state_dict. now rewrite subset_keys_refl.
Qed.

Lemma load_state_dict_missing {V : Type} (model_keys : list string)
    (d : list (string * V)) (k : string) :
  In k model_keys -> ~ In k (keys d) ->
  load_state_dict model_keys d = Raise StateMismatch.
Proof.
  intros Hin Hout. unfold load_state_dict.
  assert (H : subset_keys model_keys (keys d) = false).
  { unfold subset_keys. apply not_true_is_false. intros Hall.
    rewrite forallb_forall in Hall. specialize (Hall k Hin).
    apply existsb_exists in Hall. destruct Hall as [k' [Hk' Heq]].
    apply String.eqb_eq in Heq. now subst. }
  now rewrite H.
Qed.

Lemma drop_module_prefix (k : string) : drop_chars 7 (append "module." k) = k.
Proof. reflexivity. Qed.

(** X4. A checkpoint saved from a teacher with or without the distributed
    wrapper (keys "module.module.<name>" or "module.<name>"), loaded into a
    teacher with or without it, is accepted with every tensor under the key
    the teacher expects, in all combinations but one: with the process group
    initialised and [noddp] set the teacher is not distributed-wrapped, yet a
    checkpoint saved without the wrapper, which fits as it is, gets "module."
    put before every key (the second branch does not look at [noddp]) and
    the strict load raises the state-mismatch error.  The parameter names are
    distinct and the first of them does not start with the component
    "module". *)
Theorem load_teacher_all_wrappings (V : Type) (k0 : string) (ks : list string)
    (vals : list V) (saved_ddp initialized noddp : bool) :
  let base_keys := k0 :: ks in
  NoDup base_keys ->
  length vals = length base_keys ->
  hd EmptyString (split_on "." k0) <> "module"%string ->
  let saved_keys :=
    map (append (if saved_ddp then "module.module." else "module.")) base_keys in
  load_teacher initialized noddp base_keys (combine saved_keys vals) =
  if negb saved_ddp && initialized && noddp
  then Raise StateMismatch
  else Ok (combine (teacher_keys initialized noddp base_keys) vals).
Proof.
  intros base_keys Hnd Hlen Hk0 saved_keys.
  assert (Hplain : NoDup (map (append "module.") base_keys))
    by now apply NoDup_map_append.
  assert (Hddp : NoDup (map (append "module.module.") base_keys))
    by now apply NoDup_map_append.
  assert (Hmm : map (append "module.") (map (append "module.") base_keys) =
                map (append "module.module.") base_keys).
  { rewrite map_map. reflexivity. }
  assert (Hdrop : map (drop_chars 7) (map (append "module.module.") base_keys) =
                  map (append "module.") base_keys).
  { rewrite map_map. apply map_ext. intros k. reflexivity. }
  destruct vals as [| v vals]; [discriminate |].
  subst saved_keys. unfold load_teacher.
  destruct saved_ddp.
  - (* saved with the distributed wrapper *)
    cbn [map combine base_keys]. rewrite second_component_ddp.
    cbn [bind String.eqb Ascii.eqb Bool.eqb andb negb].
    change ((append "module.module." k0, v)
            :: combine (map (append "module.module.") ks) vals)
      with (combine (map (append "module.module.") base_keys) (v :: vals)).
    destruct initialized, noddp; unfold teacher_keys; cbn [negb orb andb bind].
    + rewrite dict_comprehension_nodup by (rewrite keys_combine; [now rewrite Hdrop | now rewrite length_map]).
      rewrite map_keys_combine, Hdrop.
      apply load_state_dict_fits. apply keys_combine. now rewrite length_map.
    + apply load_state_dict_fits. apply keys_combine. now rewrite length_map.
    + rewrite dict_comprehension_nodup by (rewrite keys_combine; [now rewrite Hdrop | now rewrite length_map]).
      rewrite map_keys_combine, Hdrop.
      apply load_state_dict_fits. apply keys_combine. now rewrite length_map.
    + rewrite dict_comprehension_nodup by (rewrite keys_combine; [now rewrite Hdrop | now rewrite length_map]).
      rewrite map_keys_combine, Hdrop.
      apply load_state_dict_fits. apply keys_combine. now rewrite length_map.
  - (* saved without it *)
    cbn [map combine base_keys]. rewrite second_component_plain.
    cbn [bind].
    destruct (String.eqb_spec (hd EmptyString (split_on "." k0)) "module")
      as [Heq | _]; [contradiction |].
    change ((append "module." k0, v) :: combine (map (append "module.") ks) vals)
      with (combine (map (append "module.") base_keys) (v :: vals)).
    destruct initialized, noddp; unfold teacher_keys; cbn [negb orb andb bind].
    + (* initialised, noddp: prefixed although it fits *)
      rewrite dict_comprehension_nodup by (rewrite keys_combine; [now rewrite Hmm | now rewrite length_map]).
      rewrite map_keys_combine, Hmm.
      apply load_state_dict_missing with (append "module." k0).
      * now left.
      * rewrite keys_combine by now rewrite length_map.
        intros Hin. apply in_map_iff in Hin. destruct Hin as [k [Hk _]].
        change (append "module.module." k) with (append "module." (append "module." k)) in Hk.
        apply append_injective in Hk. subst k0.
        apply Hk0. rewrite split_on_module_prefix. reflexivity.
    + rewrite dict_comprehension_nodup by (rewrite keys_combine; [now rewrite Hmm | now rewrite length_map]).
      rewrite map_keys_combine, Hmm.
      apply load_state_dict_fits. apply keys_combine. now rewrite length_map.
    + apply load_state_dict_fits. apply keys_combine. now rewrite length_map.
    + apply load_state_dict_fits. apply keys_combine. now rewrite length_map.
Qed.

Lemma load_teacher_all_wrappings_witness :
  NoDup base_keys_example /\
  length [1%nat; 2%nat] = length base_keys_example /\
  hd EmptyString (split_on "." "emb.weight") <> "module"%string /\
  load_teacher true true base_keys_example ckpt_non_distributed = Raise StateMismatch /\
  load_teacher true false base_keys_example ckpt_non_distributed =
    Ok [("module.module.emb.weight"%string, 1%nat);
        ("module.module.out.bias"%string, 2%nat)].
Proof.
  assert (Hnd : NoDup base_keys_example).
  { unfold base_keys_example. constructor.
    - intros [H | []]. discriminate.
    - constructor; [intros [] | constructor]. }
  assert (Hlen : length [1%nat; 2%nat] = length base_keys_example) by reflexivity.
  assert (Hk0 : hd EmptyString (split_on "." "emb.weight") <> "module"%string)
    by (cbn; discriminate).
  split; [exact Hnd |]. split; [exact Hlen |]. split; [exact Hk0 |].
  split.
  - exact (load_teacher_all_wrappings nat "emb.weight" ["out.bias"%string]
             [1%nat; 2%nat] false true true Hnd Hlen Hk0).
  - exact (load_teacher_all_wrappings nat "emb.weight" ["out.bias"%string]
             [1%nat; 2%nat] false true false Hnd Hlen Hk0).
Defined.

Lemma contains_dot_false_split (k : string) :
  contains "." k = false -> split_on "." k = [k].
Proof.
  induction k as [| c k IH]; [reflexivity |].
  cbn [contains String.prefix split_on]. intros H.
  apply orb_false_iff in H. destruct H as [Hc Hk].
  destruct (ascii_dec "." c) as [-> | Hne].
  - cbn in Hc. destruct k; discriminate.
  - assert (Heq : Ascii.eqb c "." = false).
    { apply Ascii.eqb_neq. congruence. }
    rewrite Heq, (IH Hk). reflexivity.
Qed.

(** X19. [load_teacher] on a malformed checkpoint: an empty state dict
    raises StopIteration (there is no first key), and a first key without a
    dot raises IndexError (its split has no second component), whatever the
    process group and [noddp].  These and the state-mismatch error of the
    strict load are the only errors of the function. *)
Theorem load_teacher_malformed_checkpoint (V : Type) (initialized noddp : bool)
    (base_keys : list string) :
  load_teacher initialized noddp base_keys (@nil (string * V)) = Raise StopIteration /\
  (forall first_key (v : V) rest,
     contains "." first_key = false ->
     load_teacher initialized noddp base_keys ((first_key, v) :: rest) = Raise IndexError) /\
  (forall (ckpt : list (string * V)) e,
     load_teacher initialized noddp base_keys ckpt = Raise e ->
     e = StopIteration \/ e = IndexError \/ e = StateMismatch).
Proof.
  split; [reflexivity |]. split.
  - intros first_key v rest Hdot.
    assert (Hsc : second_component first_key = Raise IndexError).
    { unfold second_component. now rewrite (contains_dot_false_split _ Hdot). }
    unfold load_teacher. rewrite Hsc.
    destruct initialized, noddp; reflexivity.
  - intros ckpt e. unfold load_teacher.
    destruct ckpt as [| [first_key v] rest]; [intros [= <-]; now left |].
    assert (Hsc : forall e', second_component first_key = Raise e' -> e' = IndexError).
    { intros e'. unfold second_component.
      destruct (split_on "." first_key) as [| a [| b l]]; intros [= <-]; reflexivity. }
    assert (Hload : forall (d : list (string * V)) e',
               load_state_dict (teacher_keys initialized noddp base_keys) d = Raise e' ->
               e' = StateMismatch).
    { intros d e'. unfold load_state_dict.
      destruct (_ && _); [discriminate | now intros [= <-]]. }
    destruct (second_component first_key) as [c | e'] eqn:Hc.
    + destruct initialized, noddp; cbn [negb orb bind];
        destruct (String.eqb c "module"); cbn [negb];
        intros H; apply Hload in H; auto.
    + specialize (Hsc e' eq_refl). subst e'.
      destruct initialized, noddp; cbn [negb orb bind]; intros [= <-]; auto.
Qed.

(** ** Construction: the loss names and their coefficients *)

Lemma lambda_at_repeat (x : R) (n i : nat) :
  lambda_at (PyList (repeat x n)) i =
  if (i <? n)%nat then Ok x else Raise IndexError.
Proof.
  unfold lambda_at. revert i. induction n as [| n IH]; intros [| i]; try reflexivity.
  cbn [repeat nth_error]. rewrite IH. reflexivity.
Qed.

Lemma init_adversarial_fields (teacher_loaded : result unit) (cfg : DistillationConfig)
    (self : Trainer) :
  __init__ teacher_loaded cfg = Ok self ->
  (contains "adversarial" (cfg_distill_loss cfg)
   || contains "random_jitter" (cfg_distill_loss cfg) = true ->
   exists adv_loss adv_lambda,
     cfg_adversarial_distill_loss cfg = Some adv_loss /\
     cfg_adversarial_distill_lambda cfg = Some adv_lambda /\
     adversarial_distill_fns self = Some (map strip (split_on "," adv_loss)) /\
     adversarial_distill_lambda self =
       Some (broadcast_lambda adv_lambda (length (distill_fns self)))) /\
  (contains "adversarial" (cfg_distill_loss cfg)
   || contains "random_jitter" (cfg_distill_loss cfg) = false ->
   adversarial_distill_fns self = None /\ adversarial_distill_lambda self = None).
Proof.
  unfold __init__. destruct teacher_loaded as [[] | e]; cbn [bind]; [| discriminate].
  destruct (Rle_dec _ 1); [| discriminate].
  destruct (Rge_dec _ 0); [| discriminate].
  destruct (contains "adversarial" (cfg_distill_loss cfg)
            || contains "random_jitter" (cfg_distill_loss cfg)).
  - destruct (cfg_adversarial_distill_loss cfg) as [adv_loss |];
      cbn [getitem bind]; [| discriminate].
    destruct (cfg_adversarial_distill_lambda cfg) as [adv_lambda |];
      cbn [getitem bind]; [| discriminate].
    intros [= <-]. split; [| discriminate]. intros _.
    exists adv_loss, adv_lambda. cbn. repeat split; reflexivity.
  - intros [= <-]. split; [discriminate |]. intros _. split; reflexivity.
Qed.

(** X20. A float coefficient is repeated once per name of [distill_fns] at
    construction, so in the training loop the coefficient of every
    configured loss is found and is that float.  The float coefficient of
    the adversarial losses is repeated once per name of [distill_fns] as
    well, not of [adversarial_distill_fns]: its lookup succeeds for the first
    [len(distill_fns)] adversarial losses and raises IndexError for any
    further one.  Without the adversarial keys in a configuration that names
    an adversarial or random-jitter loss, construction raises KeyError. *)
Theorem init_broadcasts_coefficients (teacher_loaded : result unit)
    (cfg : DistillationConfig) :
  (forall self,
     __init__ teacher_loaded cfg = Ok self ->
     (forall x,
        cfg_distill_lambda cfg = PyFloat x ->
        forall i, (i < length (distill_fns self))%nat ->
                  lambda_at (distill_lambda self) i = Ok x) /\
     (forall x,
        cfg_adversarial_distill_lambda cfg = Some (PyFloat x) ->
        contains "adversarial" (cfg_distill_loss cfg)
        || contains "random_jitter" (cfg_distill_loss cfg) = true ->
        exists lambdas,
          adversarial_distill_lambda self = Some lambdas /\
          forall i,
            lambda_at lambdas i =
            if (i <? length (distill_fns self))%nat then Ok x else Raise IndexError)) /\
  (contains "adversarial" (cfg_distill_loss cfg)
   || contains "random_jitter" (cfg_distill_loss cfg) = true ->
   cfg_adversarial_distill_loss cfg = None \/ cfg_adversarial_distill_lambda cfg = None ->
   0 <= get (cfg_v2v_geom_lambda cfg) (1 / 2) <= 1 ->
   __init__ (Ok tt) cfg = Raise KeyError).
Proof.
  split.
  - intros self Hinit.
    destruct (init_fields _ _ _ Hinit) as [_ [_ Hlam]].
    destruct (init_adversarial_fields _ _ _ Hinit) as [Hadv _].
    split.
    + intros x Hx i Hi. rewrite Hlam, Hx. cbn [broadcast_lambda].
      rewrite lambda_at_repeat.
      destruct (Nat.ltb_spec i (length (distill_fns self))); [reflexivity | lia].
    + intros x Hx Hc.
      destruct (Hadv Hc) as [adv_loss [adv_lambda [_ [Hcfg [_ Hl]]]]].
      rewrite Hx in Hcfg. injection Hcfg as <-.
      eexists. split; [exact Hl |].
      intros i. cbn [broadcast_lambda]. apply lambda_at_repeat.
  - intros Hc Hmiss Hlam. unfold __init__. cbn [bind].
    destruct (Rle_dec _ 1) as [_ | H]; [| exfalso; lra].
    destruct (Rge_dec _ 0) as [_ | H]; [| exfalso; lra].
    rewrite Hc.
    destruct Hmiss as [H | H]; rewrite H.
    + reflexivity.
    + now destruct (cfg_adversarial_distill_loss cfg).
Qed.

(** ** Construction: an empty loss name *)

Lemma split_on_trailing (sep : ascii) (s : string) :
  exists first more,
    split_on sep (append s (String sep EmptyString)) = (first :: more) ++ [EmptyString].
Proof.
  induction s as [| c s [first [more IH]]].
  - exists EmptyString, []. cbn. now rewrite Ascii.eqb_refl.
  - cbn [append split_on]. rewrite IH.
    destruct (Ascii.eqb c sep).
    + exists EmptyString, (first :: more). reflexivity.
    + exists (String c first), more. reflexivity.
Qed.

Lemma dispatch_empty_name (env : Env) (self : Trainer) :
  dispatch env self "" = Raise AttributeError.
Proof. reflexivity. Qed.

(** X21. The list of loss names that construction derives from
    [distill_loss] is never empty: an empty string yields the single name "",
    and a string that ends with a comma yields "" as its last name.  There is
    no method for the empty name, so with an empty [distill_loss] the first
    training step raises AttributeError after the forward pass and the
    supervised loss. *)
Theorem empty_loss_name_is_rejected (env : Env) (teacher_loaded : result unit)
    (cfg : DistillationConfig) (self : Trainer) (batch_list : list Batch) :
  __init__ teacher_loaded cfg = Ok self ->
  distill_fns self <> [] /\
  (forall s, cfg_distill_loss cfg = append s "," ->
             last (distill_fns self) "none"%string = EmptyString) /\
  dispatch env self "" = Raise AttributeError /\
  (cfg_distill_loss cfg = EmptyString ->
   distill_fns self = [EmptyString] /\
   forall out_batch supervised,
     _distill_forward env batch_list = Ok out_batch ->
     _compute_loss env (cfg_loss_weighting_synthetic (distillation self))
                   (out out_batch) batch_list None = Ok supervised ->
     train_step env self batch_list = ([Forward; SupervisedLoss], Raise AttributeError)).
Proof.
  intros Hinit.
  destruct (init_fields _ _ _ Hinit) as [_ [Hfns _]].
  split; [| split; [| split]].
  - rewrite Hfns. pose proof (split_on_not_nil "," (cfg_distill_loss cfg)) as Hne.
    destruct (split_on "," (cfg_distill_loss cfg)); [contradiction | discriminate].
  - intros s Hs. rewrite Hfns, Hs.
    destruct (split_on_trailing "," s) as [first [more Hsplit]].
    rewrite Hsplit, map_app. cbn [map]. rewrite last_last. reflexivity.
  - reflexivity.
  - intros Hempty.
    assert (Hone : distill_fns self = [EmptyString]).
    { rewrite Hfns, Hempty. reflexivity. }
    split; [exact Hone |].
    intros out_batch supervised Hfwd Hsup.
    unfold train_step. rewrite Hfwd, bindT_lift_ok, bindT_emit.
    rewrite Hsup, bindT_lift_ok, bindT_emit.
    rewrite Hone. cbn [distill_losses]. rewrite dispatch_empty_name.
    reflexivity.
Qed.

Lemma empty_loss_name_is_rejected_witness :
  exists self,
    __init__ (Ok tt) (cfg_geometric None (PyFloat 1) "") = Ok self /\
    distill_fns self = [EmptyString] /\
    train_step env_example self [one_atom vzero vzero] =
      ([Forward; SupervisedLoss], Raise AttributeError).
Proof.
  pose proof (init_plain None (PyFloat 1) "" eq_refl eq_refl eq_refl) as Hinit.
  eexists. split; [exact Hinit |].
  destruct (empty_loss_name_is_rejected env_example _ _ _ [one_atom vzero vzero] Hinit)
    as [_ [_ [_ H]]].
  destruct (H eq_refl) as [Hone Hstep].
  split; [exact Hone |].
  eapply Hstep; [reflexivity |].
  unfold _compute_loss. cbn. reflexivity.
Defined.

(** ** Metrics on free atoms *)

Lemma natoms_free_length (mask : list bool) (ns : list nat) :
  length (natoms_free mask ns) = length ns.
Proof.
  revert mask. induction ns as [| n ns IH]; intros mask; [reflexivity |].
  cbn. now rewrite IH.
Qed.

Lemma firstn_plus {A : Type} (n m : nat) (l : list A) :
  firstn (n + m) l = firstn n l ++ firstn m (skipn n l).
Proof.
  revert l. induction n as [| n IH]; intros l; [reflexivity |].
  destruct l as [| x l]; cbn.
  - now rewrite firstn_nil.
  - now rewrite IH.
Qed.

Lemma natoms_free_sum (mask : list bool) (ns : list nat) :
  list_sum (natoms_free mask ns) =
  length (filter (fun m : bool => m) (firstn (list_sum ns) mask)).
Proof.
  revert mask. induction ns as [| n ns IH]; intros mask.
  - reflexivity.
  - cbn [natoms_free list_sum fold_right]. fold (list_sum ns).
    fold (list_sum (natoms_free (skipn n mask) ns)).
    rewrite IH, firstn_plus, filter_app, length_app. reflexivity.
Qed.

Lemma natoms_free_le (mask : list bool) (ns : list nat) :
  Forall2 le (natoms_free mask ns) ns.
Proof.
  revert mask. induction ns as [| n ns IH]; intros mask; cbn; constructor.
  - etransitivity; [apply filter_length_le |]. apply firstn_le_length.
  - apply IH.
Qed.

Lemma masked_select_length {A : Type} (t : list A) (mask : list bool) :
  length t = length mask ->
  length (masked_select t mask) = length (filter (fun m : bool => m) mask).
Proof.
  revert mask. induction t as [| x t IH]; intros [| m mask] H; try discriminate;
    [reflexivity |].
  cbn. destruct m; cbn; rewrite IH by (cbn in H; lia); reflexivity.
Qed.

Lemma masked_select_all {A : Type} (t : list A) (mask : list bool) :
  length t = length mask -> Forall (fun m => m = true) mask ->
  masked_select t mask = t.
Proof.
  revert mask. induction t as [| x t IH]; intros [| m mask] H Hall; try discriminate;
    [reflexivity |].
  inversion Hall as [| ? ? Hm Hrest]; subst. cbn.
  now rewrite IH by (cbn in H; lia || assumption).
Qed.

Lemma natoms_free_all (mask : list bool) (ns : list nat) :
  Forall (fun m => m = true) mask -> length mask = list_sum ns ->
  natoms_free mask ns = ns.
Proof.
  revert mask. induction ns as [| n ns IH]; intros mask Hall Hlen; [reflexivity |].
  cbn [natoms_free]. cbn [list_sum fold_right] in Hlen. fold (list_sum ns) in Hlen.
  assert (Hboth : Forall (fun m => m = true) (firstn n mask) /\
                  Forall (fun m => m = true) (skipn n mask)).
  { apply Forall_app. now rewrite firstn_skipn. }
  destruct Hboth as [Hf Hs].
  rewrite IH by (try assumption; rewrite length_skipn; lia).
  f_equal.
  assert (Hfilter : filter (fun m : bool => m) (firstn n mask) = firstn n mask).
  { clear - Hf. induction Hf as [| m l Hm _ IH]; [reflexivity |].
    cbn. rewrite Hm. now rewrite IH. }
  rewrite Hfilter, length_firstn. lia.
Qed.

(** X22. With evaluation on free atoms, [_compute_metrics] on a prediction
    that has forces, one per atom, returns; the atom counts it reports for
    the prediction and the target are the same list, one entry per system,
    none above the system's atom count, and they add up to the number of
    force rows left after masking, in the prediction and in the target.
    When no atom is fixed, counts and target forces are the unmasked ones. *)
Theorem compute_metrics_free_atoms (env : Env) (o : OutDict) (f : list vec3)
    (b0 : Batch) (rest : list Batch) :
  let batch_list := b0 :: rest in
  let natoms_ := concat (map natoms batch_list) in
  eval_on_free_atoms env = true ->
  forces o = Some f ->
  length f = list_sum natoms_ ->
  length (concat (map force batch_list)) = list_sum natoms_ ->
  length (concat (map fixed batch_list)) = list_sum natoms_ ->
  exists m f',
    _compute_metrics env o batch_list = Ok m /\
    out_natoms (m_out m) = Some (m_target_natoms m) /\
    length (m_target_natoms m) = length natoms_ /\
    Forall2 le (m_target_natoms m) natoms_ /\
    forces (m_out m) = Some f' /\
    length f' = list_sum (m_target_natoms m) /\
    length (m_target_forces m) = list_sum (m_target_natoms m) /\
    (Forall (fun x => x = 0%Z) (concat (map fixed batch_list)) ->
     m_target_natoms m = natoms_ /\
     m_target_forces m = concat (map force batch_list)).
Proof.
  intros batch_list natoms_ Heval Hf Hlf Hlt Hlx.
  set (mask := map (fun x => (x =? 0)%Z) (concat (map fixed batch_list))).
  assert (Hmask : length mask = list_sum natoms_).
  { unfold mask. now rewrite length_map. }
  assert (Hsum : list_sum (natoms_free mask natoms_) =
                 length (filter (fun m : bool => m) mask)).
  { rewrite natoms_free_sum, <- Hmask, firstn_all. reflexivity. }
  unfold _compute_metrics. fold batch_list. cbn [bind]. fold natoms_.
  rewrite Heval. cbn [set_natoms forces]. rewrite Hf. cbn [getitem bind].
  fold mask.
  destruct (normalize_labels env); cbn [bind set_energy set_forces set_natoms
    forces energy getitem out_natoms node_feature edge_feature vector_feature].
  - eexists _, _. split; [reflexivity |].
    cbn [m_out m_target_natoms m_target_forces out_natoms forces].
    split; [reflexivity |]. split; [apply natoms_free_length |].
    split; [apply natoms_free_le |]. split; [reflexivity |].
    split; [| split].
    + rewrite length_map, masked_select_length by lia. now rewrite Hsum.
    + rewrite masked_select_length by lia. now rewrite Hsum.
    + intros Hfree.
      assert (Hall : Forall (fun m => m = true) mask).
      { unfold mask. apply Forall_forall. intros m Hm.
        apply in_map_iff in Hm. destruct Hm as [x [<- Hx]].
        rewrite Forall_forall in Hfree. now rewrite (Hfree x Hx). }
      split.
      * now apply natoms_free_all.
      * apply masked_select_all; [lia | exact Hall].
  - eexists _, _. split; [reflexivity |].
    cbn [m_out m_target_natoms m_target_forces out_natoms forces].
    split; [reflexivity |]. split; [apply natoms_free_length |].
    split; [apply natoms_free_le |]. split; [reflexivity |].
    split; [| split].
    + rewrite masked_select_length by lia. now rewrite Hsum.
    + rewrite masked_select_length by lia. now rewrite Hsum.
    + intros Hfree.
      assert (Hall : Forall (fun m => m = true) mask).
      { unfold mask. apply Forall_forall. intros m Hm.
        apply in_map_iff in Hm. destruct Hm as [x [<- Hx]].
        rewrite Forall_forall in Hfree. now rewrite (Hfree x Hx). }
      split.
      * now apply natoms_free_all.
      * apply masked_select_all; [lia | exact Hall].
Qed.

Lemma compute_metrics_free_atoms_witness :
  let b := mk_batch (repeat vzero 3) [mk3 1 0 0; mk3 0 1 0; mk3 0 0 1]
                    [0%Z; 0%Z; 0%Z] [0%Z; 1%Z; 0%Z]
                    [2; 1]%nat [0; 0] [1%Z; 2%Z] [0%Z; 0%Z] [0; 0; 1]%nat in
  let o := mk_out [] [] [] [0; 0] (Some [mk3 1 1 1; mk3 2 2 2; mk3 3 3 3]) None in
  eval_on_free_atoms env_example = true /\
  exists m,
    _compute_metrics env_example o [b] = Ok m /\
    m_target_natoms m = [1; 1]%nat /\
    forces (m_out m) = Some [mk3 1 1 1; mk3 3 3 3].
Proof.
  cbv zeta. split; [reflexivity |].
  destruct (compute_metrics_free_atoms env_example
              (mk_out [] [] [] [0; 0] (Some [mk3 1 1 1; mk3 2 2 2; mk3 3 3 3]) None)
              [mk3 1 1 1; mk3 2 2 2; mk3 3 3 3]
              (mk_batch (repeat vzero 3) [mk3 1 0 0; mk3 0 1 0; mk3 0 0 1]
                        [0%Z; 0%Z; 0%Z] [0%Z; 1%Z; 0%Z]
                        [2; 1]%nat [0; 0] [1%Z; 2%Z] [0%Z; 0%Z] [0; 0; 1]%nat)
              [] eq_refl eq_refl eq_refl eq_refl eq_refl)
    as [m [f' [Hm _]]].
  exists m. split; [exact Hm |].
  cbn in Hm. injection Hm as <-. split; reflexivity.
Defined.

(** ** The supervised loss without a weighting ratio *)

Lemma map2_mult_ones (t w : list R) :
  Forall (fun x => x = 1) w -> length w = length t -> map2 Rmult t w = t.
Proof.
  intros Hw. revert t. induction Hw as [| x w Hx _ IH]; intros [| a t] H;
    try discriminate; [reflexivity |].
  cbn. subst x. rewrite IH by (cbn in H; lia). f_equal. ring.
Qed.

Lemma imul_ones (t w t' : list R) :
  Forall (fun x => x = 1) w -> imul t w = Ok t' -> t' = t.
Proof.
  intros Hw. unfold imul.
  destruct (Nat.eqb_spec (length w) (length t)) as [Hlen | _].
  - intros [= <-]. now apply map2_mult_ones.
  - destruct w as [| w0 [| w1 w]]; try discriminate.
    intros [= <-]. inversion Hw as [| ? ? H0 _]; subst.
    rewrite <- (map_id t) at 2. apply map_ext. intros a. ring.
Qed.

Lemma vscale_1 (v : vec3) : vscale 1 v = v.
Proof. destruct v. unfold vscale. cbn. f_equal; ring. Qed.

Lemma imul_rows_ones (t : list vec3) (w : list R) (t' : list vec3) :
  Forall (fun x => x = 1) w -> imul_rows t w = Ok t' -> t' = t.
Proof.
  intros Hw. unfold imul_rows.
  destruct (Nat.eqb_spec (length w) (length t)) as [Hlen | _].
  - intros [= <-]. clear - Hw Hlen. revert t Hlen.
    induction Hw as [| x w Hx _ IH]; intros [| a t] H; try discriminate; [reflexivity |].
    cbn. subst x. rewrite IH by (cbn in H; lia). now rewrite vscale_1.
  - destruct w as [| w0 [| w1 w]]; try discriminate.
    intros [= <-]. inversion Hw as [| ? ? H0 _]; subst.
    rewrite <- (map_id t) at 2. apply map_ext. intros a. apply vscale_1.
Qed.

Lemma ones_like_ones {A : Type} (t : list A) : Forall (fun x => x = 1) (ones_like t).
Proof.
  unfold ones_like. apply Forall_forall. intros x Hx.
  apply in_map_iff in Hx. now destruct Hx as [_ [<- _]].
Qed.

Lemma sqrt_ones (w : list R) :
  Forall (fun x => x = 1) w -> Forall (fun x => x = 1) (map sqrt w).
Proof.
  induction 1 as [| x w Hx _ IH]; cbn; constructor; [| exact IH].
  subst x. apply sqrt_1.
Qed.

Lemma set_energy_same (o : OutDict) : set_energy o (energy o) = o.
Proof. now destruct o. Qed.

Lemma set_forces_same (o : OutDict) (f : list vec3) :
  forces o = Some f -> set_forces o f = o.
Proof. destruct o. cbn. now intros ->. Qed.

(** X23. Without a weighting ratio in the configuration the weights of the
    supervised loss are ones: a call of [_compute_loss] that returns leaves
    the prediction dictionary and the teacher dictionary as they were, and
    its value is the value of [_compute_loss_distill] on the same arguments
    when that one is given the energy and force coefficients of
    [config["optim"]]. *)
Theorem compute_loss_without_ratio (env : Env) (o : OutDict) (batch_list : list Batch)
    (teacher_output : option OutDict) (loss : R) (o' : OutDict)
    (t' : option OutDict) :
  _compute_loss env None o batch_list teacher_output = Ok (loss, o', t') ->
  o' = o /\ t' = teacher_output /\
  _compute_loss_distill env (Some (energy_coefficient env)) (force_coefficient env)
                        o batch_list teacher_output = Ok loss.
Proof.
  intros H. unfold _compute_loss in H.
  destruct batch_list as [| b0 rest]; [discriminate |].
  cbn [_loss_weights_d1M bind fst snd] in H.
  set (wn := if loss_energy_is_mse env then map sqrt (ones_like (tags b0))
             else ones_like (tags b0)) in H.
  set (ws := if loss_force_is_mse env then map sqrt (ones_like (y b0))
             else ones_like (y b0)) in H.
  assert (Hwn : Forall (fun x => x = 1) wn).
  { unfold wn. destruct (loss_energy_is_mse env);
      [apply sqrt_ones |]; apply ones_like_ones. }
  assert (Hws : Forall (fun x => x = 1) ws).
  { unfold ws. destruct (loss_force_is_mse env);
      [apply sqrt_ones |]; apply ones_like_ones. }
  bind_inv H as out_energy He.
  apply (imul_ones _ _ _ Hws) in He. subst out_energy.
  rewrite set_energy_same in H.
  bind_inv H as energy_target Het.
  apply (imul_ones _ _ _ Hws) in Het. subst energy_target.
  unfold _compute_loss_distill.
  assert (Hcat : forall (A : Type) (g : Batch -> list A),
             torch_cat (g b0 :: map g rest) = Ok (g b0 ++ concat (map g rest))).
  { reflexivity. }
  cbn [map concat] in H |- *.
  destruct teacher_output as [t |].
  - (* a teacher target *)
    assert (Ht : (if normalize_labels env then Some t
                  else Some (set_energy t
                               (if normalize_labels env
                                then map (norm (target_mean env) (target_std env)) (energy t)
                                else energy t))) = Some t).
    { destruct (normalize_labels env); [reflexivity |]. now rewrite set_energy_same. }
    rewrite Ht in H. clear Ht. cbn [bind get].
    destruct (regress_forces env).
    + bind_inv H as force_target Hft. rewrite Hft. cbn [bind].
      bind_inv H as f Hf.
      bind_inv H as f' Hf'.
      apply (imul_rows_ones _ _ _ Hwn) in Hf'. subst f'.
      bind_inv H as force_target' Hft'.
      apply (imul_rows_ones _ _ _ Hwn) in Hft'. subst force_target'.
      bind_inv H as loss_force Hlf.
      assert (Hfo : forces o = Some f).
      { destruct (forces o); [now injection Hf as -> | discriminate]. }
      assert (Hft0 : forces t = Some force_target).
      { destruct (forces t); [now injection Hft as -> | discriminate]. }
      injection H as <- <- <-.
      split; [now apply set_forces_same |]. split.
      * destruct (normalize_labels env); [reflexivity |].
        now rewrite (set_forces_same t force_target Hft0).
      * destruct (tag_specific_weights env) as [| w0 [| w1 [| w2 [| w3 l]]]] eqn:Htag;
          try (unfold tag_specific_force_loss in Hlf; rewrite Htag in Hlf; discriminate).
        -- unfold plain_force_loss in Hlf.
           destruct (train_on_free_atoms env), (loss_force_atomwise env);
             repeat (rewrite ?Hcat, ?Hfo; cbn [getitem bind]);
             injection Hlf as <-; reflexivity.
        -- repeat (rewrite ?Hcat, ?Hfo; cbn [getitem bind]). now rewrite Hlf.
    + injection H as <- <- <-. repeat split.
  - (* the labels of the batch *)
    rewrite Hcat. cbn [bind get].
    destruct (regress_forces env).
    + bind_inv H as force_target Hft. injection Hft as <-.
      rewrite Hcat. cbn [bind].
      bind_inv H as f Hf.
      bind_inv H as f' Hf'.
      apply (imul_rows_ones _ _ _ Hwn) in Hf'. subst f'.
      bind_inv H as force_target' Hft'.
      apply (imul_rows_ones _ _ _ Hwn) in Hft'. subst force_target'.
      bind_inv H as loss_force Hlf.
      assert (Hfo : forces o = Some f).
      { destruct (forces o); [now injection Hf as -> | discriminate]. }
      injection H as <- <- <-.
      split; [now apply set_forces_same |]. split; [reflexivity |].
      destruct (tag_specific_weights env) as [| w0 [| w1 [| w2 [| w3 l]]]] eqn:Htag;
        try (unfold tag_specific_force_loss in Hlf; rewrite Htag in Hlf; discriminate).
      * unfold plain_force_loss in Hlf.
        destruct (train_on_free_atoms env), (loss_force_atomwise env);
          repeat (rewrite ?Hcat, ?Hfo; cbn [getitem bind]);
          injection Hlf as <-; reflexivity.
      * repeat (rewrite ?Hcat, ?Hfo; cbn [getitem bind]). now rewrite Hlf.
    + injection H as <- <- <-. repeat split.
Qed.

Lemma compute_loss_without_ratio_witness :
  let o := mk_out [[1]] [[1]] [[mk3 1 0 0]] [2] (Some [mk3 3 0 0]) None in
  let b := one_atom vzero vzero in
  exists loss o' t',
    _compute_loss env_example None o [b] None = Ok (loss, o', t') /\
    o' = o /\
    _compute_loss_distill env_example (Some (energy_coefficient env_example))
      (force_coefficient env_example) o [b] None = Ok loss.
Proof.
  cbv zeta.
  assert (H : exists loss o' t',
             _compute_loss env_example None
               (mk_out [[1]] [[1]] [[mk3 1 0 0]] [2] (Some [mk3 3 0 0]) None)
               [one_atom vzero vzero] None = Ok (loss, o', t')).
  { unfold _compute_loss. cbn. eexists _, _, _. reflexivity. }
  destruct H as [loss [o' [t' H]]].
  exists loss, o', t'. split; [exact H |].
  destruct (compute_loss_without_ratio env_example _ _ _ _ _ _ H) as [Ho [_ Hd]].
  split; [exact Ho | exact Hd].
Defined.

(** ** Tag-specific force weights *)

Lemma sumR_scale (c : R) (l : list R) : sumR (map (Rmult c) l) = c * sumR l.
Proof.
  induction l as [| x l IH]; cbn; [ring |].
  fold (sumR (map (Rmult c) l)). fold (sumR l). rewrite IH. ring.
Qed.

Lemma sumR_map2_scale (c : R) (a b : list R) :
  sumR (map2 Rmult a (map (Rmult c) b)) = c * sumR (map2 Rmult a b).
Proof.
  revert b. induction a as [| x a IH]; intros [| y b]; cbn; try ring.
  fold (sumR (map2 Rmult a (map (Rmult c) b))). fold (sumR (map2 Rmult a b)).
  rewrite IH. ring.
Qed.

Lemma tag_weight_scale (c w0 w1 w2 : R) (tag : Z) :
  tag_weight (c * w0) (c * w1) (c * w2) tag = c * tag_weight w0 w1 w2 tag.
Proof.
  unfold tag_weight.
  destruct (tag =? 0)%Z; [reflexivity |].
  destruct (tag =? 1)%Z; [reflexivity |].
  destruct (tag =? 2)%Z; [reflexivity | ring].
Qed.

(** X24. The tag-specific force loss divides the weighted absolute errors by
    the reduced sum of the weights, so only the proportions of the three
    weights matter: multiplying all of them by the same non-zero factor
    (on every rank) does not change the loss.  An atom whose tag is not 0, 1
    or 2 has weight 0, and a non-empty weight list whose length is not 3
    fails the assertion. *)
Theorem tag_weights_scale_invariant (env env' : Env) (c w0 w1 w2 : R)
    (out_forces force_target : list vec3) (batch_list : list Batch) :
  tag_specific_weights env = [w0; w1; w2] ->
  tag_specific_weights env' = [c * w0; c * w1; c * w2] ->
  c <> 0 ->
  world_size env' = world_size env ->
  (forall x, all_reduce env' (c * x) = c * all_reduce env x) ->
  all_reduce env (3 * sumR (map (tag_weight w0 w1 w2) (concat (map tags batch_list)))) <> 0 ->
  tag_specific_force_loss env' out_forces force_target batch_list =
  tag_specific_force_loss env out_forces force_target batch_list /\
  (forall tag, (tag <> 0)%Z -> (tag <> 1)%Z -> (tag <> 2)%Z ->
               tag_weight w0 w1 w2 tag = 0) /\
  (forall env'',
     tag_specific_weights env'' <> [] ->
     length (tag_specific_weights env'') <> 3%nat ->
     tag_specific_force_loss env'' out_forces force_target batch_list =
     Raise AssertionError).
Proof.
  intros Hw Hw' Hc Hws Hred Hsum. split; [| split].
  - unfold tag_specific_force_loss. rewrite Hw, Hw'. f_equal.
    set (tg := concat (map tags batch_list)) in *.
    set (errs := map2 (fun a b => sum_abs (vsub a b)) out_forces force_target).
    assert (Hmap : map (tag_weight (c * w0) (c * w1) (c * w2)) tg =
                   map (Rmult c) (map (tag_weight w0 w1 w2) tg)).
    { rewrite map_map. apply map_ext. intros t. apply tag_weight_scale. }
    rewrite Hmap, sumR_map2_scale, sumR_scale, Hws.
    replace (3 * (c * sumR (map (tag_weight w0 w1 w2) tg)))
      with (c * (3 * sumR (map (tag_weight w0 w1 w2) tg))) by ring.
    rewrite Hred. field. split; assumption.
  - intros tag H0 H1 H2. unfold tag_weight.
    destruct (Z.eqb_spec tag 0); [contradiction |].
    destruct (Z.eqb_spec tag 1); [contradiction |].
    destruct (Z.eqb_spec tag 2); [contradiction | reflexivity].
  - intros env'' Hne Hlen. unfold tag_specific_force_loss.
    destruct (tag_specific_weights env'') as [| a [| b [| d [| e l]]]];
      try reflexivity; contradiction.
Qed.

Lemma tag_weights_scale_invariant_witness :
  let b := one_atom vzero vzero in
  (2 : R) <> 0 /\
  all_reduce (env_tagged [1; 2; 3])
    (3 * sumR (map (tag_weight 1 2 3) (concat (map tags [b])))) <> 0 /\
  tag_specific_force_loss (env_tagged [2 * 1; 2 * 2; 2 * 3]) [mk3 1 0 0] [vzero] [b] =
  tag_specific_force_loss (env_tagged [1; 2; 3]) [mk3 1 0 0] [vzero] [b].
Proof.
  cbv zeta.
  assert (Hc : (2 : R) <> 0) by lra.
  assert (Hs : all_reduce (env_tagged [1; 2; 3])
                 (3 * sumR (map (tag_weight 1 2 3)
                                (concat (map tags [one_atom vzero vzero])))) <> 0).
  { cbn. lra. }
  split; [exact Hc |]. split; [exact Hs |].
  exact (proj1 (tag_weights_scale_invariant (env_tagged [1; 2; 3])
                  (env_tagged [2 * 1; 2 * 2; 2 * 3]) 2 1 2 3
                  [mk3 1 0 0] [vzero] [one_atom vzero vzero]
                  eq_refl eq_refl Hc eq_refl (fun x => eq_refl) Hs)).
Defined.

(** ** Prediction: forces per image *)

Lemma torch_split_spec {A : Type} (sizes : list nat) :
  forall (t : list A) (chunks : list (list A)),
    torch_split t sizes = Ok chunks ->
    concat chunks = t /\ map (@length A) chunks = sizes.
Proof.
  induction sizes as [| n sizes IH]; intros t chunks; cbn [torch_split].
  - destruct t; [| discriminate]. intros [= <-]. split; reflexivity.
  - destruct (Nat.leb_spec n (length t)) as [Hle | _]; [| discriminate].
    destruct (torch_split (skipn n t) sizes) as [rest |] eqn:Hrest;
      cbn [bind]; [| discriminate].
    intros [= <-]. destruct (IH _ _ Hrest) as [Hc Hl]. cbn [concat map].
    rewrite Hc, Hl, firstn_skipn, length_firstn. split; [reflexivity |].
    f_equal. lia.
Qed.

Lemma torch_split_total {A : Type} (sizes : list nat) :
  forall t : list A,
    list_sum sizes = length t -> exists chunks, torch_split t sizes = Ok chunks.
Proof.
  induction sizes as [| n sizes IH]; intros t H; cbn [torch_split].
  - destruct t; [now eexists | discriminate].
  - cbn [list_sum fold_right] in H. fold (list_sum sizes) in H.
    destruct (Nat.leb_spec n (length t)) as [Hle | Hgt]; [| lia].
    destruct (IH (skipn n t)) as [rest Hrest]; [rewrite length_skipn; lia |].
    rewrite Hrest. now eexists.
Qed.

Lemma torch_split_mismatch {A : Type} (sizes : list nat) :
  forall t : list A,
    list_sum sizes <> length t -> torch_split t sizes = Raise RuntimeError.
Proof.
  induction sizes as [| n sizes IH]; intros t H; cbn [torch_split].
  - destruct t; [contradiction | reflexivity].
  - cbn [list_sum fold_right] in H. fold (list_sum sizes) in H.
    destruct (Nat.leb_spec n (length t)) as [Hle | Hgt]; [| reflexivity].
    rewrite IH; [reflexivity | rewrite length_skipn; lia].
Qed.

Lemma masked_select_app {A : Type} (a1 a2 : list A) (m1 m2 : list bool) :
  length a1 = length m1 ->
  masked_select (a1 ++ a2) (m1 ++ m2) = masked_select a1 m1 ++ masked_select a2 m2.
Proof.
  revert m1. induction a1 as [| x a1 IH]; intros [| m m1] H; try discriminate;
    [reflexivity |].
  cbn. destruct m; cbn; rewrite IH by (cbn in H; lia); reflexivity.
Qed.

Lemma split_free_rows {A : Type} (p : Z -> bool) (sizes : list nat) :
  forall (f : list A) (x : list Z) (cf : list (list A)) (cx : list (list Z)),
    torch_split f sizes = Ok cf ->
    torch_split x sizes = Ok cx ->
    let free := map2 (fun a b => masked_select a (map p b)) cf cx in
    concat free = masked_select f (map p x) /\
    map (@length A) free = natoms_free (map p x) sizes.
Proof.
  induction sizes as [| n sizes IH]; intros f x cf cx; cbn [torch_split].
  - destruct f; [| discriminate]. destruct x; [| discriminate].
    intros [= <-] [= <-]. split; reflexivity.
  - destruct (Nat.leb_spec n (length f)) as [Hf | _]; [| discriminate].
    destruct (Nat.leb_spec n (length x)) as [Hx | _]; [| discriminate].
    destruct (torch_split (skipn n f) sizes) as [cf' |] eqn:Hcf; cbn [bind]; [| discriminate].
    destruct (torch_split (skipn n x) sizes) as [cx' |] eqn:Hcx; cbn [bind]; [| discriminate].
    intros [= <-] [= <-]. cbn zeta.
    destruct (IH _ _ _ _ Hcf Hcx) as [Hc Hl]. cbn [map2 concat map natoms_free].
    rewrite Hc, Hl. split.
    + rewrite <- masked_select_app
        by (rewrite length_map, !length_firstn; lia).
      now rewrite <- map_app, !firstn_skipn.
    + f_equal.
      * rewrite masked_select_length by (rewrite length_map, !length_firstn; lia).
        now rewrite firstn_map.
      * now rewrite skipn_map.
Qed.

(** X25. The per-image branch of [predict] cuts the (float16) force rows of a
    batch into one array per image with [torch.split]: it needs as many force
    rows as the atom counts add up to and raises RuntimeError otherwise.
    Without a results file the arrays are the consecutive chunks of the
    force tensor, of the sizes [natoms].  With a results file only the rows
    of free atoms are kept, and the [chunk_idx] entries added are the numbers
    of free atoms per image, the very counts that [_compute_metrics] reports
    as [natoms]. *)
Theorem predict_forces_per_image (to_float16 : R -> R) (results_file : bool)
    (out_ : Prediction) (f : list vec3) (b0 : Batch) (rest : list Batch)
    (acc : Predictions) :
  let batch_list := b0 :: rest in
  let natoms_ := concat (map natoms batch_list) in
  let fixed_ := concat (map fixed batch_list) in
  let mask := map (fun x => (x =? 0)%Z) fixed_ in
  p_forces out_ = Some f ->
  (list_sum natoms_ <> length f ->
   predict_per_image to_float16 results_file out_ batch_list acc = Raise RuntimeError) /\
  (list_sum natoms_ = length f ->
   list_sum natoms_ = length fixed_ ->
   exists acc' added,
     predict_per_image to_float16 results_file out_ batch_list acc = Ok acc' /\
     pred_forces acc' = pred_forces acc ++ added /\
     length added = length natoms_ /\
     (results_file = false ->
      concat added = map (half to_float16) f /\
      map (@length vec3) added = natoms_ /\
      pred_chunk_idx acc' = pred_chunk_idx acc) /\
     (results_file = true ->
      concat added = masked_select (map (half to_float16) f) mask /\
      map (@length vec3) added = natoms_free mask natoms_ /\
      pred_chunk_idx acc' = pred_chunk_idx acc ++ natoms_free mask natoms_)).
Proof.
  intros batch_list natoms_ fixed_ mask Hf.
  assert (Hcatn : torch_cat (map natoms batch_list) = Ok natoms_) by reflexivity.
  assert (Hcatx : torch_cat (map fixed batch_list) = Ok fixed_) by reflexivity.
  split.
  - intros Hne. unfold predict_per_image. cbn [bind batch_list].
    fold batch_list. rewrite Hcatn, Hcatx, Hf. cbn [bind getitem].
    rewrite torch_split_mismatch by now rewrite length_map.
    reflexivity.
  - intros Hlf Hlx.
    destruct (torch_split_total natoms_ (map (half to_float16) f)) as [cf Hcf];
      [now rewrite length_map |].
    destruct (torch_split_total natoms_ fixed_ Hlx) as [cx Hcx].
    destruct (torch_split_spec _ _ _ Hcf) as [Hcfc Hcfl].
    destruct (split_free_rows (fun x => (x =? 0)%Z) _ _ _ _ _ Hcf Hcx) as [Hfree Hfl].
    cbv zeta in Hfree, Hfl. fold mask in Hfree, Hfl.
    unfold predict_per_image. cbn [bind batch_list]. fold batch_list.
    rewrite Hcatn, Hcatx, Hf. cbn [bind getitem]. rewrite Hcf. cbn [bind].
    destruct results_file.
    + rewrite Hcx. cbn [bind]. eexists _, _. split; [reflexivity |].
      cbn [pred_forces pred_chunk_idx]. split; [reflexivity |]. split.
      * rewrite <- (length_map (@length vec3)), Hfl. apply natoms_free_length.
      * split; [discriminate |]. intros _.
        split; [exact Hfree |]. split; [exact Hfl |]. now rewrite Hfl.
    + eexists _, _. split; [reflexivity |].
      cbn [pred_forces pred_chunk_idx]. split; [reflexivity |]. split.
      * rewrite <- (length_map (@length vec3)), Hcfl. reflexivity.
      * split; [| discriminate]. intros _.
        split; [exact Hcfc |]. split; [exact Hcfl | reflexivity].
Qed.

Lemma predict_forces_per_image_witness :
  let b := mk_batch (repeat vzero 3) (repeat vzero 3)
                    [0%Z; 0%Z; 0%Z] [0%Z; 1%Z; 0%Z]
                    [2; 1]%nat [0; 0] [1%Z; 2%Z] [0%Z; 0%Z] [0; 0; 1]%nat in
  let f := [mk3 1 1 1; mk3 2 2 2; mk3 3 3 3] in
  let out_ := mk_prediction [0; 0] (Some f) in
  p_forces out_ = Some f /\
  list_sum (concat (map natoms [b])) = length f /\
  list_sum (concat (map natoms [b])) = length (concat (map fixed [b])) /\
  exists acc',
    predict_per_image (fun x => x) true out_ [b] (mk_predictions [] [] [] []) = Ok acc' /\
    pred_chunk_idx acc' = [1; 1]%nat.
Proof.
  cbv zeta. split; [reflexivity |]. split; [reflexivity |]. split; [reflexivity |].
  destruct (proj2 (predict_forces_per_image (fun x => x) true
             (mk_prediction [0; 0] (Some [mk3 1 1 1; mk3 2 2 2; mk3 3 3 3]))
             [mk3 1 1 1; mk3 2 2 2; mk3 3 3 3]
             (mk_batch (repeat vzero 3) (repeat vzero 3)
                       [0%Z; 0%Z; 0%Z] [0%Z; 1%Z; 0%Z]
                       [2; 1]%nat [0; 0] [1%Z; 2%Z] [0%Z; 0%Z] [0; 0; 1]%nat)
             [] (mk_predictions [] [] [] []) eq_refl) eq_refl eq_refl)
    as [acc' [added [Hok [_ [_ [_ Htrue]]]]]].
  exists acc'. split; [exact Hok |].
  destruct (Htrue eq_refl) as [_ [_ Hchunk]]. rewrite Hchunk. reflexivity.
Defined.

(** ** Prediction: the ids of the frames *)

Lemma append_assoc3 (a b c : string) : append (append a b) c = append a (append b c).
Proof. induction a as [| x a IH]; cbn; [reflexivity | now rewrite IH]. Qed.

Lemma digits_free_of_underscore (d : Decimal.uint) :
  contains "_" (DecimalString.NilEmpty.string_of_uint d) = false.
Proof.
  induction d; cbn [DecimalString.NilEmpty.string_of_uint contains String.prefix];
    try reflexivity; rewrite IHd;
    match goal with
    | |- context [ascii_dec ?a ?b] => destruct (ascii_dec a b) as [H | _]; [discriminate H |]
    end; reflexivity.
Qed.

Lemma str_free_of_underscore (z : Z) : contains "_" (str z) = false.
Proof.
  assert (Hu : forall d, contains "_" (DecimalString.NilZero.string_of_uint d) = false).
  { intros d. unfold DecimalString.NilZero.string_of_uint.
    destruct d; try apply digits_free_of_underscore.
    cbn. destruct (ascii_dec "_" "0") as [H | _]; [discriminate H | reflexivity]. }
  unfold str. destruct (Z.to_int z) as [d | d];
    cbn [DecimalString.NilZero.string_of_int].
  - apply Hu.
  - cbn [contains String.prefix]. rewrite Hu.
    destruct (ascii_dec "_" "-") as [H | _]; [discriminate H | reflexivity].
Qed.

Lemma str_injective (a b : Z) : str a = str b -> a = b.
Proof.
  assert (Hn : forall z, Z.to_int z <> Decimal.Pos Decimal.Nil /\
                         Z.to_int z <> Decimal.Neg Decimal.Nil).
  { intros [| p | p]; cbn; split; try discriminate;
      intros [= H]; now apply DecimalPos.Unsigned.to_uint_nonnil in H. }
  unfold str. intros H.
  apply (f_equal DecimalString.NilZero.int_of_string) in H.
  rewrite !DecimalString.NilZero.isi in H by apply Hn.
  injection H as H. now apply DecimalZ.to_int_inj.
Qed.

Lemma underscore_separates (a a' b b' : string) :
  contains "_" a = false -> contains "_" a' = false ->
  append a (String "_" b) = append a' (String "_" b') -> a = a' /\ b = b'.
Proof.
  revert a'. induction a as [| c a IH]; intros [| c' a'] Ha Ha' H; cbn in H.
  - injection H as ->. now split.
  - injection H as <- _. cbn in Ha'.
    destruct (ascii_dec "_" "_") as [_ | Hne]; [| contradiction].
    destruct a'; discriminate.
  - injection H as -> _. cbn in Ha.
    destruct (ascii_dec "_" "_") as [_ | Hne]; [| contradiction].
    destruct a; discriminate.
  - injection H as -> H.
    cbn [contains] in Ha, Ha'.
    apply orb_false_iff in Ha. apply orb_false_iff in Ha'.
    destruct (IH a' (proj2 Ha) (proj2 Ha') H) as [-> ->]. now split.
Qed.

(** X26. The id that [predict] gives to a frame, [str(sid) + "_" + str(fid)],
    determines the system id and the frame id: two frames get the same id
    only if they agree in both.  The ids added for a batch are those of the
    first sub-batch, in order. *)
Theorem prediction_ids_identify_frames (to_float16 : R -> R) :
  (forall i j i' j' : Z,
     append (append (str i) "_") (str j) = append (append (str i') "_") (str j') ->
     i = i' /\ j = j') /\
  (forall results_file out_ batch_list acc acc',
     predict_per_image to_float16 results_file out_ batch_list acc = Ok acc' ->
     exists b0 rest,
       batch_list = b0 :: rest /\
       pred_id acc' =
       pred_id acc ++
       map2 (fun i j => append (append (str i) "_") (str j)) (sid b0) (fid b0)).
Proof.
  split.
  - intros i j i' j' H. rewrite !append_assoc3 in H. cbn [append] in H.
    destruct (underscore_separates _ _ _ _ (str_free_of_underscore i)
                (str_free_of_underscore i') H) as [Hi Hj].
    split; now apply str_injective.
  - intros results_file out_ batch_list acc acc' H.
    unfold predict_per_image in H.
    destruct batch_list as [| b0 rest]; [discriminate |].
    exists b0, rest. split; [reflexivity |]. cbn [bind] in H.
    bind_inv H as batch_natoms Hn.
    bind_inv H as batch_fixed Hx.
    bind_inv H as f Hf.
    bind_inv H as per_image_forces Hs.
    destruct results_file.
    + bind_inv H as per_image_fixed Hsx. now injection H as <-.
    + now injection H as <-.
Qed.

(** ** Prediction: the two modes *)

Lemma predict_loop_per_image (env : Env) (model : list Batch -> list R * list vec3)
    (to_float16 : R -> R) (normalizers : option Normalizers) (results_file : bool)
    (data_loader : list (list Batch)) :
  forall acc v returned,
    predict_loop env model to_float16 normalizers true results_file data_loader acc
    = Ok (v, returned) ->
    returned = false /\ exists p, v = PerImage p.
Proof.
  induction data_loader as [| bl data_loader IH]; intros acc v returned H;
    cbn [predict_loop] in H.
  - injection H as <- <-. split; [reflexivity | now eexists].
  - bind_inv H as out_ Ho. bind_inv H as acc' Ha. now apply IH in H.
Qed.

(** X27. With [per_image=False] and a non-empty loader, [predict] returns
    from inside its loop: only the first batch is run, its energies and
    forces are returned as tensors (the raw network output when there are no
    normalizers), no results are saved, and with a moving average the stored
    parameters are not restored.  With [per_image=True] a prediction that
    succeeds has saved its results, and restored the parameters after it
    stored them. *)
Theorem predict_tensor_mode_returns_early (env : Env)
    (model : list Batch -> list R * list vec3) (to_float16 : R -> R)
    (ema : bool) (normalizers : option Normalizers) (results_file : bool)
    (batch_list : list Batch) (rest : list (list Batch)) :
  predict env model to_float16 ema normalizers false results_file (batch_list :: rest) =
  predict env model to_float16 ema normalizers false results_file [batch_list] /\
  (forall log v,
     predict env model to_float16 ema normalizers false results_file (batch_list :: rest)
     = (log, Ok v) ->
     log = (if ema then [EmaStore; EmaCopyTo] else []) /\
     exists e f,
       v = Tensors e f /\
       (normalizers = None -> e = fst (model batch_list) /\ f = snd (model batch_list))) /\
  (forall data_loader log v,
     predict env model to_float16 ema normalizers true results_file data_loader
     = (log, Ok v) ->
     log = (if ema then [EmaStore; EmaCopyTo] else []) ++ [SaveResults]
           ++ (if ema then [EmaRestore] else []) /\
     exists p, v = PerImage p).
Proof.
  split; [| split].
  - unfold predict. cbn [predict_loop]. reflexivity.
  - intros log v H. unfold predict in H. cbn [predict_loop] in H.
    destruct (match normalizers with
              | Some n => match n_target n with
                          | Some _ => _ <- getitem (n_grad_target n) ;; Ok tt
                          | None => Ok tt
                          end
              | None => Ok tt
              end) as [[] | e0]; cbn [bind] in H; [| now injection H].
    destruct (predict_denorm normalizers (_forward env model batch_list))
      as [out_ |] eqn:Ho; cbn [bind] in H; [| now injection H].
    destruct (p_forces out_) as [f |] eqn:Hf; cbn [getitem bind] in H;
      [| now injection H].
    injection H as <- <-. split; [reflexivity |].
    exists (p_energy out_), f. split; [reflexivity |].
    intros ->. cbn [predict_denorm] in Ho. injection Ho as <-.
    unfold _forward in *. cbn [p_energy p_forces] in *.
    destruct (regress_forces env); [| discriminate].
    injection Hf as <-. split; reflexivity.
  - intros data_loader log v H. unfold predict in H.
    destruct (match normalizers with
              | Some n => match n_target n with
                          | Some _ => _ <- getitem (n_grad_target n) ;; Ok tt
                          | None => Ok tt
                          end
              | None => Ok tt
              end) as [[] | e0]; cbn [bind] in H; [| now injection H].
    destruct (predict_loop env model to_float16 normalizers true results_file
                data_loader (mk_predictions [] [] [] [])) as [[v' returned] |] eqn:Hl;
      [| now injection H].
    destruct (predict_loop_per_image _ _ _ _ _ _ _ _ _ Hl) as [-> [p ->]].
    injection H as <- <-. split; [reflexivity | now eexists].
Qed.

(** ** The jitter losses *)

Lemma init_jitter_fields (teacher_loaded : result unit) (cfg : DistillationConfig)
    (self : Trainer) :
  __init__ teacher_loaded cfg = Ok self ->
  jitter self =
    (if contains "random_jitter" (cfg_distill_loss cfg) then
       Some (mk_jitter
               (get (cfg_random_std cfg) (1 / 10))
               (if get (cfg_random_fixed_length cfg) false
                then Some (get (cfg_adversarial_alpha cfg) (1 / 10))
                else None)
               (cfg_random_mode cfg))
     else None) /\
  (contains "random_jitter" (cfg_distill_loss cfg) = true -> adversarial self = None) /\
  (contains "adversarial_jitter" (cfg_distill_loss cfg) = false ->
   adversarial self = None).
Proof.
  unfold __init__. destruct teacher_loaded as [[] | e]; cbn [bind]; [| discriminate].
  destruct (Rle_dec _ 1); [| discriminate].
  destruct (Rge_dec _ 0); [| discriminate].
  destruct (contains "adversarial" (cfg_distill_loss cfg)
            || contains "random_jitter" (cfg_distill_loss cfg)).
  - destruct (cfg_adversarial_distill_loss cfg); cbn [getitem bind]; [| discriminate].
    destruct (cfg_adversarial_distill_lambda cfg); cbn [getitem bind]; [| discriminate].
    intros [= <-]. cbn [jitter adversarial]. split; [reflexivity |].
    split; intros ->; [reflexivity |].
    now destruct (contains "random_jitter" (cfg_distill_loss cfg)).
  - intros [= <-]. cbn [jitter adversarial]. split; [reflexivity |].
    split; intros ->; [reflexivity |].
    now destruct (contains "random_jitter" (cfg_distill_loss cfg)).
Qed.

Lemma random_jitter_batch_std0 (attrs : JitterAttrs) (noise noise2 : nat -> nat -> vec3)
    (batch_list : list Batch) :
  random_std attrs = 0 ->
  mode_is (random_mode attrs) "sample_from_force" = false ->
  _random_jitter_batch attrs noise noise2 batch_list = batch_list.
Proof.
  intros Hstd Hmode. unfold _random_jitter_batch.
  rewrite (map2_seq_map (jitter_delta attrs noise noise2)
             (fun b => zeros_like (pos b))).
  - apply map2_AddNoise_zeros.
  - intros j b _. now apply jitter_delta_std0.
Qed.

(** X28. Construction sets the attributes of the random jitter when
    [distill_loss] names it and those of the adversarial jitter only when it
    does not ("elif").  So with "random_jitter" configured the adversarial
    jitter loss raises AttributeError, and without it the random jitter loss
    does on a non-empty batch list.  A random jitter of standard deviation 0
    (in a mode other than "sample_from_force") perturbs nothing: the loss is
    the coefficient-weighted sum of the adversarial losses on the forward
    pass of the batch itself. *)
Theorem jitter_losses_after_construction (env : Env) (teacher_loaded : result unit)
    (cfg : DistillationConfig) (self : Trainer)
    (distill_energy_coefficient distill_force_coefficient : option R)
    (noise noise2 : nat -> nat -> vec3)
    (backward backward_pgd : list Batch -> list (list vec3))
    (out_batch : OutBatch) (batch_list : list Batch) :
  __init__ teacher_loaded cfg = Ok self ->
  (contains "random_jitter" (cfg_distill_loss cfg) = true ->
   _adversarial_jitter_distill_loss env self distill_energy_coefficient
     distill_force_coefficient noise backward backward_pgd out_batch batch_list
   = Raise AttributeError) /\
  (contains "random_jitter" (cfg_distill_loss cfg) = false ->
   batch_list <> [] ->
   _random_jitter_distill_loss env self distill_energy_coefficient
     distill_force_coefficient noise noise2 out_batch batch_list
   = Raise AttributeError) /\
  (contains "random_jitter" (cfg_distill_loss cfg) = true ->
   cfg_random_std cfg = Some 0 ->
   mode_is (cfg_random_mode cfg) "sample_from_force" = false ->
   _random_jitter_distill_loss env self distill_energy_coefficient
     distill_force_coefficient noise noise2 out_batch batch_list =
   (forwarded <- _distill_forward env batch_list ;;
    fns <- getattr (adversarial_distill_fns self) ;;
    adversarial_distill_losses env self distill_energy_coefficient
      distill_force_coefficient forwarded batch_list 0 fns 0)).
Proof.
  intros Hinit.
  destruct (init_jitter_fields _ _ _ Hinit) as [Hj [Ha _]].
  split; [| split].
  - intros Hc. unfold _adversarial_jitter_distill_loss. now rewrite (Ha Hc).
  - intros Hc Hne. unfold _random_jitter_distill_loss. rewrite Hj, Hc.
    destruct batch_list; [contradiction | reflexivity].
  - intros Hc Hstd Hmode. unfold _random_jitter_distill_loss.
    rewrite Hj, Hc. cbn [getattr bind].
    rewrite random_jitter_batch_std0;
      [| cbn [random_std]; now rewrite Hstd | cbn [random_mode]; exact Hmode].
    now destruct batch_list.
Qed.

Lemma jitter_losses_after_construction_witness :
  exists self,
    __init__ (Ok tt) (cfg_fixed_jitter (1 / 5)) = Ok self /\
    contains "random_jitter" (cfg_distill_loss (cfg_fixed_jitter (1 / 5))) = true /\
    _adversarial_jitter_distill_loss env_example self None None
      (fun _ _ => vzero) (fun _ => []) (fun _ => [])
      (mk_out_batch (out_vectors []) (out_vectors [])) [one_atom vzero vzero]
    = Raise AttributeError.
Proof.
  assert (Hinit : exists self, __init__ (Ok tt) (cfg_fixed_jitter (1 / 5)) = Ok self).
  { unfold __init__, cfg_fixed_jitter.
    cbn [bind cfg_v2v_geom_lambda get cfg_distill_loss].
    destruct (Rle_dec (1 / 2) 1) as [_ | H]; [| exfalso; lra].
    destruct (Rge_dec (1 / 2) 0) as [_ | H]; [| exfalso; lra].
    change (contains "random_jitter" "random_jitter_distill_loss") with true.
    rewrite orb_true_r. cbn [cfg_adversarial_distill_loss
      cfg_adversarial_distill_lambda getitem bind].
    eexists. reflexivity. }
  destruct Hinit as [self Hinit]. exists self.
  split; [exact Hinit |]. split; [reflexivity |].
  exact (proj1 (jitter_losses_after_construction env_example (Ok tt)
                  (cfg_fixed_jitter (1 / 5)) self None None
                  (fun _ _ => vzero) (fun _ _ => vzero) (fun _ => []) (fun _ => [])
                  (mk_out_batch (out_vectors []) (out_vectors []))
                  [one_atom vzero vzero] Hinit) eq_refl).
Defined.

(** ** Projected gradient: the total perturbation *)

Lemma vnorm_triangle (a b : vec3) : vnorm (vadd a b) <= vnorm a + vnorm b.
Proof.
  pose proof (vnorm_nonneg a) as Ha. pose proof (vnorm_nonneg b) as Hb.
  pose proof (vdot_le_norms a b) as Hcs.
  assert (Hab : vdot a b <= vnorm a * vnorm b).
  { pose proof (Rle_abs (vdot a b)). lra. }
  rewrite <- (sqrt_square (vnorm a + vnorm b)) by lra.
  unfold vnorm at 1. apply sqrt_le_1.
  - apply vdot_self_nonneg.
  - apply Rle_0_sqr.
  - assert (Hexp : vdot (vadd a b) (vadd a b) = vdot a a + 2 * vdot a b + vdot b b).
    { unfold vdot, vadd. cbn. ring. }
    rewrite Hexp, <- (vnorm_sqr a), <- (vnorm_sqr b). nra.
Qed.

Lemma pgd_row_step_bounded (self : AdvAttrs) (delta grad : list vec3) (b : Batch)
    (a : nat) (d' : vec3) :
  mode_is (adversarial_pgd_mode self) "force_proj" = false ->
  0 <= adversarial_alpha self ->
  nth_error (pgd_update self delta grad b) a = Some d' ->
  exists d u,
    nth_error delta a = Some d /\ d' = vadd d u /\ vnorm u <= adversarial_alpha self.
Proof.
  intros Hfp Halpha Hd'.
  destruct (mode_is (adversarial_pgd_mode self) "ball") eqn:Hball.
  - destruct (nth_error delta a) as [d |] eqn:Hd.
    + destruct (pgd_ball_row_step self delta grad b a d d' Hball Halpha Hd Hd')
        as [u [Hu Hn]].
      now exists d, u.
    + unfold pgd_update in Hd'. rewrite Hball in Hd'.
      rewrite nth_error_inplace2, Hd in Hd'. discriminate.
  - unfold pgd_update in Hd'. rewrite Hball, Hfp in Hd'.
    rewrite nth_error_inplace2 in Hd'.
    destruct (nth_error delta a) as [d |]; [| discriminate].
    rewrite nth_error_map in Hd'.
    destruct (nth_error grad a) as [g |]; cbn [option_map] in Hd'; injection Hd' as <-.
    + exists d, (vscale (adversarial_alpha self) (F_normalize g)).
      split; [reflexivity |]. split; [reflexivity |].
      destruct (vnorm_scaled_normalize (adversarial_alpha self) g) as [H _].
      now rewrite Rabs_pos_eq in H.
    + exists d, vzero. split; [reflexivity |]. split; [now rewrite vadd_vzero_r |].
      now rewrite vnorm_vzero.
Qed.

Lemma pgd_update_length (self : AdvAttrs) (delta grad : list vec3) (b : Batch) :
  mode_is (adversarial_pgd_mode self) "force_proj" = false ->
  length (pgd_update self delta grad b) = length delta.
Proof.
  intros Hfp. unfold pgd_update. rewrite Hfp.
  destruct (mode_is (adversarial_pgd_mode self) "ball"); apply length_inplace2.
Qed.

Lemma pgd_updates_within (self : AdvAttrs) (r : R) (batch_list : list Batch)
    (deltas : list (list vec3)) :
  mode_is (adversarial_pgd_mode self) "force_proj" = false ->
  0 <= adversarial_alpha self ->
  Forall2 (within_radius r) batch_list deltas ->
  forall grads noisy,
    Forall2 (within_radius (r + adversarial_alpha self)) batch_list
            (pgd_updates self deltas grads noisy).
Proof.
  intros Hfp Halpha. induction 1 as [| b d bl ds [Hlen Hrows] _ IH]; intros grads noisy.
  - destruct grads, noisy; constructor.
  - assert (Hkeep : Forall2 (within_radius (r + adversarial_alpha self)) (b :: bl) (d :: ds)).
    { constructor.
      - split; [exact Hlen |]. eapply Forall_impl; [| exact Hrows].
        cbn beta. intros row Hrow. lra.
      - clear - IH. specialize (IH [] []).
        destruct ds; exact IH. }
    destruct grads as [| g grads]; [exact Hkeep |].
    destruct noisy as [| nb noisy]; [exact Hkeep |].
    cbn [pgd_updates]. constructor; [| apply IH].
    split.
    + now rewrite pgd_update_length.
    + apply Forall_forall. intros d' Hin.
      apply In_nth_error in Hin. destruct Hin as [a Ha].
      destruct (pgd_row_step_bounded self d g nb a d' Hfp Halpha Ha)
        as [d0 [u [Hd0 [-> Hu]]]].
      rewrite Forall_forall in Hrows.
      pose proof (Hrows d0 (nth_error_In _ _ Hd0)) as Hd0r.
      pose proof (vnorm_triangle d0 u). lra.
Qed.

Lemma pgd_iterates_within (self : AdvAttrs) (noise : nat -> nat -> vec3)
    (backward : list Batch -> list (list vec3)) (batch_list : list Batch) (k : nat) :
  mode_is (adversarial_pgd_mode self) "force_proj" = false ->
  0 <= adversarial_alpha self ->
  adversarial_init_sd self <= 0 ->
  Forall2 (within_radius (INR k * adversarial_alpha self)) batch_list
          (pgd_delta_list (Nat.iter k (pgd_iter self backward batch_list)
                                    (pgd_init self noise batch_list))).
Proof.
  intros Hfp Halpha Hsd. induction k as [| k IH].
  - cbn [Nat.iter INR]. unfold pgd_init, init_delta_list. cbn [pgd_delta_list].
    destruct (Rlt_dec 0 (adversarial_init_sd self)) as [H | _]; [lra |].
    induction batch_list as [| b bl IHb]; cbn [map]; constructor; [| exact IHb].
    split.
    + unfold zeros_like. now rewrite length_map.
    + unfold zeros_like. apply Forall_forall. intros row Hrow.
      apply in_map_iff in Hrow. destruct Hrow as [_ [<- _]].
      rewrite vnorm_vzero. lra.
  - rewrite Nat.iter_succ. unfold pgd_iter at 1. cbn [pgd_delta_list].
    rewrite S_INR.
    replace ((INR k + 1) * adversarial_alpha self)
      with (INR k * adversarial_alpha self + adversarial_alpha self) by ring.
    now apply pgd_updates_within.
Qed.

(** X29. The projected-gradient generator in "ball" or sphere mode, started
    from a zero displacement ([adversarial_init_sd] not positive) with a
    non-negative [adversarial_alpha], moves no atom further than the number
    of inner iterations times [adversarial_alpha] from its input position. *)
Theorem pgd_perturbation_budget (self : AdvAttrs) (noise : nat -> nat -> vec3)
    (backward : list Batch -> list (list vec3)) (batch_list : list Batch)
    (j a : nat) (b : Batch) (p : vec3) :
  mode_is (adversarial_pgd_mode self) "force_proj" = false ->
  0 <= adversarial_alpha self ->
  adversarial_init_sd self <= 0 ->
  nth_error batch_list j = Some b ->
  nth_error (pos b) a = Some p ->
  exists b' p',
    nth_error (_adversarial_pgd_batch self noise backward batch_list) j = Some b' /\
    nth_error (pos b') a = Some p' /\
    vnorm (vsub p' p) <=
      INR (Z.to_nat (n_adversarial_steps self)) * adversarial_alpha self.
Proof.
  intros Hfp Halpha Hsd Hb Hp.
  pose proof (pgd_iterates_within self noise backward batch_list
                (Z.to_nat (n_adversarial_steps self)) Hfp Halpha Hsd) as Hinv.
  unfold _adversarial_pgd_batch.
  set (deltas := pgd_delta_list _) in *.
  assert (Hd : exists d, nth_error deltas j = Some d /\
                         within_radius (INR (Z.to_nat (n_adversarial_steps self))
                                        * adversarial_alpha self) b d).
  { clear - Hinv Hb. revert j Hb.
    induction Hinv as [| b0 d0 bl ds H0 _ IH]; intros [| j] Hb; try discriminate.
    - injection Hb as <-. now exists d0.
    - now apply IH. }
  destruct Hd as [d [Hd [Hlen Hrows]]].
  destruct (nth_error d a) as [row |] eqn:Hrow.
  2:{ apply nth_error_None in Hrow.
      assert (a < length (pos b))%nat by (apply nth_error_Some; now rewrite Hp). lia. }
  exists (AddNoise b d), (vadd p row).
  split; [now rewrite nth_error_map2, Hb, Hd |].
  split.
  - unfold AddNoise, set_pos. cbn [pos]. now rewrite nth_error_map2, Hp, Hrow.
  - rewrite vsub_vadd_cancel. rewrite Forall_forall in Hrows.
    apply Hrows. now apply nth_error_In with a.
Qed.

Lemma pgd_perturbation_budget_witness :
  let self := adv_ball 1 (1 / 10) in
  let b := one_atom (mk3 1 2 3) vzero in
  mode_is (adversarial_pgd_mode self) "force_proj" = false /\
  0 <= adversarial_alpha self /\
  adversarial_init_sd self <= 0 /\
  exists b' p',
    nth_error (_adversarial_pgd_batch self (fun _ _ => vzero) (fun _ => [[mk3 5 0 0]]) [b]) 0
      = Some b' /\
    nth_error (pos b') 0 = Some p' /\
    vnorm (vsub p' (mk3 1 2 3)) <= INR 3 * (1 / 10).
Proof.
  cbv zeta.
  assert (Halpha : 0 <= adversarial_alpha (adv_ball 1 (1 / 10))) by (cbn; lra).
  assert (Hsd : adversarial_init_sd (adv_ball 1 (1 / 10)) <= 0) by (cbn; lra).
  split; [reflexivity |]. split; [exact Halpha |]. split; [exact Hsd |].
  exact (pgd_perturbation_budget (adv_ball 1 (1 / 10)) (fun _ _ => vzero)
           (fun _ => [[mk3 5 0 0]]) [one_atom (mk3 1 2 3) vzero] 0 0
           (one_atom (mk3 1 2 3) vzero) (mk3 1 2 3)
           eq_refl Halpha Hsd eq_refl eq_refl).
Defined.

(** ** Relaxations: which batches are relaxed, and the bookkeeping *)

Lemma relax_loop_from (task : RelaxTask) (relax_loader : list (list Batch)) :
  forall i st st',
    relax_loop task i relax_loader st = Ok st' ->
    let limit := get (num_relaxation_batches task) (10 ^ 9)%Z in
    let relaxed :=
      map (ml_relax task)
          (filter (fun b => negb (check_traj_files task b))
                  (firstn (Z.to_nat (limit - i)) relax_loader)) in
    (write_pos task = false -> st' = st) /\
    (write_pos task = true ->
     r_ids st' = r_ids st ++ concat (map (fun b => map str (sid b)) relaxed) /\
     r_chunk_idx st' = r_chunk_idx st ++ concat (map natoms relaxed) /\
     r_relaxed_positions st' = 
       r_relaxed_positions st ++ skipn (length (r_relaxed_positions st))
                                       (r_relaxed_positions st') /\
     map (@length vec3) (skipn (length (r_relaxed_positions st)) (r_relaxed_positions st'))
       = concat (map natoms relaxed) /\
     concat (skipn (length (r_relaxed_positions st)) (r_relaxed_positions st'))
       = concat (map pos relaxed)).
Proof.
  induction relax_loader as [| b loader IH]; intros i st st' H; cbn [relax_loop] in H.
  - injection H as <-. cbv zeta. rewrite firstn_nil. cbn [filter map concat].
    rewrite skipn_all, !app_nil_r. repeat split; reflexivity.
  - cbv zeta.
    destruct (Z.leb_spec (get (num_relaxation_batches task) (10 ^ 9)%Z) i) as [Hle | Hgt].
    + injection H as <-.
      replace (Z.to_nat (get (num_relaxation_batches task) (10 ^ 9)%Z - i)) with 0%nat by lia.
      cbn [firstn filter map concat].
      rewrite skipn_all, !app_nil_r. repeat split; reflexivity.
    + replace (Z.to_nat (get (num_relaxation_batches task) (10 ^ 9)%Z - i))
        with (S (Z.to_nat (get (num_relaxation_batches task) (10 ^ 9)%Z - (i + 1))))
        by lia.
      cbn [firstn filter].
      destruct (check_traj_files task b); cbn [negb].
      * exact (IH _ _ _ H).
      * cbn [map concat].
        destruct (write_pos task) eqn:Hw.
        -- bind_inv H as st1 H1.
           destruct (torch_split (pos (ml_relax task b)) (natoms (ml_relax task b)))
             as [positions |] eqn:Hs; cbn [bind] in H1; [| discriminate].
           injection H1 as <-.
           destruct (torch_split_spec _ _ _ Hs) as [Hc Hl].
           destruct (IH _ _ _ H) as [_ IH2]. cbv zeta in IH2.
           destruct (IH2 eq_refl) as [Hid [Hch [Hpos [Hlen Hcat]]]].
           cbn [r_ids r_chunk_idx r_relaxed_positions] in Hid, Hch, Hpos, Hlen, Hcat.
           split; [discriminate |]. intros _.
           rewrite length_app in Hpos, Hlen, Hcat.
           set (tail := skipn (length (r_relaxed_positions st) + length positions)
                              (r_relaxed_positions st')) in *.
           assert (Hall : r_relaxed_positions st' =
                          r_relaxed_positions st ++ positions ++ tail).
           { rewrite Hpos at 1. now rewrite <- app_assoc. }
           assert (Hskip : skipn (length (r_relaxed_positions st)) (r_relaxed_positions st')
                           = positions ++ tail).
           { rewrite Hall at 1. rewrite skipn_app, skipn_all, Nat.sub_diag. reflexivity. }
           rewrite Hskip.
           split; [now rewrite Hid, <- app_assoc |].
           split; [now rewrite Hch, <- app_assoc |].
           split; [exact Hall |].
           split.
           ++ now rewrite map_app, Hl, Hlen.
           ++ now rewrite concat_app, Hc, Hcat.
        -- cbn [bind] in H. destruct (IH _ _ _ H) as [IH1 _].
           split; [exact IH1 | discriminate].
Qed.

(** X30. The batch loop of [run_relaxations] relaxes, in order, the batches
    among the first [num_relaxation_batches] of the loader whose trajectory
    files do not exist yet: the limit counts the batches already done as
    well.  When positions are written, the ids and [chunk_idx] collected are
    the system ids and atom counts of the relaxed batches, and [chunk_idx]
    lists the sizes of the position arrays collected, which concatenate to
    the positions of the relaxed batches; otherwise nothing is collected. *)
Theorem relaxations_bookkeeping (task : RelaxTask) (relax_loader : list (list Batch))
    (st : RelaxState) :
  relax_loop task 0 relax_loader (mk_relax_state [] [] []) = Ok st ->
  let limit := get (num_relaxation_batches task) (10 ^ 9)%Z in
  let relaxed :=
    map (ml_relax task)
        (filter (fun b => negb (check_traj_files task b))
                (firstn (Z.to_nat limit) relax_loader)) in
  (write_pos task = false -> st = mk_relax_state [] [] []) /\
  (write_pos task = true ->
   r_ids st = concat (map (fun b => map str (sid b)) relaxed) /\
   r_chunk_idx st = concat (map natoms relaxed) /\
   map (@length vec3) (r_relaxed_positions st) = r_chunk_idx st /\
   concat (r_relaxed_positions st) = concat (map pos relaxed)).
Proof.
  intros H limit relaxed.
  destruct (relax_loop_from task relax_loader 0 _ _ H) as [Hoff Hon].
  cbv zeta in Hon. rewrite Z.sub_0_r in Hon. fold limit in Hon. fold relaxed in Hon.
  split; [exact Hoff |]. intros Hw.
  destruct (Hon Hw) as [Hid [Hch [_ [Hlen Hcat]]]].
  cbn [r_ids r_chunk_idx r_relaxed_positions length skipn app] in Hid, Hch, Hlen, Hcat.
  split; [exact Hid |]. split; [exact Hch |]. split; [now rewrite Hlen, Hch | exact Hcat].
Qed.

Lemma relaxations_bookkeeping_witness :
  let system := fun (k : Z) (x : R) =>
    mk_batch [mk3 x 0 0] [vzero] [0%Z] [0%Z] [1%nat] [0] [k] [0%Z] [0%nat] in
  let task := mk_relax_task (Some 2%Z) true
                (fun bl => existsb (fun b => existsb (Z.eqb 1) (sid b)) bl)
                (fun bl => hd (system 0%Z 0) bl) in
  exists st,
    relax_loop task 0 [[system 1%Z 1]; [system 2%Z 2]; [system 3%Z 3]]
               (mk_relax_state [] [] []) = Ok st /\
    r_ids st = ["2"%string] /\
    r_chunk_idx st = [1%nat] /\
    concat (r_relaxed_positions st) = [mk3 2 0 0].
Proof.
  cbv zeta.
  set (system := fun (k : Z) (x : R) =>
    mk_batch [mk3 x 0 0] [vzero] [0%Z] [0%Z] [1%nat] [0] [k] [0%Z] [0%nat]).
  set (task := mk_relax_task (Some 2%Z) true
                (fun bl => existsb (fun b => existsb (Z.eqb 1) (sid b)) bl)
                (fun bl => hd (system 0%Z 0) bl)).
  assert (H : exists st,
             relax_loop task 0 [[system 1%Z 1]; [system 2%Z 2]; [system 3%Z 3]]
                        (mk_relax_state [] [] []) = Ok st).
  { eexists. reflexivity. }
  destruct H as [st H]. exists st. split; [exact H |].
  destruct (relaxations_bookkeeping task _ st H) as [_ Hon].
  destruct (Hon eq_refl) as [Hid [Hch [_ Hcat]]].
  rewrite Hid, Hch, Hcat. repeat split.
Defined.
